(* ===== verification/_CoqProject ===== *)
-Q . S2P
Prelude.v
Buf.v
VarInt.v
Frame.v
Proto.v
Limits.v
SendFlow.v
Channel.v
Async.v
Credit.v
Keep.v
Rely.v
NativeState.v
NativeOps.v
NativeStream.v
NativeRecv.v
NativeSession.v
NativeTasks.v
NativeInv.v
NativeSteps.v
NativeSafe.v
NativeSpecs.v
NativeStreamSpecs.v
NativeSendSpecs.v
NativeSessionSpecs.v
NativePool.v
NativeProps.v
NativeRaces.v
FuturesChannel.v
WasmState.v
WasmOps.v
WasmStreams.v
WasmSession.v
WasmInv.v
WasmSteps.v
WasmSpecs.v
WasmSendSpecs.v
WasmSessionSpecs.v
WasmPool.v
WasmProps.v
Protocol.v
ByteStream.v
NativeReads.v
WasmReads.v
WasmRefine.v
NativeRefine.v
PeerRun.v
NativeOwn.v
NativeConc.v
NativeOthers.v
NativeServe.v
Http.v
Handshake.v
Builders.v
WsConn.v
WsConnProps.v
BrowserConn.v
BrowserProps.v
Batching.v
WasmFaults.v
MuxApi.v
Tls.v
TwoParty.v
Clients.v
ConnApi.v
MuxEcho.v
