(* ===== verification/Prelude.v ===== *)
(** * Verification of the [websock] workspace

    [websock] is a WebSocket library with a stream multiplexer, in two
    implementations of the same interface: one for native programs (Tokio and
    Tungstenite) and one for browsers (WebAssembly).  This development models both in
    Rocq and proves what makes them correct.

    ** The program

    - [websock-mux-proto] defines the wire format: QUIC variable-length integers
      ([varint.rs]), stream identifiers and frames ([stream.rs]).
    - [websock-proto] holds the shared errors, messages and options.
    - [websock-tungstenite] and [websock-wasm] are plain message connections: connect,
      accept, send, receive, close, and the split into a sink and a stream half.
    - [websock-tungstenite-mux] and [websock-wasm-mux] run many byte streams over one
      connection.  A session ([SessionInner]) keeps tables of receive streams and of
      send flows (credit), queues of outbound frames and of accepted streams, and a
      map of pending credit updates.  Clients act on it through [Session],
      [SendStream] and [RecvStream]; the native session has a reader task that
      decodes messages and calls [handle_frame] and a writer task that packs frames
      into messages; the browser session has one task for both.

    ** The files

    Shared: [Prelude] (outcomes with panics, machine-width arithmetic, list lemmas),
    [Buf] (byte buffers as a class), [Channel] and [FuturesChannel] (the mpsc channels
    of tokio and of futures, as classes with laws on an observable queue and a
    reference instance), [Async] (resumable programs: [Ret], an atomic [Act], an
    [Await] that can be cancelled; [run], pools of programs and their interleavings),
    [Credit], [Keep], [Rely] (executions of a program while other tasks interfere, and
    their program logic).

    Wire format: [VarInt] ([varint.rs]), [Frame] ([stream.rs]), [Proto] ([error.rs],
    [message.rs], [options.rs]).

    Native session ([websock-tungstenite-mux/src/session.rs]): [Limits], [SendFlow]
    (one step per atomic access), [NativeState] (the record [SessionInner] and the
    handles), [NativeOps] (table and queue operations), [NativeStream] ([SendStream]),
    [NativeRecv] ([RecvStream]), [NativeSession] ([Session], [handle_frame],
    [shutdown]), [NativeTasks] (reader and writer).  [NativeInv], [NativeSteps],
    [NativeSafe] and the [Native...Specs] files hold the invariant and the proof that
    every operation keeps it; [NativePool] is the closed system: any clients that use
    only handles they were given, the two tasks, any peer and any scheduler.
    [NativeProps], [NativeReads], [NativeRefine] state the properties.  [NativeOwn],
    [NativeConc], [NativeOthers] and [NativeServe] run the handler of a frame among the
    other tasks: what they may do to the state meanwhile, what the handler makes of a
    frame then, that clients and the writer task do no more until the end of that task
    closes the session, and the system of all of them.  [NativeRaces] evaluates three executions in which threads
    interleave badly.

    Browser session ([websock-wasm-mux/src/session.rs]): [WasmState], [WasmOps],
    [WasmStreams], [WasmSession], then [WasmInv], [WasmSteps], [Wasm...Specs],
    [WasmPool], [WasmProps], [WasmReads], [WasmRefine] in the same roles, and
    [WasmFaults], executions in which a call loses its work.  A browser runs one
    thread, so that code between two [await]s is a single step.

    Abstract specifications: [Protocol] (the endpoint of [docs/mux-protocol.md]: which
    frames are violations, with which code and reason, what every other frame changes,
    and which frames answer it; where both sessions depart from the document it follows
    them, and [ep_check_doc] says where) and [ByteStream] (a receive stream is a byte
    queue).  Both sessions are proved against both.  [PeerRun] lets the endpoint take
    frames among steps of its own.  [Batching] composes the writer of one implementation
    with the reader of the other, and [TwoParty] a browser client with a server: what the endpoint, and a
    native session among its clients, make of the frames the browser queues.

    Interface: [MuxApi] states the contract of the traits of
    [websock-mux-proto/src/transport.rs] as a class with laws; both sessions are
    instances, and client code is verified against the class.  [ConnApi] does the same
    for the trait of [websock-proto/src/transport.rs].

    Connections: [Http] (header maps, as a class with laws), [Handshake] (binding,
    accepting, connecting and subprotocol negotiation, plain and mux), [Builders],
    [Tls] ([tls/] and [crypto.rs]), [WsConn] and [WsConnProps]
    ([websock-tungstenite/src/connection.rs] and [stream.rs]), [BrowserConn] and
    [BrowserProps] ([websock-wasm/src/connection.rs] and [stream.rs]), [Clients]
    ([connect] of the client types).

    Programs: [Clients] (how the examples configure clients and servers), [ConnApi]
    (the echo server and client, the endpoints of [websock-browser-test-server]) and
    [MuxEcho] (the echo programs on mux streams).

    ** The theorems

    - Codec: encoding and decoding of integers and frames are inverse, the encoding is
      the shortest, decoders accept exactly the grammar and never panic, the
      asynchronous reader agrees with the buffer decoder.  On 32-bit targets the
      frame decoder truncates lengths, which a theorem exhibits.
    - Sessions, for every execution of clients, tasks, peer and scheduler: the payload
      sent on a stream stays within the peer's limit; no data follows a reset, and data
      follows its OPEN; on a browser session no data or FIN follows a FIN either, and
      streams are opened in the order of their identifiers; received bytes stay within the advertised window;
      tables stay within the limits; every queued frame can be encoded.
    - Refinement: in every reachable state the frame handlers, run on their own,
      implement the abstract endpoint in their results, the new state and the frames they
      queue: the answers, and the [ConnectionClose] with the code and the reason of a
      violation, as far as the queue has room.  The native session does so also when
      clients and the writer task interleave with the handler at every access, until the
      end of the writer task closes it: the state is one of an endpoint that took the
      frames among its own steps, and the peer is told no error but the endpoint's.
      Composed with the
      properties of the frames a browser session queues: a server that takes them in
      order rejects none on a stream the browser opened but for a lack of its own
      resources.
    - Delivery: what the reads of a stream return is a prefix of what was accepted,
      reads do not wait while bytes are left, and a stream that ended is drained by
      finitely many reads.  Batches arrive as the frames they are made of.
    - Connections: the split halves deliver and write each item once and in order,
      within their queues; a browser socket is never left open without an owner; bound
      servers do not panic; the outcome of the subprotocol negotiation; what builders
      make fits together; which certificate verifier every TLS constructor gives, and
      when one panics.
    - Programs: the echo server answers every message, ping and close frame and ends
      with its connection; the peer of a mux echo stream reads back what it sent.
    - Defects: races, lost frames and mismatches found on the way are theorems about
      concrete executions.

    ** Modelling choices

    Machine integers are [Z] with their width written out; [usize] has the width of
    the class [UsizeWidth] (32 or 64).  Panics are a third outcome beside [Ok] and
    [Err].  Shared objects (send flows, receive cells, locals of handles) live in
    stores indexed by locations, so that clones share them.  Histories ([wire],
    [out_log], [flow_of] and the [h_...] fields) are observations and never read by
    the code.  An asynchronous function is a program whose steps are its critical
    sections and suspension points; cancelling it runs the destructors of what it
    holds.

    Fuel: [inbound_frames] gets the length of the message, and every frame takes a
    byte; [poll_read] gets one round more than there are queued events; the batch loop
    gets [max_batch_frames] rounds, and every round adds a frame.  The task loops take
    a number of rounds, and statements about them hold for every number that is large
    enough or for every number.  Nothing else needs fuel.

    Code outside the repository is a parameter: channels, the WebSocket
    implementation of Tungstenite and of the browser, header maps, sockets and rustls.
    Their documented behaviour is stated as laws of classes, each with an instance.

    ** Not modelled

    The internals of those libraries; of the examples, the demo and the test server
    the parsing of arguments, logging, accept loops and page; tests, benchmarks and
    fuzz targets; [Debug] and [Display] of identifiers; poisoning of locks (the code
    recovers the guard); the memory orderings weaker than sequential consistency.
    The stream-identifier counters are assumed not to wrap around in an execution
    ([no_wrap]): that takes 2^64 calls. *)

From Stdlib Require Export ZArith Lia ZifyBool ZifyNat.
From Stdlib Require Export Strings.Byte.
From stdpp Require Export base gmap list strings.

Declare Scope mux_scope.
Delimit Scope mux_scope with mux.
Global Open Scope Z_scope.

(** Facts that close the routine side conditions of the codec and session proofs. *)
Create HintDb mux.

(** ** Fallible Rust code

    A synchronous Rust function returns a value, returns [Err], or panics
    ([unreachable!], [expect], an out-of-range slice).  The three cases are
    kept apart so that "never panics" is a statement of its own. *)
Inductive outcome (E A : Type) : Type :=
| Ok (a : A)
| Err (e : E)
| Panic.
Arguments Ok {E A} a.
Arguments Err {E A} e.
Arguments Panic {E A}.

#[global] Instance outcome_ret {E} : MRet (outcome E) := fun A a => Ok a.
#[global] Instance outcome_bind {E} : MBind (outcome E) := fun A B k m =>
  match m with Ok a => k a | Err e => Err e | Panic => Panic end.
#[global] Instance outcome_fmap {E} : FMap (outcome E) := fun A B f m =>
  match m with Ok a => Ok (f a) | Err e => Err e | Panic => Panic end.

(** [Result::map_err]. *)
Definition map_err {E F A} (f : E -> F) (m : outcome E A) : outcome F A :=
  match m with Ok a => Ok a | Err e => Err (f e) | Panic => Panic end.

Definition is_ok {E A} (m : outcome E A) : bool :=
  match m with Ok _ => true | _ => false end.

(** ** Machine integers: values of type [Z], every wrap-around written out *)
Definition u8_mod : Z := 2 ^ 8.
Definition u16_mod : Z := 2 ^ 16.
Definition u32_mod : Z := 2 ^ 32.
Definition u64_mod : Z := 2 ^ 64.
Definition u64_max : Z := 2 ^ 64 - 1.

Definition is_u64 (x : Z) : Prop := 0 <= x < u64_mod.

Definition wrap64 (x : Z) : Z := x mod u64_mod.
Definition shl64 (x k : Z) : Z := Z.shiftl x k mod u64_mod.
Definition checked_add64 (x y : Z) : option Z :=
  if x + y <=? u64_max then Some (x + y) else None.
Definition checked_mul64 (x y : Z) : option Z :=
  if x * y <=? u64_max then Some (x * y) else None.
Definition saturating_add64 (x y : Z) : Z := Z.min (x + y) u64_max.
Definition saturating_sub (x y : Z) : Z := Z.max (x - y) 0.

(** The width of [usize]: 64 on the native targets, 32 on [wasm32]. *)
Class UsizeWidth : Type := usize_bits : Z.
Definition usize64 : UsizeWidth := 64.
Definition usize32 : UsizeWidth := 32.
Definition usize_max `{UsizeWidth} : Z := 2 ^ usize_bits - 1.
(** [x as usize] of a [u64]. *)
Definition as_usize `{UsizeWidth} (x : Z) : Z := x mod 2 ^ usize_bits.
Definition saturating_add_usize `{UsizeWidth} (x y : Z) : Z := Z.min (x + y) usize_max.

(** ** Bytes *)
Definition u8_of (b : byte) : Z := Z.of_N (Byte.to_N b).
(** [x as u8]: the low eight bits. *)
Definition byte_of (x : Z) : byte :=
  match Byte.of_N (Z.to_N (x mod 256)) with Some b => b | None => x00 end.

Lemma u8_of_range b : 0 <= u8_of b < 256.
Proof. unfold u8_of. pose proof (Byte.to_N_bounded b). lia. Qed.

Lemma byte_of_u8 b : byte_of (u8_of b) = b.
Proof.
  unfold byte_of, u8_of. pose proof (Byte.to_N_bounded b).
  rewrite Z.mod_small by lia. by rewrite N2Z.id, Byte.of_to_N.
Qed.

Lemma u8_of_byte x : u8_of (byte_of x) = x mod 256.
Proof.
  unfold byte_of, u8_of. pose proof (Z.mod_pos_bound x 256 ltac:(lia)).
  destruct (Byte.of_N _) as [b|] eqn:E.
  - apply Byte.to_of_N in E. rewrite E. lia.
  - apply Byte.of_N_None_iff in E. lia.
Qed.

(** The big-endian representation on [n] bytes, and its inverse. *)
Fixpoint be_bytes (n : nat) (x : Z) : list byte :=
  match n with
  | O => []
  | S n => byte_of (Z.shiftr x (8 * Z.of_nat n)) :: be_bytes n x
  end.

Fixpoint be_combine (l : list byte) : Z :=
  match l with
  | [] => 0
  | b :: l => u8_of b * 256 ^ Z.of_nat (length l) + be_combine l
  end.

Lemma be_bytes_length n x : length (be_bytes n x) = n.
Proof. induction n; simpl; congruence. Qed.

Lemma be_combine_range l : 0 <= be_combine l < 256 ^ Z.of_nat (length l).
Proof.
  induction l as [|b l IH]; cbn [be_combine length]; [lia|].
  rewrite Nat2Z.inj_succ, Z.pow_succ_r by lia.
  pose proof (u8_of_range b). nia.
Qed.

Lemma be_combine_bytes n x : be_combine (be_bytes n x) = x mod 256 ^ Z.of_nat n.
Proof.
  induction n as [|n IH]; [by rewrite Z.mod_1_r|].
  cbn [be_bytes be_combine]. rewrite be_bytes_length, IH, u8_of_byte.
  rewrite Z.shiftr_div_pow2 by lia.
  replace (2 ^ (8 * Z.of_nat n)) with (256 ^ Z.of_nat n)
    by (rewrite Z.pow_mul_r by lia; reflexivity).
  rewrite Nat2Z.inj_succ, Z.pow_succ_r by lia.
  rewrite (Z.mul_comm 256), Z.rem_mul_r by lia. lia.
Qed.

(** Or-ing bits below a shifted value is addition. *)
Lemma lor_shiftl_add a b k :
  0 <= k -> 0 <= a -> 0 <= b < 2 ^ k -> Z.lor (Z.shiftl a k) b = a * 2 ^ k + b.
Proof.
  intros Hk Ha Hb. rewrite <- Z.shiftl_mul_pow2 by lia.
  symmetry. apply Z.add_nocarry_lor.
  apply Z.bits_inj'. intros n Hn. rewrite Z.land_spec, Z.bits_0.
  destruct (Z.ltb_spec n k).
  - rewrite Z.shiftl_spec_low by lia. done.
  - rewrite <- (Z.mod_small b (2 ^ k)) by lia.
    rewrite Z.mod_pow2_bits_high by lia. by rewrite andb_false_r.
Qed.

Lemma shl64_small x k : 0 <= k -> 0 <= x -> x * 2 ^ k < u64_mod -> shl64 x k = x * 2 ^ k.
Proof.
  intros. unfold shl64. rewrite Z.shiftl_mul_pow2 by lia. apply Z.mod_small. nia.
Qed.

(** [lia] on goals with division and modulo by constants. *)
Ltac dlia := Z.to_euclidean_division_equations; lia.

(** Evaluate [Z.of_nat] of numerals. *)
Ltac zlits :=
  repeat match goal with
  | |- context [Z.of_nat ?n] =>
      let v := eval vm_compute in (Z.of_nat n) in
      lazymatch v with Z0 => idtac | Zpos _ => idtac end;
      change (Z.of_nat n) with v
  end.

(** ** Lists *)
Lemma lookup_snoc_inv {A} (l : list A) x i y :
  (l ++ [x]) !! i = Some y -> (l !! i = Some y) \/ (i = length l /\ y = x).
Proof.
  intros Hl. apply lookup_app_Some in Hl as [|[Hge Hl]]; [by left|right].
  apply list_lookup_singleton_Some in Hl as [? ->]. split; [lia|done].
Qed.
Lemma not_in_snoc {A} (x a : A) l : x ∉ l -> x <> a -> x ∉ l ++ [a].
Proof. intros Hl Ha [?|Hx%list_elem_of_singleton]%elem_of_app; [done|by subst]. Qed.
Lemma filter_none {A} (P : A -> Prop) `{!forall x, Decision (P x)} (l : list A) :
  Forall (fun x => ~ P x) l -> filter P l = [].
Proof. induction 1 as [|x l Hx _ IH]; [done|]. by rewrite filter_cons_False. Qed.
