(* ===== verification/Buf.v ===== *)
(** * The byte-buffer interfaces of the [bytes] and [tokio] crates

    [VarInt] and [Frame] are written against the traits [bytes::Buf],
    [bytes::BufMut], [tokio::io::AsyncRead] and [tokio::io::AsyncWrite].  Those
    crates are not part of the repository: each trait is a class of operations
    here, and its documented behaviour is a separate class of laws, stated on
    the bytes a buffer still holds.  The instances at the end interpret
    buffers as byte lists ([&\[u8\]], [BytesMut]). *)

From S2P Require Import Prelude.

(** [bytes::Buf]: the operations the sources call. *)
Class Buf (B : Type) : Type := {
  remaining : B -> Z;
  get_u8 : B -> outcome Empty_set (byte * B);
  copy_to_bytes : Z -> B -> outcome Empty_set (list byte * B)
}.

(** [Buf::has_remaining] is [remaining() > 0]. *)
Definition has_remaining {B} `{Buf B} (r : B) : bool := 0 <? remaining r.

Class BufLaws (B : Type) `{Buf B} : Type := {
  contents : B -> list byte;
  remaining_contents r : remaining r = Z.of_nat (length (contents r));
  get_u8_cons r b l :
    contents r = b :: l -> exists r', get_u8 r = Ok (b, r') /\ contents r' = l;
  copy_to_bytes_take r n :
    (n <= length (contents r))%nat ->
    exists r', copy_to_bytes (Z.of_nat n) r = Ok (take n (contents r), r')
               /\ contents r' = drop n (contents r)
}.

(** [bytes::BufMut], and the constructor of [BytesMut]. *)
Class BufMut (M : Type) : Type := {
  with_capacity : Z -> M;
  put_u8 : Z -> M -> M;
  put_u16 : Z -> M -> M;
  put_u32 : Z -> M -> M;
  put_u64 : Z -> M -> M;
  put_slice : list byte -> M -> M
}.

Class BufMutLaws (M : Type) `{BufMut M} : Type := {
  written : M -> list byte;
  written_with_capacity n : written (with_capacity n) = [];
  written_put_u8 x m : written (put_u8 x m) = written m ++ be_bytes 1 x;
  written_put_u16 x m : written (put_u16 x m) = written m ++ be_bytes 2 x;
  written_put_u32 x m : written (put_u32 x m) = written m ++ be_bytes 4 x;
  written_put_u64 x m : written (put_u64 x m) = written m ++ be_bytes 8 x;
  written_put_slice l m : written (put_slice l m) = written m ++ l
}.

(** [AsyncReadExt::read_exact] fills a buffer of the given length or fails. *)
Class AsyncRead (S : Type) : Type := {
  read_exact : nat -> S -> option (list byte) * S
}.

Class AsyncReadLaws (S : Type) `{AsyncRead S} : Type := {
  incoming : S -> list byte;
  read_exact_enough n s :
    (n <= length (incoming s))%nat ->
    exists s', read_exact n s = (Some (take n (incoming s)), s')
               /\ incoming s' = drop n (incoming s);
  read_exact_short n s :
    (length (incoming s) < n)%nat -> (read_exact n s).1 = None
}.

(** [AsyncWriteExt::write_all_buf]. *)
Class AsyncWrite (S : Type) : Type := {
  write_all_buf : list byte -> S -> bool * S
}.

(** A panic of a buffer operation is a panic of its caller. *)
Definition lift_panic {E A} (m : outcome Empty_set A) : outcome E A :=
  match m with Ok a => Ok a | Err e => match e with end | Panic => Panic end.

(** ** Byte lists: [impl Buf for &\[u8\]] and [impl BufMut for BytesMut] *)
#[global] Instance list_buf : Buf (list byte) := {
  remaining r := Z.of_nat (length r);
  get_u8 r := match r with b :: l => Ok (b, l) | [] => Panic end;
  copy_to_bytes n r :=
    if n <=? Z.of_nat (length r)
    then Ok (take (Z.to_nat n) r, drop (Z.to_nat n) r) else Panic
}.

#[global] Program Instance list_buf_laws : BufLaws (list byte) := {
  contents r := r
}.
Next Obligation. done. Qed.
Next Obligation. intros r b l ->. by exists l. Qed.
Next Obligation.
  intros r n Hn. exists (drop n r). split; [|done].
  unfold copy_to_bytes; simpl. rewrite Nat2Z.id.
  by replace (_ <=? _) with true by lia.
Qed.

#[global] Instance list_bufmut : BufMut (list byte) := {
  with_capacity _ := [];
  put_u8 x m := m ++ be_bytes 1 x;
  put_u16 x m := m ++ be_bytes 2 x;
  put_u32 x m := m ++ be_bytes 4 x;
  put_u64 x m := m ++ be_bytes 8 x;
  put_slice l m := m ++ l
}.

#[global] Program Instance list_bufmut_laws : BufMutLaws (list byte) := {
  written m := m
}.
Solve All Obligations with done.

(** An asynchronous reader over bytes that have all arrived. *)
#[global] Instance list_reader : AsyncRead (list byte) := {
  read_exact n s :=
    if Nat.leb n (length s) then (Some (take n s), drop n s) else (None, s)
}.

#[global] Program Instance list_reader_laws : AsyncReadLaws (list byte) := {
  incoming s := s
}.
Next Obligation.
  intros n s Hn. exists (drop n s). simpl. by rewrite (proj2 (Nat.leb_le _ _) Hn).
Qed.
Next Obligation.
  intros n s Hn. simpl. by rewrite (proj2 (Nat.leb_gt _ _) Hn).
Qed.
