(* ===== verification/VarInt.v ===== *)
(** * QUIC variable-length integers

    Models [websock-mux-proto/src/varint.rs].  A [VarInt] is the [u64] it wraps;
    the type invariant "less than 2^62" is the predicate [varint_ok]. *)

From S2P Require Import Prelude Buf.

Definition MAX_1BYTE : Z := Z.shiftl 1 6 - 1.
Definition MAX_2BYTE : Z := Z.shiftl 1 14 - 1.
Definition MAX_4BYTE : Z := Z.shiftl 1 30 - 1.
Definition VarInt_MAX : Z := Z.shiftl 1 62 - 1.
Definition VarInt_MAX_SIZE : Z := 8.

Inductive VarIntBoundsExceeded : Set := mkVarIntBoundsExceeded.
Inductive VarIntUnexpectedEnd : Set := mkVarIntUnexpectedEnd.

(** The wrapped value.  The field is crate-private in the source, and
    [from_u64_unchecked] is the only unchecked constructor. *)
Record VarInt : Set := mkVarInt { into_inner : Z }.

Definition varint_ok (x : Z) : Prop := 0 <= x <= VarInt_MAX.

Definition VarInt_from_u32 (x : Z) : VarInt := mkVarInt x.

Definition VarInt_from_u64 (x : Z) : outcome VarIntBoundsExceeded VarInt :=
  if x <=? VarInt_MAX then Ok (mkVarInt x) else Err mkVarIntBoundsExceeded.

(** [TryFrom<u128>]: the conversion to [u64] fails above [u64::MAX]. *)
Definition VarInt_try_from_u128 (x : Z) : outcome VarIntBoundsExceeded VarInt :=
  if x <=? u64_max then VarInt_from_u64 x else Err mkVarIntBoundsExceeded.

(** The other conversions of the type: unchecked, from and to the machine integers. *)
Definition VarInt_from_u64_unchecked (x : Z) : VarInt := mkVarInt x.
Definition u64_from_VarInt (v : VarInt) : Z := into_inner v.
Definition VarInt_from_u8 (x : Z) : VarInt := mkVarInt x.
Definition VarInt_from_u16 (x : Z) : VarInt := mkVarInt x.
Definition VarInt_From_u32 (x : Z) : VarInt := mkVarInt x.
Definition VarInt_try_from_u64 (x : Z) : outcome VarIntBoundsExceeded VarInt := VarInt_from_u64 x.
(** [x as u64] widens: [usize] has at most 64 bits. *)
Definition VarInt_try_from_usize (x : Z) : outcome VarIntBoundsExceeded VarInt := VarInt_try_from_u64 (x mod u64_mod).

Definition VarInt_size (v : VarInt) : outcome Empty_set Z :=
  let x := into_inner v in
  if x <=? MAX_1BYTE then Ok 1
  else if x <=? MAX_2BYTE then Ok 2
  else if x <=? MAX_4BYTE then Ok 4
  else if x <=? VarInt_MAX then Ok 8
  else Panic.

Section Codec.
Context {B M S : Type} `{Buf B} `{BufMut M} `{AsyncRead S} `{AsyncWrite S}.

Definition VarInt_decode (r : B) : outcome VarIntUnexpectedEnd (VarInt * B) :=
  if negb (has_remaining r) then Err mkVarIntUnexpectedEnd else
  '(first, r) ← lift_panic (get_u8 r);
  let tag := Z.shiftr (u8_of first) 6 in
  let body := Z.land (u8_of first) 63 in
  if tag =? 0 then Ok (mkVarInt body, r)
  else if tag =? 1 then
    if remaining r <? 1 then Err mkVarIntUnexpectedEnd else
    '(b0, r) ← lift_panic (get_u8 r);
    Ok (mkVarInt (Z.lor (shl64 body 8) (u8_of b0)), r)
  else if tag =? 2 then
    if remaining r <? 3 then Err mkVarIntUnexpectedEnd else
    '(b2, r) ← lift_panic (get_u8 r);
    '(b1, r) ← lift_panic (get_u8 r);
    '(b0, r) ← lift_panic (get_u8 r);
    Ok (mkVarInt (Z.lor (Z.lor (Z.lor (shl64 body 24)
                    (shl64 (u8_of b2) 16)) (shl64 (u8_of b1) 8)) (u8_of b0)), r)
  else if tag =? 3 then
    if remaining r <? 7 then Err mkVarIntUnexpectedEnd else
    '(b6, r) ← lift_panic (get_u8 r);
    '(b5, r) ← lift_panic (get_u8 r);
    '(b4, r) ← lift_panic (get_u8 r);
    '(b3, r) ← lift_panic (get_u8 r);
    '(b2, r) ← lift_panic (get_u8 r);
    '(b1, r) ← lift_panic (get_u8 r);
    '(b0, r) ← lift_panic (get_u8 r);
    Ok (mkVarInt (Z.lor (Z.lor (Z.lor (Z.lor (Z.lor (Z.lor (Z.lor (shl64 body 56)
                    (shl64 (u8_of b6) 48)) (shl64 (u8_of b5) 40))
                    (shl64 (u8_of b4) 32)) (shl64 (u8_of b3) 24))
                    (shl64 (u8_of b2) 16)) (shl64 (u8_of b1) 8)) (u8_of b0)), r)
  else Panic.

Definition VarInt_encode (v : VarInt) (w : M) : outcome Empty_set M :=
  let x := into_inner v in
  if x <=? MAX_1BYTE then Ok (put_u8 (x mod u8_mod) w)
  else if x <=? MAX_2BYTE then Ok (put_u16 (Z.lor (Z.shiftl 1 14) (x mod u16_mod)) w)
  else if x <=? MAX_4BYTE then Ok (put_u32 (Z.lor (Z.shiftl 2 30) (x mod u32_mod)) w)
  else if x <=? VarInt_MAX then Ok (put_u64 (Z.lor (Z.shiftl 3 62) x) w)
  else Panic.
End Codec.

(** [VarInt::read]: the first byte gives the length, the rest is read in one
    piece, and the stack buffer is decoded ([unwrap] panics on an error). *)
Definition VarInt_read {S} `{AsyncRead S} (stream : S) :
  outcome VarIntUnexpectedEnd (VarInt * S) :=
  match read_exact 1 stream with
  | (None, _) => Err mkVarIntUnexpectedEnd
  | (Some buf0, stream) =>
      match buf0 with
      | [] => Panic
      | first :: _ =>
          let sz := Z.shiftl 1 (Z.shiftr (u8_of first) 6) in
          match read_exact (Z.to_nat (sz - 1)) stream with
          | (None, _) => Err mkVarIntUnexpectedEnd
          | (Some rest, stream) =>
              match VarInt_decode (first :: rest) with
              | Ok (v, _) => Ok (v, stream)
              | _ => Panic
              end
          end
      end
  end.

(** [VarInt::write]: encode on the stack and write the used prefix. *)
Definition VarInt_write {S} `{AsyncWrite S} (v : VarInt) (stream : S) :
  outcome VarIntUnexpectedEnd (unit * S) :=
  match VarInt_encode v ([] : list byte) with
  | Ok buf =>
      let '(ok, stream) := write_all_buf buf stream in
      if ok then Ok (tt, stream) else Err mkVarIntUnexpectedEnd
  | _ => Panic
  end.

(** ** Reference grammar (RFC 9000, section 16)

    The two high bits of the first byte give the length 1, 2, 4 or 8; the
    remaining bits are the value, most significant first. *)
Definition varint_tail (b : byte) : nat := Nat.pow 2 (Z.to_nat (u8_of b / 64)) - 1.

Definition varint_parse (l : list byte) : option (Z * list byte) :=
  match l with
  | [] => None
  | b :: t =>
      let n := varint_tail b in
      if Nat.ltb (length t) n then None
      else Some ((u8_of b mod 64) * 256 ^ Z.of_nat n + be_combine (take n t), drop n t)
  end.

(** The bytes [encode] emits for an in-range value. *)
Definition varint_bytes (x : Z) : list byte :=
  if x <=? MAX_1BYTE then be_bytes 1 x
  else if x <=? MAX_2BYTE then be_bytes 2 (2 ^ 14 + x)
  else if x <=? MAX_4BYTE then be_bytes 4 (2 * 2 ^ 30 + x)
  else be_bytes 8 (3 * 2 ^ 62 + x).

Lemma first_byte_tag b : Z.shiftr (u8_of b) 6 = u8_of b / 64.
Proof. by rewrite Z.shiftr_div_pow2. Qed.

Lemma first_byte_body b : Z.land (u8_of b) 63 = u8_of b mod 64.
Proof. change 63 with (Z.ones 6). by rewrite Z.land_ones. Qed.

Lemma first_byte_cases b :
  u8_of b / 64 = 0 \/ u8_of b / 64 = 1 \/ u8_of b / 64 = 2 \/ u8_of b / 64 = 3.
Proof. pose proof (u8_of_range b). dlia. Qed.

(** [a | b] where [a] is a multiple of [2^k] and [b] is below it. *)
Lemma lor_add_mult a b k :
  0 <= k -> 0 <= a -> 0 <= b < 2 ^ k -> a mod 2 ^ k = 0 -> Z.lor a b = a + b.
Proof.
  intros Hk Ha Hb Hm.
  assert (Ea : a = (a / 2 ^ k) * 2 ^ k) by (pose proof (Z.div_mod a (2 ^ k)); lia).
  rewrite Ea at 1. rewrite <- Z.shiftl_mul_pow2 by lia.
  rewrite lor_shiftl_add by (try apply Z.div_pos; lia). lia.
Qed.

Ltac lor_to_add :=
  repeat match goal with
  | |- context [shl64 ?x ?k] =>
      rewrite (shl64_small x k) by (unfold u64_mod; dlia)
  end;
  repeat match goal with
  | |- context [Z.lor ?a ?b] =>
      lazymatch a with
      | context [Z.lor _ _] => fail
      | _ => first
          [ rewrite (lor_add_mult a b 8) by dlia
          | rewrite (lor_add_mult a b 16) by dlia
          | rewrite (lor_add_mult a b 24) by dlia
          | rewrite (lor_add_mult a b 32) by dlia
          | rewrite (lor_add_mult a b 40) by dlia
          | rewrite (lor_add_mult a b 48) by dlia
          | rewrite (lor_add_mult a b 56) by dlia ]
      end
  end.

Section CodecLemmas.
Context {B M : Type} `{BufLaws B} `{BufMutLaws M}.

(** Take the next byte of a buffer whose contents are known. *)
Ltac next_byte :=
  match goal with
  | Hc : contents ?r = ?b :: ?l |- context [get_u8 ?r] =>
      let r' := fresh "r" in let Hg := fresh "Hg" in let Hc' := fresh "Hc" in
      destruct (get_u8_cons r b l Hc) as (r' & Hg & Hc');
      rewrite Hg; cbn [lift_panic mbind outcome_bind]; clear Hg Hc
  end.

(** [VarInt::decode] is the reference grammar, on any lawful buffer: it parses
    what the grammar parses, leaves exactly the rest, fails otherwise, and never
    panics. *)
Lemma VarInt_decode_parse (r : B) :
  match varint_parse (contents r) with
  | Some (x, l) => exists r', VarInt_decode r = Ok (mkVarInt x, r') /\ contents r' = l
  | None => VarInt_decode r = Err mkVarIntUnexpectedEnd
  end.
Proof.
  unfold VarInt_decode, has_remaining. rewrite remaining_contents.
  destruct (contents r) as [|b t] eqn:Hc; [done|].
  destruct (0 <? _) eqn:E0; [|cbn [length] in E0; lia]. cbn [negb].
  next_byte. rewrite first_byte_tag, first_byte_body. unfold varint_parse, varint_tail.
  rewrite remaining_contents, Hc0.
  pose proof (u8_of_range b) as Hb.
  destruct (first_byte_cases b) as [E|[E|[E|E]]]; rewrite E; cbn [Z.eqb Pos.eqb].
  - change (Nat.pow 2 (Z.to_nat 0) - 1)%nat with 0%nat. simpl take. cbn [be_combine].
    exists r0. rewrite Hc0. split; [|done]. repeat f_equal. simpl. lia.
  - change (Nat.pow 2 (Z.to_nat 1) - 1)%nat with 1%nat.
    destruct t as [|b0 t]; [done|].
    destruct (_ <? 1) eqn:El; [cbn [length] in El; lia|].
    next_byte. exists r1. split; [|done]. repeat f_equal.
    pose proof (u8_of_range b0). lor_to_add.
    cbn [take]. rewrite take_0. cbn [be_combine length]. zlits. dlia.
  - change (Nat.pow 2 (Z.to_nat 2) - 1)%nat with 3%nat.
    destruct t as [|b2 [|b1 [|b0 t]]]; [done..|].
    destruct (_ <? 3) eqn:El; [cbn [length] in El; lia|].
    do 3 next_byte. exists r3. split; [|done]. repeat f_equal.
    pose proof (u8_of_range b0). pose proof (u8_of_range b1). pose proof (u8_of_range b2).
    lor_to_add.
    cbn [take]. rewrite take_0. cbn [be_combine length]. zlits. dlia.
  - change (Nat.pow 2 (Z.to_nat 3) - 1)%nat with 7%nat.
    destruct t as [|b6 [|b5 [|b4 [|b3 [|b2 [|b1 [|b0 t]]]]]]]; [done..|].
    destruct (_ <? 7) eqn:El; [cbn [length] in El; lia|].
    do 7 next_byte. exists r7. split; [|done]. repeat f_equal.
    pose proof (u8_of_range b0). pose proof (u8_of_range b1). pose proof (u8_of_range b2).
    pose proof (u8_of_range b3). pose proof (u8_of_range b4). pose proof (u8_of_range b5).
    pose proof (u8_of_range b6).
    lor_to_add.
    cbn [take]. rewrite take_0. cbn [be_combine length]. zlits. dlia.
Qed.
End CodecLemmas.

(** ** Encoding *)
Lemma pow256 n : 256 ^ Z.of_nat n = 2 ^ (8 * Z.of_nat n).
Proof. by rewrite Z.pow_mul_r by lia. Qed.

(** Case analysis on the length class of a value. *)
Ltac varint_cases x :=
  let E1 := fresh "E1" in let E2 := fresh "E2" in
  let E3 := fresh "E3" in let E4 := fresh "E4" in
  destruct (x <=? MAX_1BYTE) eqn:E1; [|destruct (x <=? MAX_2BYTE) eqn:E2;
    [|destruct (x <=? MAX_4BYTE) eqn:E3; [|try (destruct (x <=? VarInt_MAX) eqn:E4; [|lia])]]];
  unfold MAX_1BYTE, MAX_2BYTE, MAX_4BYTE, VarInt_MAX in *;
  rewrite ?Z.shiftl_mul_pow2 in * by lia.

(** A big-endian word whose two top bits hold the length tag parses back to the
    bits below them. *)
Lemma varint_parse_tagged k n x l :
  0 <= k <= 3 -> n = (Nat.pow 2 (Z.to_nat k) - 1)%nat -> 0 <= x < 64 * 256 ^ Z.of_nat n ->
  varint_parse (be_bytes (S n) (k * (64 * 256 ^ Z.of_nat n) + x) ++ l) = Some (x, l).
Proof.
  intros Hk Hn Hx. set (P := 256 ^ Z.of_nat n) in *.
  assert (HP : 0 < P) by (subst P; lia).
  assert (Hq : 0 <= x / P < 64) by (split; [apply Z.div_pos | apply Z.div_lt_upper_bound]; lia).
  assert (Hdm := Z.div_mod x P ltac:(lia)). assert (Hmb := Z.mod_pos_bound x P HP).
  assert (Hfirst : u8_of (byte_of (Z.shiftr (k * (64 * P) + x) (8 * Z.of_nat n)))
                   = 64 * k + x / P).
  { rewrite u8_of_byte, Z.shiftr_div_pow2, <- pow256 by lia. fold P.
    replace (k * (64 * P) + x) with (x + (64 * k) * P) by lia.
    rewrite Z.div_add by lia. rewrite Z.mod_small; lia. }
  assert (Htail : varint_tail (byte_of (Z.shiftr (k * (64 * P) + x) (8 * Z.of_nat n))) = n).
  { unfold varint_tail. rewrite Hfirst, Hn. do 3 f_equal. dlia. }
  cbn [be_bytes app]. unfold varint_parse. rewrite Htail, Hfirst.
  rewrite length_app, be_bytes_length. destruct (Nat.ltb_spec (n + length l) n); [lia|].
  rewrite take_app_length', drop_app_length' by (by rewrite be_bytes_length).
  rewrite be_combine_bytes. fold P. do 2 f_equal.
  replace ((k * (64 * P) + x) mod P) with (x mod P)
    by (rewrite Z.add_comm, Z.mul_assoc, Z.mod_add; lia).
  replace ((64 * k + x / P) mod 64) with (x / P) by dlia. lia.
Qed.

Lemma varint_parse_bytes x l : varint_ok x -> varint_parse (varint_bytes x ++ l) = Some (x, l).
Proof.
  unfold varint_ok, varint_bytes. intros Hx. varint_cases x.
  - apply (varint_parse_tagged 0 0); [lia|done|zlits; lia].
  - apply (varint_parse_tagged 1 1); [lia|done|zlits; lia].
  - apply (varint_parse_tagged 2 3); [lia|done|zlits; lia].
  - apply (varint_parse_tagged 3 7); [lia|done|zlits; lia].
Qed.

Lemma varint_bytes_length x :
  varint_ok x -> VarInt_size (mkVarInt x) = Ok (Z.of_nat (length (varint_bytes x))).
Proof.
  unfold varint_ok, VarInt_size, varint_bytes; cbn [into_inner]. intros Hx.
  destruct (x <=? MAX_1BYTE); [done|]. destruct (x <=? MAX_2BYTE); [done|].
  destruct (x <=? MAX_4BYTE); [done|]. by destruct (x <=? VarInt_MAX) eqn:E; [|lia].
Qed.

Section EncodeLemmas.
Context {M : Type} `{BufMutLaws M}.

Lemma VarInt_encode_bytes x (w : M) :
  varint_ok x ->
  exists w', VarInt_encode (mkVarInt x) w = Ok w' /\ written w' = written w ++ varint_bytes x.
Proof.
  unfold varint_ok, VarInt_encode, varint_bytes, u8_mod, u16_mod, u32_mod; cbn [into_inner].
  intros Hx. varint_cases x.
  - eexists; split; [done|]. rewrite written_put_u8. do 2 f_equal. apply Z.mod_small; lia.
  - eexists; split; [done|]. rewrite written_put_u16. do 2 f_equal.
    rewrite Z.mod_small by lia. apply (lor_add_mult _ _ 14); lia.
  - eexists; split; [done|]. rewrite written_put_u32. do 2 f_equal.
    rewrite Z.mod_small by lia. apply (lor_add_mult _ _ 30); lia.
  - eexists; split; [done|]. rewrite written_put_u64. do 2 f_equal.
    apply (lor_add_mult _ _ 62); lia.
Qed.
End EncodeLemmas.

Lemma varint_parse_range bs x l : varint_parse bs = Some (x, l) -> varint_ok x.
Proof.
  destruct bs as [|b t]; [done|]. unfold varint_parse, varint_ok.
  destruct (Nat.ltb_spec (length t) (varint_tail b)) as [|Hlen]; [done|]. intros [= <- <-].
  pose proof (be_combine_range (take (varint_tail b) t)) as Hc.
  rewrite length_take_le in Hc by lia. revert Hc. unfold varint_tail, VarInt_MAX.
  rewrite Z.shiftl_mul_pow2 by lia.
  pose proof (Z.mod_pos_bound (u8_of b) 64 ltac:(lia)).
  destruct (first_byte_cases b) as [E|[E|[E|E]]]; rewrite E; simpl Nat.pow; simpl Nat.sub;
    zlits; lia.
Qed.

(** How much of the input the grammar takes: never less than the shortest
    encoding of the value. *)
Lemma varint_parse_consumed bs x l :
  varint_parse bs = Some (x, l) ->
  exists hd, bs = hd ++ l /\ (length (varint_bytes x) <= length hd)%nat.
Proof.
  destruct bs as [|b t]; [done|]. unfold varint_parse.
  destruct (Nat.ltb_spec (length t) (varint_tail b)) as [|Hlen]; [done|]. intros [= <- <-].
  exists (b :: take (varint_tail b) t). split; [cbn; by rewrite take_drop|].
  pose proof (be_combine_range (take (varint_tail b) t)) as Hc.
  cbn [length]. rewrite length_take_le in Hc |- * by lia.
  pose proof (Z.mod_pos_bound (u8_of b) 64 ltac:(lia)).
  revert Hc Hlen. unfold varint_tail, varint_bytes.
  destruct (first_byte_cases b) as [E|[E|[E|E]]]; rewrite E; simpl Nat.pow; simpl Nat.sub;
    zlits; intros Hc Hlen; repeat case_match; rewrite !be_bytes_length;
    unfold MAX_1BYTE, MAX_2BYTE, MAX_4BYTE in *; rewrite ?Z.shiftl_mul_pow2 in * by lia; lia.
Qed.

#[export] Hint Resolve varint_parse_range : mux.

(** ** Properties *)
Section Properties.
Context {B M : Type} `{BufLaws B} `{BufMutLaws M}.

(** C19: for every value below 2^62, [encode] appends a byte string of exactly
    [size] bytes to any output buffer and does not panic, and [decode], from any
    input buffer that starts with those bytes, returns the value and leaves
    exactly the bytes that follow. *)
Theorem VarInt_roundtrip x :
  varint_ok x ->
  exists bs : list byte,
    VarInt_size (mkVarInt x) = Ok (Z.of_nat (length bs))
    /\ (forall w : M, exists w', VarInt_encode (mkVarInt x) w = Ok w'
                                 /\ written w' = written w ++ bs)
    /\ (forall (r : B) l, contents r = bs ++ l ->
          exists r', VarInt_decode r = Ok (mkVarInt x, r') /\ contents r' = l).
Proof.
  intros Hx. exists (varint_bytes x). split; [by apply varint_bytes_length|].
  split; [intros w; by apply VarInt_encode_bytes|].
  intros r l Hr. pose proof (VarInt_decode_parse r) as Hd.
  by rewrite Hr, varint_parse_bytes in Hd.
Qed.

(** C12: [decode] on an arbitrary buffer agrees with the RFC 9000 grammar
    [varint_parse]: it succeeds with the same value and rest when the grammar
    does (the value is then below 2^62, and the bytes taken are at least the
    canonical [size] of the value), it returns [VarIntUnexpectedEnd] when the
    grammar fails, and it never reaches [unreachable!] or an out-of-range read. *)
Theorem VarInt_decode_spec (r : B) :
  match varint_parse (contents r) with
  | Some (x, l) =>
      varint_ok x
      /\ (exists r', VarInt_decode r = Ok (mkVarInt x, r') /\ contents r' = l)
      /\ (exists n, VarInt_size (mkVarInt x) = Ok n
                    /\ n + Z.of_nat (length l) <= remaining r)
  | None => VarInt_decode r = Err mkVarIntUnexpectedEnd
  end.
Proof.
  pose proof (VarInt_decode_parse r) as Hd.
  destruct (varint_parse (contents r)) as [[x l]|] eqn:E; [|done].
  assert (Hx : varint_ok x) by eauto with mux.
  split; [done|]. split; [done|]. eexists; split; [by apply varint_bytes_length|].
  destruct (varint_parse_consumed _ _ _ E) as (hd & Hhd & Hlen).
  rewrite remaining_contents, Hhd, length_app. lia.
Qed.
End Properties.

Lemma VarInt_roundtrip_witness :
  exists bs : list byte,
    VarInt_size (mkVarInt 15293) = Ok (Z.of_nat (length bs))
    /\ (forall w : list byte, exists w', VarInt_encode (mkVarInt 15293) w = Ok w'
                                 /\ written w' = written w ++ bs)
    /\ (forall (r : list byte) l, contents r = bs ++ l ->
          exists r', VarInt_decode r = Ok (mkVarInt 15293, r') /\ contents r' = l).
Proof. apply (VarInt_roundtrip (B := list byte) (M := list byte)). vm_compute. split; discriminate. Defined.

Lemma VarInt_decode_spec_witness :
  match varint_parse [x40; x19; x07] with
  | Some (x, l) =>
      varint_ok x
      /\ (exists r' : list byte, VarInt_decode [x40; x19; x07] = Ok (mkVarInt x, r') /\ contents r' = l)
      /\ (exists n, VarInt_size (mkVarInt x) = Ok n
                    /\ n + Z.of_nat (length l) <= remaining [x40; x19; x07])
  | None => VarInt_decode ([x40; x19; x07] : list byte) = Err mkVarIntUnexpectedEnd
  end.
Proof. exact (VarInt_decode_spec (B := list byte) [x40; x19; x07]). Defined.

(** C36: [VarInt::read] on an asynchronous stream is [VarInt::decode] on the bytes
    the stream delivers: same value and same rest when a whole integer is
    available, [VarIntUnexpectedEnd] otherwise, and its [unwrap] never panics. *)
Theorem VarInt_read_decode {S} `{AsyncReadLaws S} (s : S) :
  match varint_parse (incoming s) with
  | Some (x, l) => exists s', VarInt_read s = Ok (mkVarInt x, s') /\ incoming s' = l
  | None => VarInt_read s = Err mkVarIntUnexpectedEnd
  end.
Proof.
  unfold VarInt_read. destruct (incoming s) as [|b t] eqn:Hi.
  { pose proof (read_exact_short 1 s) as Hs. rewrite Hi in Hs. specialize (Hs ltac:(cbn; lia)).
    simpl. by destruct (read_exact 1 s) as [[|] ?]; simpl in Hs. }
  destruct (read_exact_enough 1 s) as (s1 & -> & Hi1); [rewrite Hi; cbn; lia|].
  rewrite Hi in Hi1 |- *. cbn [take drop] in Hi1 |- *. rewrite ?drop_0 in Hi1.
  rewrite first_byte_tag.
  assert (Hsz : Z.to_nat (Z.shiftl 1 (u8_of b / 64) - 1) = varint_tail b).
  { unfold varint_tail. by destruct (first_byte_cases b) as [E|[E|[E|E]]]; rewrite E. }
  rewrite Hsz. unfold varint_parse.
  destruct (Nat.ltb_spec (length t) (varint_tail b)) as [Hlt|Hge].
  { pose proof (read_exact_short (varint_tail b) s1) as Hs. rewrite Hi1 in Hs.
    specialize (Hs Hlt). by destruct (read_exact (varint_tail b) s1) as [[|] ?]; simpl in Hs. }
  destruct (read_exact_enough (varint_tail b) s1) as (s2 & -> & Hi2); [by rewrite Hi1|].
  rewrite Hi1 in *. exists s2. split; [|done].
  pose proof (VarInt_decode_parse (b :: take (varint_tail b) t)) as Hd.
  cbn [contents list_buf_laws] in Hd. unfold varint_parse in Hd.
  rewrite length_take_le, take_take, Nat.min_id in Hd by lia.
  destruct (Nat.ltb_spec (varint_tail b) (varint_tail b)); [lia|].
  destruct Hd as (r' & -> & _). done.
Qed.

Lemma VarInt_read_decode_witness :
  match varint_parse [x80; x00; x01; x00; xff] with
  | Some (x, l) => exists s' : list byte,
      VarInt_read [x80; x00; x01; x00; xff] = Ok (mkVarInt x, s') /\ incoming s' = l
  | None => VarInt_read ([x80; x00; x01; x00; xff] : list byte) = Err mkVarIntUnexpectedEnd
  end.
Proof. exact (VarInt_read_decode (S := list byte) [x80; x00; x01; x00; xff]). Defined.

(** Every checked conversion yields its argument when that is below 2^62 and fails
    otherwise; the infallible ones take types that are. *)
Lemma VarInt_conversions x :
  (0 <= x < 2 ^ 32 -> varint_ok (into_inner (VarInt_From_u32 x)) /\ u64_from_VarInt (VarInt_from_u32 x) = x)
  /\ (is_u64 x -> VarInt_try_from_usize x = VarInt_try_from_u64 x
       /\ VarInt_try_from_u64 x = VarInt_try_from_u128 x
       /\ VarInt_try_from_u64 x = if x <=? VarInt_MAX then Ok (mkVarInt x) else Err mkVarIntBoundsExceeded).
Proof.
  unfold varint_ok, is_u64, VarInt_try_from_usize, VarInt_try_from_u64, VarInt_try_from_u128. split.
  - intros Hx. split; [|done]. simpl. assert (2 ^ 32 <= VarInt_MAX) by (vm_compute; discriminate). lia.
  - intros Hx. rewrite Z.mod_small by done. split_and!; [done| |done].
    rewrite (proj2 (Z.leb_le x u64_max)) by (unfold u64_max, u64_mod in *; lia). done.
Qed.
