(* ===== verification/Frame.v ===== *)
(** * Stream identifiers and wire frames

    Models [websock-mux-proto/src/stream.rs]: [StreamId], [Frame], its encoder
    and decoder.  [String] values are Rocq strings read as byte sequences;
    [std::str::from_utf8] is the validation automaton [utf8_valid]. *)

From S2P Require Import Prelude Buf VarInt.

(** ** UTF-8 validation ([std::str::from_utf8]) *)
Definition in_range (lo hi : Z) (b : byte) : bool := (lo <=? u8_of b) && (u8_of b <=? hi).
Definition utf8_cont (b : byte) : bool := in_range 128 191 b.

Fixpoint utf8_valid (l : list byte) : bool :=
  match l with
  | [] => true
  | b0 :: t0 =>
      if in_range 0 127 b0 then utf8_valid t0
      else match t0 with
      | [] => false
      | b1 :: t1 =>
          if in_range 194 223 b0 then utf8_cont b1 && utf8_valid t1
          else match t1 with
          | [] => false
          | b2 :: t2 =>
              if in_range 224 239 b0 then
                (if u8_of b0 =? 224 then in_range 160 191 b1
                 else if u8_of b0 =? 237 then in_range 128 159 b1
                 else utf8_cont b1)
                && utf8_cont b2 && utf8_valid t2
              else match t2 with
              | [] => false
              | b3 :: t3 =>
                  in_range 240 244 b0
                  && (if u8_of b0 =? 240 then in_range 144 191 b1
                      else if u8_of b0 =? 244 then in_range 128 143 b1
                      else utf8_cont b1)
                  && utf8_cont b2 && utf8_cont b3 && utf8_valid t3
              end
          end
      end
  end.

Definition as_bytes (s : string) : list byte := String.list_byte_of_string s.

Definition from_utf8 (l : list byte) : option string :=
  if utf8_valid l then Some (String.string_of_list_byte l) else None.

Lemma from_utf8_as_bytes s : utf8_valid (as_bytes s) = true -> from_utf8 (as_bytes s) = Some s.
Proof.
  intros Hs. unfold from_utf8. rewrite Hs. unfold as_bytes.
  by rewrite String.string_of_list_byte_of_string.
Qed.

Lemma from_utf8_Some l s : from_utf8 l = Some s -> as_bytes s = l /\ utf8_valid l = true.
Proof.
  unfold from_utf8, as_bytes. destruct (utf8_valid l); [|done]. intros [= <-].
  by rewrite String.list_byte_of_string_of_list_byte.
Qed.

(** ** Stream identifiers *)
Inductive StreamDir : Set := Bi | Uni.
#[global] Instance StreamDir_eq_dec : EqDecision StreamDir.
Proof. solve_decision. Defined.

Record StreamId : Set := mkStreamId { sid : Z }.
#[global] Instance StreamId_eq_dec : EqDecision StreamId.
Proof. solve_decision. Defined.
#[global] Instance StreamId_countable : Countable StreamId.
Proof. by apply (inj_countable' sid mkStreamId); intros []. Defined.

Definition StreamId_new (counter : Z) (is_server : bool) (dir : StreamDir) :
  outcome VarIntBoundsExceeded StreamId :=
  let initiator := if is_server then 1 else 0 in
  let dir_bit := match dir with Bi => 0 | Uni => 1 end in
  match checked_mul64 counter 4 with
  | None => Err mkVarIntBoundsExceeded
  | Some c =>
      let value := Z.lor (Z.lor c (shl64 dir_bit 1)) initiator in
      _ ← VarInt_from_u64 value;
      Ok (mkStreamId value)
  end.

Definition StreamId_dir (id : StreamId) : StreamDir :=
  if Z.land (Z.shiftr (sid id) 1) 1 =? 1 then Uni else Bi.

Definition initiator_is_server (id : StreamId) : bool := Z.land (sid id) 1 =? 1.

Definition StreamId_counter (id : StreamId) : Z := Z.shiftr (sid id) 2.

(** ** Frames *)
Inductive Frame : Set :=
| OpenUni (id : StreamId)
| OpenBi (id : StreamId)
| Stream (id : StreamId) (data : list byte) (fin : bool)
| ResetStream (id : StreamId) (code : Z)
| StopSending (id : StreamId) (code : Z)
| MaxStreamData (id : StreamId) (max : Z)
| ConnectionClose (code : Z) (reason : string).

Inductive FrameDecodeError : Set :=
| UnexpectedEnd
| UnknownTag (tag : Z)
| InvalidUtf8
| InvalidFin (value : Z).

(** [From<VarIntUnexpectedEnd> for FrameDecodeError]. *)
Definition from_varint_err (_ : VarIntUnexpectedEnd) : FrameDecodeError := UnexpectedEnd.

Definition blen (l : list byte) : Z := Z.of_nat (length l).

Lemma blen_take (n : Z) (l : list byte) : 0 <= n <= blen l -> blen (take (Z.to_nat n) l) = n.
Proof. unfold blen. intros Hn. rewrite length_take. lia. Qed.

Definition Frame_encoded_len (f : Frame) : outcome Empty_set Z :=
  match f with
  | OpenUni id | OpenBi id =>
      n ← VarInt_size (mkVarInt (sid id)); Ok (1 + n)
  | Stream id data fin =>
      n ← VarInt_size (mkVarInt (sid id));
      nf ← VarInt_size (mkVarInt (Z.b2z fin));
      nl ← VarInt_size (mkVarInt (blen data));
      Ok (1 + n + nf + nl + blen data)
  | ResetStream id code | StopSending id code =>
      n ← VarInt_size (mkVarInt (sid id));
      nc ← VarInt_size (mkVarInt code);
      Ok (1 + n + nc)
  | MaxStreamData id max =>
      n ← VarInt_size (mkVarInt (sid id));
      nm ← VarInt_size (mkVarInt max);
      Ok (1 + n + nm)
  | ConnectionClose code reason =>
      nc ← VarInt_size (mkVarInt code);
      nl ← VarInt_size (mkVarInt (blen (as_bytes reason)));
      Ok (1 + nc + nl + blen (as_bytes reason))
  end.

Section FrameCodec.
Context {B M : Type} `{Buf B} `{BufMut M} `{UsizeWidth}.

Definition Frame_encode (f : Frame) : outcome Empty_set M :=
  cap ← Frame_encoded_len f;
  let buf := with_capacity cap in
  match f with
  | OpenUni id =>
      buf ← VarInt_encode (mkVarInt 0) buf;
      VarInt_encode (mkVarInt (sid id)) buf
  | OpenBi id =>
      buf ← VarInt_encode (mkVarInt 1) buf;
      VarInt_encode (mkVarInt (sid id)) buf
  | Stream id data fin =>
      buf ← VarInt_encode (mkVarInt 2) buf;
      buf ← VarInt_encode (mkVarInt (sid id)) buf;
      buf ← VarInt_encode (mkVarInt (Z.b2z fin)) buf;
      buf ← VarInt_encode (mkVarInt (blen data)) buf;
      Ok (put_slice data buf)
  | ResetStream id code =>
      buf ← VarInt_encode (mkVarInt 3) buf;
      buf ← VarInt_encode (mkVarInt (sid id)) buf;
      VarInt_encode (mkVarInt code) buf
  | StopSending id code =>
      buf ← VarInt_encode (mkVarInt 4) buf;
      buf ← VarInt_encode (mkVarInt (sid id)) buf;
      VarInt_encode (mkVarInt code) buf
  | MaxStreamData id max =>
      buf ← VarInt_encode (mkVarInt 6) buf;
      buf ← VarInt_encode (mkVarInt (sid id)) buf;
      VarInt_encode (mkVarInt max) buf
  | ConnectionClose code reason =>
      buf ← VarInt_encode (mkVarInt 5) buf;
      buf ← VarInt_encode (mkVarInt code) buf;
      buf ← VarInt_encode (mkVarInt (blen (as_bytes reason))) buf;
      Ok (put_slice (as_bytes reason) buf)
  end.

(** [VarInt::decode(buf)?.into_inner()], with the error conversion of [?]. *)
Definition take_varint (buf : B) : outcome FrameDecodeError (Z * B) :=
  '(v, buf) ← map_err from_varint_err (VarInt_decode buf);
  Ok (into_inner v, buf).

(** [VarInt::decode(buf)?.into_inner() as usize], the length check against
    [buf.remaining()] and [buf.copy_to_bytes(len)]. *)
Definition take_prefixed (buf : B) : outcome FrameDecodeError (list byte * B) :=
  '(x, buf) ← take_varint buf;
  let len := as_usize x in
  if remaining buf <? len then Err UnexpectedEnd
  else lift_panic (copy_to_bytes len buf).

Definition Frame_decode (buf : B) : outcome FrameDecodeError (Frame * B) :=
  '(tag, buf) ← take_varint buf;
  if tag =? 0 then
    '(id, buf) ← take_varint buf; Ok (OpenUni (mkStreamId id), buf)
  else if tag =? 1 then
    '(id, buf) ← take_varint buf; Ok (OpenBi (mkStreamId id), buf)
  else if tag =? 2 then
    '(id, buf) ← take_varint buf;
    '(f, buf) ← take_varint buf;
    fin ← (if f =? 0 then Ok false else if f =? 1 then Ok true else Err (InvalidFin f));
    '(data, buf) ← take_prefixed buf;
    Ok (Stream (mkStreamId id) data fin, buf)
  else if tag =? 3 then
    '(id, buf) ← take_varint buf;
    '(code, buf) ← take_varint buf;
    Ok (ResetStream (mkStreamId id) code, buf)
  else if tag =? 4 then
    '(id, buf) ← take_varint buf;
    '(code, buf) ← take_varint buf;
    Ok (StopSending (mkStreamId id) code, buf)
  else if tag =? 5 then
    '(code, buf) ← take_varint buf;
    '(data, buf) ← take_prefixed buf;
    reason ← (match from_utf8 data with Some s => Ok s | None => Err InvalidUtf8 end);
    Ok (ConnectionClose code reason, buf)
  else if tag =? 6 then
    '(id, buf) ← take_varint buf;
    '(max, buf) ← take_varint buf;
    Ok (MaxStreamData (mkStreamId id) max, buf)
  else Err (UnknownTag tag).
End FrameCodec.

(** Evaluation on byte lists. *)
Example StreamId_new_bits :
  StreamId_new 5 true Uni = Ok (mkStreamId 23).
Proof. reflexivity. Qed.
Example Frame_encode_stream :
  Frame_encode (Stream (mkStreamId 4) (as_bytes "hi") true)
  = Ok ([x02; x04; x01; x02] ++ as_bytes "hi").
Proof. reflexivity. Qed.

(** ** Stream-identifier arithmetic *)
Definition sid_ok (id : StreamId) : Prop := varint_ok (sid id).

Definition dir_bit (d : StreamDir) : Z := match d with Bi => 0 | Uni => 1 end.

(** The fields as arithmetic: [sid = 4 * counter + 2 * direction + initiator]. *)
Lemma StreamId_fields_value c s d id :
  sid id = 4 * c + 2 * dir_bit d + Z.b2z s -> 0 <= c ->
  StreamId_dir id = d /\ initiator_is_server id = s /\ StreamId_counter id = c.
Proof.
  intros E Hc. unfold StreamId_dir, initiator_is_server, StreamId_counter.
  change 1 with (Z.ones 1) at 2. change (Z.land (sid id) 1) with (Z.land (sid id) (Z.ones 1)).
  rewrite !Z.land_ones, !Z.shiftr_div_pow2 by lia. rewrite E.
  assert (0 <= Z.b2z s <= 1) by (destruct s; simpl; lia).
  assert (0 <= dir_bit d <= 1) by (destruct d; simpl; lia).
  split_and!; [| |dlia].
  - destruct (_ =? 1) eqn:Eb; destruct d; simpl in *; try done; exfalso; dlia.
  - destruct (_ =? 1) eqn:Eb; destruct s; simpl in *; try done; exfalso; dlia.
Qed.

Lemma sid_decompose id :
  0 <= sid id ->
  sid id = 4 * StreamId_counter id + 2 * dir_bit (StreamId_dir id)
           + Z.b2z (initiator_is_server id) /\ 0 <= StreamId_counter id.
Proof.
  intros Hid.
  assert (Hd : exists c s d, sid id = 4 * c + 2 * dir_bit d + Z.b2z s /\ 0 <= c).
  { exists (sid id / 4), ((sid id) mod 2 =? 1), (if (sid id / 2) mod 2 =? 1 then Uni else Bi).
    destruct ((sid id) mod 2 =? 1) eqn:E1, ((sid id / 2) mod 2 =? 1) eqn:E2; simpl; dlia. }
  destruct Hd as (c & s & d & E & Hc).
  destruct (StreamId_fields_value _ _ _ _ E Hc) as (-> & -> & ->). done.
Qed.

Lemma StreamId_new_value c s d :
  0 <= c ->
  StreamId_new c s d =
    (if 4 * c + 2 * dir_bit d + Z.b2z s <=? VarInt_MAX
     then Ok (mkStreamId (4 * c + 2 * dir_bit d + Z.b2z s)) else Err mkVarIntBoundsExceeded).
Proof.
  intros Hc. unfold StreamId_new, checked_mul64.
  assert (HV : VarInt_MAX = 2 ^ 62 - 1) by reflexivity.
  assert (Hu : u64_max = 2 ^ 64 - 1) by reflexivity.
  assert (Hs : (if s then 1 else 0) = Z.b2z s) by by destruct s.
  change (match d with Bi => 0 | Uni => 1 end) with (dir_bit d). rewrite Hs.
  assert (0 <= Z.b2z s <= 1) by (destruct s; simpl; lia).
  assert (0 <= dir_bit d <= 1) by (destruct d; simpl; lia).
  destruct (c * 4 <=? u64_max) eqn:Em.
  - rewrite shl64_small by (unfold u64_mod; lia).
    rewrite (lor_add_mult (c * 4) _ 2) by dlia.
    rewrite (lor_add_mult (c * 4 + dir_bit d * 2 ^ 1) _ 1) by dlia.
    replace (c * 4 + dir_bit d * 2 ^ 1 + Z.b2z s) with (4 * c + 2 * dir_bit d + Z.b2z s) by lia.
    unfold VarInt_from_u64. destruct (_ <=? VarInt_MAX); reflexivity.
  - destruct (4 * c + _ + _ <=? VarInt_MAX) eqn:E; [lia|done].
Qed.

(** ** Well-formed frames and their canonical bytes *)
Definition frame_ok (f : Frame) : Prop :=
  match f with
  | OpenUni id | OpenBi id => sid_ok id
  | Stream id data fin => sid_ok id /\ varint_ok (blen data)
  | ResetStream id code | StopSending id code => sid_ok id /\ varint_ok code
  | MaxStreamData id max => sid_ok id /\ varint_ok max
  | ConnectionClose code reason =>
      varint_ok code /\ varint_ok (blen (as_bytes reason))
      /\ utf8_valid (as_bytes reason) = true
  end.

Definition frame_bytes (f : Frame) : list byte :=
  match f with
  | OpenUni id => varint_bytes 0 ++ varint_bytes (sid id)
  | OpenBi id => varint_bytes 1 ++ varint_bytes (sid id)
  | Stream id data fin =>
      varint_bytes 2 ++ varint_bytes (sid id) ++ varint_bytes (Z.b2z fin)
      ++ varint_bytes (blen data) ++ data
  | ResetStream id code => varint_bytes 3 ++ varint_bytes (sid id) ++ varint_bytes code
  | StopSending id code => varint_bytes 4 ++ varint_bytes (sid id) ++ varint_bytes code
  | MaxStreamData id max => varint_bytes 6 ++ varint_bytes (sid id) ++ varint_bytes max
  | ConnectionClose code reason =>
      varint_bytes 5 ++ varint_bytes code ++ varint_bytes (blen (as_bytes reason))
      ++ as_bytes reason
  end.

Lemma varint_ok_small x : 0 <= x <= 63 -> varint_ok x.
Proof. unfold varint_ok. change VarInt_MAX with (2 ^ 62 - 1). lia. Qed.

Lemma varint_ok_bool b : varint_ok (Z.b2z b).
Proof. apply varint_ok_small. destruct b; simpl; lia. Qed.

(** Close frames with a short reason are encodable. *)
Lemma close_frame_ok code reason :
  ((0 <=? code) && (code <=? 63) && (blen (as_bytes reason) <=? 63)
   && utf8_valid (as_bytes reason))%bool = true ->
  frame_ok (ConnectionClose code reason).
Proof.
  intros Hb. apply andb_true_iff in Hb as [Hb Hu]. split_and!; [| |done];
    apply varint_ok_small; unfold blen in *; lia.
Qed.

#[export] Hint Resolve varint_ok_small varint_ok_bool : mux.
#[export] Hint Extern 1 (varint_ok _) => (apply varint_ok_small; lia) : mux.

(** Run one more [VarInt_encode] of an in-range value. *)
Ltac encode_step :=
  match goal with
  | |- context [VarInt_encode (mkVarInt ?x) ?w] =>
      let w' := fresh "w" in let He := fresh "He" in let Hw := fresh "Hw" in
      destruct (VarInt_encode_bytes x w) as (w' & He & Hw);
      [unfold sid_ok in *; eauto with mux|]; rewrite He; cbn [mbind outcome_bind]
  end.

Lemma Frame_encoded_len_bytes f :
  frame_ok f -> Frame_encoded_len f = Ok (blen (frame_bytes f)).
Proof.
  unfold blen. destruct f; simpl frame_ok; unfold sid_ok; intros Hf; destruct_and?;
    unfold Frame_encoded_len, frame_bytes, blen;
    rewrite ?varint_bytes_length by eauto with mux; cbn [mbind outcome_bind];
    rewrite ?length_app;
    repeat match goal with |- context [varint_bytes ?n] =>
      lazymatch isZcst n with true =>
        change (length (varint_bytes n)) with 1%nat end end;
    f_equal; lia.
Qed.

Section EncodeFrame.
Context {M : Type} `{BufMutLaws M}.

Lemma Frame_encode_bytes f :
  frame_ok f -> exists buf : M, Frame_encode f = Ok buf /\ written buf = frame_bytes f.
Proof.
  intros Hf. unfold Frame_encode. rewrite Frame_encoded_len_bytes by done.
  cbn [mbind outcome_bind].
  destruct f; simpl in Hf; unfold sid_ok in Hf; destruct_and?; repeat encode_step;
    eexists; (split; [reflexivity|]);
    rewrite ?written_put_slice;
    repeat match goal with Hw : written _ = _ |- _ => rewrite Hw; clear Hw end;
    rewrite written_with_capacity; cbn [app]; rewrite <- ?app_assoc; reflexivity.
Qed.
End EncodeFrame.

(** ** Decoding is independent of the buffer implementation *)
Definition buf_refines {B E A} `{BufLaws B}
    (o : outcome E (A * B)) (o' : outcome E (A * list byte)) : Prop :=
  match o, o' with
  | Ok (a, r), Ok (a', l) => a = a' /\ contents r = l
  | Err e, Err e' => e = e'
  | Panic, Panic => True
  | _, _ => False
  end.

Section DecodeRefines.
Context {B : Type} `{BufLaws B} `{UsizeWidth}.

Lemma buf_refines_bind {E A C} (o : outcome E (A * B)) o' (k : A * B -> outcome E (C * B)) k' :
  buf_refines o o' ->
  (forall a r, buf_refines (k (a, r)) (k' (a, contents r))) ->
  buf_refines (o ≫= k) (o' ≫= k').
Proof.
  intros Ho Hk. destruct o as [[a r]|e|], o' as [[a' l]|e'|]; simpl in *; try done.
  destruct Ho as [-> <-]. apply Hk.
Qed.

Lemma buf_refines_pure {E A C} (m : outcome E C) (k : C -> outcome E (A * B)) k' :
  (forall c, buf_refines (k c) (k' c)) -> buf_refines (m ≫= k) (m ≫= k').
Proof. intros Hk. destruct m; simpl; done. Qed.

Lemma take_varint_list (l : list byte) :
  take_varint l = match varint_parse l with
                  | Some (x, l') => Ok (x, l') | None => Err UnexpectedEnd end.
Proof.
  unfold take_varint. pose proof (VarInt_decode_parse l) as Hd. cbn [contents list_buf_laws] in Hd.
  destruct (varint_parse l) as [[x l']|]; [|by rewrite Hd].
  destruct Hd as (r' & -> & <-). done.
Qed.

Lemma take_varint_refines (r : B) : buf_refines (take_varint r) (take_varint (contents r)).
Proof.
  rewrite take_varint_list. unfold take_varint. pose proof (VarInt_decode_parse r) as Hd.
  destruct (varint_parse (contents r)) as [[x l']|]; [|by rewrite Hd].
  destruct Hd as (r' & -> & <-). simpl. done.
Qed.

Lemma as_usize_nonneg x : 0 <= usize_bits -> 0 <= as_usize x.
Proof. intros Hw. unfold as_usize. apply Z.mod_pos_bound. lia. Qed.

Lemma take_prefixed_refines (r : B) :
  0 <= usize_bits -> buf_refines (take_prefixed r) (take_prefixed (contents r)).
Proof.
  intros Hw. unfold take_prefixed. apply buf_refines_bind; [apply take_varint_refines|].
  clear r. intros x r. rewrite remaining_contents. cbn [remaining list_buf].
  pose proof (as_usize_nonneg x Hw).
  destruct (_ <? as_usize x) eqn:E; [done|].
  destruct (copy_to_bytes_take r (Z.to_nat (as_usize x))) as (r' & Hc & Hr'); [lia|].
  rewrite Z2Nat.id in Hc by done. rewrite Hc. cbn [copy_to_bytes list_buf].
  destruct (as_usize x <=? _) eqn:E2; [done|lia].
Qed.

Ltac refine_tac :=
  repeat first
    [ done
    | apply buf_refines_bind; [first [apply take_varint_refines | by apply take_prefixed_refines]
                              | intros ? ?]
    | apply buf_refines_pure; intros ?
    | case_match ].

(** The generic decoder is the byte-list decoder. *)
Lemma Frame_decode_refines (r : B) :
  0 <= usize_bits -> buf_refines (Frame_decode r) (Frame_decode (contents r)).
Proof. intros Hw. unfold Frame_decode. refine_tac. Qed.
End DecodeRefines.

(** ** The wire grammar

    [frame_wire f bs]: the byte string [bs] is one encoding of [f], with any
    (also a non-minimal) encoding of each integer field. *)
Definition varint_wire (x : Z) (bs : list byte) : Prop := varint_parse bs = Some (x, []).

Inductive frame_wire : Frame -> list byte -> Prop :=
| wire_open_uni t i id :
    varint_wire 0 t -> varint_wire id i -> frame_wire (OpenUni (mkStreamId id)) (t ++ i)
| wire_open_bi t i id :
    varint_wire 1 t -> varint_wire id i -> frame_wire (OpenBi (mkStreamId id)) (t ++ i)
| wire_stream t i f n id (fin : bool) data :
    varint_wire 2 t -> varint_wire id i -> varint_wire (Z.b2z fin) f ->
    varint_wire (blen data) n ->
    frame_wire (Stream (mkStreamId id) data fin) (t ++ i ++ f ++ n ++ data)
| wire_reset t i c id code :
    varint_wire 3 t -> varint_wire id i -> varint_wire code c ->
    frame_wire (ResetStream (mkStreamId id) code) (t ++ i ++ c)
| wire_stop t i c id code :
    varint_wire 4 t -> varint_wire id i -> varint_wire code c ->
    frame_wire (StopSending (mkStreamId id) code) (t ++ i ++ c)
| wire_close t c n code reason :
    varint_wire 5 t -> varint_wire code c -> varint_wire (blen (as_bytes reason)) n ->
    utf8_valid (as_bytes reason) = true ->
    frame_wire (ConnectionClose code reason) (t ++ c ++ n ++ as_bytes reason)
| wire_max t i m id max :
    varint_wire 6 t -> varint_wire id i -> varint_wire max m ->
    frame_wire (MaxStreamData (mkStreamId id) max) (t ++ i ++ m).

Lemma varint_parse_app bs x l :
  varint_wire x bs -> varint_parse (bs ++ l) = Some (x, l).
Proof.
  unfold varint_wire. destruct bs as [|b t]; [done|]. cbn [app]. unfold varint_parse.
  destruct (Nat.ltb_spec (length t) (varint_tail b)) as [|Hge]; [done|].
  intros [= <- Hdrop].
  assert (length t = varint_tail b).
  { apply (f_equal length) in Hdrop. rewrite length_drop in Hdrop. simpl in Hdrop. lia. }
  rewrite length_app. destruct (Nat.ltb_spec (length t + length l) (varint_tail b)); [lia|].
  rewrite take_app_length', drop_app_length' by lia.
  by rewrite take_ge by lia.
Qed.

Lemma varint_parse_split bs x l :
  varint_parse bs = Some (x, l) -> exists hd, bs = hd ++ l /\ varint_wire x hd.
Proof.
  destruct bs as [|b t]; [done|]. unfold varint_parse, varint_wire.
  destruct (Nat.ltb_spec (length t) (varint_tail b)) as [|Hge]; [done|].
  intros [= <- <-]. exists (b :: take (varint_tail b) t). split.
  { cbn. by rewrite take_drop. }
  unfold varint_parse. rewrite length_take_le by lia.
  destruct (Nat.ltb_spec (varint_tail b) (varint_tail b)); [lia|].
  rewrite take_take, Nat.min_id. by rewrite drop_ge by (rewrite length_take_le; lia).
Qed.

Lemma varint_wire_bytes x : varint_ok x -> varint_wire x (varint_bytes x).
Proof.
  intros Hx. unfold varint_wire. rewrite <- (app_nil_r (varint_bytes x)).
  by apply varint_parse_bytes.
Qed.

Lemma varint_wire_ok x bs : varint_wire x bs -> varint_ok x.
Proof. apply varint_parse_range. Qed.

Lemma varint_wire_min x bs : varint_wire x bs -> (length (varint_bytes x) <= length bs)%nat.
Proof.
  intros Hw. destruct (varint_parse_consumed _ _ _ Hw) as (hd & -> & ?). rewrite length_app. lia.
Qed.

#[export] Hint Resolve varint_wire_bytes varint_wire_ok varint_wire_min : mux.

Lemma frame_wire_ok f bs : frame_wire f bs -> frame_ok f.
Proof. destruct 1; simpl; unfold sid_ok; eauto 6 with mux. Qed.

Lemma frame_bytes_wire f : frame_ok f -> frame_wire f (frame_bytes f).
Proof.
  destruct f as [[]|[]|[]|[]|[]|[]|]; unfold frame_ok, sid_ok; cbn [frame_bytes sid];
    intros Hf; destruct_and?; constructor; eauto with mux.
Qed.

(** ** Decoding against the grammar *)
Section DecodeWire.
Context `{UsizeWidth}.

(** A wire string followed by anything decodes to its frame and leaves the rest,
    provided lengths survive the cast to [usize]. *)
Definition fits_usize (f : Frame) : Prop :=
  match f with
  | Stream _ data _ => blen data <= usize_max
  | ConnectionClose _ reason => blen (as_bytes reason) <= usize_max
  | _ => True
  end.

Lemma take_prefixed_wire n data l :
  blen data <= usize_max -> varint_wire (blen data) n ->
  take_prefixed (n ++ data ++ l) = Ok (data, l).
Proof.
  intros Hfit Hn. unfold take_prefixed. rewrite take_varint_list. erewrite varint_parse_app by done.
  cbn [mbind outcome_bind remaining copy_to_bytes list_buf lift_panic].
  assert (Hu : as_usize (blen data) = blen data).
  { unfold as_usize. apply Z.mod_small. unfold blen, usize_max in *. lia. }
  rewrite Hu. unfold blen. rewrite length_app, Nat2Z.inj_add.
  destruct (_ <? _) eqn:E; [lia|]. destruct (_ <=? _) eqn:E2; [|lia].
  rewrite Nat2Z.id, take_app_length, drop_app_length. done.
Qed.

Ltac wire_steps :=
  rewrite <- ?app_assoc;
  repeat (rewrite take_varint_list; erewrite varint_parse_app by eassumption;
          cbn [mbind outcome_bind Z.eqb Pos.eqb]).

Lemma Frame_decode_wire f bs l :
  fits_usize f -> frame_wire f bs -> Frame_decode (bs ++ l) = Ok (f, l).
Proof.
  intros Hfit Hw. unfold Frame_decode. destruct Hw; simpl in Hfit; wire_steps; try reflexivity.
  - replace (if Z.b2z fin =? 0 then Ok false else _) with (Ok (E := FrameDecodeError) fin)
      by by destruct fin.
    cbn [mbind outcome_bind]. rewrite take_prefixed_wire by done. reflexivity.
  - rewrite take_prefixed_wire by done. cbn [mbind outcome_bind].
    rewrite from_utf8_as_bytes by done. reflexivity.
Qed.
End DecodeWire.

Section DecodeInv.
Context `{UsizeWidth}.

Lemma take_varint_inv (l : list byte) x l' :
  take_varint l = Ok (x, l') -> exists hd, l = hd ++ l' /\ varint_wire x hd.
Proof.
  rewrite take_varint_list. destruct (varint_parse l) as [[y l1]|] eqn:E; [|done].
  intros [= <- <-]. by apply varint_parse_split.
Qed.

Lemma take_prefixed_inv (l : list byte) data l' :
  62 <= usize_bits -> take_prefixed l = Ok (data, l') ->
  exists n, l = n ++ data ++ l' /\ varint_wire (blen data) n.
Proof.
  intros Hw. unfold take_prefixed. destruct (take_varint l) as [[x l1]|e|] eqn:E; [|done..].
  cbn [mbind outcome_bind remaining copy_to_bytes list_buf].
  destruct (take_varint_inv _ _ _ E) as (hd & -> & Hhd).
  assert (Hx := varint_wire_ok _ _ Hhd). unfold varint_ok in Hx.
  assert (Hu : as_usize x = x).
  { unfold as_usize. apply Z.mod_small. split; [lia|].
    assert (2 ^ 62 <= 2 ^ usize_bits) by (apply Z.pow_le_mono_r; lia).
    change VarInt_MAX with (2 ^ 62 - 1) in Hx. lia. }
  rewrite Hu. destruct (_ <? x) eqn:E1; [done|]. destruct (x <=? _) eqn:E2; [|done].
  intros [= <- <-]. exists hd. rewrite take_drop. split; [done|].
  unfold blen. rewrite length_take_le by lia. by rewrite Z2Nat.id by lia.
Qed.

(** Inversion of a successful chain of [?]. *)
Ltac inv_bind Hd :=
  repeat match type of Hd with
  | context [take_varint ?l] =>
      let x := fresh "x" in let l' := fresh "l" in let E := fresh "E" in
      destruct (take_varint l) as [[x l']|?|] eqn:E; cbn [mbind outcome_bind] in Hd; [|done..];
      apply take_varint_inv in E as (? & -> & ?)
  | context [take_prefixed ?l] =>
      let d := fresh "d" in let l' := fresh "l" in let E := fresh "E" in
      destruct (take_prefixed l) as [[d l']|?|] eqn:E; cbn [mbind outcome_bind] in Hd; [|done..];
      apply take_prefixed_inv in E as (? & -> & ?); [|done]
  end.

Lemma Frame_decode_inv (l : list byte) f rest :
  62 <= usize_bits -> Frame_decode l = Ok (f, rest) ->
  exists bs, l = bs ++ rest /\ frame_wire f bs.
Proof.
  intros Hw Hd. unfold Frame_decode in Hd.
  destruct (take_varint l) as [[tag l0]|?|] eqn:E; cbn [mbind outcome_bind] in Hd; [|done..].
  apply take_varint_inv in E as (t & -> & Ht).
  repeat match type of Hd with (if tag =? ?k then _ else _) = _ =>
    destruct (tag =? k) eqn:?; [assert (tag = k) as -> by lia|] end; [..|done]; inv_bind Hd.
  all: try (injection Hd as <- <-; eexists; rewrite ?app_assoc;
            (split; [reflexivity|]); rewrite <- ?app_assoc; econstructor; eassumption).
  - destruct (x1 =? 0) eqn:E0; [|destruct (x1 =? 1) eqn:E1; [|done]];
      cbn [mbind outcome_bind] in Hd; inv_bind Hd; injection Hd as <- <-;
      [replace x1 with (Z.b2z false) in * by (simpl; lia)
      |replace x1 with (Z.b2z true) in * by (simpl; lia)];
      eexists; rewrite ?app_assoc; (split; [reflexivity|]); rewrite <- ?app_assoc;
      econstructor; eassumption.
  - destruct (from_utf8 d) as [s|] eqn:Es; cbn [mbind outcome_bind] in Hd; [|done].
    injection Hd as <- <-. apply from_utf8_Some in Es as [<- Hv].
    eexists; rewrite ?app_assoc; (split; [reflexivity|]); rewrite <- ?app_assoc.
    econstructor; eassumption.
Qed.

(** Whatever the width of [usize], a decoded frame is well formed and takes at least
    one byte. *)
Lemma take_varint_ok (l : list byte) x l' :
  take_varint l = Ok (x, l') -> varint_ok x /\ (length l' < length l)%nat.
Proof.
  intros E. destruct (take_varint_inv _ _ _ E) as (hd & -> & Hhd). split; [by eapply varint_wire_ok|].
  rewrite length_app. pose proof (varint_wire_min _ _ Hhd).
  assert (0 < length (varint_bytes x))%nat; [|lia].
  unfold varint_bytes. repeat case_match; rewrite be_bytes_length; lia.
Qed.

Lemma take_prefixed_ok (l : list byte) data l' :
  0 <= usize_bits -> take_prefixed l = Ok (data, l') ->
  varint_ok (blen data) /\ (length l' < length l)%nat.
Proof.
  intros Hw. unfold take_prefixed. destruct (take_varint l) as [[x l1]|e|] eqn:E; [|done..].
  cbn [mbind outcome_bind remaining copy_to_bytes list_buf].
  destruct (take_varint_ok _ _ _ E) as [Hx Hl]. unfold varint_ok in *.
  pose proof (as_usize_nonneg x Hw). assert (as_usize x <= x) by (apply Z.mod_le; [lia|by apply Z.pow_pos_nonneg]).
  destruct (_ <? _) eqn:E1; [done|]. destruct (_ <=? _) eqn:E2; [|done].
  intros [= <- <-]. unfold blen in *. rewrite length_take, length_drop. split; lia.
Qed.

Ltac ok_bind Hd :=
  repeat match type of Hd with
  | context [take_varint ?l] =>
      let E := fresh "E" in
      destruct (take_varint l) as [[? ?]|?|] eqn:E; cbn [mbind outcome_bind] in Hd; [|done..];
      apply take_varint_ok in E as [? ?]
  | context [take_prefixed ?l] =>
      let E := fresh "E" in
      destruct (take_prefixed l) as [[? ?]|?|] eqn:E; cbn [mbind outcome_bind] in Hd; [|done..];
      apply take_prefixed_ok in E as [? ?]; [|done]
  end.

Lemma Frame_decode_ok (l : list byte) f rest :
  0 <= usize_bits -> Frame_decode l = Ok (f, rest) -> frame_ok f /\ (length rest < length l)%nat.
Proof.
  intros Hw Hd. unfold Frame_decode in Hd.
  destruct (take_varint l) as [[tag l0]|?|] eqn:E; cbn [mbind outcome_bind] in Hd; [|done..].
  apply take_varint_ok in E as [_ ?].
  repeat match type of Hd with (if tag =? ?k then _ else _) = _ => destruct (tag =? k) eqn:? end;
    [..|done]; ok_bind Hd; try (injection Hd as <- <-; split; [done|lia]).
  - match type of Hd with context [?x =? 0] => destruct (x =? 0); [|destruct (x =? 1); [|done]] end;
      cbn [mbind outcome_bind] in Hd; ok_bind Hd; (injection Hd as <- <-; split; [done|lia]).
  - destruct (from_utf8 _) as [s|] eqn:Es; cbn [mbind outcome_bind] in Hd; [|done].
    injection Hd as <- <-. apply from_utf8_Some in Es as [<- Hv]. split; [|lia]. cbn [frame_ok].
    split_and!; assumption.
Qed.

Lemma take_prefixed_nopanic (l : list byte) :
  0 <= usize_bits -> take_prefixed l <> Panic.
Proof.
  intros Hw. unfold take_prefixed. rewrite take_varint_list.
  destruct (varint_parse l) as [[x l1]|]; [|done].
  cbn [mbind outcome_bind remaining copy_to_bytes list_buf].
  destruct (_ <? _) eqn:E1; [done|]. destruct (_ <=? _) eqn:E2; [done|lia].
Qed.

Lemma Frame_decode_nopanic (l : list byte) : 0 <= usize_bits -> Frame_decode l <> Panic.
Proof.
  intros Hw. unfold Frame_decode.
  repeat first
    [ done
    | match goal with
      | |- context [take_varint ?b] =>
          rewrite (take_varint_list b); destruct (varint_parse b) as [[? ?]|];
          cbn [mbind outcome_bind]
      | |- context [take_prefixed ?b] =>
          pose proof (take_prefixed_nopanic b Hw); destruct (take_prefixed b) as [[? ?]|?|];
          cbn [mbind outcome_bind]
      end
    | case_match; cbn [mbind outcome_bind] ].
Qed.
End DecodeInv.

Lemma frame_wire_min f bs : frame_wire f bs -> blen (frame_bytes f) <= blen bs.
Proof.
  unfold blen. destruct 1; cbn [frame_bytes sid]; rewrite !length_app;
    repeat match goal with Hw : varint_wire ?x ?b |- _ =>
      apply varint_wire_min in Hw end; lia.
Qed.

(** A wire form carries its length in a varint, so it fits a wide [usize]. *)
Lemma fits_wide `{UsizeWidth} f bs : 62 <= usize_bits -> frame_wire f bs -> fits_usize f.
Proof.
  intros Hu Hw. apply frame_wire_ok in Hw. unfold usize_max.
  assert (2 ^ 62 <= 2 ^ usize_bits) by (apply Z.pow_le_mono_r; lia).
  destruct f; simpl in *; try done; unfold varint_ok in *;
    change VarInt_MAX with (2 ^ 62 - 1) in *; unfold usize_max; lia.
Qed.

(** ** Properties *)

(** [StreamId::new] packs counter, initiator and direction into distinct bits
    of an identifier below 2^62: whenever it succeeds the three accessors return
    the arguments, it fails exactly when the packed value does not fit a varint,
    and every in-range identifier is rebuilt from its own fields. *)
Theorem StreamId_fields c s d :
  is_u64 c ->
  (forall id, StreamId_new c s d = Ok id ->
     sid_ok id /\ StreamId_dir id = d /\ initiator_is_server id = s /\ StreamId_counter id = c)
  /\ (StreamId_new c s d = Err mkVarIntBoundsExceeded <-> 2 ^ 60 <= c)
  /\ (forall id, sid_ok id ->
       StreamId_new (StreamId_counter id) (initiator_is_server id) (StreamId_dir id) = Ok id).
Proof.
  intros [Hc _]. rewrite StreamId_new_value by done.
  assert (HV : VarInt_MAX = 2 ^ 62 - 1) by reflexivity.
  assert (0 <= Z.b2z s <= 1) by (destruct s; simpl; lia).
  assert (0 <= dir_bit d <= 1) by (destruct d; simpl; lia).
  split_and!.
  - intros id. destruct (_ <=? VarInt_MAX) eqn:E; [|done]. intros [= <-]. split.
    + unfold sid_ok, varint_ok; simpl. lia.
    + by apply StreamId_fields_value.
  - destruct (_ <=? VarInt_MAX) eqn:E; split; intros; try done; lia.
  - intros id Hid. unfold sid_ok, varint_ok in Hid.
    destruct (sid_decompose id) as [Hs Hc0]; [lia|].
    rewrite StreamId_new_value by done. rewrite <- Hs.
    destruct (sid id <=? VarInt_MAX) eqn:E; [|lia]. by destruct id.
Qed.

Lemma StreamId_fields_witness :
  (forall id, StreamId_new 7 false Uni = Ok id ->
     sid_ok id /\ StreamId_dir id = Uni /\ initiator_is_server id = false
     /\ StreamId_counter id = 7)
  /\ (StreamId_new 7 false Uni = Err mkVarIntBoundsExceeded <-> 2 ^ 60 <= 7)
  /\ (forall id, sid_ok id ->
       StreamId_new (StreamId_counter id) (initiator_is_server id) (StreamId_dir id) = Ok id).
Proof. apply (StreamId_fields 7 false Uni). vm_compute. split; [discriminate|reflexivity]. Defined.

Section FrameProperties.
Context {B M : Type} `{BufLaws B} `{BufMutLaws M} `{UsizeWidth}.

(** C17: every frame whose integer fields are varints and whose payload length
    fits [usize] is encoded without panicking, into exactly [encoded_len] bytes,
    which no other wire form of the frame undercuts; decoding a buffer that
    starts with these bytes gives the frame back and leaves exactly the rest. *)
Theorem Frame_roundtrip f :
  0 <= usize_bits -> frame_ok f -> fits_usize f ->
  exists buf : M,
    Frame_encode f = Ok buf
    /\ Frame_encoded_len f = Ok (blen (written buf))
    /\ (forall bs, frame_wire f bs -> blen (written buf) <= blen bs)
    /\ (forall (r : B) l, contents r = written buf ++ l ->
          exists r', Frame_decode r = Ok (f, r') /\ contents r' = l).
Proof.
  intros Hu Hok Hfit. destruct (Frame_encode_bytes (M := M) f Hok) as (buf & He & Hb).
  exists buf. rewrite Hb. split_and!; [done|by apply Frame_encoded_len_bytes|apply frame_wire_min|].
  intros r l Hr. pose proof (Frame_decode_refines r Hu) as Hd.
  rewrite Hr, (Frame_decode_wire f) in Hd by (try apply frame_bytes_wire; done).
  destruct (Frame_decode r) as [[f' r']|?|]; simpl in Hd; try done.
  destruct Hd as [-> Hr']. eauto.
Qed.

(** C18: with a [usize] of at least 62 bits (every native target) the decoder
    accepts exactly the wire grammar: it returns a frame and a rest if and only
    if the buffer starts with a wire form of that frame followed by that rest,
    every other input is an [Err], and no input makes it panic. *)
Theorem Frame_decode_grammar (r : B) :
  62 <= usize_bits ->
  (forall f l, (exists r', Frame_decode r = Ok (f, r') /\ contents r' = l)
               <-> (exists bs, contents r = bs ++ l /\ frame_wire f bs))
  /\ Frame_decode r <> Panic.
Proof.
  intros Hu. assert (Hu0 : 0 <= usize_bits) by lia.
  pose proof (Frame_decode_refines r Hu0) as Hd.
  pose proof (Frame_decode_nopanic (contents r) Hu0) as Hnp. split.
  - intros f l. split.
    + intros (r' & Hr & <-). rewrite Hr in Hd.
      destruct (Frame_decode (contents r)) as [[f' l']|?|] eqn:E; simpl in Hd; try done.
      destruct Hd as [<- <-]. by apply Frame_decode_inv.
    + intros (bs & Hc & Hw).
      rewrite Hc, (Frame_decode_wire f) in Hd; [|by eapply fits_wide; [|exact Hw]|done].
      destruct (Frame_decode r) as [[f' r']|?|]; simpl in Hd; try done.
      destruct Hd as [-> Hr']. eauto.
  - intros E. rewrite E in Hd. by destruct (Frame_decode (contents r)) as [[]|?|].
Qed.
End FrameProperties.

Lemma Frame_roundtrip_witness :
  exists buf : list byte,
    Frame_encode (ConnectionClose 1 "bad") = Ok buf
    /\ Frame_encoded_len (ConnectionClose 1 "bad") = Ok (blen (written buf))
    /\ (forall bs, frame_wire (ConnectionClose 1 "bad") bs -> blen (written buf) <= blen bs)
    /\ (forall (r : list byte) l, contents r = written buf ++ l ->
          exists r', @Frame_decode _ _ usize64 r = Ok (ConnectionClose 1 "bad", r')
                     /\ contents r' = l).
Proof.
  apply (@Frame_roundtrip (list byte) (list byte) _ _ _ _ usize64 (ConnectionClose 1 "bad")).
  - discriminate.
  - vm_compute. repeat split; discriminate.
  - vm_compute. discriminate.
Defined.

Lemma Frame_decode_grammar_witness :
  (forall f l, (exists r', @Frame_decode (list byte) _ usize64 [x00; x04; x2a] = Ok (f, r')
                           /\ contents r' = l)
               <-> (exists bs, contents [x00; x04; x2a] = bs ++ l /\ frame_wire f bs))
  /\ @Frame_decode (list byte) _ usize64 [x00; x04; x2a] <> Panic.
Proof.
  apply (@Frame_decode_grammar (list byte) _ _ usize64 [x00; x04; x2a]). discriminate.
Defined.

(** A [Stream] frame that announces 2^32 + 1 payload bytes and carries one. *)
Definition truncating_frame : list byte :=
  [x02; x00; x00; xc0; x00; x00; x01; x00; x00; x00; x01; x61].

(** C40: on [wasm32] the length cast [into_inner() as usize] drops the high bits of
    the length field: a frame announcing 2^32 + 1 bytes of which one is present is
    accepted with one byte of data and nothing left over, although it is not in the
    wire grammar; the 64-bit decoder rejects it with [UnexpectedEnd]. *)
Theorem Frame_decode_wasm32_truncates_length :
  @Frame_decode (list byte) _ usize32 truncating_frame
    = Ok (Stream (mkStreamId 0) [x61] false, [])
  /\ @Frame_decode (list byte) _ usize64 truncating_frame = Err UnexpectedEnd
  /\ ~ frame_wire (Stream (mkStreamId 0) [x61] false) truncating_frame.
Proof.
  split; [vm_compute; reflexivity|]. split; [vm_compute; reflexivity|].
  assert (Hfit : @fits_usize usize64 (Stream (mkStreamId 0) [x61] false))
    by (vm_compute; discriminate).
  intros Hw. pose proof (@Frame_decode_wire usize64 _ _ [] Hfit Hw) as Hd.
  vm_compute in Hd. done.
Qed.
