(* ===== verification/Proto.v ===== *)
(** * Shared error, message and option types

    Models [websock-proto/src/error.rs], [message.rs] and [options.rs]. *)

From S2P Require Import Prelude Buf VarInt Frame.

(** [std::io::Error]: its kind and its message. *)
Inductive ErrorKind : Set :=
| BrokenPipe
| InvalidInput
| ConnectionReset
| ConnectionAborted
| TimedOut
| OtherKind.
#[global] Instance ErrorKind_eq_dec : EqDecision ErrorKind.
Proof. solve_decision. Defined.

Record IoError : Set := mkIoError { kind : ErrorKind; io_message : string }.

(** [BoxError]: a type-erased source error, known by what it displays. *)
Record BoxError : Set := mkBoxError { display : string }.

Inductive Error : Set :=
| Closed
| InvalidUrl (s : string)
| Protocol (s : string)
| Io (e : IoError)
| Tls (e : BoxError)
| Transport (e : BoxError)
| Unsupported (s : string)
| FrameDecode (s : string)
| StreamIdError (s : string)
| Other (s : string).

(** The [#\[error\]] display strings. *)
Definition Error_to_string (e : Error) : string :=
  match e with
  | Closed => "connection closed"
  | InvalidUrl s => "invalid url: " +:+ s
  | Protocol s => "protocol error: " +:+ s
  | Io e => "io error: " +:+ io_message e
  | Tls e => "tls error: " +:+ display e
  | Transport e => "transport error: " +:+ display e
  | Unsupported s => "unsupported: " +:+ s
  | FrameDecode s => "frame decode error: " +:+ s
  | StreamIdError s => "stream id error: " +:+ s
  | Other s => "other error: " +:+ s
  end.

Definition io_kind (e : Error) : option ErrorKind :=
  match e with Io e => Some (kind e) | _ => None end.

Inductive Message : Set := Text (s : string) | Binary (b : list byte).

Record CloseFrame : Set := mkCloseFrame { close_code : Z; close_reason : string }.
Definition CloseFrame_normal : CloseFrame := mkCloseFrame 1000 "".

(** ** [WebSocketLimits] *)
Record WebSocketLimits : Set := mkWebSocketLimits {
  max_message_size : Z;
  max_frame_size : Z;
  max_write_buffer_size : Z
}.

Definition WebSocketLimits_default : WebSocketLimits := {|
  max_message_size := 16 * 1024 * 1024;
  max_frame_size := 4 * 1024 * 1024;
  max_write_buffer_size := 16 * 1024 * 1024
|}.

Definition WebSocketLimits_validate (l : WebSocketLimits) : outcome Error unit :=
  if max_message_size l =? 0 then
    Err (Protocol "max_message_size must be greater than zero")
  else if max_frame_size l =? 0 then
    Err (Protocol "max_frame_size must be greater than zero")
  else if max_message_size l <? max_frame_size l then
    Err (Protocol "max_frame_size must not exceed max_message_size")
  else if max_write_buffer_size l =? 0 then
    Err (Protocol "max_write_buffer_size must be greater than zero")
  else Ok tt.

Record ConnectOptions : Set := mkConnectOptions {
  protocols : list string;
  headers : list (string * string);
  limits_of : WebSocketLimits
}.
