(* ===== verification/Limits.v ===== *)
(** * Session limits of the multiplexed transports

    Models [Limits] of [websock-tungstenite-mux/src/session.rs]: the record, its
    defaults, [validate] and [websocket_config].  The browser transport's
    [Limits] ([websock-wasm-mux/src/session.rs]) has the same fields, defaults
    and checks. *)

From S2P Require Import Prelude Buf VarInt Frame Proto.

Record Limits : Set := mkLimits {
  max_ws_message_size : Z;
  max_stream_data_per_frame : Z;
  max_open_streams : Z;
  recv_event_queue_len : Z;
  outbound_queue_len : Z;
  max_batch_frames : Z;
  max_batch_bytes : Z;
  initial_stream_window : Z;
  stream_window_update_threshold : Z;
  accept_uni_queue_len : Z;
  accept_bi_queue_len : Z
}.

Definition Limits_default : Limits := {|
  max_ws_message_size := 1024 * 1024;
  max_stream_data_per_frame := 256 * 1024;
  max_open_streams := 1024;
  recv_event_queue_len := 128;
  outbound_queue_len := 256;
  max_batch_frames := 64;
  max_batch_bytes := 512 * 1024;
  initial_stream_window := 512 * 1024;
  stream_window_update_threshold := 256 * 1024;
  accept_uni_queue_len := 128;
  accept_bi_queue_len := 128
|}.

Section Validate.
Context `{UsizeWidth}.

Definition Limits_validate (l : Limits) : outcome Error unit :=
  let non_zero :=
    [("max_ws_message_size", max_ws_message_size l);
     ("max_stream_data_per_frame", max_stream_data_per_frame l);
     ("max_open_streams", max_open_streams l);
     ("recv_event_queue_len", recv_event_queue_len l);
     ("outbound_queue_len", outbound_queue_len l);
     ("max_batch_frames", max_batch_frames l);
     ("max_batch_bytes", max_batch_bytes l);
     ("initial_stream_window", initial_stream_window l);
     ("stream_window_update_threshold", stream_window_update_threshold l);
     ("accept_uni_queue_len", accept_uni_queue_len l);
     ("accept_bi_queue_len", accept_bi_queue_len l)] in
  match List.find (fun p => snd p =? 0) non_zero with
  | Some (name, _) => Err (Protocol (name +:+ " must be greater than zero"))
  | None =>
      if max_ws_message_size l <? max_stream_data_per_frame l then
        Err (Protocol "max_stream_data_per_frame must not exceed max_ws_message_size")
      else if max_ws_message_size l <? max_batch_bytes l then
        Err (Protocol "max_batch_bytes must not exceed max_ws_message_size")
      else if max_batch_bytes l <? saturating_add_usize (max_stream_data_per_frame l) 33 then
        Err (Protocol "max_batch_bytes must accommodate a maximum-size stream frame")
      else if initial_stream_window l <? stream_window_update_threshold l then
        Err (Protocol "stream_window_update_threshold must not exceed initial_stream_window")
      else if (VarInt_MAX <? max_ws_message_size l) || (VarInt_MAX <? initial_stream_window l) then
        Err (Protocol "byte and flow-control limits must fit in a mux varint")
      else Ok tt
  end.

(** The transport configuration: the fields [websocket_config] sets. *)
Record WebSocketConfig : Set := mkWebSocketConfig {
  read_buffer_size : Z;
  write_buffer_size : Z;
  cfg_max_write_buffer_size : Z;
  cfg_max_message_size : option Z;
  cfg_max_frame_size : option Z
}.

Definition websocket_config (l : Limits) : WebSocketConfig :=
  let buffer_size := Z.min (max_ws_message_size l) (128 * 1024) in
  {| read_buffer_size := buffer_size;
     write_buffer_size := buffer_size;
     cfg_max_write_buffer_size := saturating_add_usize buffer_size (max_ws_message_size l);
     cfg_max_message_size := Some (max_ws_message_size l);
     cfg_max_frame_size := Some (max_ws_message_size l) |}.
End Validate.

(** ** What a validated configuration guarantees *)

(** Every field is a [usize] on the platform. *)
Definition limits_usize `{UsizeWidth} (l : Limits) : Prop :=
  Forall (fun x => 0 <= x <= usize_max)
    [max_ws_message_size l; max_stream_data_per_frame l; max_open_streams l;
     recv_event_queue_len l; outbound_queue_len l; max_batch_frames l; max_batch_bytes l;
     initial_stream_window l; stream_window_update_threshold l; accept_uni_queue_len l;
     accept_bi_queue_len l].

Record limits_ok (l : Limits) : Prop := {
  lo_msg : 0 < max_ws_message_size l <= VarInt_MAX;
  lo_data : 0 < max_stream_data_per_frame l;
  lo_open : 0 < max_open_streams l;
  lo_recvq : 0 < recv_event_queue_len l;
  lo_outq : 0 < outbound_queue_len l;
  lo_bframes : 0 < max_batch_frames l;
  lo_batch : max_stream_data_per_frame l + 33 <= max_batch_bytes l <= max_ws_message_size l;
  lo_window : 0 < initial_stream_window l <= VarInt_MAX;
  lo_thresh : 0 < stream_window_update_threshold l <= initial_stream_window l;
  lo_uniq : 0 < accept_uni_queue_len l;
  lo_biq : 0 < accept_bi_queue_len l
}.

Section ValidateLemmas.
Context `{UsizeWidth}.

(** [validate] succeeds exactly on consistent limits.  On a 32-bit [usize] the
    saturating addition admits one more case, the largest batch size. *)
Lemma Limits_validate_iff l :
  limits_usize l ->
  Limits_validate l = Ok tt <->
  (limits_ok l \/
   (0 < max_ws_message_size l /\ 0 < max_stream_data_per_frame l
    /\ 0 < max_open_streams l /\ 0 < recv_event_queue_len l /\ 0 < outbound_queue_len l
    /\ 0 < max_batch_frames l /\ 0 < accept_uni_queue_len l /\ 0 < accept_bi_queue_len l
    /\ usize_max < max_stream_data_per_frame l + 33
    /\ max_stream_data_per_frame l <= max_ws_message_size l
    /\ max_batch_bytes l = usize_max /\ max_ws_message_size l = usize_max
    /\ 0 < stream_window_update_threshold l <= initial_stream_window l
    /\ usize_max <= VarInt_MAX /\ 0 < max_batch_bytes l)).
Proof.
  unfold limits_usize. rewrite !Forall_cons. intros Hu. destruct_and!.
  unfold Limits_validate, saturating_add_usize. cbn [List.find snd].
  split.
  - repeat match goal with
    | |- context [?x =? 0] => destruct (x =? 0) eqn:?; [done|]
    end.
    repeat match goal with
    | |- context [if ?b then _ else _] => destruct b eqn:?; [done|]
    end.
    intros _. destruct (Z.le_gt_cases (max_stream_data_per_frame l + 33) usize_max).
    + left. split; lia.
    + right. lia.
  - intros Hok.
    repeat match goal with
    | |- context [?x =? 0] =>
        destruct (x =? 0) eqn:?; [exfalso; destruct Hok as [[]|Hok];
          lia|]
    end.
    repeat match goal with
    | |- context [if ?b then _ else _] =>
        destruct b eqn:?; [exfalso; destruct Hok as [[]|Hok];
          lia|]
    end.
    done.
Qed.

Lemma Limits_validate_ok l :
  62 < usize_bits -> limits_usize l -> Limits_validate l = Ok tt -> limits_ok l.
Proof.
  intros Hw Hu Hv. apply Limits_validate_iff in Hv as [Hok|Hr]; [done..| |done].
  exfalso. destruct_and!. unfold usize_max in *.
  assert (2 ^ 63 <= 2 ^ usize_bits) by (apply Z.pow_le_mono_r; lia).
  change VarInt_MAX with (2 ^ 62 - 1) in *. lia.
Qed.
End ValidateLemmas.

Lemma varint_bytes_max x : (1 <= length (varint_bytes x) <= 8)%nat.
Proof. unfold varint_bytes. repeat case_match; rewrite be_bytes_length; lia. Qed.

(** Overhead of a [Stream] frame: tag, identifier, FIN flag and length. *)
Lemma stream_frame_overhead id data fin :
  blen (frame_bytes (Stream id data fin)) <= blen data + 18.
Proof.
  unfold blen. cbn [frame_bytes]. rewrite !length_app.
  pose proof (varint_bytes_max (sid id)). pose proof (varint_bytes_max (blen data)).
  replace (length (varint_bytes 2)) with 1%nat by reflexivity.
  replace (length (varint_bytes (Z.b2z fin))) with 1%nat by (by destruct fin).
  unfold blen in *. lia.
Qed.

(** ** Properties *)
Section LimitsProperties.
Context `{UsizeWidth}.

(** With a [usize] wider than 62 bits, [Limits::validate] returns [Ok] exactly on
    the configurations in which every limit is positive, a maximum-size stream
    frame fits a batch, a batch fits a WebSocket message, the update threshold does
    not exceed the window, and the byte limits are varints; anything else is
    reported as a protocol error, never as a panic. *)
Theorem Limits_validate_spec l :
  62 < usize_bits -> limits_usize l ->
  (Limits_validate l = Ok tt <-> limits_ok l)
  /\ (limits_ok l \/ exists reason, Limits_validate l = Err (Protocol reason)).
Proof.
  intros Hw Hu. assert (Hiff : Limits_validate l = Ok tt <-> limits_ok l).
  { split; [by apply Limits_validate_ok|]. intros Hok. apply Limits_validate_iff; auto. }
  split; [done|].
  assert (Hcases : Limits_validate l = Ok tt \/ exists reason, Limits_validate l = Err (Protocol reason)).
  { unfold Limits_validate. repeat case_match; eauto. }
  destruct Hcases as [Hk|]; [left; by apply Hiff|by right].
Qed.

(** Under validated limits every [Stream] frame within the payload limit is
    encodable and its encoding fits one batch, hence one WebSocket message. *)
Theorem validated_stream_frame_fits_batch l id data fin :
  62 < usize_bits -> limits_usize l -> Limits_validate l = Ok tt ->
  sid_ok id -> blen data <= max_stream_data_per_frame l ->
  exists n, Frame_encoded_len (Stream id data fin) = Ok n
            /\ n <= max_batch_bytes l <= max_ws_message_size l.
Proof.
  intros Hw Hu Hv Hid Hlen. destruct (Limits_validate_ok l Hw Hu Hv).
  assert (Hf : frame_ok (Stream id data fin)).
  { split; [done|]. unfold varint_ok, blen in *. lia. }
  eexists. split; [by apply Frame_encoded_len_bytes|].
  pose proof (stream_frame_overhead id data fin). lia.
Qed.

(** The transport configuration derived from validated limits accepts messages
    of exactly the configured size and keeps the write-buffer watermark strictly
    below its maximum, as the WebSocket implementation requires. *)
Theorem websocket_config_consistent l :
  62 < usize_bits -> limits_usize l -> Limits_validate l = Ok tt ->
  let c := websocket_config l in
  write_buffer_size c < cfg_max_write_buffer_size c <= usize_max
  /\ 0 < read_buffer_size c <= max_ws_message_size l
  /\ cfg_max_message_size c = Some (max_ws_message_size l)
  /\ cfg_max_frame_size c = Some (max_ws_message_size l).
Proof.
  intros Hw Hu Hv c. destruct (Limits_validate_ok l Hw Hu Hv). subst c. simpl.
  unfold saturating_add_usize, usize_max.
  assert (2 ^ 63 <= 2 ^ usize_bits) by (apply Z.pow_le_mono_r; lia).
  change VarInt_MAX with (2 ^ 62 - 1) in *. split_and!; first [done | lia].
Qed.
End LimitsProperties.

Lemma limits_usize_default : @limits_usize usize64 Limits_default.
Proof. unfold limits_usize. repeat constructor; vm_compute; discriminate. Qed.

Lemma Limits_validate_spec_witness :
  (@Limits_validate usize64 Limits_default = Ok tt <-> limits_ok Limits_default)
  /\ (limits_ok Limits_default
      \/ exists reason, @Limits_validate usize64 Limits_default = Err (Protocol reason)).
Proof. apply (@Limits_validate_spec usize64); [reflexivity|apply limits_usize_default]. Defined.

Lemma validated_stream_frame_fits_batch_witness :
  exists n, Frame_encoded_len (Stream (mkStreamId 4) (as_bytes "data") true) = Ok n
            /\ n <= max_batch_bytes Limits_default <= max_ws_message_size Limits_default.
Proof.
  apply (@validated_stream_frame_fits_batch usize64 Limits_default (mkStreamId 4)
           (as_bytes "data") true).
  - reflexivity.
  - apply limits_usize_default.
  - vm_compute. reflexivity.
  - vm_compute. split; discriminate.
  - vm_compute. discriminate.
Defined.

Lemma websocket_config_consistent_witness :
  let c := @websocket_config usize64 Limits_default in
  write_buffer_size c < cfg_max_write_buffer_size c <= @usize_max usize64
  /\ 0 < read_buffer_size c <= max_ws_message_size Limits_default
  /\ cfg_max_message_size c = Some (max_ws_message_size Limits_default)
  /\ cfg_max_frame_size c = Some (max_ws_message_size Limits_default).
Proof.
  apply (@websocket_config_consistent usize64 Limits_default);
    [reflexivity|apply limits_usize_default|vm_compute; reflexivity].
Defined.
