(* ===== verification/SendFlow.v ===== *)
(** * Send-side flow control

    Models [SendFlowState] of [websock-tungstenite-mux/src/session.rs]: the credit
    counters a send stream shares with the session, accessed through atomics from
    several tasks.  Each method is given twice: as one atomic function (what the
    session model calls), and as the sequence of single atomic loads, stores and
    compare-exchanges the source executes, so that its safety is proved for every
    interleaving.  [waker] is a third-party [AtomicWaker]; the model counts the
    [wake] calls. *)

From S2P Require Import Prelude.

Record SendFlowState : Set := mkFlow {
  flow_max : Z;        (** [max_data: AtomicU64] *)
  flow_sent : Z;       (** [sent_data: AtomicU64] *)
  flow_closed : bool;  (** [closed: AtomicBool] *)
  flow_wakes : Z       (** calls of [waker.wake()] *)
}.

Definition SendFlowState_new (initial_max : Z) : SendFlowState :=
  mkFlow initial_max 0 false 0.

(** ** The methods, run without interference *)
Definition try_reserve (requested : Z) (st : SendFlowState) : Z * SendFlowState :=
  if (requested =? 0) || flow_closed st then (0, st)
  else if flow_max st <=? flow_sent st then (0, st)
  else
    let available := flow_max st - flow_sent st in
    let grant := Z.min available requested in
    (grant, mkFlow (flow_max st) (flow_sent st + grant) (flow_closed st) (flow_wakes st)).

(** [fetch_sub] wraps around at zero. *)
Definition release (n : Z) (st : SendFlowState) : SendFlowState :=
  if n =? 0 then st
  else mkFlow (flow_max st) (wrap64 (flow_sent st - n)) (flow_closed st) (flow_wakes st).

Definition update_max (max : Z) (st : SendFlowState) : SendFlowState :=
  if flow_closed st then st
  else if flow_max st <? max
  then mkFlow max (flow_sent st) (flow_closed st) (flow_wakes st + 1)
  else st.

Definition flow_close (st : SendFlowState) : SendFlowState :=
  mkFlow (flow_max st) (flow_sent st) true (flow_wakes st + 1).

(** ** The methods, one atomic access at a time *)
Inductive fpc : Set :=
| Idle
| ResClosed (req : Z)              (** [requested == 0 || closed.load()] *)
| ResSent (req : Z)                (** [sent_data.load()] *)
| ResMax (req sent : Z)            (** [max_data.load()] *)
| ResCas (req sent grant : Z)      (** [compare_exchange(sent, sent + grant)] *)
| Held (grant : Z)                 (** returned [grant > 0] to the caller *)
| Releasing (grant : Z)            (** [sent_data.fetch_sub(grant)] *)
| UpdClosed (max : Z)              (** [closed.load()] *)
| UpdLoad (max : Z)                (** [max_data.load()] *)
| UpdCas (max cur : Z)             (** [while max > cur]: [compare_exchange(cur, max)] *)
| UpdWake                          (** [waker.wake()] *)
| ClsStore                         (** [closed.store(true)] *)
| ClsWake.                         (** [waker.wake()] *)

(** What one access does to the shared state and where the thread goes next.  A
    thread that holds a grant waits for its caller. *)
Definition fstep (pc : fpc) (st : SendFlowState) : fpc * SendFlowState :=
  match pc with
  | Idle | Held _ => (pc, st)
  | ResClosed req =>
      if (req =? 0) || flow_closed st then (Idle, st) else (ResSent req, st)
  | ResSent req => (ResMax req (flow_sent st), st)
  | ResMax req sent =>
      if flow_max st <=? sent then (Idle, st)
      else (ResCas req sent (Z.min (flow_max st - sent) req), st)
  | ResCas req sent grant =>
      if flow_sent st =? sent
      then (Held grant, mkFlow (flow_max st) (sent + grant) (flow_closed st) (flow_wakes st))
      else (ResSent req, st)
  | Releasing g =>
      (Idle, mkFlow (flow_max st) (wrap64 (flow_sent st - g)) (flow_closed st) (flow_wakes st))
  | UpdClosed m => if flow_closed st then (Idle, st) else (UpdLoad m, st)
  | UpdLoad m => if flow_max st <? m then (UpdCas m (flow_max st), st) else (Idle, st)
  | UpdCas m cur =>
      if flow_max st =? cur
      then (UpdWake, mkFlow m (flow_sent st) (flow_closed st) (flow_wakes st))
      else if flow_max st <? m then (UpdCas m (flow_max st), st) else (Idle, st)
  | UpdWake | ClsWake =>
      (Idle, mkFlow (flow_max st) (flow_sent st) (flow_closed st) (flow_wakes st + 1))
  | ClsStore => (ClsWake, mkFlow (flow_max st) (flow_sent st) true (flow_wakes st))
  end.

Fixpoint solo (n : nat) (pc : fpc) (st : SendFlowState) : fpc * SendFlowState :=
  match n with
  | O => (pc, st)
  | S n => let '(pc, st) := fstep pc st in solo n pc st
  end.

(** ** Interleaved executions

    [committed] counts the payload bytes of reservations whose frame was queued:
    what the peer will see.  A thread that holds a grant either commits it or
    gives it back with [release]. *)
Record flow_sys : Set := mkFlowSys {
  fs_flow : SendFlowState;
  fs_committed : Z;
  fs_threads : list fpc
}.

Inductive flow_step : flow_sys -> flow_sys -> Prop :=
| fs_start st c ths i pc :
    ths !! i = Some Idle ->
    (exists req, 0 <= req /\ pc = ResClosed req)
      \/ (exists m, is_u64 m /\ pc = UpdClosed m) \/ pc = ClsStore ->
    flow_step (mkFlowSys st c ths) (mkFlowSys st c (<[i:=pc]> ths))
| fs_access st c ths i pc pc' st' :
    ths !! i = Some pc -> fstep pc st = (pc', st') ->
    flow_step (mkFlowSys st c ths) (mkFlowSys st' c (<[i:=pc']> ths))
| fs_commit st c ths i g :
    ths !! i = Some (Held g) ->
    flow_step (mkFlowSys st c ths) (mkFlowSys st (c + g) (<[i:=Idle]> ths))
| fs_giveback st c ths i g :
    ths !! i = Some (Held g) ->
    flow_step (mkFlowSys st c ths) (mkFlowSys st c (<[i:=Releasing g]> ths)).

(** Credit a thread has taken out of [sent_data] and not yet settled. *)
Definition outstanding (pc : fpc) : Z :=
  match pc with Held g | Releasing g => g | _ => 0 end.

Definition total_outstanding (ths : list fpc) : Z := foldr (fun pc => Z.add (outstanding pc)) 0 ths.

Definition thread_ok (st : SendFlowState) (pc : fpc) : Prop :=
  match pc with
  | ResClosed req | ResSent req | ResMax req _ => 0 <= req
  | ResCas req sent g => 0 <= req /\ 0 <= g /\ sent + g <= flow_max st
  | Held g | Releasing g => 0 <= g
  | UpdClosed m | UpdLoad m => is_u64 m
  | UpdCas m cur => is_u64 m /\ cur < m
  | _ => True
  end.

Record flow_inv (s : flow_sys) : Prop := {
  fi_max : is_u64 (flow_max (fs_flow s));
  fi_committed : 0 <= fs_committed s;
  fi_sent : flow_sent (fs_flow s) = fs_committed s + total_outstanding (fs_threads s);
  fi_credit : flow_sent (fs_flow s) <= flow_max (fs_flow s);
  fi_threads : Forall (thread_ok (fs_flow s)) (fs_threads s)
}.

Lemma total_outstanding_insert ths i pc pc' :
  ths !! i = Some pc ->
  total_outstanding (<[i:=pc']> ths) = total_outstanding ths - outstanding pc + outstanding pc'.
Proof.
  revert i. induction ths as [|x ths IH]; intros [|i] Hi; simpl in *; try done.
  - injection Hi as ->. lia.
  - rewrite (IH i Hi). lia.
Qed.

Lemma thread_ok_mono st st' pc :
  flow_max st <= flow_max st' -> thread_ok st pc -> thread_ok st' pc.
Proof. destruct pc; simpl; intuition lia. Qed.

Lemma total_outstanding_nonneg st ths :
  Forall (thread_ok st) ths -> 0 <= total_outstanding ths.
Proof. induction 1 as [|pc ths Hpc _ IH]; simpl; [lia|]. destruct pc; simpl in *; lia. Qed.

Lemma outstanding_le st ths i pc :
  Forall (thread_ok st) ths -> ths !! i = Some pc -> outstanding pc <= total_outstanding ths.
Proof.
  intros Hf. revert i. induction Hf as [|x ths Hx Hf IH]; intros [|i] Hi; simpl in *; try done.
  - injection Hi as ->. apply total_outstanding_nonneg in Hf. lia.
  - specialize (IH i Hi). destruct x; simpl in *; lia.
Qed.

(** The limit never goes down. *)
Lemma fstep_max_mono pc st :
  thread_ok st pc -> flow_max st <= flow_max (fstep pc st).2.
Proof.
  destruct pc; simpl; intros Hok; repeat case_match; simpl in *; lia.
Qed.

Lemma fstep_inv st c ths i pc pc' st' :
  flow_inv (mkFlowSys st c ths) -> ths !! i = Some pc -> fstep pc st = (pc', st') ->
  flow_inv (mkFlowSys st' c (<[i:=pc']> ths)).
Proof.
  intros [Hm Hc Hs Hcr Hth] Hi Hst. simpl in *.
  assert (Hpc : thread_ok st pc) by (by eapply Forall_lookup_1).
  pose proof (fstep_max_mono pc st Hpc) as Hmono. rewrite Hst in Hmono. simpl in Hmono.
  pose proof (outstanding_le _ _ _ _ Hth Hi) as Hout.
  assert (Hst' : is_u64 (flow_max st') /\ flow_sent st' <= flow_max st'
     /\ flow_sent st' - outstanding pc' = flow_sent st - outstanding pc /\ thread_ok st' pc').
  { destruct pc; simpl in *; repeat case_match; simplify_eq; simpl in *;
      unfold is_u64, wrap64, u64_mod in *; lia. }
  destruct Hst' as (H1 & H2 & H3 & H4). constructor; simpl; [done..| | |].
  - rewrite (total_outstanding_insert _ _ pc) by done. lia.
  - done.
  - apply Forall_insert; [|done]. eapply Forall_impl; [done|]. intros. by eapply thread_ok_mono.
Qed.

Lemma flow_step_inv s s' : flow_step s s' -> flow_inv s -> flow_inv s'.
Proof.
  destruct 1 as [st c ths i pc Hi Hpc|st c ths i pc pc' st' Hi Hst|st c ths i g Hi|st c ths i g Hi];
    intros Hinv; [|by eapply fstep_inv| |]; destruct Hinv as [Hm Hc Hs Hcr Hth]; simpl in *;
    pose proof (Forall_lookup_1 _ _ _ _ Hth Hi) as Hok; simpl in Hok;
    (constructor; simpl; [done|lia| |done|]);
    try (erewrite total_outstanding_insert by done; simpl; lia);
    try (by apply Forall_insert).
  - erewrite total_outstanding_insert by done.
    destruct Hpc as [(r & ? & ->)| [(m & ? & ->)| ->]]; simpl; lia.
  - apply Forall_insert; [done|]. by destruct Hpc as [(r & ? & ->)| [(m & ? & ->)| ->]].
Qed.

Lemma flow_inv_init m n :
  is_u64 m -> flow_inv (mkFlowSys (SendFlowState_new m) 0 (replicate n Idle)).
Proof.
  intros Hm. assert (Ht : total_outstanding (replicate n Idle) = 0)
    by (induction n; simpl; lia).
  constructor; simpl; [done|lia|lia|unfold is_u64 in Hm; lia|].
  apply Forall_replicate. done.
Qed.

Lemma flow_reachable_inv s s' : rtc flow_step s s' -> flow_inv s -> flow_inv s'.
Proof. induction 1; eauto using flow_step_inv. Qed.

(** ** Properties *)

(** C34: however many tasks call [try_reserve], [release], [update_max] and [close]
    on one stream, and however their atomic accesses interleave, the bytes committed
    to the wire plus every outstanding reservation equal [sent_data] and never exceed
    the peer's latest limit, and [fetch_sub] never wraps below zero. *)
Theorem flow_credit_safe m n s :
  is_u64 m ->
  rtc flow_step (mkFlowSys (SendFlowState_new m) 0 (replicate n Idle)) s ->
  0 <= fs_committed s <= flow_sent (fs_flow s)
  /\ flow_sent (fs_flow s) = fs_committed s + total_outstanding (fs_threads s)
  /\ flow_sent (fs_flow s) <= flow_max (fs_flow s) < u64_mod.
Proof.
  intros Hm Hr. pose proof (flow_reachable_inv _ _ Hr (flow_inv_init m n Hm)) as [Hi Hc Hs Hcr Hth].
  pose proof (total_outstanding_nonneg _ _ Hth). unfold is_u64 in Hi. lia.
Qed.

(** C35: the compare-exchange loops terminate when undisturbed, in at most four
    accesses, and compute exactly the atomic functions: [try_reserve] ends holding
    its grant (or idle when it returns 0), [update_max] ends with the larger limit. *)
Theorem flow_solo_atomic st req m :
  0 <= req ->
  (exists k, (k <= 4)%nat /\
     solo k (ResClosed req) st =
       (if (try_reserve req st).1 =? 0 then Idle else Held (try_reserve req st).1,
        (try_reserve req st).2))
  /\ (exists k, (k <= 4)%nat /\ solo k (UpdClosed m) st = (Idle, update_max m st))
  /\ solo 2 ClsStore st = (Idle, flow_close st).
Proof.
  intros Hreq. destruct st as [mx sn cl w]. split_and!; [| |done].
  - unfold try_reserve. destruct ((req =? 0) || cl) eqn:E0; simpl in *.
    { exists 1%nat. split; [lia|]. simpl. by rewrite E0. }
    destruct (mx <=? sn) eqn:E1; simpl.
    { exists 3%nat. split; [lia|]. simpl. rewrite E0; simpl. by rewrite E1. }
    exists 4%nat. split; [lia|]. simpl. rewrite E0; simpl. rewrite E1; simpl.
    rewrite Z.eqb_refl. destruct (Z.min _ _ =? 0) eqn:E2; [lia|done].
  - unfold update_max. destruct cl; simpl; [by exists 1%nat; split; [lia|]|].
    destruct (mx <? m) eqn:E1.
    + exists 4%nat. split; [lia|]. simpl. rewrite E1; simpl. by rewrite Z.eqb_refl.
    + exists 2%nat. split; [lia|]. simpl. by rewrite E1.
Qed.

(** A concrete race: two reservations against a limit of 10, the first given back. *)
Lemma flow_credit_safe_witness :
  let s := mkFlowSys (mkFlow 10 10 false 0) 0 [Held 8; Held 2] in
  0 <= fs_committed s <= flow_sent (fs_flow s)
  /\ flow_sent (fs_flow s) = fs_committed s + total_outstanding (fs_threads s)
  /\ flow_sent (fs_flow s) <= flow_max (fs_flow s) < u64_mod.
Proof.
  apply (flow_credit_safe 10 2); [vm_compute; split; [discriminate|reflexivity]|].
  eapply rtc_l; [eapply (fs_start _ _ _ 0); [reflexivity|left; exists 8; split; [lia|reflexivity]]|].
  eapply rtc_l; [eapply (fs_start _ _ _ 1); [reflexivity|left; exists 8; split; [lia|reflexivity]]|].
  do 3 (eapply rtc_l; [eapply (fs_access _ _ _ 0); reflexivity|]).
  do 3 (eapply rtc_l; [eapply (fs_access _ _ _ 1); reflexivity|]).
  eapply rtc_l; [eapply (fs_access _ _ _ 0); reflexivity|].
  do 4 (eapply rtc_l; [eapply (fs_access _ _ _ 1); reflexivity|]).
  apply rtc_refl.
Defined.

Lemma flow_solo_atomic_witness :
  let st := SendFlowState_new 10 in
  (exists k, (k <= 4)%nat /\
     solo k (ResClosed 16) st =
       (if (try_reserve 16 st).1 =? 0 then Idle else Held (try_reserve 16 st).1,
        (try_reserve 16 st).2))
  /\ (exists k, (k <= 4)%nat /\ solo k (UpdClosed 20) st = (Idle, update_max 20 st))
  /\ solo 2 ClsStore st = (Idle, flow_close st).
Proof. apply (flow_solo_atomic (SendFlowState_new 10) 16 20). discriminate. Defined.
