(* ===== verification/Channel.v ===== *)
(** * Bounded multi-producer channels ([tokio::sync::mpsc])

    The channel implementation is not part of the repository.  [Mpsc] is the
    interface the sources call; [MpscLaws] states its documented behaviour on the
    observable state [cview] of a channel: a FIFO queue with a capacity, where a
    reserved permit occupies a slot, [try_send] fails with [Full] or [Closed]
    without enqueuing, and the receiver sees the end of the stream once every
    sender is gone and the queue is drained.  [cview] itself is the reference
    instance. *)

From S2P Require Import Prelude.

Inductive try_send_res : Set := SendOk | SendFull | SendClosed.
Inductive reserve_res : Set := ReserveOk | ReserveClosed | ReservePending.
Inductive recv_res (A : Type) : Type := RecvItem (a : A) | RecvEnd | RecvPending.
Arguments RecvItem {A} a.
Arguments RecvEnd {A}.
Arguments RecvPending {A}.

(** What is observable of a channel. *)
Record cview (A : Type) : Type := mkCview {
  cv_cap : Z;          (** capacity *)
  cv_buf : list A;     (** queued messages, oldest first *)
  cv_permits : Z;      (** permits reserved and not yet used *)
  cv_senders : Z;      (** live [Sender] handles *)
  cv_rx : bool         (** the [Receiver] is alive *)
}.
Arguments mkCview {A}.
Arguments cv_cap {A}.
Arguments cv_buf {A}.
Arguments cv_permits {A}.
Arguments cv_senders {A}.
Arguments cv_rx {A}.

Class Mpsc (chan : Type -> Type) : Type := {
  channel : forall {A}, Z -> chan A;
  tx_try_send : forall {A}, A -> chan A -> try_send_res * chan A;
  tx_reserve : forall {A}, chan A -> reserve_res * chan A;
  permit_send : forall {A}, A -> chan A -> chan A;
  permit_drop : forall {A}, chan A -> chan A;
  tx_clone : forall {A}, chan A -> chan A;
  tx_drop : forall {A}, chan A -> chan A;
  rx_recv : forall {A}, chan A -> recv_res A * chan A;
  rx_is_empty : forall {A}, chan A -> bool;
  (** the queued messages are dropped with the receiver *)
  rx_drop : forall {A}, chan A -> list A * chan A;
  (** [PollSender::send_item] on a reserved slot; [false] when it reports an error *)
  ps_send_item : forall {A}, A -> chan A -> bool * chan A
}.

Section ReferenceQueue.
Context {A : Type}.

Definition cv_room (v : cview A) : bool :=
  Z.of_nat (length (cv_buf v)) + cv_permits v <? cv_cap v.

Definition cv_channel (n : Z) : cview A := mkCview n [] 0 1 true.

Definition cv_push (a : A) (v : cview A) : cview A :=
  mkCview (cv_cap v) (cv_buf v ++ [a]) (cv_permits v) (cv_senders v) (cv_rx v).

Definition cv_set_permits (n : Z) (v : cview A) : cview A :=
  mkCview (cv_cap v) (cv_buf v) n (cv_senders v) (cv_rx v).

Definition cv_set_senders (n : Z) (v : cview A) : cview A :=
  mkCview (cv_cap v) (cv_buf v) (cv_permits v) n (cv_rx v).

Definition cv_try_send (a : A) (v : cview A) : try_send_res * cview A :=
  if negb (cv_rx v) then (SendClosed, v)
  else if cv_room v then (SendOk, cv_push a v)
  else (SendFull, v).

Definition cv_reserve (v : cview A) : reserve_res * cview A :=
  if negb (cv_rx v) then (ReserveClosed, v)
  else if cv_room v then (ReserveOk, cv_set_permits (cv_permits v + 1) v)
  else (ReservePending, v).

Definition cv_recv (v : cview A) : recv_res A * cview A :=
  match cv_buf v with
  | a :: l => (RecvItem a, mkCview (cv_cap v) l (cv_permits v) (cv_senders v) (cv_rx v))
  | [] => (if cv_senders v =? 0 then RecvEnd else RecvPending, v)
  end.

(** Dropping the receiver drops the queued messages. *)
Definition cv_rx_drop (v : cview A) : cview A :=
  mkCview (cv_cap v) [] (cv_permits v) (cv_senders v) false.
End ReferenceQueue.

Class MpscLaws (chan : Type -> Type) `{Mpsc chan} : Type := {
  view : forall {A}, chan A -> cview A;
  view_channel A n : view (channel (A := A) n) = cv_channel n;
  try_send_res_view A (a : A) c : (tx_try_send a c).1 = (cv_try_send a (view c)).1;
  try_send_view A (a : A) c : view (tx_try_send a c).2 = (cv_try_send a (view c)).2;
  reserve_res_view A (c : chan A) : (tx_reserve c).1 = (cv_reserve (view c)).1;
  reserve_view A (c : chan A) : view (tx_reserve c).2 = (cv_reserve (view c)).2;
  permit_send_view A (a : A) c :
    view (permit_send a c) = cv_set_permits (cv_permits (view c) - 1) (cv_push a (view c));
  permit_drop_view A (c : chan A) :
    view (permit_drop c) = cv_set_permits (cv_permits (view c) - 1) (view c);
  tx_clone_view A (c : chan A) :
    view (tx_clone c) = cv_set_senders (cv_senders (view c) + 1) (view c);
  tx_drop_view A (c : chan A) :
    view (tx_drop c) = cv_set_senders (cv_senders (view c) - 1) (view c);
  recv_res_view A (c : chan A) : (rx_recv c).1 = (cv_recv (view c)).1;
  recv_view A (c : chan A) : view (rx_recv c).2 = (cv_recv (view c)).2;
  rx_is_empty_view A (c : chan A) :
    rx_is_empty c = match cv_buf (view c) with [] => true | _ => false end;
  rx_drop_msgs A (c : chan A) : (rx_drop c).1 = cv_buf (view c);
  rx_drop_view A (c : chan A) : view (rx_drop c).2 = cv_rx_drop (view c);
  send_item_view A (a : A) c :
    view (ps_send_item a c).2 =
      cv_set_permits (cv_permits (view c) - 1)
        (if (ps_send_item a c).1 then cv_push a (view c) else view c)
}.

#[global] Instance cview_mpsc : Mpsc cview := {
  channel A n := cv_channel n;
  tx_try_send A := cv_try_send;
  tx_reserve A := cv_reserve;
  permit_send A a v := cv_set_permits (cv_permits v - 1) (cv_push a v);
  permit_drop A v := cv_set_permits (cv_permits v - 1) v;
  tx_clone A v := cv_set_senders (cv_senders v + 1) v;
  tx_drop A v := cv_set_senders (cv_senders v - 1) v;
  rx_recv A := cv_recv;
  rx_is_empty A v := match cv_buf v with [] => true | _ => false end;
  rx_drop A v := (cv_buf v, cv_rx_drop v);
  ps_send_item A a v := (true, cv_set_permits (cv_permits v - 1) (cv_push a v))
}.

#[global] Program Instance cview_mpsc_laws : MpscLaws cview := {
  view A v := v
}.
Solve All Obligations with done.

(** Every message of a queue satisfies [P]: preserved by every operation that
    does not add a message, and by adding one that satisfies it. *)
Section ChannelForall.
Context {chan : Type -> Type} `{MpscLaws chan} {A : Type} (P : A -> Prop).

Definition chan_all (c : chan A) : Prop := Forall P (cv_buf (view c)).

Lemma chan_all_channel n : chan_all (channel n).
Proof. unfold chan_all. rewrite view_channel. constructor. Qed.

Lemma chan_all_try_send a c : P a -> chan_all c -> chan_all (tx_try_send a c).2.
Proof.
  intros Ha Hc. unfold chan_all in *. rewrite try_send_view. unfold cv_try_send.
  repeat case_match; simpl; [done| |done]. apply Forall_app; auto.
Qed.

Lemma chan_all_reserve c : chan_all c -> chan_all (tx_reserve c).2.
Proof.
  intros Hc. unfold chan_all in *. rewrite reserve_view. unfold cv_reserve.
  by repeat case_match.
Qed.

Lemma chan_all_permit_send a c : P a -> chan_all c -> chan_all (permit_send a c).
Proof.
  intros Ha Hc. unfold chan_all in *. rewrite permit_send_view. simpl.
  apply Forall_app; auto.
Qed.

Lemma chan_all_permit_drop c : chan_all c -> chan_all (permit_drop c).
Proof. intros Hc. unfold chan_all in *. by rewrite permit_drop_view. Qed.

Lemma chan_all_recv c : chan_all c -> chan_all (rx_recv c).2.
Proof.
  intros Hc. unfold chan_all in *. rewrite recv_view. unfold cv_recv.
  destruct (cv_buf (view c)) eqn:E; simpl; [by rewrite E|]. by apply Forall_inv_tail in Hc.
Qed.

Lemma chan_all_rx_drop c : chan_all (rx_drop c).2.
Proof. unfold chan_all. rewrite rx_drop_view. constructor. Qed.

Lemma chan_all_send_item a c : P a -> chan_all c -> chan_all (ps_send_item a c).2.
Proof.
  intros Ha Hc. unfold chan_all in *. rewrite send_item_view. simpl.
  destruct (ps_send_item a c).1; simpl; [apply Forall_app; auto|done].
Qed.

Lemma chan_all_tx_clone c : chan_all c -> chan_all (tx_clone c).
Proof. intros Hc. unfold chan_all in *. by rewrite tx_clone_view. Qed.

Lemma chan_all_tx_drop c : chan_all c -> chan_all (tx_drop c).
Proof. intros Hc. unfold chan_all in *. by rewrite tx_drop_view. Qed.

Lemma chan_all_recv_item a c : chan_all c -> (rx_recv c).1 = RecvItem a -> P a.
Proof.
  intros Hc. unfold chan_all in *. rewrite recv_res_view. unfold cv_recv.
  destruct (cv_buf (view c)) eqn:E; simpl; [by case_match|]. intros [= ->].
  by apply Forall_inv in Hc.
Qed.
End ChannelForall.

#[export] Hint Resolve chan_all_channel chan_all_try_send chan_all_reserve chan_all_permit_send
  chan_all_permit_drop chan_all_recv chan_all_rx_drop chan_all_send_item chan_all_tx_clone
  chan_all_tx_drop : mux.
