(* ===== verification/Async.v ===== *)
(** * Asynchronous code over shared state

    The session is shared by tasks that run on several threads.  An [async]
    function is a [prog]: a tree of atomic sections.  [Act] is one access to the
    shared state (an atomic operation or the body of a lock); [Await] is a
    suspension point, which may be not ready, and at which the future may be
    dropped; then [on_drop] runs (the destructors of the values it holds).  A pool
    of such programs runs under every interleaving.

    [wp] is a small rely/guarantee logic for them: an invariant [I] on the shared
    state, a preorder [R] that every step respects, and sets of exclusive tokens
    owned by the threads.  [pool_invariant] is its soundness theorem. *)

From S2P Require Import Prelude.

Section Prog.
Context {S : Type}.

#[local] Unset Elimination Schemes.
Inductive prog (A : Type) : Type :=
| Ret (a : A)
| Act (f : S -> S * prog A)
| Await (f : S -> option (S * prog A)) (on_drop : prog unit).
Arguments Ret {A} a.
Arguments Act {A} f.
Arguments Await {A} f on_drop.
#[local] Set Elimination Schemes.

(** Induction along the undisturbed executions. *)
Definition prog_ind {A} (P : prog A -> Prop)
    (HRet : forall a, P (Ret a))
    (HAct : forall f, (forall s, P (f s).2) -> P (Act f))
    (HAwait : forall f d,
       (forall s, match f s with Some (_, p) => P p | None => True end) -> P (Await f d)) :
  forall p, P p :=
  fix go p := match p with
  | Ret a => HRet a
  | Act f => HAct f (fun s => match f s as x return P x.2 with (_, p') => go p' end)
  | Await f d => HAwait f d (fun s =>
      match f s as o return match o with Some (_, p) => P p | None => True end with
      | Some (_, p') => go p'
      | None => Logic.I
      end)
  end.

Fixpoint pbind {A B} (p : prog A) (k : A -> prog B) : prog B :=
  match p with
  | Ret a => k a
  | Act f => Act (fun s => match f s with (s', p') => (s', pbind p' k) end)
  | Await f d =>
      Await (fun s => match f s with
                      | Some (s', p') => Some (s', pbind p' k)
                      | None => None end) d
  end.

(** One atomic section returning a value. *)
Definition atomic {A} (f : S -> S * A) : prog A :=
  Act (fun s => match f s with (s', a) => (s', Ret a) end).
Definition gets {A} (f : S -> A) : prog A := atomic (fun s => (s, f s)).
Definition modify (f : S -> S) : prog unit := atomic (fun s => (f s, tt)).

(** Suspend until [f] yields a value. *)
Definition await {A} (f : S -> option (S * A)) : prog A :=
  Await (fun s => match f s with Some (s', a) => Some (s', Ret a) | None => None end) (Ret tt).

(** Run the destructor [h] as well when the future is dropped at one of its
    suspension points: values are dropped in the reverse order of declaration, so
    the inner destructors run first. *)
Fixpoint with_drop {A : Type} (h : prog unit) (p : prog A) : prog A :=
  match p with
  | Ret a => Ret a
  | Act f => Act (fun s => match f s with (s', p') => (s', with_drop h p') end)
  | Await f d =>
      Await (fun s => match f s with
                      | Some (s', p') => Some (s', with_drop h p')
                      | None => None end) (pbind d (fun _ => h))
  end.

(** [select! { biased; _ = stop => None, a = p => Some a }]: whenever the future is
    polled, a raised [stop] wins and drops [p]. *)
Fixpoint stop_at_await {A : Type} (stop : S -> bool) (p : prog A) : prog (option A) :=
  match p with
  | Ret a => Ret (Some a)
  | Act f => Act (fun s => match f s with (s', p') => (s', stop_at_await stop p') end)
  | Await f d =>
      Await (fun s => if stop s then Some (s, pbind d (fun _ => Ret None))
                      else match f s with
                           | Some (s', p') => Some (s', stop_at_await stop p')
                           | None => None end) d
  end.
Definition select_stop {A} (stop : S -> bool) (p : prog A) : prog (option A) :=
  Act (fun s => (s, if stop s then Ret None else stop_at_await stop p)).

(** [tokio::time::timeout]: [p] is polled first; when it is suspended and the
    deadline has passed it is dropped. *)
Fixpoint timeout {A : Type} (late : S -> bool) (p : prog A) : prog (option A) :=
  match p with
  | Ret a => Ret (Some a)
  | Act f => Act (fun s => match f s with (s', p') => (s', timeout late p') end)
  | Await f d =>
      Await (fun s => match f s with
                      | Some (s', p') => Some (s', timeout late p')
                      | None => if late s then Some (s, pbind d (fun _ => Ret None)) else None
                      end) d
  end.

(** Run alone, never cancelled: the final state and result, or [None] while the
    program is suspended with nothing to wake it.  The recursion is structural,
    so no fuel is needed. *)
Fixpoint run {A} (p : prog A) (s : S) : S * option A :=
  match p with
  | Ret a => (s, Some a)
  | Act f => match f s with (s', p') => run p' s' end
  | Await f _ => match f s with Some (s', p') => run p' s' | None => (s, None) end
  end.

Lemma run_bind {A B} (p : prog A) (k : A -> prog B) s :
  run (pbind p k) s = match run p s with
                   | (s', Some a) => run (k a) s'
                   | (s', None) => (s', None) end.
Proof.
  revert s. induction p as [a|f IH|f d IH] using prog_ind; intros s; [done|..]; simpl.
  - specialize (IH s). destruct (f s) as [s' p']. apply IH.
  - specialize (IH s). destruct (f s) as [[s' p']|]; [apply IH|done].
Qed.

(** ** Pools of programs

    [api s p]: a client holding the handles that exist in [s] may start [p]. *)
Inductive pool_step (api : S -> prog unit -> Prop) :
  S * list (prog unit) -> S * list (prog unit) -> Prop :=
| ps_spawn s ths p : api s p -> pool_step api (s, ths) (s, ths ++ [p])
| ps_act s ths i f s' p' :
    ths !! i = Some (Act f) -> f s = (s', p') ->
    pool_step api (s, ths) (s', <[i:=p']> ths)
| ps_await s ths i f d s' p' :
    ths !! i = Some (Await f d) -> f s = Some (s', p') ->
    pool_step api (s, ths) (s', <[i:=p']> ths)
| ps_cancel s ths i f d :
    ths !! i = Some (Await f d) ->
    pool_step api (s, ths) (s, <[i:=d]> ths).

(** Reachability through states that satisfy [pre] (a bound on the execution,
    such as "fewer than 2^64 streams were opened"). *)
Inductive pool_reach (api : S -> prog unit -> Prop) (pre : S -> Prop) (s0 : S) :
  S * list (prog unit) -> Prop :=
| pr_init : pool_reach api pre s0 (s0, [])
| pr_step c c' :
    pool_reach api pre s0 c -> pre c.1 -> pool_step api c c' -> pool_reach api pre s0 c'.

(** Executable schedules, for concrete executions: choices that are not enabled, or
    from a state outside [chk], are skipped. *)
Inductive choice : Set := Step (i : nat) | Cancel (i : nat).

Definition exec1 (ch : choice) (c : S * list (prog unit)) : option (S * list (prog unit)) :=
  match ch with
  | Step i =>
      match c.2 !! i with
      | Some (Act f) => match f c.1 with (s', p') => Some (s', <[i:=p']> c.2) end
      | Some (Await f _) =>
          match f c.1 with Some (s', p') => Some (s', <[i:=p']> c.2) | None => None end
      | _ => None
      end
  | Cancel i =>
      match c.2 !! i with
      | Some (Await _ d) => Some (c.1, <[i:=d]> c.2)
      | _ => None
      end
  end.

Fixpoint exec (chk : S -> bool) (l : list choice) (c : S * list (prog unit)) : S * list (prog unit) :=
  match l with
  | [] => c
  | ch :: l =>
      exec chk l (if chk c.1 then match exec1 ch c with Some c' => c' | None => c end else c)
  end.

Lemma exec1_step api ch c c' : exec1 ch c = Some c' -> pool_step api c c'.
Proof.
  destruct c as [s ths]. unfold exec1. intros He.
  destruct ch; simpl in He; repeat case_match; simplify_eq;
    [by eapply ps_act|by eapply ps_await|by eapply ps_cancel].
Qed.

Lemma exec_reach api (pre : S -> Prop) chk s0 l c :
  (forall s, chk s = true -> pre s) ->
  pool_reach api pre s0 c -> pool_reach api pre s0 (exec chk l c).
Proof.
  intros Hchk. revert c. induction l as [|ch l IH]; simpl; intros c Hr; [done|]. apply IH.
  destruct (chk c.1) eqn:Ec; [|done]. destruct (exec1 ch c) as [c1|] eqn:E; [|done].
  econstructor; [done|by apply Hchk|by eapply exec1_step].
Qed.

Lemma spawn_reach api (pre : S -> Prop) s0 ps :
  pre s0 -> Forall (api s0) ps -> pool_reach api pre s0 (s0, ps).
Proof.
  intros Hpre. induction ps as [|p ps IH] using rev_ind; intros Hps; [constructor|].
  apply Forall_app in Hps as [Hps Hp]. rewrite Forall_singleton in Hp.
  econstructor; [by apply IH|done|by constructor].
Qed.

(** ** Reasoning about one program among others *)
Section Logic.
Context {Tok : Type} `{Countable Tok}.
Context (I : S -> gset Tok -> Prop) (R : S -> S -> Prop) (pre : S -> Prop).
Context `{!PreOrder R}.

(** From any later state in which the invariant holds, with the tokens [T] of this
    thread among all tokens, the next step keeps the invariant, respects [R] and
    the tokens [Fr] of the others, and the rest of the program does so again. *)
Fixpoint wp {A : Type} (T : gset Tok) (s0 : S) (p : prog A) (Q : A -> gset Tok -> S -> Prop) : Prop :=
  match p with
  | Ret a => forall s, R s0 s -> Q a T s
  | Act f => forall s Fr, R s0 s -> Fr ## T -> I s (T ∪ Fr) -> pre s ->
      match f s with
      | (s', p') => R s s' /\ exists T', T' ## Fr /\ I s' (T' ∪ Fr) /\ wp T' s' p' Q
      end
  | Await f d => forall s Fr, R s0 s -> Fr ## T -> I s (T ∪ Fr) -> pre s ->
      wp T s d (fun _ _ _ => True) /\
      match f s with
      | Some (s', p') => R s s' /\ exists T', T' ## Fr /\ I s' (T' ∪ Fr) /\ wp T' s' p' Q
      | None => True
      end
  end.

Lemma wp_stable {A} T s0 s1 (p : prog A) Q : R s0 s1 -> wp T s0 p Q -> wp T s1 p Q.
Proof.
  intros HR. destruct p as [a|f|f d]; simpl; intros Hwp.
  - intros s Hs. apply Hwp. by trans s1.
  - intros s Fr Hs. apply Hwp. by trans s1.
  - intros s Fr Hs. apply Hwp. by trans s1.
Qed.

(** The consequence rule; the postcondition may use that it holds in a later state. *)
Lemma wp_mono_R {A} T s0 (p : prog A) (Q Q' : A -> gset Tok -> S -> Prop) :
  (forall a T s, R s0 s -> Q a T s -> Q' a T s) -> wp T s0 p Q -> wp T s0 p Q'.
Proof.
  revert T s0. induction p as [a|f IH|f d IH] using prog_ind; intros T s0 HQ; simpl.
  - naive_solver.
  - intros Hwp s Fr HR HF HI Hp. specialize (Hwp s Fr HR HF HI Hp). specialize (IH s).
    destruct (f s) as [s' p']. destruct Hwp as (HR' & T' & ? & ? & ?). split; [done|].
    exists T'. split_and!; [done..|]. apply IH; [|done]. intros a T2 s2 HR2. apply HQ.
    trans s; [done|]. by trans s'.
  - intros Hwp s Fr HR HF HI Hp. destruct (Hwp s Fr HR HF HI Hp) as [Hd Hf]. specialize (IH s).
    split; [done|]. destruct (f s) as [[s' p']|]; [|done].
    destruct Hf as (HR' & T' & ? & ? & ?). split; [done|].
    exists T'. split_and!; [done..|]. apply IH; [|done]. intros a T2 s2 HR2. apply HQ.
    trans s; [done|]. by trans s'.
Qed.

Lemma wp_mono {A} T s0 (p : prog A) (Q Q' : A -> gset Tok -> S -> Prop) :
  (forall a T s, Q a T s -> Q' a T s) -> wp T s0 p Q -> wp T s0 p Q'.
Proof. intros HQ. apply wp_mono_R. auto. Qed.

Lemma wp_bind {A B} T s0 (p : prog A) (k : A -> prog B) Q :
  wp T s0 p (fun a T s => wp T s (k a) Q) -> wp T s0 (pbind p k) Q.
Proof.
  revert T s0. induction p as [a|f IH|f d IH] using prog_ind; intros T s0; simpl.
  - intros Hwp. apply Hwp. reflexivity.
  - intros Hwp s Fr HR HF HI Hp. specialize (Hwp s Fr HR HF HI Hp). specialize (IH s).
    destruct (f s) as [s' p']. destruct Hwp as (? & T' & ? & ? & ?). eauto 10.
  - intros Hwp s Fr HR HF HI Hp. destruct (Hwp s Fr HR HF HI Hp) as [Hd Hf]. specialize (IH s).
    split; [done|]. destruct (f s) as [[s' p']|]; [|done].
    destruct Hf as (? & T' & ? & ? & ?). eauto 10.
Qed.

Lemma wp_with_drop {A} T s0 h (p : prog A) Q :
  (forall T s, R s0 s -> wp T s h (fun _ _ _ => True)) ->
  wp T s0 p Q -> wp T s0 (with_drop h p) Q.
Proof.
  revert T s0. induction p as [a|f IH|f d IH] using prog_ind; intros T s0 Hh; simpl; [done|..].
  - intros Hwp s Fr HR HF HI Hp. specialize (Hwp s Fr HR HF HI Hp). specialize (IH s).
    destruct (f s) as [s' p']. destruct Hwp as (? & T' & ? & ? & ?). split; [done|].
    exists T'. split_and!; [done..|]. apply IH; [|done]. intros. apply Hh. trans s; [done|]. by trans s'.
  - intros Hwp s Fr HR HF HI Hp. destruct (Hwp s Fr HR HF HI Hp) as [Hd Hf].
    specialize (IH s). split.
    { apply wp_bind. eapply wp_mono_R; [|done]. intros a T' s' HR' _. apply Hh. by trans s. }
    destruct (f s) as [[s' p']|]; [|done].
    destruct Hf as (? & T' & ? & ? & ?). split; [done|].
    exists T'. split_and!; [done..|]. apply IH; [|done]. intros. apply Hh. trans s; [done|]. by trans s'.
Qed.

(** What remains to show of an abandoned program: its destructor, then [k]. *)
Lemma wp_dropped {A} T s (d : prog unit) (a : A) (Q : A -> gset Tok -> S -> Prop) :
  wp T s d (fun _ _ _ => True) -> (forall T s', R s s' -> Q a T s') ->
  wp T s (pbind d (fun _ => Ret a)) Q.
Proof.
  intros Hd HQ. apply wp_bind. eapply wp_mono_R; [|done]. intros _ T' s' HR _ s'' HR'.
  apply HQ. by trans s'.
Qed.

Lemma wp_stop_at_await {A} stop T s0 (p : prog A) (Q : option A -> gset Tok -> S -> Prop) :
  (forall T s, R s0 s -> Q None T s) ->
  wp T s0 p (fun a => Q (Some a)) -> wp T s0 (stop_at_await stop p) Q.
Proof.
  revert T s0. induction p as [a|f IH|f d IH] using prog_ind; intros T s0 HN; simpl; [done|..];
    intros Hwp s Fr HR HF HI Hp; specialize (Hwp s Fr HR HF HI Hp); specialize (IH s).
  - destruct (f s) as [s' p']. destruct Hwp as (? & T' & ? & ? & ?). split; [done|].
    exists T'. split_and!; [done..|]. apply IH; [|done]. intros. apply HN. trans s; [done|]. by trans s'.
  - destruct Hwp as [Hd Hf]. split; [done|]. destruct (stop s).
    + split; [reflexivity|]. exists T. split_and!; [done..|].
      apply wp_dropped; [done|]. intros. apply HN. by trans s.
    + destruct (f s) as [[s' p']|]; [|done]. destruct Hf as (? & T' & ? & ? & ?). split; [done|].
      exists T'. split_and!; [done..|]. apply IH; [|done]. intros. apply HN. trans s; [done|]. by trans s'.
Qed.

Lemma wp_select_stop {A} stop T s0 (p : prog A) (Q : option A -> gset Tok -> S -> Prop) :
  (forall T s, R s0 s -> Q None T s) ->
  wp T s0 p (fun a => Q (Some a)) -> wp T s0 (select_stop stop p) Q.
Proof.
  intros HN Hwp s Fr HR HF HI Hp. split; [reflexivity|]. exists T. split_and!; [done..|].
  destruct (stop s).
  - intros s' HR'. apply HN. by trans s.
  - apply (wp_stable _ s0); [done|]. by apply wp_stop_at_await.
Qed.

Lemma wp_timeout {A} late T s0 (p : prog A) (Q : option A -> gset Tok -> S -> Prop) :
  (forall T s, R s0 s -> Q None T s) ->
  wp T s0 p (fun a => Q (Some a)) -> wp T s0 (timeout late p) Q.
Proof.
  revert T s0. induction p as [a|f IH|f d IH] using prog_ind; intros T s0 HN; simpl; [done|..];
    intros Hwp s Fr HR HF HI Hp; specialize (Hwp s Fr HR HF HI Hp); specialize (IH s).
  - destruct (f s) as [s' p']. destruct Hwp as (? & T' & ? & ? & ?). split; [done|].
    exists T'. split_and!; [done..|]. apply IH; [|done]. intros. apply HN. trans s; [done|]. by trans s'.
  - destruct Hwp as [Hd Hf]. split; [done|]. destruct (f s) as [[s' p']|].
    + destruct Hf as (? & T' & ? & ? & ?). split; [done|].
      exists T'. split_and!; [done..|]. apply IH; [|done]. intros. apply HN. trans s; [done|]. by trans s'.
    + destruct (late s); [|done]. split; [reflexivity|]. exists T. split_and!; [done..|].
      apply wp_dropped; [done|]. intros. apply HN. by trans s.
Qed.

(** An atomic section that keeps the thread's tokens. *)
Lemma wp_atomic {A} T s0 (f : S -> S * A) (Q : A -> gset Tok -> S -> Prop) :
  (forall s Fr, R s0 s -> Fr ## T -> I s (T ∪ Fr) -> pre s ->
     R s (f s).1 /\ exists T', T' ## Fr /\ I (f s).1 (T' ∪ Fr)
       /\ forall s', R (f s).1 s' -> Q (f s).2 T' s') ->
  wp T s0 (atomic f) Q.
Proof.
  intros Hf s Fr HR HF HI Hp. specialize (Hf s Fr HR HF HI Hp).
  destruct (f s) as [s' a]. simpl in *. done.
Qed.

Lemma wp_await {A} T s0 (f : S -> option (S * A)) (Q : A -> gset Tok -> S -> Prop) :
  (forall s s' a Fr, R s0 s -> Fr ## T -> I s (T ∪ Fr) -> pre s -> f s = Some (s', a) ->
     R s s' /\ exists T', T' ## Fr /\ I s' (T' ∪ Fr)
       /\ forall s'', R s' s'' -> Q a T' s'') ->
  wp T s0 (await f) Q.
Proof.
  intros Hf s Fr HR HF HI Hp. split; [done|].
  destruct (f s) as [[s' a]|] eqn:E; [|done]. simpl. eauto.
Qed.

(** *** Soundness: the invariant holds in every state of every pool

    [threads_ok s ths T]: the threads' token sets partition [T], and each thread
    is verified from [s]. *)
Inductive threads_ok (s : S) : list (prog unit) -> gset Tok -> Prop :=
| tok_nil : threads_ok s [] ∅
| tok_cons p ths T1 T2 :
    T1 ## T2 -> wp T1 s p (fun _ _ _ => True) -> threads_ok s ths T2 ->
    threads_ok s (p :: ths) (T1 ∪ T2).

Lemma threads_ok_stable s s' ths T : R s s' -> threads_ok s ths T -> threads_ok s' ths T.
Proof. intros HR. induction 1; constructor; eauto using wp_stable. Qed.

Lemma threads_ok_snoc s ths T p :
  wp ∅ s p (fun _ _ _ => True) -> threads_ok s ths T -> threads_ok s (ths ++ [p]) T.
Proof.
  intros Hp. induction 1 as [|q ths T1 T2 Hd Hq Hths IH]; simpl; [|by constructor].
  rewrite <- (union_empty_r_L ∅). constructor; [set_solver|done|constructor].
Qed.

Lemma threads_ok_focus s ths T i p :
  threads_ok s ths T -> ths !! i = Some p ->
  exists T1 Fr, T = T1 ∪ Fr /\ Fr ## T1 /\ wp T1 s p (fun _ _ _ => True) /\
    forall s' p' T1', R s s' -> T1' ## Fr -> wp T1' s' p' (fun _ _ _ => True) ->
      threads_ok s' (<[i:=p']> ths) (T1' ∪ Fr).
Proof.
  intros Hths. revert i. induction Hths as [|q ths T1 T2 Hd Hq Hths IH]; intros [|i] Hi; simpl in *;
    [done..| |].
  - injection Hi as ->. exists T1, T2. split_and!; [done|done|done|].
    intros s' p' T1' HR Hd' Hp'. constructor; [done|done|by eapply threads_ok_stable].
  - destruct (IH i Hi) as (U & Fr & -> & HUF & HU & Hput).
    exists U, (T1 ∪ Fr). split_and!; [set_solver|set_solver|done|].
    intros s' p' T1' HR Hd' Hp'. replace (T1' ∪ (T1 ∪ Fr)) with (T1 ∪ (T1' ∪ Fr)) by set_solver.
    constructor; [set_solver|by eapply wp_stable|apply Hput; set_solver].
Qed.

Lemma pool_step_ok api s ths s' ths' T :
  (forall s T p, I s T -> api s p -> wp ∅ s p (fun _ _ _ => True)) ->
  pool_step api (s, ths) (s', ths') -> pre s -> threads_ok s ths T -> I s T ->
  R s s' /\ exists T', threads_ok s' ths' T' /\ I s' T'.
Proof.
  intros Hapi Hstep Hpre Hths HI.
  inversion Hstep as [? ? p Ha|? ? i f ? p' Hi Hf|? ? i f d ? p' Hi Hf|? ? i f d Hi]; subst.
  - split; [reflexivity|]. exists T. eauto using threads_ok_snoc.
  - destruct (threads_ok_focus _ _ _ _ _ Hths Hi) as (T1 & Fr & -> & Hd & Hwp & Hput).
    specialize (Hwp s Fr ltac:(reflexivity) Hd HI Hpre). simpl in Hwp. rewrite Hf in Hwp.
    destruct Hwp as (HR & T' & Hd' & HI' & Hwp). eauto 10.
  - destruct (threads_ok_focus _ _ _ _ _ Hths Hi) as (T1 & Fr & -> & Hd & Hwp & Hput).
    specialize (Hwp s Fr ltac:(reflexivity) Hd HI Hpre). simpl in Hwp.
    destruct Hwp as [_ Hwp]. rewrite Hf in Hwp. destruct Hwp as (HR & T' & Hd' & HI' & Hwp). eauto 10.
  - destruct (threads_ok_focus _ _ _ _ _ Hths Hi) as (T1 & Fr & -> & Hd & Hwp & Hput).
    specialize (Hwp s' Fr ltac:(reflexivity) Hd HI Hpre). simpl in Hwp. destruct Hwp as [Hwp _].
    split; [reflexivity|]. exists (T1 ∪ Fr). split; [|done]. by apply Hput.
Qed.

Lemma pool_invariant api s0 c :
  (forall s T p, I s T -> api s p -> wp ∅ s p (fun _ _ _ => True)) ->
  I s0 ∅ -> pool_reach api pre s0 c -> R s0 c.1 /\ exists T, I c.1 T.
Proof.
  intros Hapi H0 Hr.
  assert (Hall : R s0 c.1 /\ exists T, threads_ok c.1 c.2 T /\ I c.1 T);
    [|by destruct Hall as (? & T & _ & ?); eauto].
  induction Hr as [|[s ths] [s' ths'] _ (HR & T & Hths & HI) Hpre Hstep]; simpl in *.
  - split; [reflexivity|]. exists ∅. split; [constructor|done].
  - destruct (pool_step_ok _ _ _ _ _ _ Hapi Hstep Hpre Hths HI) as [HR' HT].
    split; [by trans s|done].
Qed.
End Logic.
End Prog.

Arguments Ret {S A} a.
Arguments Act {S A} f.
Arguments Await {S A} f on_drop.

Notation "'let*' x := p 'in' k" := (pbind p (fun x => k))
  (at level 10, x name, p at level 200, k at level 200) : mux_scope.
Notation "p ;;; k" := (pbind p (fun _ => k))
  (at level 199, k at level 200, right associativity) : mux_scope.

(** The [?] operator. *)
Definition bind_result {S E A B} (p : @prog S (outcome E A)) (k : A -> @prog S (outcome E B)) :
  @prog S (outcome E B) :=
  pbind p (fun r => match r with Ok a => k a | Err e => Ret (Err e) | Panic => Ret Panic end).
Notation "'let?' x := p 'in' k" := (bind_result p (fun x => k))
  (at level 10, x name, p at level 200, k at level 200) : mux_scope.
