(* ===== verification/Credit.v ===== *)
(** * Credit tokens and the history of queued frames

    A session is verified with exclusive tokens owned by its threads: [inl id]
    stands for an identifier that was allocated and whose send direction is not
    registered yet, [inr (id, n, k)] for [n] bytes of send credit of stream [id]
    that are reserved and not yet queued (the number [k] tells equal reservations
    apart).  The properties of the history of queued frames that both sessions
    guarantee are stated here too. *)

From S2P Require Import Prelude Buf VarInt Frame Proto Limits SendFlow.

Definition tok : Type := StreamId + (StreamId * Z * nat).

(** ** Credit held by threads and bytes in the log *)
Definition amount (id : StreamId) (t : tok) : Z :=
  match t with
  | inl _ => 0
  | inr (i, n, _) => if decide (i = id) then n else 0
  end.
Definition sum_amounts (id : StreamId) (l : list tok) : Z := foldr (fun t => Z.add (amount id t)) 0 l.
Definition held (id : StreamId) (T : gset tok) : Z := sum_amounts id (elements T).

Definition frame_amount (id : StreamId) (f : Frame) : Z :=
  match f with
  | Stream i data _ => if decide (i = id) then blen data else 0
  | _ => 0
  end.
(** Payload bytes queued for stream [id]. *)
Definition logged (id : StreamId) (l : list Frame) : Z := foldr (fun f => Z.add (frame_amount id f)) 0 l.

Lemma sum_amounts_perm id l l' : l ≡ₚ l' -> sum_amounts id l = sum_amounts id l'.
Proof. induction 1; simpl; lia. Qed.

Lemma sum_amounts_app id l l' : sum_amounts id (l ++ l') = sum_amounts id l + sum_amounts id l'.
Proof. induction l; simpl; lia. Qed.

Lemma held_union id T T' : T ## T' -> held id (T ∪ T') = held id T + held id T'.
Proof.
  intros HT. unfold held. rewrite (sum_amounts_perm _ _ _ (elements_disj_union _ _ HT)).
  apply sum_amounts_app.
Qed.

Lemma held_singleton id t : held id {[t]} = amount id t.
Proof. unfold held. rewrite elements_singleton. simpl. lia. Qed.

Lemma held_empty id : held id ∅ = 0.
Proof. unfold held. by rewrite elements_empty. Qed.

Lemma logged_app id l l' : logged id (l ++ l') = logged id l + logged id l'.
Proof. induction l; simpl; lia. Qed.

Lemma logged_nonneg id l : 0 <= logged id l.
Proof. induction l as [|f l IH]; simpl; [lia|]. destruct f; simpl; unfold blen; repeat case_match; lia. Qed.

Definition tok_nonneg (T : gset tok) : Prop := forall i n k, inr (i, n, k) ∈ T -> 0 <= n.

Lemma held_nonneg id T : tok_nonneg T -> 0 <= held id T.
Proof.
  unfold held, tok_nonneg. intros HT.
  assert (Hl : forall t, t ∈ elements T -> 0 <= amount id t).
  { intros [i|[[i n] k]] Ht; simpl; [lia|]. apply elem_of_elements in Ht.
    case_decide; [eauto|lia]. }
  induction (elements T) as [|t l IH]; simpl; [lia|].
  pose proof (Hl t ltac:(left)). specialize (IH ltac:(intros; apply Hl; by right)). lia.
Qed.

Lemma held_add (id : StreamId) (t : tok) (T : gset tok) : t ∉ T -> held id ({[t]} ∪ T) = amount id t + held id T.
Proof. intros Ht. rewrite held_union by set_solver. by rewrite held_singleton. Qed.

Lemma held_remove (id : StreamId) (t : tok) (T : gset tok) : t ∈ T -> held id (T ∖ {[t]}) = held id T - amount id t.
Proof.
  intros Ht. rewrite (union_difference_singleton_L t T Ht) at 2.
  rewrite held_add by set_solver. lia.
Qed.

Lemma tok_nonneg_remove (t : tok) (T : gset tok) : tok_nonneg T -> tok_nonneg (T ∖ {[t]}).
Proof. intros HT i n k Hin. apply (HT i n k). set_solver. Qed.

Lemma try_reserve_grant wanted fl :
  0 <= wanted -> flow_sent fl <= flow_max fl ->
  let r := try_reserve wanted fl in
  0 <= r.1 <= wanted /\ flow_sent r.2 = flow_sent fl + r.1 /\ flow_max r.2 = flow_max fl
  /\ flow_sent r.2 <= flow_max r.2.
Proof. intros Hw Hs. unfold try_reserve. repeat case_match; simpl; lia. Qed.

Lemma try_reserve_zero wanted fl :
  0 <= wanted -> (try_reserve wanted fl).1 = 0 -> (try_reserve wanted fl).2 = fl.
Proof. intros Hw. unfold try_reserve. repeat case_match; simpl; [done..|lia]. Qed.

Definition nonce (t : tok) : nat := match t with inr (_, _, k) => k | inl _ => 0%nat end.

Lemma fresh_token (T : gset tok) (id : StreamId) (n : Z) : exists k, inr (id, n, k) ∉ T.
Proof.
  destruct (exist_fresh (set_map (D := gset nat) nonce T)) as [k Hk]. exists k. intros Hin.
  apply Hk. apply elem_of_map. by exists (inr (id, n, k)).
Qed.

(** A reservation adds the token of its grant. *)
Definition granted (T : gset tok) (id : StreamId) (n : Z) (T' : gset tok) : Prop :=
  exists k, (inr (id, n, k) ∉ T) /\ T' = {[inr (id, n, k)]} ∪ T.

Lemma granted_back (T : gset tok) (id : StreamId) (n : Z) (T' : gset tok) k :
  inr (id, n, k) ∉ T -> T' = {[inr (id, n, k)]} ∪ T -> T' ∖ {[inr (id, n, k)]} = T.
Proof. intros Hk ->. set_solver. Qed.

(** ** Properties of the log *)

(** No data follows a reset of its stream. *)
Definition reset_final (l : list Frame) : Prop :=
  forall i j id data fin code,
    l !! i = Some (ResetStream id code) -> l !! j = Some (Stream id data fin) -> (j < i)%nat.

Definition is_open (id : StreamId) (f : Frame) : Prop := f = OpenUni id \/ f = OpenBi id.
Definition is_local (server : bool) (id : StreamId) : Prop := initiator_is_server id = server.

(** Data of a locally opened stream follows its OPEN. *)
Definition opened_first (server : bool) (l : list Frame) : Prop :=
  forall j id data fin, l !! j = Some (Stream id data fin) -> is_local server id ->
    exists i f, (i < j)%nat /\ l !! i = Some f /\ is_open id f.

Definition stream_opened (server : bool) (l : list Frame) (id : StreamId) : Prop :=
  is_local server id -> exists f, f ∈ l /\ is_open id f.

(** A frame fit to be queued: encodable, and within the payload limit. *)
Definition sendable (l : Limits) (f : Frame) : Prop :=
  frame_ok f /\ match f with Stream _ data _ => blen data <= max_stream_data_per_frame l | _ => True end.

Lemma reset_final_snoc l f :
  reset_final l ->
  (forall id data fin code, f = Stream id data fin -> ResetStream id code ∉ l) ->
  reset_final (l ++ [f]).
Proof.
  intros Hl Hf i j id data fin code Hi Hj.
  apply lookup_snoc_inv in Hi as [Hi|[-> <-]]; apply lookup_snoc_inv in Hj as [Hj|[-> Heq]].
  - eauto.
  - exfalso. eapply (Hf id data fin code); [done|]. by eapply list_elem_of_lookup_2.
  - by apply lookup_lt_Some in Hj.
  - done.
Qed.

Lemma opened_first_snoc server l f :
  opened_first server l ->
  (forall id data fin, f = Stream id data fin -> stream_opened server l id) ->
  opened_first server (l ++ [f]).
Proof.
  intros Hl Hf j id data fin Hj Hloc. apply lookup_snoc_inv in Hj as [Hj|[-> Heq]].
  - destruct (Hl _ _ _ _ Hj Hloc) as (i & g & ? & ? & ?). exists i, g. split_and!; [done| |done].
    rewrite lookup_app_l; [done|]. by eapply lookup_lt_Some.
  - destruct (Hf id data fin ltac:(done) Hloc) as (g & Hg & Hopen).
    apply list_elem_of_lookup_1 in Hg as [i Hi]. exists i, g. pose proof (lookup_lt_Some _ _ _ Hi).
    split_and!; [done| |done]. by rewrite lookup_app_l.
Qed.

Lemma stream_opened_prefix server l l' id :
  l `prefix_of` l' -> stream_opened server l id -> stream_opened server l' id.
Proof.
  intros [k ->] Ho Hloc. destruct (Ho Hloc) as (f & ? & ?). exists f. split; [|done].
  apply elem_of_app. by left.
Qed.
