(* ===== verification/Keep.v ===== *)
(** * Verified programs over a shared state

    [Shared S] is what the verification of a session fixes: the invariant of the
    shared state with the tokens of the threads, the order in which states follow
    each other, and the bound under which executions are considered.  [keep s0 p
    Post]: run from any state that follows [s0], [p] keeps the invariant and its
    tokens at every step, also when it is cancelled, and ends with [Post].  [safe]
    is the part of it that tasks need. *)

From S2P Require Import Prelude Frame Async Credit.
Open Scope mux_scope.

Class Shared (S : Type) : Type := {
  sh_inv : S -> gset tok -> Prop;
  sh_ev : S -> S -> Prop;
  sh_pre : S -> Prop;
  sh_preorder : PreOrder sh_ev
}.
#[global] Existing Instance sh_preorder.

Create HintDb keep.

Section Keep.
Context {S : Type} `{!Shared S}.
Implicit Types (s : S) (T : gset tok).

Abbreviation W := (wp (S := S) sh_inv sh_ev sh_pre).

Definition keep {A} s0 (p : @prog S A) (Post : A -> S -> Prop) : Prop :=
  forall T s, sh_ev s0 s -> W T s p (fun a T' s' => T' = T /\ Post a s').
Definition safe {A} s0 (p : @prog S A) : Prop :=
  forall T s, sh_ev s0 s -> W T s p (fun _ _ _ => True).
Definition any {A} : A -> S -> Prop := fun _ _ => True.

(** ** Rules *)
Lemma W_mono {A} T s (p : @prog S A) (Q Q' : A -> gset tok -> S -> Prop) :
  W T s p Q -> (forall a T s', sh_ev s s' -> Q a T s' -> Q' a T s') -> W T s p Q'.
Proof. intros Hp HQ. exact (wp_mono_R _ _ _ T s p Q Q' HQ Hp). Qed.

Lemma W_bind {A B} T s (p : @prog S A) (k : A -> @prog S B) P Q :
  W T s p P -> (forall a T' s', sh_ev s s' -> P a T' s' -> W T' s' (k a) Q) ->
  W T s (pbind p k) Q.
Proof. intros Hp Hk. apply (wp_bind _ _ _). by eapply W_mono. Qed.

Lemma keep_mono {A} s0 (p : @prog S A) (P Q : A -> S -> Prop) :
  keep s0 p P -> (forall a s, sh_ev s0 s -> P a s -> Q a s) -> keep s0 p Q.
Proof.
  intros Hp HPQ T s HR. eapply W_mono; [exact (Hp T s HR)|]. intros a T' s' HR' [-> ?]. split; [done|].
  apply HPQ; [by trans s|done].
Qed.

Lemma keep_any {A} s0 (p : @prog S A) P : keep s0 p P -> keep s0 p any.
Proof. intros Hp. by eapply keep_mono. Qed.

Lemma keep_later {A} s0 s1 (p : @prog S A) P : keep s0 p P -> sh_ev s0 s1 -> keep s1 p P.
Proof. intros Hp HR T s HR'. apply Hp. by trans s1. Qed.

Lemma keep_safe {A} s0 (p : @prog S A) P : keep s0 p P -> safe s0 p.
Proof. intros Hp T s HR. eapply W_mono; [exact (Hp T s HR)|]. done. Qed.

Lemma safe_later {A} s0 s1 (p : @prog S A) : safe s0 p -> sh_ev s0 s1 -> safe s1 p.
Proof. intros Hp HR T s HR'. apply Hp. by trans s1. Qed.

Lemma keep_ret {A} s0 (a : A) (Post : A -> S -> Prop) :
  (forall s, sh_ev s0 s -> Post a s) -> keep s0 (Ret a) Post.
Proof. intros HP T s HR s' HR'. split; [done|]. apply HP. by trans s. Qed.

Lemma keep_bind {A B} s0 (p : @prog S A) (k : A -> @prog S B) P Q :
  keep s0 p P -> (forall a s, sh_ev s0 s -> P a s -> keep s (k a) Q) -> keep s0 (pbind p k) Q.
Proof.
  intros Hp Hk T s HR. eapply W_bind; [exact (Hp T s HR)|].
  intros a T' s' HR' [-> HP]. eapply Hk; [|done|reflexivity]. by trans s.
Qed.

Lemma keep_seq {A B} s0 (p : @prog S A) (k : A -> @prog S B) Q :
  keep s0 p any -> (forall a, keep s0 (k a) Q) -> keep s0 (pbind p k) Q.
Proof. intros Hp Hk. eapply keep_bind; [done|]. intros a s HR _. by eapply keep_later. Qed.

Lemma keep_bind_result {E A B} s0 (p : @prog S (outcome E A)) (k : A -> @prog S (outcome E B)) P :
  keep s0 p P -> (forall a s, sh_ev s0 s -> P (Ok a) s -> keep s (k a) any) ->
  keep s0 (bind_result p k) any.
Proof.
  intros Hp Hk. eapply keep_bind; [done|]. intros [a|e|] s HR HP; [by apply Hk|by apply keep_ret..].
Qed.

Lemma keep_seq_result {E A B} s0 (p : @prog S (outcome E A)) (k : A -> @prog S (outcome E B)) :
  keep s0 p any -> (forall a, keep s0 (k a) any) -> keep s0 (bind_result p k) any.
Proof. intros Hp Hk. eapply keep_bind_result; [done|]. intros a s HR _. by eapply keep_later. Qed.

Lemma keep_atomic {A} s0 (f : S -> S * A) Post :
  (forall s T, sh_ev s0 s -> sh_inv s T -> sh_pre s ->
     (sh_ev s (f s).1 /\ sh_inv (f s).1 T) /\ (forall s', sh_ev (f s).1 s' -> Post (f s).2 s')) ->
  keep s0 (atomic f) Post.
Proof.
  intros Hf T s0' HR. apply wp_atomic. intros s Fr HR' Hd HI Hpre.
  destruct (Hf s _ ltac:(by trans s0') HI Hpre) as [[? ?] HP]. split; [done|].
  exists T. split_and!; [set_solver|done|]. intros. split; [done|]. by apply HP.
Qed.

Lemma keep_gets {A} s0 (f : S -> A) (Post : A -> S -> Prop) :
  (forall s s', sh_ev s0 s -> sh_ev s s' -> Post (f s) s') -> keep s0 (gets f) Post.
Proof.
  intros Hf. apply keep_atomic. intros s T HR HI _. split; [by split; [reflexivity|]|]. simpl. auto.
Qed.

Lemma keep_modify s0 f : (forall s T, sh_inv s T -> sh_ev s (f s) /\ sh_inv (f s) T) -> keep s0 (modify f) any.
Proof. intros Hf. apply keep_atomic. intros s T HR HI _. split; [by apply Hf|done]. Qed.

Lemma keep_await {A} s0 (f : S -> option (S * A)) Post :
  (forall s s' a T, sh_ev s0 s -> sh_inv s T -> sh_pre s -> f s = Some (s', a) ->
     (sh_ev s s' /\ sh_inv s' T) /\ (forall s'', sh_ev s' s'' -> Post a s'')) ->
  keep s0 (await f) Post.
Proof.
  intros Hf T s0' HR. apply wp_await. intros s s' a Fr HR' Hd HI Hpre Hs.
  destruct (Hf s s' a _ ltac:(by trans s0') HI Hpre Hs) as [[? ?] HP]. split; [done|].
  exists T. split_and!; [set_solver|done|]. intros. split; [done|]. by apply HP.
Qed.

Lemma keep_with_drop {A} s0 d (p : @prog S A) Post :
  safe s0 d -> keep s0 p Post -> keep s0 (with_drop d p) Post.
Proof.
  intros Hd Hp T s HR. apply (wp_with_drop _ _ _); [|exact (Hp T s HR)]. intros T' s' HR'. apply Hd. by trans s.
Qed.

Lemma safe_bind {A B} s0 (p : @prog S A) (k : A -> @prog S B) :
  safe s0 p -> (forall a s, sh_ev s0 s -> safe s (k a)) -> safe s0 (pbind p k).
Proof.
  intros Hp Hk T s HR. eapply W_bind; [exact (Hp T s HR)|].
  intros a T' s' HR' _. eapply Hk; [|reflexivity]. by trans s.
Qed.

Lemma safe_keep_bind {A B} s0 (p : @prog S A) (k : A -> @prog S B) P :
  keep s0 p P -> (forall a s, sh_ev s0 s -> P a s -> safe s (k a)) -> safe s0 (pbind p k).
Proof.
  intros Hp Hk T s HR. eapply W_bind; [exact (Hp T s HR)|].
  intros a T' s' HR' [-> HP]. eapply Hk; [|done|reflexivity]. by trans s.
Qed.

Lemma safe_ret {A} s0 (a : A) : safe s0 (Ret a).
Proof. done. Qed.

Lemma safe_timeout {A} s0 late (p : @prog S A) : safe s0 p -> safe s0 (timeout late p).
Proof. intros Hp T s HR. apply (wp_timeout _ _ _); [done|]. by apply Hp. Qed.

Lemma safe_select_stop {A} s0 stop (p : @prog S A) : safe s0 p -> safe s0 (select_stop stop p).
Proof. intros Hp T s HR. apply (wp_select_stop _ _ _); [done|]. by apply Hp. Qed.

Lemma safe_with_drop {A} s0 d (p : @prog S A) :
  safe s0 d -> safe s0 p -> safe s0 (with_drop d p).
Proof.
  intros Hd Hp T s HR. apply (wp_with_drop _ _ _); [|exact (Hp T s HR)]. intros T' s' HR'. apply Hd. by trans s.
Qed.
End Keep.

(** Follow the structure of a program; leaves are specifications in the database. *)
Ltac kgo :=
  lazymatch goal with
  | |- keep _ (Ret _) _ => by apply keep_ret
  | |- keep _ (pbind _ _) _ => eapply keep_seq; [kgo|intros ?; kgo]
  | |- keep _ (bind_result _ _) _ => eapply keep_seq_result; [kgo|intros ?; kgo]
  | |- keep _ (with_drop _ _) _ => apply keep_with_drop; [apply (keep_safe _ _ any); kgo|kgo]
  | |- keep _ (if ?b then _ else _) _ => destruct b; kgo
  | |- keep _ (match ?x with _ => _ end) _ => destruct x; kgo
  | |- keep _ (gets _) _ => by apply keep_gets
  | |- keep _ _ _ => try solve [eauto 3 with keep | eapply keep_any; eauto 3 with keep]
  | |- _ => idtac
  end.
Ltac sgo :=
  lazymatch goal with
  | |- safe _ (Ret _) => apply safe_ret
  | |- safe _ (pbind _ _) => apply safe_bind; [sgo|intros ? ? ?; sgo]
  | |- safe _ (timeout _ _) => apply safe_timeout; sgo
  | |- safe _ (select_stop _ _) => apply safe_select_stop; sgo
  | |- safe _ (with_drop _ _) => apply safe_with_drop; sgo
  | |- safe _ (if ?b then _ else _) => destruct b; sgo
  | |- safe _ (match ?x with _ => _ end) => destruct x; sgo
  | |- safe _ _ => try solve [eauto 3 with keep | apply (keep_safe _ _ any); kgo]
  end.


