(* ===== verification/Rely.v ===== *)
(** * Executions with interference

    [completes Rely p s a s']: [p], started in [s], returns [a] in [s'] when the other
    tasks may move the state along [Rely] before every access of [p].  [triple] is the
    program logic of such executions: assertions hold between accesses, so they have to
    be stable under [Rely].  [steps] bounds what a program does to the state, for the
    other direction: that it may be one of the others.  [steps_until] bounds it up to a
    step that ends everything. *)

From S2P Require Import Prelude Async.
Open Scope mux_scope.

Section Completes.
Context {S : Type} (Rely : S -> S -> Prop).

Inductive completes {A} : @prog S A -> S -> A -> S -> Prop :=
| ex_ret a s : completes (Ret a) s a s
| ex_act f s s1 s2 p a s' : Rely s s1 -> f s1 = (s2, p) -> completes p s2 a s' -> completes (Act f) s a s'
| ex_await f d s s1 s2 p a s' :
    Rely s s1 -> f s1 = Some (s2, p) -> completes p s2 a s' -> completes (Await f d) s a s'.

Definition triple {A} (P : S -> Prop) (p : @prog S A) (Q : A -> S -> Prop) : Prop :=
  forall s a s', P s -> completes p s a s' -> Q a s'.
Definition stable (P : S -> Prop) : Prop := forall s s', P s -> Rely s s' -> P s'.

Lemma completes_bind_inv {A B} (p : @prog S A) (k : A -> @prog S B) s b s' :
  completes (pbind p k) s b s' -> exists a s1, completes p s a s1 /\ completes (k a) s1 b s'.
Proof.
  revert s. induction p as [a|f IH|f d IH] using prog_ind; intros s; simpl.
  - intros He. exists a, s. split; [constructor|done].
  - inversion 1 as [|? ? s1 s2 p ? ? HR Hf He|]; subst. specialize (IH s1). destruct (f s1) as [s3 q] eqn:E.
    injection Hf as <- <-. destruct (IH _ He) as (a & s4 & He1 & He2). exists a, s4. split; [by econstructor|done].
  - inversion 1 as [| |? ? ? s1 s2 p ? ? HR Hf He]; subst. specialize (IH s1). destruct (f s1) as [[s3 q]|] eqn:E; [|done].
    injection Hf as <- <-. destruct (IH _ He) as (a & s4 & He1 & He2). exists a, s4. split; [by econstructor|done].
Qed.
Lemma completes_with_drop_inv {A} (d : @prog S unit) (p : @prog S A) s a s' : completes (with_drop d p) s a s' -> completes p s a s'.
Proof.
  revert s. induction p as [b|f IH|f e IH] using prog_ind; intros s; simpl; [done|..].
  - inversion 1 as [|? ? s1 s2 p ? ? HR Hf He|]; subst. specialize (IH s1). destruct (f s1) as [s3 q] eqn:E.
    injection Hf as <- <-. econstructor; eauto.
  - inversion 1 as [| |? ? ? s1 s2 p ? ? HR Hf He]; subst. specialize (IH s1). destruct (f s1) as [[s3 q]|] eqn:E; [|done].
    injection Hf as <- <-. econstructor; eauto.
Qed.

Lemma triple_ret {A} (P : S -> Prop) (a : A) (Q : A -> S -> Prop) : (forall s, P s -> Q a s) -> triple P (Ret a) Q.
Proof. intros HQ s b s' HP He. inversion He; subst. auto. Qed.
Lemma triple_bind {A B} (P : S -> Prop) (M : A -> S -> Prop) (p : @prog S A) (k : A -> @prog S B) Q :
  triple P p M -> (forall a, triple (M a) (k a) Q) -> triple P (pbind p k) Q.
Proof. intros Hp Hk s b s' HP (a & s1 & H1 & H2)%completes_bind_inv. eapply Hk; [|done]. by eapply Hp. Qed.
Lemma triple_try {E A B} (P : S -> Prop) (M : A -> S -> Prop) (p : @prog S (outcome E A))
    (k : A -> @prog S (outcome E B)) (Q : outcome E B -> S -> Prop) :
  triple P p (fun r s => match r with Ok a => M a s | Err e => Q (Err e) s | Panic => Q Panic s end) ->
  (forall a, triple (M a) (k a) Q) -> triple P (bind_result p k) Q.
Proof. intros Hp Hk. eapply triple_bind; [exact Hp|]. intros [a|e|]; [apply Hk|by apply triple_ret..]. Qed.
Lemma triple_with_drop {A} d (P : S -> Prop) (p : @prog S A) Q : triple P p Q -> triple P (with_drop d p) Q.
Proof. intros Hp s a s' HP He%completes_with_drop_inv. by eapply Hp. Qed.
Lemma triple_weaken {A} (P : S -> Prop) (p : @prog S A) (Q Q' : A -> S -> Prop) :
  triple P p Q -> (forall a s, Q a s -> Q' a s) -> triple P p Q'.
Proof. intros Hp HQ s a s' HP He. by eapply HQ, Hp. Qed.
Lemma triple_strengthen {A} (P P' : S -> Prop) (p : @prog S A) (Q : A -> S -> Prop) :
  (forall s, P' s -> P s) -> triple P p Q -> triple P' p Q.
Proof. intros HP Hp s a s' HP' He. by eapply Hp; [apply HP|]. Qed.
Lemma triple_atomic {A} (P : S -> Prop) (f : S -> S * A) (Q : A -> S -> Prop) :
  stable P -> (forall s s' a, P s -> f s = (s', a) -> Q a s') -> triple P (atomic f) Q.
Proof.
  intros Hst Hf s a s' HP He. inversion He as [|? ? s1 s2 p ? ? HR E He'|]; subst. destruct (f s1) as [s3 b] eqn:Ef.
  injection E as <- <-. inversion He'; subst. eauto.
Qed.
Lemma triple_await {A} (P : S -> Prop) (f : S -> option (S * A)) (Q : A -> S -> Prop) :
  stable P -> (forall s s' a, P s -> f s = Some (s', a) -> Q a s') -> triple P (await f) Q.
Proof.
  intros Hst Hf s a s' HP He. inversion He as [| |? ? ? s1 s2 p ? ? HR E He']; subst.
  destruct (f s1) as [[s3 b]|] eqn:Ef; [|done]. injection E as <- <-. inversion He'; subst. eauto.
Qed.

(** What holds of all results from a state holds after a step of the others. *)
Lemma completes_later {A} (p : @prog S A) (V : A -> S -> Prop) s s1 :
  Transitive Rely -> (forall a, stable (V a)) -> (forall a s', completes p s a s' -> V a s') -> Rely s s1 ->
  forall a s', completes p s1 a s' -> V a s'.
Proof.
  intros Htr HV Hp HR a s' He. inversion He as [|? ? s2 s3 q ? ? HR2 Ef He2|? ? ? s2 s3 q ? ? HR2 Ef He2]; subst.
  - eapply HV; [apply Hp; constructor|done].
  - apply Hp. eapply ex_act; [by etrans|done..].
  - apply Hp. eapply ex_await; [by etrans|done..].
Qed.

(** A program that runs alone is an execution. *)
Lemma run_completes {A} (p : @prog S A) s s' a : (forall s, Rely s s) -> run p s = (s', Some a) -> completes p s a s'.
Proof.
  intros Hrefl. revert s. induction p as [b|f IH|f d IH] using prog_ind; intros s; simpl.
  - intros [= <- <-]. constructor.
  - specialize (IH s). destruct (f s) as [s1 q] eqn:E. intros Hr. econstructor; eauto.
  - specialize (IH s). destruct (f s) as [[s1 q]|] eqn:E; [|done]. intros Hr. econstructor; eauto.
Qed.
End Completes.


(** ** What a program may do

    Every access of [p] from a state in [I], whatever the others did before, moves the
    state along [G]; results satisfy [Q].  Cancelling [p] leaves a destructor that is
    bounded in the same way. *)
Section Steps.
Context {S : Type} (I : S -> Prop) (G : S -> S -> Prop).

Fixpoint steps {A : Type} (p : @prog S A) (Q : A -> Prop) : Prop :=
  match p with
  | Ret a => Q a
  | Act f => forall s, I s -> match f s with (s', p') => G s s' /\ steps p' Q end
  | Await f d =>
      (forall s, I s -> match f s with Some (s', p') => G s s' /\ steps p' Q | None => True end)
      /\ steps d (fun _ => True)
  end.

Lemma steps_mono {A} (p : @prog S A) (Q Q' : A -> Prop) : (forall a, Q a -> Q' a) -> steps p Q -> steps p Q'.
Proof.
  intros HQ. induction p as [a|f IH|f d IH] using prog_ind; simpl.
  - apply HQ.
  - intros Hf s Hs. specialize (Hf s Hs). specialize (IH s). destruct (f s). naive_solver.
  - intros [Hf Hd]. split; [|done]. intros s Hs. specialize (Hf s Hs). specialize (IH s).
    destruct (f s) as [[]|]; naive_solver.
Qed.

Lemma steps_bind {A B} (p : @prog S A) (k : A -> @prog S B) P Q :
  steps p P -> (forall a, P a -> steps (k a) Q) -> steps (pbind p k) Q.
Proof.
  intros Hp Hk. revert Hp. induction p as [a|f IH|f d IH] using prog_ind; simpl.
  - apply Hk.
  - intros Hf s Hs. specialize (Hf s Hs). specialize (IH s). destruct (f s). naive_solver.
  - intros [Hf Hd]. split; [|done]. intros s Hs. specialize (Hf s Hs). specialize (IH s).
    destruct (f s) as [[]|]; naive_solver.
Qed.

Lemma steps_atomic {A} (f : S -> S * A) (Q : A -> Prop) :
  (forall s, I s -> G s (f s).1 /\ Q (f s).2) -> steps (atomic f) Q.
Proof. intros Hf s Hs. specialize (Hf s Hs). by destruct (f s). Qed.

Lemma steps_await {A} (f : S -> option (S * A)) (Q : A -> Prop) :
  (forall s s' a, I s -> f s = Some (s', a) -> G s s' /\ Q a) -> steps (await f) Q.
Proof. intros Hf. split; [|done]. intros s Hs. destruct (f s) as [[]|] eqn:E; [|done]. eauto. Qed.

Lemma steps_with_drop {A} (d : @prog S unit) (p : @prog S A) Q :
  steps d (fun _ => True) -> steps p Q -> steps (with_drop d p) Q.
Proof.
  intros Hd. induction p as [a|f IH|f e IH] using prog_ind; simpl; [done|..].
  - intros Hf s Hs. specialize (Hf s Hs). specialize (IH s). destruct (f s). naive_solver.
  - intros [Hf He]. split.
    + intros s Hs. specialize (Hf s Hs). specialize (IH s). destruct (f s) as [[]|]; naive_solver.
    + eapply steps_bind; [exact He|done].
Qed.

Lemma steps_timeout {A} late (p : @prog S A) (Q : option A -> Prop) :
  (forall s, G s s) -> steps p (fun a => Q (Some a)) -> Q None -> steps (timeout late p) Q.
Proof.
  intros Hrefl. induction p as [a|f IH|f e IH] using prog_ind; simpl; [done|..].
  - intros Hf HQ s Hs. specialize (Hf s Hs). specialize (IH s). destruct (f s). naive_solver.
  - intros [Hf He] HQ. split; [|done]. intros s Hs. specialize (Hf s Hs). specialize (IH s).
    destruct (f s) as [[]|]; [naive_solver|]. destruct (late s); [|done]. split; [done|].
    by eapply steps_bind; [exact He|].
Qed.

Lemma steps_stop_at_await {A} stop (p : @prog S A) :
  (forall s, G s s) -> steps p (fun _ => True) -> steps (stop_at_await stop p) (fun _ => True).
Proof.
  intros Hrefl. induction p as [a|f IH|f e IH] using prog_ind; simpl; [done|..].
  - intros Hf s Hs. specialize (Hf s Hs). specialize (IH s). destruct (f s). naive_solver.
  - intros [Hf He]. split; [|done]. intros s Hs. specialize (Hf s Hs). specialize (IH s).
    destruct (stop s); [split; [done|]; by eapply steps_bind; [exact He|]|]. destruct (f s) as [[]|]; naive_solver.
Qed.
Lemma steps_select_stop {A} stop (p : @prog S A) :
  (forall s, G s s) -> steps p (fun _ => True) -> steps (select_stop stop p) (fun _ => True).
Proof. intros Hrefl Hp s Hs. split; [done|]. destruct (stop s); [done|]. by apply steps_stop_at_await. Qed.

(** A pool of bounded programs moves along [G]. *)
Lemma steps_pool api s ths s' ths' :
  (forall s, G s s) -> (forall s p, api s p -> steps p (fun _ => True)) ->
  Forall (fun p => steps p (fun _ => True)) ths -> I s -> pool_step api (s, ths) (s', ths') ->
  G s s' /\ Forall (fun p => steps p (fun _ => True)) ths'.
Proof.
  intros Hrefl Hapi Hths HI Hstep. inversion Hstep as [? ? p Hp|? ? i f ? p' Hi Ef|? ? i f d ? p' Hi Ef|? ? i f d Hi]; subst.
  - split; [done|]. apply Forall_app. split; [done|]. apply Forall_singleton. eauto.
  - pose proof (Forall_lookup_1 _ _ _ _ Hths Hi s HI) as Hs. rewrite Ef in Hs. destruct Hs. split; [done|].
    by apply Forall_insert.
  - destruct (Forall_lookup_1 _ _ _ _ Hths Hi) as [Hs _]. specialize (Hs s HI). rewrite Ef in Hs. destruct Hs.
    split; [done|]. by apply Forall_insert.
  - destruct (Forall_lookup_1 _ _ _ _ Hths Hi) as [_ Hd]. split; [done|]. by apply Forall_insert.
Qed.

(** A bounded program keeps what its steps keep. *)
Lemma triple_steps {A} Rely (P : S -> Prop) (p : @prog S A) Q :
  stable Rely P -> (forall s, P s -> I s) -> (forall s s', P s -> G s s' -> P s') -> steps p Q ->
  triple Rely P p (fun a s => P s /\ Q a).
Proof.
  intros Hst HI HG Hp s a s' HP He. induction He as [a s|f s s1 s2 p a s' HR Ef He IH|f d s s1 s2 p a s' HR Ef He IH];
    simpl in Hp; [done|..].
  - assert (HP1 : P s1) by (by eapply Hst). specialize (Hp s1 (HI s1 HP1)). rewrite Ef in Hp.
    destruct Hp as [Hg Hp]. apply IH; [done|by eapply HG].
  - assert (HP1 : P s1) by (by eapply Hst). destruct Hp as [Hp _]. specialize (Hp s1 (HI s1 HP1)). rewrite Ef in Hp.
    destruct Hp as [Hg Hp]. apply IH; [done|by eapply HG].
Qed.
End Steps.

(** ** What a program may do until everything ends

    As [steps], but a step along [C] is the last one that is bounded. *)
Section Until.
Context {S : Type} (I : S -> Prop) (G C : S -> S -> Prop).

Fixpoint steps_until {A : Type} (p : @prog S A) (Q : A -> Prop) : Prop :=
  match p with
  | Ret a => Q a
  | Act f => forall s, I s -> match f s with (s', p') => C s s' \/ (G s s' /\ steps_until p' Q) end
  | Await f d =>
      (forall s, I s -> match f s with Some (s', p') => C s s' \/ (G s s' /\ steps_until p' Q) | None => True end)
      /\ steps I G d (fun _ => True)
  end.

Lemma steps_steps_until {A} (p : @prog S A) (Q : A -> Prop) : steps I G p Q -> steps_until p Q.
Proof.
  induction p as [a|f IH|f d IH] using prog_ind; simpl; [done|..].
  - intros Hf s Hs. specialize (Hf s Hs). specialize (IH s). destruct (f s) as [s' p']. naive_solver.
  - intros [Hf Hd]. split; [|done]. intros s Hs. specialize (Hf s Hs). specialize (IH s).
    destruct (f s) as [[]|]; naive_solver.
Qed.

Lemma until_bind {A B} (p : @prog S A) (k : A -> @prog S B) P Q :
  steps_until p P -> (forall a, P a -> steps_until (k a) Q) -> steps_until (pbind p k) Q.
Proof.
  intros Hp Hk. revert Hp. induction p as [a|f IH|f d IH] using prog_ind; simpl.
  - apply Hk.
  - intros Hf s Hs. specialize (Hf s Hs). specialize (IH s). destruct (f s). naive_solver.
  - intros [Hf Hd]. split; [|done]. intros s Hs. specialize (Hf s Hs). specialize (IH s).
    destruct (f s) as [[]|]; naive_solver.
Qed.

Lemma until_atomic {A} (f : S -> S * A) (Q : A -> Prop) :
  (forall s, I s -> C s (f s).1 \/ (G s (f s).1 /\ Q (f s).2)) -> steps_until (atomic f) Q.
Proof. intros Hf s Hs. specialize (Hf s Hs). by destruct (f s). Qed.

(** A pool of such programs moves along [G], or everything ends. *)
Lemma until_pool api s ths s' ths' :
  (forall s, G s s) -> (forall s p, api s p -> steps_until p (fun _ => True)) ->
  Forall (fun p => steps_until p (fun _ => True)) ths -> I s -> pool_step api (s, ths) (s', ths') ->
  C s s' \/ (G s s' /\ Forall (fun p => steps_until p (fun _ => True)) ths').
Proof.
  intros Hrefl Hapi Hths HI Hstep. inversion Hstep as [? ? p Hp|? ? i f ? p' Hi Ef|? ? i f d ? p' Hi Ef|? ? i f d Hi]; subst.
  - right. split; [done|]. apply Forall_app. split; [done|]. apply Forall_singleton. eauto.
  - pose proof (Forall_lookup_1 _ _ _ _ Hths Hi s HI) as Hs. rewrite Ef in Hs. destruct Hs as [?|[? ?]]; [by left|right].
    split; [done|]. by apply Forall_insert.
  - destruct (Forall_lookup_1 _ _ _ _ Hths Hi) as [Hs _]. specialize (Hs s HI). rewrite Ef in Hs.
    destruct Hs as [?|[? ?]]; [by left|right]. split; [done|]. by apply Forall_insert.
  - destruct (Forall_lookup_1 _ _ _ _ Hths Hi) as [_ Hd]. right. split; [done|].
    apply Forall_insert; [done|]. by apply steps_steps_until.
Qed.
End Until.

(** A bound may be weakened. *)
Lemma steps_bound {S A} (I I' : S -> Prop) (G G' : S -> S -> Prop) (p : @prog S A) Q :
  (forall s, I' s -> I s) -> (forall s s', I' s -> G s s' -> G' s s') -> steps I G p Q -> steps I' G' p Q.
Proof.
  intros HI HG. revert A p Q. fix IH 2. intros A [a|f|f d] Q; simpl.
  - done.
  - intros Hf s Hs. specialize (Hf s (HI s Hs)). destruct (f s) as [s' p']. destruct Hf as [Hg Hp].
    split; [auto|by apply IH].
  - intros [Hf Hd]. split; [|by apply IH]. intros s Hs. specialize (Hf s (HI s Hs)). destruct (f s) as [[s' p']|]; [|done].
    destruct Hf as [Hg Hp]. split; [auto|by apply IH].
Qed.
