(* ===== verification/NativeState.v ===== *)
(** * The native session: shared state

    Models the data of [websock-tungstenite-mux/src/session.rs]: [SessionInner],
    the stream handles, and everything reachable from them through an [Arc].  The
    handles are plain values holding locations; what they point to lives in the
    heap part of the state, so that aliasing between clones, the session maps and
    the tasks is explicit.

    Three history fields have no counterpart in the code and are never read by it:
    [out_log] (every frame accepted by the outbound queue, oldest first), [wire]
    (what the writer passed to the WebSocket sink) and [flow_of] (every identifier
    whose send direction was ever registered, with its flow). *)

From S2P Require Import Prelude Buf VarInt Frame Proto Limits SendFlow Channel Async.

(** Results of fallible calls. *)
Abbreviation result := (outcome Error).

(** [tungstenite::Message]. *)
Inductive WsMessage : Set :=
| WsText (s : string)
| WsBinary (data : list byte)
| WsPing (data : list byte)
| WsPong (data : list byte)
| WsClose
| WsFrame.

(** The state of a [oneshot] acknowledgement. *)
Inductive oneshot : Set :=
| AckPending
| AckSent (r : outcome Error unit)
| AckDropped.

Inductive OutboundCmd : Set :=
| CmdFrame (f : Frame)
| CmdWs (m : WsMessage)
| CmdFlush (ack : nat)
| CmdShutdown (ack : nat).

Record RecvEvent : Set := mkRecvEvent { ev_data : list byte; ev_fin : bool }.

(** [RecvState]: [sender] and [max_data] are the cell's channel and limit. *)
Record RecvState : Set := mkRecvState {
  stopped : bool;
  recv_cell : nat;
  received : Z
}.

(** A receive handle, and a send handle with the parts its clones share
    ([finished], [operation], [api_mode]), its flow, and its own poll state. *)
Record RecvStream : Set := mkRecvStream { rs_id : StreamId; rs_cell : nat }.
Record SendStream : Set := mkSendStream {
  ss_id : StreamId;
  ss_shared : nat;
  ss_flow : nat;
  ss_local : nat
}.

Record SendShared : Set := mkSendShared {
  finished : bool;
  operation : bool;
  api_mode : Z;
  strong_count : Z   (** of the [Arc]s above: the number of clones *)
}.

Record SendLocal : Set := mkSendLocal {
  flush_waiter : option nat;
  fin_queued : bool
}.

Section State.
Context {chan : Type -> Type}.

(** What a [RecvStream] owns: the receiving end and its own fields. *)
Record RecvCell : Type := mkRecvCell {
  rc_chan : chan RecvEvent;
  rc_max_data : Z;            (** [max_data: Arc<AtomicU64>] *)
  rc_finished : bool;
  rc_pending : list byte;
  rc_consumed : Z;
  rc_granted : Z;
  rc_initial_window : Z;
  rc_update_threshold : Z;
  rc_stop_sent : bool
}.

Record SessionInner : Type := mkSession {
  is_server : bool;
  limits : Limits;
  outbound : chan OutboundCmd;
  pending_credit : gmap StreamId Z;
  accept_uni_tx : bool;                       (** the [Option] is [Some] *)
  accept_bi_tx : bool;
  accept_uni_chan : chan RecvStream;
  accept_bi_chan : chan (SendStream * RecvStream);
  accept_uni_refs : Z;                        (** [Arc]s of the receiving ends *)
  accept_bi_refs : Z;
  streams : gmap StreamId RecvState;
  send_flows : gmap StreamId nat;
  next_uni : Z;
  next_bi : Z;
  next_peer_uni : Z;
  next_peer_bi : Z;
  closed : bool;
  shutdown_started : bool;
  peer_closed : bool;
  peer_close_notify : bool;
  session_handles : Z;
  active_tasks : Z;
  cancel : bool;
  (* the heap *)
  flows : list SendFlowState;
  recv_cells : list RecvCell;
  send_cells : list SendShared;
  send_locals : list SendLocal;
  acks : list oneshot;
  (* the environment: a clock in seconds *)
  now : Z;
  (* history *)
  wire : list WsMessage;
  out_log : list Frame;
  flow_of : gmap StreamId nat
}.

(** The record [r] with field [f] replaced by [v]. *)
Ltac replace_field f v r :=
  let e := constr:(mkSession (is_server r) (limits r) (outbound r) (pending_credit r)
    (accept_uni_tx r) (accept_bi_tx r) (accept_uni_chan r) (accept_bi_chan r)
    (accept_uni_refs r) (accept_bi_refs r) (streams r) (send_flows r) (next_uni r) (next_bi r)
    (next_peer_uni r) (next_peer_bi r) (closed r) (shutdown_started r) (peer_closed r)
    (peer_close_notify r) (session_handles r) (active_tasks r) (cancel r) (flows r)
    (recv_cells r) (send_cells r) (send_locals r) (acks r) (now r) (wire r) (out_log r) (flow_of r)) in
  let x := constr:(f r) in
  match eval pattern x in e with
  | ?g _ => let t := eval cbv beta in (g v) in exact t
  end.

Implicit Types s : SessionInner.

Definition set_outbound v s : SessionInner := ltac:(replace_field outbound v s).
Definition set_pending_credit v s : SessionInner := ltac:(replace_field pending_credit v s).
Definition set_accept_uni_tx v s : SessionInner := ltac:(replace_field accept_uni_tx v s).
Definition set_accept_bi_tx v s : SessionInner := ltac:(replace_field accept_bi_tx v s).
Definition set_accept_uni_chan v s : SessionInner := ltac:(replace_field accept_uni_chan v s).
Definition set_accept_bi_chan v s : SessionInner := ltac:(replace_field accept_bi_chan v s).
Definition set_accept_uni_refs v s : SessionInner := ltac:(replace_field accept_uni_refs v s).
Definition set_accept_bi_refs v s : SessionInner := ltac:(replace_field accept_bi_refs v s).
Definition set_streams v s : SessionInner := ltac:(replace_field streams v s).
Definition set_send_flows v s : SessionInner := ltac:(replace_field send_flows v s).
Definition set_next_uni v s : SessionInner := ltac:(replace_field next_uni v s).
Definition set_next_bi v s : SessionInner := ltac:(replace_field next_bi v s).
Definition set_next_peer_uni v s : SessionInner := ltac:(replace_field next_peer_uni v s).
Definition set_next_peer_bi v s : SessionInner := ltac:(replace_field next_peer_bi v s).
Definition set_closed v s : SessionInner := ltac:(replace_field closed v s).
Definition set_shutdown_started v s : SessionInner := ltac:(replace_field shutdown_started v s).
Definition set_peer_closed v s : SessionInner := ltac:(replace_field peer_closed v s).
Definition set_peer_close_notify v s : SessionInner := ltac:(replace_field peer_close_notify v s).
Definition set_session_handles v s : SessionInner := ltac:(replace_field session_handles v s).
Definition set_active_tasks v s : SessionInner := ltac:(replace_field active_tasks v s).
Definition set_cancel v s : SessionInner := ltac:(replace_field cancel v s).
Definition set_flows v s : SessionInner := ltac:(replace_field flows v s).
Definition set_recv_cells v s : SessionInner := ltac:(replace_field recv_cells v s).
Definition set_send_cells v s : SessionInner := ltac:(replace_field send_cells v s).
Definition set_send_locals v s : SessionInner := ltac:(replace_field send_locals v s).
Definition set_acks v s : SessionInner := ltac:(replace_field acks v s).
Definition set_now v s : SessionInner := ltac:(replace_field now v s).
Definition set_wire v s : SessionInner := ltac:(replace_field wire v s).
Definition set_out_log v s : SessionInner := ltac:(replace_field out_log v s).
Definition set_flow_of v s : SessionInner := ltac:(replace_field flow_of v s).
End State.

Arguments RecvCell : clear implicits.
Arguments SessionInner : clear implicits.

(** ** Programs of the session *)
Abbreviation nprog chan A := (@prog (SessionInner chan) A).
