(* ===== verification/NativeOps.v ===== *)
(** * The native session: methods of [SessionInner]

    Each method of [websock-tungstenite-mux/src/session.rs] is a program whose
    atomic sections are the source's lock bodies and atomic accesses, in the
    source's order.  The compare-exchange loop of [validate_peer_stream_id] is one
    atomic section, like the operations of [SendFlowState]. *)

From S2P Require Import Prelude Buf VarInt Frame Proto Limits SendFlow Channel Async NativeState.
Open Scope mux_scope.

(** The order in which a hash map yields its entries is unspecified. *)
Class MapOrder : Type := first_entry : gmap StreamId Z -> option (StreamId * Z).
Class MapOrderLaws `{MapOrder} : Prop := {
  first_entry_some m k v : first_entry m = Some (k, v) -> m !! k = Some v;
  first_entry_none m : first_entry m = None -> m = ∅
}.

Definition list_order : MapOrder := fun m => head (map_to_list m).

#[global] Instance list_order_laws : @MapOrderLaws list_order.
Proof.
  split; unfold first_entry, list_order.
  - intros m k v Hh. apply elem_of_map_to_list. destruct (map_to_list m); [done|].
    simplify_eq/=. left.
  - intros m Hh. destruct (map_to_list m) eqn:E; [|done]. by apply map_to_list_empty_iff.
Qed.

Section Ops.
Context {chan : Type -> Type} `{Mpsc chan} `{MapOrder}.
Implicit Types (s : SessionInner chan) (id : StreamId).

(** ** Heap accesses *)
Definition flow_at s (l : nat) : SendFlowState := default (SendFlowState_new 0) (flows s !! l).
Definition on_flow (l : nat) (f : SendFlowState -> SendFlowState) s : SessionInner chan :=
  set_flows (alter f l (flows s)) s.
Definition on_cell (l : nat) (f : RecvCell chan -> RecvCell chan) s : SessionInner chan :=
  set_recv_cells (alter f l (recv_cells s)) s.

Definition set_rc_chan (c : chan RecvEvent) (x : RecvCell chan) : RecvCell chan :=
  mkRecvCell c (rc_max_data x) (rc_finished x) (rc_pending x) (rc_consumed x) (rc_granted x)
    (rc_initial_window x) (rc_update_threshold x) (rc_stop_sent x).

(** Clone and drop the event sender of a receive stream. *)
Definition sender_clone (l : nat) s : SessionInner chan :=
  on_cell l (fun c => set_rc_chan (tx_clone (rc_chan c)) c) s.
Definition sender_drop (l : nat) s : SessionInner chan :=
  on_cell l (fun c => set_rc_chan (tx_drop (rc_chan c)) c) s.

(** ** Closing *)
Definition is_closed : nprog chan bool :=
  let* c := gets closed in if c then Ret true else gets shutdown_started.

Definition request_shutdown : nprog chan unit :=
  modify (set_shutdown_started true);;; modify (set_cancel true).

(** The guard's destructor aborts the session unless the operation completed. *)
Definition complete_or_abort {A} (p : nprog chan A) : nprog chan A := with_drop request_shutdown p.

(** ** The outbound queue *)

(** [permit.send(frame)], recorded in the history. *)
Definition push_frame (f : Frame) s : SessionInner chan :=
  set_out_log (out_log s ++ [f]) (set_outbound (permit_send (CmdFrame f) (outbound s)) s).

(** [outbound_tx.reserve().await]: [false] when the channel is closed. *)
Definition reserve : nprog chan bool :=
  await (fun s => match tx_reserve (outbound s) with
                  | (ReserveOk, c) => Some (set_outbound c s, true)
                  | (ReserveClosed, c) => Some (set_outbound c s, false)
                  | (ReservePending, _) => None
                  end).

(** With the permit in hand: stream data is queued under the flow-map lock. *)
Definition send_with_permit (f : Frame) s : SessionInner chan * result unit :=
  match f with
  | Stream id _ _ =>
      match send_flows s !! id with
      | None => (set_outbound (permit_drop (outbound s)) s, Err Closed)
      | Some _ => (push_frame f s, Ok tt)
      end
  | _ => (push_frame f s, Ok tt)
  end.

Definition send_frame (f : Frame) : nprog chan (result unit) :=
  let* c := is_closed in
  if c then Ret (Err Closed)
  else let* ok := reserve in
       if ok then atomic (send_with_permit f) else Ret (Err Closed).

Definition try_push_frame (f : Frame) s : SessionInner chan * result unit :=
  match tx_try_send (CmdFrame f) (outbound s) with
  | (SendOk, c) => (set_out_log (out_log s ++ [f]) (set_outbound c s), Ok tt)
  | (_, c) => (set_outbound c s, Err Closed)
  end.

Definition try_send_frame (f : Frame) : nprog chan (result unit) :=
  let* c := is_closed in
  if c then Ret (Err Closed) else atomic (try_push_frame f).

(** ** Flow-control credit *)

(** Updates of streams that are gone give up their slots when the map is full. *)
Definition credit_full s (m : gmap StreamId Z) : bool :=
  max_open_streams (limits s) <=? Z.of_nat (size m).
Definition prune_credit s : gmap StreamId Z :=
  if credit_full s (pending_credit s)
  then filter (fun kv => is_Some (streams s !! kv.1)) (pending_credit s)
  else pending_credit s.

(** Under the locks of [streams] and [pending_credit]; [true] asks for shutdown. *)
Definition queue_credit_locked id (maximum : Z) s : SessionInner chan * bool :=
  match streams s !! id with
  | None => (s, false)
  | Some st =>
      if stopped st then (s, false)
      else
        let pending := prune_credit s in
        if credit_full s pending && bool_decide (pending !! id = None)
        then (set_pending_credit pending s, true)
        else
          let v := match pending !! id with Some old => Z.max old maximum | None => maximum end in
          (set_pending_credit (<[id := v]> pending) s, false)
  end.

Definition queue_credit id (maximum : Z) : nprog chan unit :=
  let* overflow := atomic (queue_credit_locked id maximum) in
  if overflow then request_shutdown else Ret tt.

Definition next_credit : nprog chan Frame :=
  await (fun s => match first_entry (pending_credit s) with
                  | Some (id, max) =>
                      Some (set_pending_credit (delete id (pending_credit s)) s,
                            MaxStreamData id max)
                  | None => None
                  end).

(** ** The send and receive maps *)
Definition register_send_flow_locked id (initial_max : Z) s :
  SessionInner chan * result nat :=
  if max_open_streams (limits s) <=? Z.of_nat (size (send_flows s))
  then (s, Err (Protocol "too many open send streams"))
  else match send_flows s !! id with
  | Some _ => (s, Err (Protocol "duplicate send stream"))
  | None =>
      let l := length (flows s) in
      (set_flow_of (<[id := l]> (flow_of s))
         (set_send_flows (<[id := l]> (send_flows s))
            (set_flows (flows s ++ [SendFlowState_new initial_max]) s)), Ok l)
  end.

Definition register_send_flow id (initial_max : Z) : nprog chan (result nat) :=
  atomic (register_send_flow_locked id initial_max).

(** The flow is closed while the guard of the lock is still alive. *)
Definition remove_send_flow_locked id s : SessionInner chan * bool :=
  match send_flows s !! id with
  | Some l => (on_flow l flow_close (set_send_flows (delete id (send_flows s)) s), true)
  | None => (s, false)
  end.
Definition remove_send_flow id : nprog chan bool := atomic (remove_send_flow_locked id).

Definition stop_recv_stream_locked id s : SessionInner chan * bool :=
  match streams s !! id with
  | None => (s, false)
  | Some st =>
      (set_pending_credit (delete id (pending_credit s))
         (set_streams (<[id := mkRecvState true (recv_cell st) (received st)]> (streams s)) s),
       true)
  end.
Definition stop_recv_stream id : nprog chan bool := atomic (stop_recv_stream_locked id).

(** Removing an entry drops its event sender. *)
Definition remove_recv_stream_locked id s : SessionInner chan * bool :=
  match streams s !! id with
  | None => (s, false)
  | Some st => (sender_drop (recv_cell st) (set_streams (delete id (streams s)) s), true)
  end.
Definition remove_recv_stream id : nprog chan bool := atomic (remove_recv_stream_locked id).
Definition remove_stream id : nprog chan unit := let* _ := remove_recv_stream id in Ret tt.

(** ** Stream identifiers *)
(** [fetch_add(1)], which wraps around. *)
Definition fetch_next (dir : StreamDir) s : SessionInner chan * Z :=
  match dir with
  | Uni => (set_next_uni (wrap64 (next_uni s + 1)) s, next_uni s)
  | Bi => (set_next_bi (wrap64 (next_bi s + 1)) s, next_bi s)
  end.

Definition next_stream_id (dir : StreamDir) : nprog chan (result StreamId) :=
  let* counter := atomic (fetch_next dir) in
  let* server := gets is_server in
  Ret (map_err (fun _ => StreamIdError "value too large for varint encoding")
         (StreamId_new counter server dir)).

Definition peer_is_server s : bool := negb (is_server s).

Definition validate_peer_locked id s : SessionInner chan * bool :=
  let counter := StreamId_counter id in
  let next := saturating_add64 counter 1 in
  match StreamId_dir id with
  | Uni => if counter <? next_peer_uni s then (s, false) else (set_next_peer_uni next s, true)
  | Bi => if counter <? next_peer_bi s then (s, false) else (set_next_peer_bi next s, true)
  end.
Definition validate_peer_stream_id id : nprog chan bool := atomic (validate_peer_locked id).

(** The allocation frontier an identifier is compared with. *)
Definition frontier s id : Z :=
  match eqb (initiator_is_server id) (is_server s), StreamId_dir id with
  | true, Uni => next_uni s
  | true, Bi => next_bi s
  | false, Uni => next_peer_uni s
  | false, Bi => next_peer_bi s
  end.

Definition is_retired_direction id (receiving : bool) : nprog chan bool :=
  gets (fun s =>
    let local := eqb (initiator_is_server id) (is_server s) in
    if bool_decide (StreamId_dir id = Uni) && eqb local receiving then false
    else StreamId_counter id <? frontier s id).

(** ** Closing everything *)

(** [tokio::sync::Mutex::lock().await] is a suspension point. *)
Definition take_accept_uni : nprog chan unit :=
  await (fun s => Some (if accept_uni_tx s
                        then set_accept_uni_tx false
                               (set_accept_uni_chan (tx_drop (accept_uni_chan s)) s)
                        else s, tt)).
Definition take_accept_bi : nprog chan unit :=
  await (fun s => Some (if accept_bi_tx s
                        then set_accept_bi_tx false
                               (set_accept_bi_chan (tx_drop (accept_bi_chan s)) s)
                        else s, tt)).

Definition clear_streams s : SessionInner chan :=
  set_streams ∅ (foldr (fun st => sender_drop (recv_cell st)) s (map_to_list (streams s)).*2).

Definition clear_send_flows s : SessionInner chan :=
  set_send_flows ∅ (foldr (fun l => on_flow l flow_close) s (map_to_list (send_flows s)).*2).

Definition close_all : nprog chan unit :=
  let* already := atomic (fun s => (set_closed true s, closed s)) in
  if already then Ret tt
  else
    modify (set_pending_credit ∅);;;
    take_accept_uni;;;
    take_accept_bi;;;
    modify clear_streams;;;
    modify clear_send_flows.

Definition protocol_error (code : Z) (reason : string) : nprog chan (result unit) :=
  try_send_frame (ConnectionClose code reason);;;
  close_all;;;
  Ret (Err (Protocol reason)).
End Ops.
