(* ===== verification/NativeStream.v ===== *)
(** * The native session: stream handles

    Models [SendStream] and [RecvStream] of
    [websock-tungstenite-mux/src/session.rs]: the direct asynchronous methods, the
    [AsyncWrite] and [AsyncRead] polls, [Clone] and [Drop].  A read returns the
    bytes it copies into the caller's buffer.  Registering a waker has no effect
    here: a suspended future may be polled again at any time. *)

From S2P Require Import Prelude Buf VarInt Frame Proto Limits SendFlow Channel Async NativeState.
From S2P Require Import NativeOps.
Open Scope mux_scope.

Definition MAX_WRITE_CHUNK : Z := 16 * 1024.

(** [std::task::Poll]. *)
Inductive poll (A : Type) : Type := Ready (a : A) | Pending.
Arguments Ready {A} a.
Arguments Pending {A}.

Definition io_closed : IoError := mkIoError BrokenPipe "stream is closed".
Definition io_invalid_input (message : string) : IoError := mkIoError InvalidInput message.
Definition io_other (message : string) : IoError := mkIoError OtherKind message.

Definition io_from_error (err : Error) : IoError :=
  match err with
  | Closed => io_closed
  | Io error => error
  | Tls error | Transport error => io_other (display error)
  | Protocol m | InvalidUrl m | StreamIdError m | Unsupported m | FrameDecode m | Other m =>
      io_other m
  end.

Section Streams.
Context {chan : Type -> Type} `{Mpsc chan} `{MapOrder}.
Implicit Types (s : SessionInner chan) (id : StreamId).

(** ** Shared parts of a send handle *)
Definition no_shared : SendShared := mkSendShared false false 0 0.
Definition no_local : SendLocal := mkSendLocal None false.
Definition shared_of s (h : SendStream) : SendShared := default no_shared (send_cells s !! ss_shared h).
Definition local_of s (h : SendStream) : SendLocal := default no_local (send_locals s !! ss_local h).
Definition on_shared (h : SendStream) (f : SendShared -> SendShared) s : SessionInner chan :=
  set_send_cells (alter f (ss_shared h) (send_cells s)) s.
Definition on_local (h : SendStream) (f : SendLocal -> SendLocal) s : SessionInner chan :=
  set_send_locals (alter f (ss_local h) (send_locals s)) s.

Definition set_finished (b : bool) (x : SendShared) : SendShared :=
  mkSendShared b (operation x) (api_mode x) (strong_count x).
Definition set_operation (b : bool) (x : SendShared) : SendShared :=
  mkSendShared (finished x) b (api_mode x) (strong_count x).
Definition set_api_mode (m : Z) (x : SendShared) : SendShared :=
  mkSendShared (finished x) (operation x) m (strong_count x).
Definition add_strong (n : Z) (x : SendShared) : SendShared :=
  mkSendShared (finished x) (operation x) (api_mode x) (strong_count x + n).

(** Each handle holds two clones of the outbound sender. *)
Definition outbound_clone2 s : SessionInner chan :=
  set_outbound (tx_clone (tx_clone (outbound s))) s.
Definition outbound_drop2 s : SessionInner chan :=
  set_outbound (tx_drop (tx_drop (outbound s))) s.

Definition SendStream_new id (flow : nat) : nprog chan SendStream :=
  atomic (fun s =>
    (set_send_locals (send_locals s ++ [no_local])
       (set_send_cells (send_cells s ++ [mkSendShared false false 0 1]) (outbound_clone2 s)),
     mkSendStream id (length (send_cells s)) flow (length (send_locals s)))).

Definition SendStream_clone (h : SendStream) : nprog chan SendStream :=
  atomic (fun s =>
    (set_send_locals (send_locals s ++ [no_local])
       (on_shared h (add_strong 1) (outbound_clone2 s)),
     mkSendStream (ss_id h) (ss_shared h) (ss_flow h) (length (send_locals s)))).

Definition SendStream_finished (h : SendStream) : nprog chan bool :=
  gets (fun s => finished (shared_of s h)).
Definition flow_is_closed (h : SendStream) : nprog chan bool :=
  gets (fun s => flow_closed (flow_at s (ss_flow h))).

Definition SendStream_closed (h : SendStream) : nprog chan bool :=
  let* f := SendStream_finished h in
  if f then Ret true
  else let* c := flow_is_closed h in
       if c then Ret true else is_closed.

Definition select_api (h : SendStream) (mode : Z) : nprog chan (result unit) :=
  if mode =? 0 then Ret (Ok tt)
  else atomic (fun s =>
    let old := api_mode (shared_of s h) in
    if old =? 0 then (on_shared h (set_api_mode mode) s, Ok tt)
    else if old =? mode then (s, Ok tt)
    else (s, Err (Protocol "cannot mix direct and AsyncWrite APIs on a send stream"))).

Definition begin_operation (h : SendStream) (mode : Z) : nprog chan (result unit) :=
  let? _ := select_api h mode in
  atomic (fun s =>
    if operation (shared_of s h)
    then (s, Err (Protocol "concurrent send operations are unsupported"))
    else (on_shared h (set_operation true) s, Ok tt)).

(** [SendOperation::drop]. *)
Definition end_operation (h : SendStream) : nprog chan unit :=
  modify (on_shared h (set_operation false)).

(** An operation under its guard, which is released on every way out. *)
Definition guarded {A} (h : SendStream) (mode : Z) (p : nprog chan (result A)) :
  nprog chan (result A) :=
  let? _ := begin_operation h mode in
  let* r := with_drop (end_operation h) p in
  end_operation h;;;
  Ret r.

(** ** Direct writes *)

(** The [poll_fn] of [write_buf]. *)
Definition poll_grant (h : SendStream) (wanted : Z) s :
  option (SessionInner chan * result Z) :=
  let '(n, fl) := try_reserve wanted (flow_at s (ss_flow h)) in
  if n =? 0 then
    if finished (shared_of s h) || flow_closed (flow_at s (ss_flow h)) || closed s
       || shutdown_started s
    then Some (s, Err Closed) else None
  else Some (on_flow (ss_flow h) (fun _ => fl) s, Ok n).

Definition payload_limit (len max_frame : Z) : Z := Z.min (Z.min len MAX_WRITE_CHUNK) max_frame.

(** One round per frame; every round queues at least one byte, so [length data]
    rounds suffice ([Panic] marks running out of them). *)
Fixpoint write_loop (h : SendStream) (fuel : nat) (data : list byte) : nprog chan (result unit) :=
  match data with
  | [] => Ret (Ok tt)
  | _ =>
      match fuel with
      | O => Ret Panic
      | S fuel =>
          let* wanted :=
            gets (fun s => payload_limit (blen data) (max_stream_data_per_frame (limits s))) in
          if wanted =? 0 then Ret (Err (Protocol "stream frame payload limit is zero"))
          else
            let? grant := await (poll_grant h wanted) in
            let* sent := send_frame (Stream (ss_id h) (take (Z.to_nat grant) data) false) in
            match sent with
            | Ok _ => write_loop h fuel (drop (Z.to_nat grant) data)
            | Err err => modify (on_flow (ss_flow h) (release grant));;; Ret (Err err)
            | Panic => Ret Panic
            end
      end
  end.

Definition write_buf (h : SendStream) (data : list byte) : nprog chan (result unit) :=
  guarded h 1 (complete_or_abort (
    let* f := SendStream_finished h in
    if f then Ret (Err Closed)
    else let* c := is_closed in
         if c then Ret (Err Closed) else write_loop h (length data) data)).

Definition write (h : SendStream) (data : list byte) : nprog chan (result unit) := write_buf h data.
Definition write_all (h : SendStream) (data : list byte) : nprog chan (result unit) := write h data.

Definition finish (h : SendStream) : nprog chan (result unit) :=
  guarded h 1 (complete_or_abort (
    let* f := SendStream_finished h in
    if f then Ret (Ok tt)
    else let* c := flow_is_closed h in
    if c then Ret (Err Closed)
    else let* c := is_closed in
    if c then Ret (Err Closed)
    else
      let* won := atomic (fun s =>
        if finished (shared_of s h) then (s, false)
        else (on_shared h (set_finished true) s, true)) in
      if won then
        let? _ := send_frame (Stream (ss_id h) [] true) in
        remove_send_flow (ss_id h);;;
        Ret (Ok tt)
      else Ret (Ok tt))).

Definition reset (h : SendStream) (code : Z) : nprog chan (result unit) :=
  guarded h 0 (complete_or_abort (
    match VarInt_from_u64 code with
    | Ok _ =>
        modify (on_shared h (set_finished true));;;
        remove_send_flow (ss_id h);;;
        send_frame (ResetStream (ss_id h) code)
    | _ => Ret (Err (Protocol "reset code exceeds mux varint range"))
    end)).

(** The fields are dropped after the destructor's body. *)
Definition SendStream_drop (h : SendStream) : nprog chan unit :=
  let* n := gets (fun s => strong_count (shared_of s h)) in
  (if negb (n =? 1) then Ret tt
   else
     remove_send_flow (ss_id h);;;
     let* f := SendStream_finished h in
     if f then Ret tt
     else let* r := try_send_frame (ResetStream (ss_id h) 0) in
          if is_ok r then Ret tt else request_shutdown);;;
  modify (fun s => on_shared h (add_strong (-1)) (outbound_drop2 s)).

(** ** [AsyncWrite] *)

(** [PollSender::poll_reserve]; a permit is used or given back before the poll ends. *)
Definition poll_reserve : nprog chan (poll bool) :=
  atomic (fun s => match tx_reserve (outbound s) with
                   | (ReserveOk, c) => (set_outbound c s, Ready true)
                   | (ReserveClosed, c) => (set_outbound c s, Ready false)
                   | (ReservePending, _) => (s, Pending)
                   end).

(** [send_item] of a frame, recorded in the history when it is accepted. *)
Definition send_item_frame (f : Frame) s : SessionInner chan * bool :=
  match ps_send_item (CmdFrame f) (outbound s) with
  | (true, c) => (set_out_log (out_log s ++ [f]) (set_outbound c s), true)
  | (false, c) => (set_outbound c s, false)
  end.

Definition abort_send s : SessionInner chan := set_outbound (permit_drop (outbound s)) s.

(** Under the lock of [send_flows]: [None] when the direction is gone. *)
Definition send_item_if_open id (f : Frame) s : SessionInner chan * option bool :=
  match send_flows s !! id with
  | None => (abort_send s, None)
  | Some _ => let '(s, ok) := send_item_frame f s in (s, Some ok)
  end.

Definition poll_write_body (h : SendStream) (buf : list byte) :
  nprog chan (poll (outcome IoError Z)) :=
  let give_back n := modify (on_flow (ss_flow h) (release n)) in
  match buf with
  | [] => Ret (Ready (Ok 0))
  | _ =>
      let* c := SendStream_closed h in
      if c then Ret (Ready (Err io_closed))
      else
        let* wanted_len :=
          gets (fun s => payload_limit (blen buf) (max_stream_data_per_frame (limits s))) in
        if wanted_len =? 0
        then Ret (Ready (Err (io_invalid_input "stream frame payload limit is zero")))
        else
          let* chunk_len := atomic (fun s =>
            let '(n, fl) := try_reserve wanted_len (flow_at s (ss_flow h)) in
            (on_flow (ss_flow h) (fun _ => fl) s, n)) in
          if chunk_len =? 0 then
            let* fc := flow_is_closed h in
            if fc then Ret (Ready (Err io_closed))
            else let* sc := is_closed in
                 if sc then Ret (Ready (Err io_closed)) else Ret Pending
          else
            let* r := poll_reserve in
            match r with
            | Pending => give_back chunk_len;;; Ret Pending
            | Ready false => give_back chunk_len;;; Ret (Ready (Err io_closed))
            | Ready true =>
                let frame := Stream (ss_id h) (take (Z.to_nat chunk_len) buf) false in
                let* o := atomic (send_item_if_open (ss_id h) frame) in
                match o with
                | Some true =>
                    modify (on_local h (fun x => mkSendLocal None (fin_queued x)));;;
                    Ret (Ready (Ok chunk_len))
                | _ => give_back chunk_len;;; Ret (Ready (Err io_closed))
                end
            end
  end.

Definition poll_write (h : SendStream) (buf : list byte) : nprog chan (poll (outcome IoError Z)) :=
  let* a := select_api h 2 in
  match a with
  | Err error => Ret (Ready (Err (io_other (Error_to_string error))))
  | _ =>
      let* o := begin_operation h 2 in
      match o with
      | Err error => Ret (Ready (Err (io_other (Error_to_string error))))
      | _ =>
          let* r := poll_write_body h buf in
          end_operation h;;;
          Ret r
      end
  end.

(** Poll the acknowledgement of a queued flush. *)
Definition poll_waiter (h : SendStream) (ack : nat) : nprog chan (poll (outcome IoError unit)) :=
  atomic (fun s =>
    let done r := (on_local h (fun x => mkSendLocal None (fin_queued x)) s, Ready r) in
    match default AckDropped (acks s !! ack) with
    | AckPending => (s, Pending)
    | AckSent (Err err) => done (Err (io_from_error err))
    | AckSent _ => done (Ok tt)
    | AckDropped => done (Err io_closed)
    end).

(** The loop runs at most twice: a waiter that was just created is polled next. *)
Definition poll_flush_body (h : SendStream) : nprog chan (poll (outcome IoError unit)) :=
  let* w := gets (fun s => flush_waiter (local_of s h)) in
  match w with
  | Some ack => poll_waiter h ack
  | None =>
      let* r := poll_reserve in
      match r with
      | Pending => Ret Pending
      | Ready false => Ret (Ready (Err io_closed))
      | Ready true =>
          let* o := atomic (fun s =>
            let ack := length (acks s) in
            match ps_send_item (CmdFlush ack) (outbound s) with
            | (true, c) =>
                (on_local h (fun x => mkSendLocal (Some ack) (fin_queued x))
                   (set_acks (acks s ++ [AckPending]) (set_outbound c s)), Some ack)
            | (false, c) => (set_outbound c s, None)
            end) in
          match o with
          | Some ack => poll_waiter h ack
          | None => Ret (Ready (Err io_closed))
          end
      end
  end.

Definition poll_flush (h : SendStream) : nprog chan (poll (outcome IoError unit)) :=
  let* a := select_api h 2 in
  match a with
  | Err error => Ret (Ready (Err (io_other (Error_to_string error))))
  | _ => poll_flush_body h
  end.

Definition poll_shutdown (h : SendStream) : nprog chan (poll (outcome IoError unit)) :=
  let* a := select_api h 2 in
  match a with
  | Err error => Ret (Ready (Err (io_other (Error_to_string error))))
  | _ =>
      let* f := SendStream_finished h in
      let* dead :=
        (if f then Ret false
         else let* c := flow_is_closed h in if c then Ret true else is_closed) in
      if dead then Ret (Ready (Err io_closed))
      else
        let* f := SendStream_finished h in
        let* q := gets (fun s => fin_queued (local_of s h)) in
        if f || q then poll_flush h
        else
          let* r := poll_reserve in
          match r with
          | Pending => Ret Pending
          | Ready false => Ret (Ready (Err io_closed))
          | Ready true =>
              let* o := atomic (send_item_if_open (ss_id h) (Stream (ss_id h) [] true)) in
              match o with
              | Some true =>
                  modify (on_local h (fun x => mkSendLocal (flush_waiter x) true));;;
                  modify (on_shared h (set_finished true));;;
                  remove_send_flow (ss_id h);;;
                  poll_flush h
              | _ => Ret (Ready (Err io_closed))
              end
          end
  end.
End Streams.

Lemma payload_limit_le len m : payload_limit len m <= len /\ payload_limit len m <= m.
Proof. unfold payload_limit. lia. Qed.

