(* ===== verification/NativeRecv.v ===== *)
(** * The native session: receive handles

    Models [RecvStream] of [websock-tungstenite-mux/src/session.rs].  The fields
    of the handle live in its cell; a method that takes [&mut self] updates them
    in the same step as the shared access next to it. *)

From S2P Require Import Prelude Buf VarInt Frame Proto Limits SendFlow Channel Async NativeState.
From S2P Require Import NativeOps NativeStream.
Open Scope mux_scope.

Section Recv.
Context {chan : Type -> Type} `{Mpsc chan} `{MapOrder}.
Implicit Types (s : SessionInner chan) (id : StreamId) (c : RecvCell chan).

(** [RecvStream::new]: the fields of a fresh handle. *)
Definition RecvStream_new (receiver : chan RecvEvent) (initial_window update_threshold : Z) :
  RecvCell chan :=
  mkRecvCell receiver initial_window false [] 0 initial_window initial_window update_threshold false.

Definition no_cell : RecvCell chan := RecvStream_new (channel 0) 0 0.
Definition cell_of s (h : RecvStream) : RecvCell chan := default no_cell (recv_cells s !! rs_cell h).

Definition set_rc_finished (b : bool) c : RecvCell chan :=
  mkRecvCell (rc_chan c) (rc_max_data c) b (rc_pending c) (rc_consumed c) (rc_granted c)
    (rc_initial_window c) (rc_update_threshold c) (rc_stop_sent c).
Definition set_rc_pending (p : list byte) c : RecvCell chan :=
  mkRecvCell (rc_chan c) (rc_max_data c) (rc_finished c) p (rc_consumed c) (rc_granted c)
    (rc_initial_window c) (rc_update_threshold c) (rc_stop_sent c).
Definition set_rc_consumed (n : Z) c : RecvCell chan :=
  mkRecvCell (rc_chan c) (rc_max_data c) (rc_finished c) (rc_pending c) n (rc_granted c)
    (rc_initial_window c) (rc_update_threshold c) (rc_stop_sent c).
(** Raise [granted] and publish it in [max_data]. *)
Definition set_rc_grant (target : Z) c : RecvCell chan :=
  mkRecvCell (rc_chan c) target (rc_finished c) (rc_pending c) (rc_consumed c) target
    (rc_initial_window c) (rc_update_threshold c) (rc_stop_sent c).
Definition set_rc_stop_sent (b : bool) c : RecvCell chan :=
  mkRecvCell (rc_chan c) (rc_max_data c) (rc_finished c) (rc_pending c) (rc_consumed c)
    (rc_granted c) (rc_initial_window c) (rc_update_threshold c) b.

(** ** Flow control of the receiver *)

(** [on_bytes_consumed] on the handle's fields: the credit to queue, if any. *)
Definition consume (n : Z) c : RecvCell chan * option Z :=
  if n =? 0 then (c, None)
  else
    let c := set_rc_consumed (saturating_add64 (rc_consumed c) n) c in
    let target := Z.min (saturating_add64 (rc_consumed c) (rc_initial_window c)) VarInt_MAX in
    if target <=? rc_granted c then (c, None)
    else if target - rc_granted c <? rc_update_threshold c then (c, None)
    else if rc_finished c || rc_stop_sent c then (c, None)
    else (set_rc_grant target c, Some target).

(** Apply a function to the handle's cell. *)
Definition with_cell {A} (h : RecvStream) (f : RecvCell chan -> RecvCell chan * A) s :
  SessionInner chan * A :=
  (on_cell (rs_cell h) (fun c => (f c).1) s, (f (cell_of s h)).2).

Definition queue_credit_opt id (o : option Z) : nprog chan unit :=
  match o with Some target => queue_credit id target | None => Ret tt end.

Definition on_bytes_consumed (h : RecvStream) (n : Z) : nprog chan unit :=
  let* o := atomic (with_cell h (consume n)) in
  queue_credit_opt (rs_id h) o.

(** ** Reading *)

(** [receiver.recv().await] *)
Definition recv_event (h : RecvStream) : nprog chan (option RecvEvent) :=
  await (fun s =>
    match rx_recv (rc_chan (cell_of s h)) with
    | (RecvItem e, ch) => Some (on_cell (rs_cell h) (set_rc_chan ch) s, Some e)
    | (RecvEnd, ch) => Some (on_cell (rs_cell h) (set_rc_chan ch) s, None)
    | (RecvPending, _) => None
    end).

Definition read_chunk_internal (h : RecvStream) : nprog chan (result (option (list byte))) :=
  let* ev := recv_event h in
  match ev with
  | Some event =>
      (if ev_fin event then modify (on_cell (rs_cell h) (set_rc_finished true)) else Ret tt);;;
      if bool_decide (ev_data event = []) && ev_fin event
      then Ret (Ok None) else Ret (Ok (Some (ev_data event)))
  | None => modify (on_cell (rs_cell h) (set_rc_finished true));;; Ret (Ok None)
  end.

(** Copy out of [pending] up to [room] bytes. *)
Definition take_pending (room : Z) c : RecvCell chan * list byte :=
  let amt := Z.min room (blen (rc_pending c)) in
  (set_rc_pending (drop (Z.to_nat amt) (rc_pending c)) c, take (Z.to_nat amt) (rc_pending c)).

Definition deliver_pending (h : RecvStream) (room : Z) : nprog chan (list byte) :=
  let* out := atomic (with_cell h (take_pending room)) in
  on_bytes_consumed h (blen out);;;
  Ret out.

(** [read(buf)] with [buf.len() = room]; [read_buf(buf)] is the same code with
    [buf.remaining_mut() = room]. *)
Definition read (h : RecvStream) (room : Z) : nprog chan (result (option (list byte))) :=
  if room =? 0 then Ret (Ok (Some []))
  else
    let* c := gets (fun s => cell_of s h) in
    let deliver := let* out := deliver_pending h room in Ret (Ok (Some out)) in
    if bool_decide (rc_pending c = []) then
      if rc_finished c then Ret (Ok None)
      else
        let? chunk := read_chunk_internal h in
        match chunk with
        | Some chunk => modify (on_cell (rs_cell h) (set_rc_pending chunk));;; deliver
        | None => Ret (Ok None)
        end
    else deliver.

Definition read_buf (h : RecvStream) (remaining_mut : Z) : nprog chan (result (option (list byte))) :=
  read h remaining_mut.

Definition read_chunk (h : RecvStream) (max : Z) : nprog chan (result (option (list byte))) :=
  if max =? 0 then Ret (Err (Protocol "read_chunk max must be greater than zero"))
  else
    let* c := gets (fun s => cell_of s h) in
    if negb (bool_decide (rc_pending c = [])) then
      let* chunk := deliver_pending h max in Ret (Ok (Some chunk))
    else if rc_finished c then Ret (Ok None)
    else
      let* ev := recv_event h in
      match ev with
      | Some event =>
          (if ev_fin event then modify (on_cell (rs_cell h) (set_rc_finished true)) else Ret tt);;;
          if bool_decide (ev_data event = []) && ev_fin event then Ret (Ok None)
          else if max <? blen (ev_data event) then
            let chunk := take (Z.to_nat max) (ev_data event) in
            modify (on_cell (rs_cell h) (set_rc_pending (drop (Z.to_nat max) (ev_data event))));;;
            on_bytes_consumed h (blen chunk);;;
            Ret (Ok (Some chunk))
          else
            on_bytes_consumed h (blen (ev_data event));;;
            Ret (Ok (Some (ev_data event)))
      | None => modify (on_cell (rs_cell h) (set_rc_finished true));;; Ret (Ok None)
      end.

(** [poll_recv] *)
Definition poll_recv (h : RecvStream) : nprog chan (poll (option RecvEvent)) :=
  atomic (fun s =>
    match rx_recv (rc_chan (cell_of s h)) with
    | (RecvItem e, ch) => (on_cell (rs_cell h) (set_rc_chan ch) s, Ready (Some e))
    | (RecvEnd, ch) => (on_cell (rs_cell h) (set_rc_chan ch) s, Ready None)
    | (RecvPending, _) => (s, Pending)
    end).

(** The loop skips empty events.  [budget] bounds its rounds, like the runtime's
    cooperative budget, after which [poll_recv] reports [Pending]. *)
Fixpoint poll_read_loop (h : RecvStream) (budget : nat) (room : Z) : nprog chan (poll (list byte)) :=
  match budget with
  | O => Ret Pending
  | S budget =>
      let* ev := poll_recv h in
      match ev with
      | Pending => Ret Pending
      | Ready None =>
          modify (on_cell (rs_cell h) (set_rc_finished true));;; Ret (Ready [])
      | Ready (Some event) =>
          (if ev_fin event then modify (on_cell (rs_cell h) (set_rc_finished true)) else Ret tt);;;
          if bool_decide (ev_data event = []) then
            if ev_fin event then Ret (Ready []) else poll_read_loop h budget room
          else
            let amt := Z.min (blen (ev_data event)) room in
            (if amt <? blen (ev_data event)
             then modify (on_cell (rs_cell h) (set_rc_pending (drop (Z.to_nat amt) (ev_data event))))
             else Ret tt);;;
            on_bytes_consumed h amt;;;
            Ret (Ready (take (Z.to_nat amt) (ev_data event)))
      end
  end.

Definition poll_read (h : RecvStream) (budget : nat) (room : Z) : nprog chan (poll (list byte)) :=
  if room =? 0 then Ret (Ready [])
  else
    let* c := gets (fun s => cell_of s h) in
    if negb (bool_decide (rc_pending c = [])) then
      let* out := deliver_pending h room in Ret (Ready out)
    else if rc_finished c then Ret (Ready [])
    else poll_read_loop h budget room.

(** ** Stopping and dropping *)

(** [stop_sent.swap(true)] *)
Definition swap_stop_sent (h : RecvStream) : nprog chan bool :=
  atomic (with_cell h (fun c => (set_rc_stop_sent true c, rc_stop_sent c))).

Definition stop (h : RecvStream) (code : Z) : nprog chan (result unit) :=
  complete_or_abort (
    match VarInt_from_u64 code with
    | Ok _ =>
        let* already := swap_stop_sent h in
        if already then Ret (Ok tt)
        else
          let* open := stop_recv_stream (rs_id h) in
          if open then send_frame (StopSending (rs_id h) code) else Ret (Ok tt)
    | _ => Ret (Err (Protocol "stop code exceeds mux varint range"))
    end).

Definition RecvStream_closed (h : RecvStream) : nprog chan bool :=
  gets (fun s => rc_finished (cell_of s h)).

(** The destructor, then the receiving end of the channel. *)
Definition RecvStream_drop (h : RecvStream) : nprog chan unit :=
  let* needs_stop := stop_recv_stream (rs_id h) in
  (if needs_stop then
     let* f := gets (fun s => rc_finished (cell_of s h)) in
     if f then Ret tt
     else
       let* already := swap_stop_sent h in
       if already then Ret tt
       else let* r := try_send_frame (StopSending (rs_id h) 0) in
            if is_ok r then Ret tt else request_shutdown
   else Ret tt);;;
  modify (on_cell (rs_cell h) (fun c => set_rc_chan (rx_drop (rc_chan c)).2 c)).
End Recv.
