(* ===== verification/NativeSession.v ===== *)
(** * The native session: peer frames and the public handle

    Models [handle_frame] with the registration functions it calls, and [Session]
    ([new], [open_uni], [open_bi], [accept_uni], [accept_bi], [shutdown], [Clone],
    [Drop]) of [websock-tungstenite-mux/src/session.rs]. *)

From S2P Require Import Prelude Buf VarInt Frame Proto Limits SendFlow Channel Async NativeState.
From S2P Require Import NativeOps NativeStream NativeRecv.
Open Scope mux_scope.

Section Session.
Context {chan : Type -> Type} `{Mpsc chan} `{MapOrder}.
Implicit Types (s : SessionInner chan) (id : StreamId).

(** ** Registration of receive streams *)

(** Allocate the handle's cell and enter it in the map; an entry that was there
    is dropped. *)
Definition insert_recv_state id s : SessionInner chan * RecvStream :=
  let l := length (recv_cells s) in
  let cell := RecvStream_new (channel (recv_event_queue_len (limits s)))
                (initial_stream_window (limits s)) (stream_window_update_threshold (limits s)) in
  let s' := match streams s !! id with Some old => sender_drop (recv_cell old) s | None => s end in
  (set_streams (<[id := mkRecvState false l 0]> (streams s'))
     (set_recv_cells (recv_cells s' ++ [cell]) s'),
   mkRecvStream id l).

Definition register_recv_stream id : nprog chan RecvStream := atomic (insert_recv_state id).

Definition register_inbound_locked id s : SessionInner chan * outcome (Z * string) RecvStream :=
  if max_open_streams (limits s) <=? Z.of_nat (size (streams s))
  then (s, Err (3, "too many open streams"))
  else match streams s !! id with
  | Some _ => (s, Err (1, "duplicate stream open"))
  | None => let '(s, h) := insert_recv_state id s in (s, Ok h)
  end.

Definition send_initial_credit id : nprog chan (result unit) :=
  let* max := gets (fun s => initial_stream_window (limits s)) in
  send_frame (MaxStreamData id max).

Definition try_register_inbound_recv_stream id : nprog chan (outcome (Z * string) RecvStream) :=
  let? recv := atomic (register_inbound_locked id) in
  let* initial_window := gets (fun s => initial_stream_window (limits s)) in
  let* r := with_drop (RecvStream_drop recv) (send_frame (MaxStreamData id initial_window)) in
  if is_ok r then Ret (Ok recv)
  else RecvStream_drop recv;;; Ret (Err (2, "failed to send initial stream credit")).

(** ** Peer frames *)

(** Run [p] with a value alive that is dropped by [d] when [p] ends or is cancelled. *)
Definition dropping {A} (d : nprog chan unit) (p : nprog chan A) : nprog chan A :=
  let* r := with_drop d p in d;;; Ret r.

Definition accept_uni_drop : nprog chan unit :=
  modify (fun s => set_accept_uni_chan (tx_drop (accept_uni_chan s)) s).
Definition accept_bi_drop : nprog chan unit :=
  modify (fun s => set_accept_bi_chan (tx_drop (accept_bi_chan s)) s).

(** [accept_uni_tx.lock().await.clone()] *)
Definition clone_accept_uni : nprog chan bool :=
  await (fun s => Some (if accept_uni_tx s
                        then set_accept_uni_chan (tx_clone (accept_uni_chan s)) s else s,
                        accept_uni_tx s)).
Definition clone_accept_bi : nprog chan bool :=
  await (fun s => Some (if accept_bi_tx s
                        then set_accept_bi_chan (tx_clone (accept_bi_chan s)) s else s,
                        accept_bi_tx s)).

Definition deliver_uni (recv : RecvStream) : nprog chan (result unit) :=
  let* tx := with_drop (RecvStream_drop recv) clone_accept_uni in
  if tx then
    let* r := atomic (fun s => let '(r, c) := tx_try_send recv (accept_uni_chan s) in
                               (set_accept_uni_chan c s, r)) in
    dropping accept_uni_drop
      match r with
      | SendOk => Ret (Ok tt)
      | SendFull => dropping (RecvStream_drop recv) (protocol_error 3 "accept queue full")
      | SendClosed => RecvStream_drop recv;;; Ret (Err Closed)
      end
  else RecvStream_drop recv;;; Ret (Err Closed).

(** A rejected pair is dropped field by field. *)
Definition drop_pair (p : SendStream * RecvStream) : nprog chan unit :=
  SendStream_drop p.1;;; RecvStream_drop p.2.

Definition deliver_bi (pair : SendStream * RecvStream) : nprog chan (result unit) :=
  let* tx := with_drop (drop_pair pair) clone_accept_bi in
  if tx then
    let* r := atomic (fun s => let '(r, c) := tx_try_send pair (accept_bi_chan s) in
                               (set_accept_bi_chan c s, r)) in
    dropping accept_bi_drop
      match r with
      | SendOk => Ret (Ok tt)
      | SendFull => dropping (drop_pair pair) (protocol_error 3 "accept queue full")
      | SendClosed => drop_pair pair;;; Ret (Err Closed)
      end
  else drop_pair pair;;; Ret (Err Closed).

Definition handle_open_uni id : nprog chan (result unit) :=
  let* peer := gets peer_is_server in
  if negb (bool_decide (StreamId_dir id = Uni)) then protocol_error 1 "OpenUni with non-uni StreamId"
  else if negb (eqb (initiator_is_server id) peer) then protocol_error 1 "OpenUni with wrong initiator"
  else
    let* valid := validate_peer_stream_id id in
    if negb valid then protocol_error 1 "OpenUni with non-monotonic StreamId"
    else
      let* r := try_register_inbound_recv_stream id in
      match r with
      | Ok recv => deliver_uni recv
      | Err (code, reason) => protocol_error code reason
      | Panic => Ret Panic
      end.

Definition handle_open_bi id : nprog chan (result unit) :=
  let* peer := gets peer_is_server in
  if negb (bool_decide (StreamId_dir id = Bi)) then protocol_error 1 "OpenBi with non-bi StreamId"
  else if negb (eqb (initiator_is_server id) peer) then protocol_error 1 "OpenBi with wrong initiator"
  else
    let* valid := validate_peer_stream_id id in
    if negb valid then protocol_error 1 "OpenBi with non-monotonic StreamId"
    else
      let* r := try_register_inbound_recv_stream id in
      match r with
      | Ok recv =>
          let* fl := register_send_flow id 0 in
          match fl with
          | Ok flow =>
              let* send := SendStream_new id flow in
              deliver_bi (send, recv)
          | Err err =>
              dropping (RecvStream_drop recv) (protocol_error 3 (Error_to_string err))
          | Panic => Ret Panic
          end
      | Err (code, reason) => protocol_error code reason
      | Panic => Ret Panic
      end.

(** Accounting under the lock of [streams]: the event sender (cloned) and whether
    the stream was stopped, or the reason of the violation. *)
Definition account_data id (len : Z) s : SessionInner chan * outcome string (nat * bool) :=
  match streams s !! id with
  | None => (s, Err "Stream data on unknown stream")
  | Some st =>
      match checked_add64 (received st) len with
      | None => (s, Err "stream data overflow")
      | Some r =>
          if rc_max_data (cell_of s (mkRecvStream id (recv_cell st))) <? r
          then (s, Err "stream flow-control limit exceeded")
          else (sender_clone (recv_cell st)
                  (set_streams (<[id := mkRecvState (stopped st) (recv_cell st) r]> (streams s)) s),
                Ok (recv_cell st, stopped st))
      end
  end.

(** [tx.try_send(RecvEvent { data, fin })] *)
Definition try_send_event (l : nat) (e : RecvEvent) s : SessionInner chan * try_send_res :=
  let '(r, c) := tx_try_send e (rc_chan (cell_of s (mkRecvStream (mkStreamId 0) l))) in
  (on_cell l (set_rc_chan c) s, r).

Definition handle_stream id (data : list byte) (fin : bool) : nprog chan (result unit) :=
  let* limit := gets (fun s => max_stream_data_per_frame (limits s)) in
  if limit <? blen data then protocol_error 2 "stream data too large"
  else
    let* tx := atomic (account_data id (blen data)) in
    let retire := if fin then remove_recv_stream id else Ret true in
    match tx with
    | Err reason => protocol_error 2 reason
    | Panic => Ret Panic
    | Ok (l, stopped) =>
        dropping (modify (sender_drop l))
          (if stopped then retire;;; Ret (Ok tt)
           else
             let* r := atomic (try_send_event l (mkRecvEvent data fin)) in
             match r with
             | SendOk => retire;;; Ret (Ok tt)
             | SendFull => protocol_error 3 "receive queue full"
             | SendClosed => retire;;; Ret (Ok tt)
             end)
    end.

Definition handle_reset_stream id : nprog chan (result unit) :=
  let* removed := remove_recv_stream id in
  if removed then Ret (Ok tt)
  else let* retired := is_retired_direction id true in
       if retired then Ret (Ok tt) else protocol_error 1 "reset on unknown stream".

Definition handle_stop_sending id (code : Z) : nprog chan (result unit) :=
  let* removed := remove_send_flow id in
  if removed then send_frame (ResetStream id code)
  else let* retired := is_retired_direction id false in
       if retired then Ret (Ok tt) else protocol_error 1 "stop on unknown stream".

(** The limit is updated under the lock of [send_flows]. *)
Definition handle_max_stream_data id (max : Z) : nprog chan (result unit) :=
  modify (fun s => match send_flows s !! id with
                   | Some l => on_flow l (update_max max) s
                   | None => s
                   end);;;
  Ret (Ok tt).

Definition handle_frame (f : Frame) : nprog chan (result unit) :=
  match f with
  | OpenUni id => handle_open_uni id
  | OpenBi id => handle_open_bi id
  | Stream id data fin => handle_stream id data fin
  | ResetStream id _ => handle_reset_stream id
  | StopSending id code => handle_stop_sending id code
  | MaxStreamData id max => handle_max_stream_data id max
  | ConnectionClose _ _ => close_all;;; Ret (Err Closed)
  end.

(** ** The public handle *)

(** [SessionInner::new] *)
Definition SessionInner_new (server : bool) (l : Limits) (out : chan OutboundCmd)
    (uni : chan RecvStream) (bi : chan (SendStream * RecvStream)) : SessionInner chan := {|
  is_server := server; limits := l; outbound := out; pending_credit := ∅;
  accept_uni_tx := true; accept_bi_tx := true;
  accept_uni_chan := uni; accept_bi_chan := bi; accept_uni_refs := 1; accept_bi_refs := 1;
  streams := ∅; send_flows := ∅;
  next_uni := 0; next_bi := 0; next_peer_uni := 0; next_peer_bi := 0;
  closed := false; shutdown_started := false; peer_closed := false; peer_close_notify := false;
  session_handles := 1; active_tasks := 2; cancel := false;
  flows := []; recv_cells := []; send_cells := []; send_locals := []; acks := [];
  now := 0; wire := []; out_log := []; flow_of := ∅
|}.

Definition Session_new `{UsizeWidth} (server : bool) (l : Limits) : result (SessionInner chan) :=
  _ ← Limits_validate l;
  Ok (SessionInner_new server l (channel (outbound_queue_len l))
        (channel (accept_uni_queue_len l)) (channel (accept_bi_queue_len l))).

Definition open_uni : nprog chan (result SendStream) :=
  complete_or_abort (
    let? id := next_stream_id Uni in
    let? flow := register_send_flow id 0 in
    let* r := send_frame (OpenUni id) in
    match r with
    | Ok _ => let* h := SendStream_new id flow in Ret (Ok h)
    | Err err => remove_send_flow id;;; Ret (Err err)
    | Panic => Ret Panic
    end).

Definition open_bi : nprog chan (result (SendStream * RecvStream)) :=
  complete_or_abort (
    let? id := next_stream_id Bi in
    let? flow := register_send_flow id 0 in
    let* recv := register_recv_stream id in
    let undo err :=
      remove_stream id;;;
      remove_send_flow id;;;
      RecvStream_drop recv;;;
      Ret (Err err) in
    let* r := with_drop (RecvStream_drop recv) (send_frame (OpenBi id)) in
    match r with
    | Ok _ =>
        let* r := with_drop (RecvStream_drop recv) (send_initial_credit id) in
        match r with
        | Ok _ => let* h := SendStream_new id flow in Ret (Ok (h, recv))
        | Err err => undo err
        | Panic => Ret Panic
        end
    | Err err => undo err
    | Panic => Ret Panic
    end).

(** The mutex around a receiving end only orders the callers that wait on it. *)
Definition accept_uni : nprog chan (result RecvStream) :=
  await (fun s => match rx_recv (accept_uni_chan s) with
                  | (RecvItem h, c) => Some (set_accept_uni_chan c s, Ok h)
                  | (RecvEnd, c) => Some (set_accept_uni_chan c s, Err Closed)
                  | (RecvPending, _) => None
                  end).

Definition accept_bi : nprog chan (result (SendStream * RecvStream)) :=
  await (fun s => match rx_recv (accept_bi_chan s) with
                  | (RecvItem h, c) => Some (set_accept_bi_chan c s, Ok h)
                  | (RecvEnd, c) => Some (set_accept_bi_chan c s, Err Closed)
                  | (RecvPending, _) => None
                  end).

Definition Session_clone : nprog chan unit :=
  modify (fun s => set_session_handles (session_handles s + 1) s);;;
  modify (fun s => set_accept_uni_refs (accept_uni_refs s + 1) s);;;
  modify (fun s => set_accept_bi_refs (accept_bi_refs s + 1) s).

(** Run a destructor on each value. *)
Definition drop_each {A} (d : A -> nprog chan unit) (l : list A) : nprog chan unit :=
  foldr (fun a p => d a;;; p) (Ret tt) l.

(** The receiving ends are dropped with the last handle, and with them the streams
    that were never accepted. *)
Definition Session_drop : nprog chan unit :=
  let* old := atomic (fun s => (set_session_handles (session_handles s - 1) s, session_handles s)) in
  (if old =? 1 then request_shutdown else Ret tt);;;
  let* uni := atomic (fun s =>
    let s' := set_accept_uni_refs (accept_uni_refs s - 1) s in
    if accept_uni_refs s =? 1
    then let '(l, c) := rx_drop (accept_uni_chan s) in (set_accept_uni_chan c s', l)
    else (s', [])) in
  drop_each RecvStream_drop uni;;;
  let* bi := atomic (fun s =>
    let s' := set_accept_bi_refs (accept_bi_refs s - 1) s in
    if accept_bi_refs s =? 1
    then let '(l, c) := rx_drop (accept_bi_chan s) in (set_accept_bi_chan c s', l)
    else (s', [])) in
  drop_each drop_pair bi.

(** ** Shutdown *)
Definition wait_for_tasks : nprog chan unit :=
  await (fun s => if active_tasks s =? 0 then Some (s, tt) else None).

Definition task_finished : nprog chan unit :=
  close_all;;;
  modify (set_cancel true);;;
  modify (fun s => set_active_tasks (active_tasks s - 1) s).

(** [outbound_tx.send(Shutdown { ack }).await]; the acknowledgement's location. *)
Definition send_shutdown : nprog chan (option nat) :=
  await (fun s =>
    let ack := length (acks s) in
    match tx_reserve (outbound s) with
    | (ReserveOk, c) =>
        Some (set_acks (acks s ++ [AckPending]) (set_outbound (permit_send (CmdShutdown ack) c) s),
              Some ack)
    | (ReserveClosed, c) => Some (set_outbound c s, None)
    | (ReservePending, _) => None
    end).

(** [ack_rx.await] *)
Definition wait_ack (ack : nat) : nprog chan (option (result unit)) :=
  await (fun s => match default AckDropped (acks s !! ack) with
                  | AckPending => None
                  | AckSent r => Some (s, Some r)
                  | AckDropped => Some (s, None)
                  end).

Definition shutdown_handshake : nprog chan (result unit) :=
  let* sent := send_shutdown in
  match sent with
  | Some ack =>
      let* answer := wait_ack ack in
      let* r := match answer with
                | Some r => Ret r
                | None => let* p := gets peer_closed in Ret (if p then Ok tt else Err Closed)
                end in
      (if is_ok r then wait_for_tasks else Ret tt);;;
      Ret r
  | None => Ret (Ok tt)
  end.

Definition shutdown : nprog chan (result unit) :=
  complete_or_abort (
    let* c := gets closed in
    if c then wait_for_tasks;;; Ret (Ok tt)
    else
      let* started := atomic (fun s => (set_shutdown_started true s, shutdown_started s)) in
      if negb started then
        let* start := gets now in
        let* o := timeout (fun s => start + 5 <=? now s) shutdown_handshake in
        modify (set_cancel true);;;
        wait_for_tasks;;;
        Ret (match o with Some r => r | None => Err Closed end)
      else
        wait_for_tasks;;;
        Ret (Ok tt)).
End Session.
