(* ===== verification/NativeTasks.v ===== *)
(** * The native session: the reader and writer tasks

    Models [spawn_tasks] of [websock-tungstenite-mux/src/session.rs].  The
    WebSocket itself is the environment: the reader is given the list of items its
    stream yields, the writer a predicate that says which sends succeed ([wire]
    records those that did).  [select!] without [biased] picks arbitrarily between
    ready branches; the writer takes a predicate for that choice too. *)

From S2P Require Import Prelude Buf VarInt Frame Proto Limits SendFlow Channel Async NativeState.
From S2P Require Import NativeOps NativeStream NativeRecv NativeSession.
Open Scope mux_scope.

(** An item of the WebSocket stream; [None] is a transport error. *)
Definition WsItem : Set := option WsMessage.

(** [tungstenite::Error], by the cases [map_tungstenite_err] tells apart. *)
Inductive TungsteniteError : Set :=
| ConnectionClosed
| AlreadyClosed
| TungIo (e : IoError)
| TungTls (e : BoxError)
| TungOther (e : BoxError).

Definition map_tungstenite_err (e : TungsteniteError) : Error :=
  match e with
  | ConnectionClosed | AlreadyClosed => Closed
  | TungIo io => Io io
  | TungTls tls => Tls tls
  | TungOther other => Transport other
  end.

Section Tasks.
Context {chan : Type -> Type} `{Mpsc chan} `{MapOrder}.
Implicit Types (s : SessionInner chan).

(** ** The reader *)

(** Decode and handle the frames of one binary message; [false] ends the task.
    Every frame takes at least one byte, so [length cursor] rounds suffice. *)
Fixpoint inbound_frames `{UsizeWidth} (fuel : nat) (cursor : list byte) : nprog chan bool :=
  if has_remaining cursor then
    match fuel with
    | O => Ret false
    | S fuel =>
        match Frame_decode cursor with
        | Ok (frame, rest) =>
            let* r := handle_frame frame in
            if is_ok r then inbound_frames fuel rest else Ret false
        | _ => let* _ := protocol_error 1 "invalid frame" in Ret false
        end
    end
  else Ret true.

Definition inbound_binary `{UsizeWidth} (data : list byte) : nprog chan bool :=
  let* max := gets (fun s => max_ws_message_size (limits s)) in
  if max <? blen data then let* _ := protocol_error 2 "ws message too large" in Ret false
  else inbound_frames (length data) data.

(** The pong is dropped when the queue is full or closed. *)
Definition inbound_ping (p : list byte) : nprog chan bool :=
  atomic (fun s => (set_outbound (tx_try_send (CmdWs (WsPong p)) (outbound s)).2 s, true)).

(** Keep the transport alive until the writer has flushed the close reply. *)
Definition inbound_close : nprog chan bool :=
  modify (set_peer_closed true);;;
  modify (set_shutdown_started true);;;
  modify (set_peer_close_notify true);;;
  let* start := gets now in
  let* _ := timeout (fun s => start + 5 <=? now s)
              (await (fun s => if cancel s then Some (s, tt) else None)) in
  Ret false.

Definition inbound_message `{UsizeWidth} (m : WsMessage) : nprog chan bool :=
  match m with
  | WsBinary data => inbound_binary data
  | WsPing p => inbound_ping p
  | WsText _ => let* _ := protocol_error 1 "text message not supported" in Ret false
  | WsClose => inbound_close
  | WsPong _ | WsFrame => Ret true
  end.

Fixpoint inbound_work `{UsizeWidth} (items : list WsItem) : nprog chan unit :=
  let* stop := await (fun s => Some (s, cancel s)) in
  if stop then Ret tt
  else match items with
  | [] | None :: _ => Ret tt
  | Some m :: items =>
      let* continue := inbound_message m in
      if continue then inbound_work items else Ret tt
  end.

Definition inbound_task `{UsizeWidth} (items : list WsItem) : nprog chan unit :=
  let* _ := select_stop cancel (inbound_work items) in
  task_finished.

(** ** The writer *)
Record Writer : Set := mkWriter {
  batch : list byte;
  batch_frames : Z;
  close_sent : bool
}.
Definition Writer_new : Writer := mkWriter [] 0 false.

(** Which sends and closes of the sink succeed, and which flushes, given what was
    sent before; the error is what the failing call reports. *)
Context (sink : list WsMessage -> WsMessage -> outcome TungsteniteError unit).
Context (sink_flush : list WsMessage -> outcome TungsteniteError unit).

Definition sink_send (m : WsMessage) : nprog chan (outcome TungsteniteError unit) :=
  await (fun s => match sink (wire s) m with
                  | Ok _ => Some (set_wire (wire s ++ [m]) s, Ok tt)
                  | r => Some (s, r)
                  end).
Definition sink_close : nprog chan (outcome TungsteniteError unit) := sink_send WsClose.

Definition flush_batch (w : Writer) : nprog chan (outcome TungsteniteError unit) :=
  match batch w with
  | [] => Ret (Ok tt)
  | payload => sink_send (WsBinary payload)
  end.

Definition ack_send (ack : nat) (r : result unit) : nprog chan unit :=
  modify (fun s => set_acks (alter (fun a => match a with AckPending => AckSent r | a => a end) ack
                               (acks s)) s).

(** The acknowledgement's sender is dropped unanswered. *)
Definition drop_pending (a : oneshot) : oneshot :=
  match a with AckPending => AckDropped | a => a end.
Definition ack_drop (ack : nat) : nprog chan unit :=
  modify (fun s => set_acks (alter drop_pending ack (acks s)) s).

(** Size limit of a batch, and the two decisions to send it. *)
Definition batch_limit (l : Limits) : Z := Z.min (max_batch_bytes l) (max_ws_message_size l).
Definition flush_before (l : Limits) (w : Writer) (frame_len : Z) : bool :=
  negb (bool_decide (batch w = [])) && (batch_limit l <? blen (batch w) + frame_len).
Definition flush_after (l : Limits) (w : Writer) (rx_empty : bool) : bool :=
  (max_batch_frames l <=? batch_frames w) || (batch_limit l <=? blen (batch w)) || rx_empty.
Definition batch_add (w : Writer) (encoded : list byte) : Writer :=
  mkWriter (batch w ++ encoded) (batch_frames w + 1) (close_sent w).
Definition batch_taken (w : Writer) : Writer := mkWriter [] 0 (close_sent w).

(** [None] leaves the loop. *)
Definition write_frame (w : Writer) (f : Frame) : nprog chan (option Writer) :=
  match Frame_encode f with
  | Ok encoded =>
      let* l := gets limits in
      let* first :=
        (if flush_before l w (blen encoded)
         then let* r := flush_batch w in Ret (if is_ok r then Some (batch_taken w) else None)
         else Ret (Some w)) in
      match first with
      | None => Ret None
      | Some w =>
          let w := batch_add w encoded in
          let* rx_empty := gets (fun s => rx_is_empty (outbound s)) in
          if flush_after l w rx_empty
          then let* r := flush_batch w in Ret (if is_ok r then Some (batch_taken w) else None)
          else Ret (Some w)
      end
  | _ => Ret None  (* a panic ends the task *)
  end.

Definition write_cmd (w : Writer) (cmd : OutboundCmd) : nprog chan (option Writer) :=
  match cmd with
  | CmdFrame f => if close_sent w then Ret (Some w) else write_frame w f
  | CmdWs m =>
      if close_sent w then Ret (Some w)
      else
        let* r := flush_batch w in
        if is_ok r
        then let* r := sink_send m in Ret (if is_ok r then Some (batch_taken w) else None)
        else Ret None
  | CmdFlush ack =>
      let* r := with_drop (ack_drop ack) (flush_batch w) in
      if is_ok r
      then
        let* res := with_drop (ack_drop ack) (await (fun s => Some (s, sink_flush (wire s)))) in
        let* _ := ack_send ack (map_err map_tungstenite_err res) in
        Ret (Some (batch_taken w))
      else let* _ := ack_send ack (Err Closed) in Ret None
  | CmdShutdown ack =>
      let* r := with_drop (ack_drop ack) (
        let* r := flush_batch w in
        match r with Ok _ => sink_close | r => Ret r end) in
      let* _ := ack_send ack (map_err map_tungstenite_err r) in
      Ret (if is_ok r then Some (mkWriter [] (batch_frames w) true) else None)
  end.

(** The ready branches of the loop's [select!], in priority order; [prefer] picks
    between a queued command and a credit when both are ready. *)
Inductive wevent : Set := PeerClose | Cancelled | Cmd (c : option OutboundCmd).

Definition next_event (prefer : bool) (close_sent : bool) s :
  option (SessionInner chan * wevent) :=
  let queued := match rx_recv (outbound s) with
                | (RecvItem cmd, c) => Some (set_outbound c s, Cmd (Some cmd))
                | (RecvEnd, c) => Some (set_outbound c s, Cmd None)
                | (RecvPending, _) => None
                end in
  let credit := if close_sent then None
                else match first_entry (pending_credit s) with
                | Some (id, max) =>
                    Some (set_pending_credit (delete id (pending_credit s)) s,
                          Cmd (Some (CmdFrame (MaxStreamData id max))))
                | None => None
                end in
  if peer_close_notify s then Some (set_peer_close_notify false s, PeerClose)
  else if cancel s then Some (s, Cancelled)
  else match queued, credit with
  | Some q, Some c => Some (if prefer then c else q)
  | Some q, None => Some q
  | None, c => c
  end.

Fixpoint writer_loop (prefer : nat -> bool) (rounds : nat) (w : Writer) : nprog chan unit :=
  match rounds with
  | O => Ret tt
  | S rounds =>
      let* ev := await (next_event (prefer rounds) (close_sent w)) in
      match ev with
      | PeerClose => let* _ := sink_close in Ret tt
      | Cancelled | Cmd None =>
          let* _ := flush_batch w in
          let* _ := sink_close in
          Ret tt
      | Cmd (Some cmd) =>
          let* next := write_cmd w cmd in
          match next with Some w => writer_loop prefer rounds w | None => Ret tt end
      end
  end.

(** Dropping the receiver drops the queued acknowledgements. *)
Definition drop_ack (cmd : OutboundCmd) (l : list oneshot) : list oneshot :=
  match cmd with
  | CmdFlush ack | CmdShutdown ack =>
      alter drop_pending ack l
  | _ => l
  end.
Definition drop_outbound_rx : nprog chan unit :=
  modify (fun s => let '(cmds, c) := rx_drop (outbound s) in
                   set_acks (foldr drop_ack (acks s) cmds) (set_outbound c s)).

Definition outbound_task (prefer : nat -> bool) (rounds : nat) : nprog chan unit :=
  let* _ := select_stop cancel (writer_loop prefer rounds Writer_new) in
  drop_outbound_rx;;;
  task_finished.
End Tasks.
