(* ===== verification/NativeInv.v ===== *)
(** * The native session: invariant of the shared state

    [inv s T] is kept by every atomic section of every task and client, where [T]
    holds the tokens of all threads: [inl id] stands for an identifier that was
    allocated and whose send direction is not registered yet, [inr (id, n, k)] for
    [n] bytes of send credit of stream [id] that are reserved and not yet queued
    (the number [k] tells equal reservations apart).  [evolves] is the order in
    which states follow each other. *)

From S2P Require Import Prelude Buf VarInt Frame Proto Limits SendFlow Channel Async NativeState.
From S2P Require Import NativeOps NativeStream NativeRecv NativeSession NativeTasks Credit.

Definition cmd_ok (l : Limits) (c : OutboundCmd) : Prop :=
  match c with CmdFrame f => sendable l f | _ => True end.

Section Invariant.
Context {chan : Type -> Type} `{MpscLaws chan}.
Implicit Types (s : SessionInner chan) (T : gset tok) (id : StreamId).

Definition cell_ok (c : RecvCell chan) : Prop :=
  rc_granted c = rc_max_data c /\ 0 <= rc_max_data c <= VarInt_MAX /\ 0 <= rc_consumed c.

(** A handle may be used: the session's limits are valid, its stream is registered
    with its flow, and its OPEN is queued when it was opened here. *)
Definition send_handle_ok s (h : SendStream) : Prop :=
  limits_ok (limits s) /\ sid_ok (ss_id h) /\ flow_of s !! ss_id h = Some (ss_flow h) /\ stream_opened (is_server s) (out_log s) (ss_id h).
Definition recv_handle_ok (h : RecvStream) : Prop := sid_ok (rs_id h).
Definition pair_ok s (p : SendStream * RecvStream) : Prop :=
  send_handle_ok s p.1 /\ recv_handle_ok p.2.

(** What was sent and what is reserved, against the peer's limit. *)
Definition flow_accounts s T id (l : nat) : Prop :=
  exists fl, flows s !! l = Some fl
    /\ flow_sent fl = logged id (out_log s) + held id T
    /\ flow_sent fl <= flow_max fl < u64_mod.

Record inv s T : Prop := {
  inv_limits : limits_ok (limits s);
  inv_flow_map : forall id l, send_flows s !! id = Some l -> flow_of s !! id = Some l;
  inv_flow_live : forall id l fl, send_flows s !! id = Some l -> flows s !! l = Some fl ->
      flow_closed fl = false;
  inv_flow_size : Z.of_nat (size (send_flows s)) <= max_open_streams (limits s);
  inv_accounts : forall id l, flow_of s !! id = Some l -> flow_accounts s T id l;
  inv_flow_inj : forall i j l, flow_of s !! i = Some l -> flow_of s !! j = Some l -> i = j;
  inv_credit_size : Z.of_nat (size (pending_credit s)) <= max_open_streams (limits s);
  inv_credit : map_Forall (fun id v => sid_ok id /\ varint_ok v) (pending_credit s);
  inv_streams : map_Forall (fun id st => sid_ok id /\ exists c,
      recv_cells s !! recv_cell st = Some c /\ 0 <= received st <= rc_max_data c) (streams s);
  inv_cells : Forall cell_ok (recv_cells s);
  inv_ids : forall id, is_Some (flow_of s !! id) \/ inl id ∈ T ->
      sid_ok id /\ StreamId_counter id < frontier s id;
  inv_fresh : forall id, inl id ∈ T -> flow_of s !! id = None;
  inv_unsent : forall id, flow_of s !! id = None -> held id T = 0 /\ logged id (out_log s) = 0;
  inv_tok : tok_nonneg T;
  inv_next : 0 <= next_uni s /\ 0 <= next_bi s;
  inv_out : chan_all (cmd_ok (limits s)) (outbound s);
  inv_log : Forall (sendable (limits s)) (out_log s);
  inv_reset : forall id code, ResetStream id code ∈ out_log s ->
      is_Some (flow_of s !! id) /\ send_flows s !! id = None;
  inv_reset_final : reset_final (out_log s);
  inv_opened : opened_first (is_server s) (out_log s);
  inv_uni : chan_all recv_handle_ok (accept_uni_chan s);
  inv_bi : chan_all (pair_ok s) (accept_bi_chan s)
}.

Record evolves s s' : Prop := {
  ev_server : is_server s' = is_server s;
  ev_limits : limits s' = limits s;
  ev_flow_of : flow_of s ⊆ flow_of s';
  ev_retired : forall id, is_Some (flow_of s !! id) ->
      send_flows s !! id = None -> send_flows s' !! id = None;
  ev_log : out_log s `prefix_of` out_log s';
  ev_closed : closed s = true -> closed s' = true;
  ev_shutdown : shutdown_started s = true -> shutdown_started s' = true;
  ev_cancel : cancel s = true -> cancel s' = true;
  ev_frontier : next_uni s <= next_uni s' /\ next_bi s <= next_bi s'
      /\ next_peer_uni s <= next_peer_uni s' /\ next_peer_bi s <= next_peer_bi s'
}.

#[global] Instance evolves_preorder : PreOrder evolves.
Proof.
  split.
  - intros s. constructor; auto. lia.
  - intros s1 s2 s3 [S1 L1 F1 X1 P1 C1 D1 K1 N1] [S2 L2 F2 X2 P2 C2 D2 K2 N2].
    constructor; [congruence|congruence|by etrans| |by etrans|auto|auto|auto|clear -N1 N2; lia].
    intros id [l Hl] ?. apply X2; [|auto]. exists l. by eapply lookup_weaken.
Qed.

(** Fewer than [2^64 - 1] streams have been opened in each direction. *)
Definition no_wrap s : Prop := next_uni s + 1 < u64_mod /\ next_bi s + 1 < u64_mod.

Lemma send_handle_ok_evolves s s' h : evolves s s' -> send_handle_ok s h -> send_handle_ok s' h.
Proof.
  intros [] (? & ? & ? & ?). unfold send_handle_ok. rewrite ev_limits0, ev_server0.
  split_and!; [done..|by eapply lookup_weaken|].
  by eapply stream_opened_prefix.
Qed.

Lemma pair_ok_evolves s s' c :
  evolves s s' -> chan_all (pair_ok s) c -> chan_all (pair_ok s') c.
Proof.
  intros HR. unfold chan_all. intros Hc. eapply Forall_impl; [done|].
  intros p [? ?]. split; [by eapply send_handle_ok_evolves|done].
Qed.

Lemma frontier_evolves s s' id : evolves s s' -> frontier s id <= frontier s' id.
Proof.
  intros [Hs _ _ _ _ _ _ _ ?]. unfold frontier. rewrite Hs. repeat case_match; lia.
Qed.
End Invariant.
