(* ===== verification/NativeSteps.v ===== *)
(** * The native session: each atomic section keeps the invariant

    One lemma per kind of update of the shared state: it follows [evolves] and
    leads from [inv s T] to [inv s' T'], where only the steps on stream
    identifiers and send credit change the tokens. *)

From S2P Require Import Prelude Buf VarInt Frame Proto Limits SendFlow Channel Async NativeState.
From S2P Require Import NativeOps NativeStream NativeRecv NativeSession NativeTasks Credit NativeInv.

(** A state that differs in fields the relation does not constrain. *)
Ltac evolves_tac := constructor; simpl; first [done | reflexivity | by intros; congruence | lia | idtac].
Ltac inv_tac := destruct 1; constructor; simpl in *; try assumption.

Section Steps.
Context {chan : Type -> Type} `{MpscLaws chan} `{!MapOrder} `{!MapOrderLaws}.
Implicit Types (s : SessionInner chan) (T : gset tok) (id : StreamId).

(** A step that keeps the tokens. *)
Definition step_ok (f : SessionInner chan -> SessionInner chan) : Prop :=
  forall s T, inv s T -> evolves s (f s) /\ inv (f s) T.

Lemma step_ok_id : step_ok (fun s => s).
Proof. intros s T HI. split; [reflexivity|done]. Qed.

Lemma step_ok_comp f g : step_ok f -> step_ok g -> step_ok (fun s => g (f s)).
Proof.
  intros Hf Hg s T HI. destruct (Hf s T HI) as [? HI1]. destruct (Hg _ T HI1).
  split; [by trans (f s)|done].
Qed.

(** ** Fields outside the invariant *)
Ltac outside := intros s T HI; split; [evolves_tac|revert HI; inv_tac].

Lemma step_set_closed : step_ok (set_closed true).
Proof. outside. Qed.
Lemma step_set_shutdown_started : step_ok (set_shutdown_started true).
Proof. outside. Qed.
Lemma step_set_cancel : step_ok (set_cancel true).
Proof. outside. Qed.
Lemma step_set_peer_closed b : step_ok (set_peer_closed b).
Proof. outside. Qed.
Lemma step_set_peer_close_notify b : step_ok (set_peer_close_notify b).
Proof. outside. Qed.
Lemma step_set_session_handles n : step_ok (set_session_handles n).
Proof. outside. Qed.
Lemma step_set_active_tasks n : step_ok (set_active_tasks n).
Proof. outside. Qed.
Lemma step_set_accept_uni_refs n : step_ok (set_accept_uni_refs n).
Proof. outside. Qed.
Lemma step_set_accept_bi_refs n : step_ok (set_accept_bi_refs n).
Proof. outside. Qed.
Lemma step_set_accept_uni_tx b : step_ok (set_accept_uni_tx b).
Proof. outside. Qed.
Lemma step_set_accept_bi_tx b : step_ok (set_accept_bi_tx b).
Proof. outside. Qed.
Lemma step_set_send_cells l : step_ok (set_send_cells l).
Proof. outside. Qed.
Lemma step_set_send_locals l : step_ok (set_send_locals l).
Proof. outside. Qed.
Lemma step_set_acks l : step_ok (set_acks l).
Proof. outside. Qed.
Lemma step_set_now n : step_ok (set_now n).
Proof. outside. Qed.
Lemma step_set_wire l : step_ok (set_wire l).
Proof. outside. Qed.

(** ** Channels *)
Lemma step_outbound s T c :
  inv s T -> chan_all (cmd_ok (limits s)) c -> evolves s (set_outbound c s) /\ inv (set_outbound c s) T.
Proof. intros HI Hc. split; [evolves_tac|revert HI; inv_tac]. Qed.

Lemma step_uni_chan s T c :
  inv s T -> chan_all recv_handle_ok c ->
  evolves s (set_accept_uni_chan c s) /\ inv (set_accept_uni_chan c s) T.
Proof. intros HI Hc. split; [evolves_tac|revert HI; inv_tac]. Qed.

Lemma step_bi_chan s T c :
  inv s T -> chan_all (pair_ok s) c ->
  evolves s (set_accept_bi_chan c s) /\ inv (set_accept_bi_chan c s) T.
Proof. intros HI Hc. split; [evolves_tac|revert HI; inv_tac]. Qed.

(** ** Queueing a frame

    [T'] is [T] without the credit the frame spends. *)
Lemma step_push s T T' f c :
  inv s T -> chan_all (cmd_ok (limits s)) c -> sendable (limits s) f ->
  (forall id data fin, f = Stream id data fin ->
     is_Some (send_flows s !! id) /\ stream_opened (is_server s) (out_log s) id) ->
  (forall id code, f = ResetStream id code ->
     is_Some (flow_of s !! id) /\ send_flows s !! id = None) ->
  (forall id, frame_amount id f + held id T' = held id T) ->
  tok_nonneg T' -> (forall id, inl id ∈ T' -> inl id ∈ T) ->
  let s' := set_out_log (out_log s ++ [f]) (set_outbound c s) in
  evolves s s' /\ inv s' T'.
Proof.
  intros HI Hc Hf Hstream Hreset Hheld Htok Hinl s'.
  assert (Hev : evolves s s') by (subst s'; evolves_tac; by apply prefix_app_r).
  split; [done|]. pose proof (inv_bi _ _ HI) as Hbi. destruct HI. constructor; simpl; try done.
  - intros id l Hl. destruct (inv_accounts id l Hl) as (fl & ? & Hsent & ?). exists fl. simpl.
    rewrite logged_app. simpl. specialize (Hheld id). split_and!; [done|lia|lia|lia].
  - intros id [Hid|Hid]; apply inv_ids; auto.
  - intros id Hid. auto.
  - intros id Hid. destruct (inv_unsent id Hid) as [Hz Hl]. specialize (Hheld id).
    pose proof (held_nonneg id T' Htok). rewrite logged_app. simpl.
    assert (0 <= frame_amount id f) by (unfold frame_amount, blen; repeat case_match; lia). lia.
  - apply Forall_app. auto.
  - intros id code [Hin|Hin%list_elem_of_singleton]%elem_of_app; eauto.
  - apply reset_final_snoc; [done|]. intros id data fin code -> Hin.
    destruct (Hstream id data fin eq_refl) as [[? Hl] _].
    destruct (inv_reset _ _ Hin) as [_ ?]. congruence.
  - apply opened_first_snoc; [done|]. intros id data fin ->. by eapply Hstream.
  - by eapply pair_ok_evolves.
Qed.

(** Frames that carry no data spend no credit. *)
Lemma step_push_ctl s T f c :
  inv s T -> chan_all (cmd_ok (limits s)) c -> sendable (limits s) f ->
  (forall id data fin, f = Stream id data fin ->
     data = [] /\ is_Some (send_flows s !! id) /\ stream_opened (is_server s) (out_log s) id) ->
  (forall id code, f = ResetStream id code ->
     is_Some (flow_of s !! id) /\ send_flows s !! id = None) ->
  let s' := set_out_log (out_log s ++ [f]) (set_outbound c s) in
  evolves s s' /\ inv s' T.
Proof.
  intros HI Hc Hf Hstream Hreset. apply (step_push s T T); try done.
  - intros id data fin ->. by destruct (Hstream id data fin eq_refl) as (? & ? & ?).
  - intros id. destruct f as [| |i data fin| | | |]; simpl; try lia.
    destruct (Hstream i data fin eq_refl) as [-> _]. case_decide; unfold blen; simpl; lia.
  - by destruct HI.
Qed.

(** ** Send credit *)
Lemma step_flow s T T' l f :
  inv s T ->
  (forall id fl, flow_of s !! id = Some l -> flows s !! l = Some fl ->
     flow_sent (f fl) = flow_sent fl + (held id T' - held id T)
     /\ flow_sent (f fl) <= flow_max (f fl) < u64_mod) ->
  (forall id, flow_of s !! id <> Some l -> held id T' = held id T) ->
  (forall id fl, send_flows s !! id = Some l -> flows s !! l = Some fl ->
     flow_closed (f fl) = flow_closed fl) ->
  tok_nonneg T' -> (forall id, inl id ∈ T' -> inl id ∈ T) ->
  evolves s (on_flow l f s) /\ inv (on_flow l f s) T'.
Proof.
  intros HI Hf Hother Hcl Htok Hinl. split; [evolves_tac|]. destruct HI. constructor; simpl; try done.
  - intros id k fl Hk Hl. destruct (decide (k = l)) as [->|Hne].
    + rewrite list_lookup_alter_eq in Hl. destruct (flows s !! l) as [fl'|] eqn:E; [|done].
      injection Hl as <-. rewrite (Hcl id) by done. eauto.
    + rewrite list_lookup_alter_ne in Hl by done. eauto.
  - intros id k Hk. destruct (inv_accounts id k Hk) as (fl & Hl & Hsent & Hmax).
    unfold flow_accounts. simpl. destruct (decide (k = l)) as [->|Hne].
    + exists (f fl). rewrite list_lookup_alter_eq, Hl. destruct (Hf id fl Hk Hl).
      split_and!; [done|lia|lia|lia].
    + exists fl. rewrite list_lookup_alter_ne by done. rewrite (Hother id) by congruence.
      split_and!; [done|lia|lia|lia].
  - intros id [Hid|Hid]; apply inv_ids; auto.
  - auto.
  - intros id Hid. rewrite (Hother id) by congruence. auto.
Qed.

(** Closing a flow that left the map, or raising its limit. *)
Lemma step_flow_keep s T l f :
  (forall fl, flow_sent fl <= flow_max fl < u64_mod ->
     flow_sent (f fl) = flow_sent fl /\ flow_max fl <= flow_max (f fl) < u64_mod) ->
  (forall id fl, send_flows s !! id = Some l -> flows s !! l = Some fl ->
     flow_closed (f fl) = flow_closed fl) ->
  inv s T -> evolves s (on_flow l f s) /\ inv (on_flow l f s) T.
Proof.
  intros Hf Hcl HI. apply (step_flow s T T); try done; [|by destruct HI].
  intros id fl Hid Hl. destruct (inv_accounts _ _ HI id l Hid) as (fl' & ? & ? & Hm).
  simplify_eq. destruct (Hf fl Hm) as [-> ?]. lia.
Qed.

Lemma step_flow_close s T l :
  (forall id, send_flows s !! id <> Some l) -> inv s T ->
  evolves s (on_flow l flow_close s) /\ inv (on_flow l flow_close s) T.
Proof. intros Hl. apply step_flow_keep; [intros fl ?; simpl; lia|]. intros id fl Hid. by destruct (Hl id). Qed.

Lemma step_update_max l m : is_u64 m -> step_ok (on_flow l (update_max m)).
Proof.
  intros Hm s T. apply step_flow_keep; intros; unfold update_max, is_u64 in *;
    repeat case_match; simpl; try done; lia.
Qed.

Lemma flow_at_lookup s l fl : flows s !! l = Some fl -> flow_at s l = fl.
Proof. unfold flow_at. by intros ->. Qed.

(** A reservation mints the token of what it grants. *)
Lemma step_reserve s T id l wanted k :
  inv s T -> flow_of s !! id = Some l -> 0 <= wanted ->
  let r := try_reserve wanted (flow_at s l) in
  let t := inr (id, r.1, k) in
  t ∉ T ->
  let s' := on_flow l (fun _ => r.2) s in evolves s s' /\ inv s' ({[t]} ∪ T).
Proof.
  intros HI Hid Hw. destruct (inv_accounts _ _ HI id l Hid) as (fl & Hl & Hsent & Hmax).
  rewrite (flow_at_lookup _ _ _ Hl). intros r t Ht s'.
  pose proof (try_reserve_grant wanted fl Hw ltac:(lia)) as Hr. fold r in Hr. cbv zeta in Hr.
  apply (step_flow s T); try done.
  - intros i fl' Hi Hl'. assert (i = id) as -> by (by eapply (inv_flow_inj _ _ HI)).
    rewrite held_add by done. simplify_eq. simpl. rewrite decide_True by done. lia.
  - intros i Hi. rewrite held_add by done. simpl. rewrite decide_False by congruence. lia.
  - intros i fl' _ Hl'. simplify_eq. subst r. unfold try_reserve. by repeat case_match.
  - intros i n k' [Hin%elem_of_singleton|Hin]%elem_of_union; [simplify_eq; lia|].
    by eapply (inv_tok _ _ HI).
  - set_solver.
Qed.

(** Giving a reservation back burns its token; [fetch_sub] does not wrap. *)
Lemma step_release s T id l n k :
  inv s T -> flow_of s !! id = Some l -> inr (id, n, k) ∈ T ->
  let s' := on_flow l (release n) s in evolves s s' /\ inv s' (T ∖ {[inr (id, n, k)]}).
Proof.
  intros HI Hid Ht s'. pose proof (inv_tok _ _ HI) as Htok. apply (step_flow s T); try done.
  - intros i fl Hi Hl. assert (i = id) as -> by (by eapply (inv_flow_inj _ _ HI)).
    destruct (inv_accounts _ _ HI id l Hid) as (fl' & ? & Hsent & Hmax). simplify_eq.
    pose proof (held_nonneg id _ (tok_nonneg_remove (inr (id, n, k)) T Htok)) as Hh.
    rewrite held_remove in Hh |- * by done. simpl in *. rewrite decide_True in Hh |- * by done.
    pose proof (Htok _ _ _ Ht). pose proof (logged_nonneg id (out_log s)).
    unfold release, wrap64. destruct (n =? 0) eqn:E; simpl; [lia|].
    rewrite Z.mod_small by lia. lia.
  - intros i Hi. rewrite held_remove by done. simpl. rewrite decide_False by congruence. lia.
  - intros i fl _ _. unfold release. by case_match.
  - by apply tok_nonneg_remove.
  - set_solver.
Qed.

(** ** The map of send flows *)
Lemma step_remove_flow id : step_ok (fun s => set_send_flows (delete id (send_flows s)) s).
Proof.
  intros s T HI. split.
  - evolves_tac. intros i _ ?. apply lookup_delete_None. auto.
  - destruct HI. constructor; simpl; try done.
    + intros i l [_ ?]%lookup_delete_Some. auto.
    + intros i l fl [_ ?]%lookup_delete_Some. eauto.
    + etrans; [|exact inv_flow_size]. apply inj_le. by apply map_subseteq_size, delete_subseteq.
    + intros i code Hin. destruct (inv_reset i code Hin). split; [done|].
      apply lookup_delete_None. auto.
Qed.

Lemma step_no_flows : step_ok (set_send_flows ∅).
Proof.
  intros s T HI. split.
  - evolves_tac.
  - destruct HI. constructor; simpl; try done.
    + rewrite map_size_empty. destruct inv_limits. lia.
    + intros i code Hin. destruct (inv_reset i code Hin). by rewrite lookup_empty.
Qed.

Lemma step_clear_send_flows : step_ok clear_send_flows.
Proof.
  intros s T HI. unfold clear_send_flows. generalize ((map_to_list (send_flows s)).*2). intros ls.
  destruct (step_no_flows s T HI) as [HR HI1].
  enough (evolves s (set_send_flows ∅ (foldr (fun l => on_flow l flow_close) s ls))
    /\ inv (set_send_flows ∅ (foldr (fun l => on_flow l flow_close) s ls)) T) by done.
  induction ls as [|l ls [IHR IHI]]; [done|].
  destruct (step_flow_close _ T l (fun id => lookup_empty_Some id l) IHI) as [HR2 HI2].
  split; [by etrans|done].
Qed.

Lemma flow_accounts_lt s T id l : flow_accounts s T id l -> (l < length (flows s))%nat.
Proof. intros (fl & Hl & _). by eapply lookup_lt_Some. Qed.

(** Registration turns an allocated identifier into a registered one. *)
Lemma step_register_flow s T id :
  inv s T -> inl id ∈ T ->
  let r := register_send_flow_locked id 0 s in
  match r.2 with
  | Ok l => evolves s r.1 /\ inv r.1 (T ∖ {[inl id]}) /\ flow_of r.1 !! id = Some l
            /\ out_log r.1 = out_log s
  | _ => r.1 = s
  end.
Proof.
  intros HI Hid. unfold register_send_flow_locked.
  destruct (_ <=? _) eqn:Hsize; [done|]. destruct (send_flows s !! id) eqn:Hdup; [done|]. simpl.
  assert (Hfresh : flow_of s !! id = None) by (by eapply inv_fresh).
  assert (Hh : forall i, held i (T ∖ {[inl id]}) = held i T).
  { intros i. rewrite held_remove by done. simpl. lia. }
  split_and!; [|destruct HI; constructor; simpl; try done|by rewrite lookup_insert_eq|done].
  - evolves_tac; [by apply insert_subseteq|]. intros i Hi ?.
    rewrite lookup_insert_ne; [done|]. intros ->. rewrite Hfresh in Hi. by destruct Hi.
  - intros i l. rewrite !lookup_insert_Some. naive_solver.
  - intros i l fl [[<- <-]|[_ Hl]]%lookup_insert_Some Hfl.
    + rewrite list_lookup_middle in Hfl by done. by simplify_eq.
    + rewrite lookup_app_l in Hfl; [eauto|]. eapply flow_accounts_lt. eauto.
  - rewrite map_size_insert_None by done. lia.
  - intros i l Hl. unfold flow_accounts. simpl. rewrite Hh. apply lookup_insert_Some in Hl as [[<- <-]|[Hne Hl]].
    + exists (SendFlowState_new 0). rewrite list_lookup_middle by done. simpl.
      destruct (inv_unsent id Hfresh). unfold u64_mod. split_and!; [done|lia..].
    + destruct (inv_accounts i l Hl) as (fl & Hfl & ? & ?). exists fl.
      rewrite lookup_app_l by (by eapply lookup_lt_Some). done.
  - intros i j l Hi Hj.
    assert (Hlt : forall i l, flow_of s !! i = Some l -> l <> length (flows s)).
    { intros i' l' Hl' ->. apply inv_accounts, flow_accounts_lt in Hl'. lia. }
    apply lookup_insert_Some in Hi as [[<- <-]|[? Hi]], Hj as [[<- Hj]|[? Hj]]; naive_solver.
  - intros i Hi. apply inv_ids. destruct Hi as [Hi|Hi]; [|set_solver].
    destruct (decide (i = id)) as [->|]; [by right|]. rewrite lookup_insert_ne in Hi by done. by left.
  - intros i Hi. rewrite lookup_insert_ne by set_solver. apply inv_fresh. set_solver.
  - intros i Hi. rewrite Hh. apply lookup_insert_None in Hi as [Hi _]. auto.
  - by apply tok_nonneg_remove.
  - intros i code Hin. destruct (inv_reset i code Hin) as [[l Hl] ?].
    assert (i <> id) by congruence. rewrite !lookup_insert_ne by done. split; [by exists l|done].
  - unfold chan_all in *. eapply Forall_impl; [exact inv_bi|]. intros p [(? & ? & ? & ?) ?].
    split; [|done]. split_and!; [done..| |done]. simpl. rewrite lookup_insert_ne; congruence.
Qed.

(** ** Queued credit *)
Lemma step_credit s T m :
  inv s T -> Z.of_nat (size m) <= max_open_streams (limits s) ->
  map_Forall (fun id v => sid_ok id /\ varint_ok v) m ->
  evolves s (set_pending_credit m s) /\ inv (set_pending_credit m s) T.
Proof. intros HI ? ?. split; [evolves_tac|]. destruct HI. by constructor. Qed.

Lemma step_delete_credit id : step_ok (fun s => set_pending_credit (delete id (pending_credit s)) s).
Proof.
  intros s T HI. apply step_credit; [done| |by apply map_Forall_delete, HI].
  etrans; [|exact (inv_credit_size _ _ HI)]. apply inj_le, map_subseteq_size, delete_subseteq.
Qed.

Lemma step_no_credit : step_ok (set_pending_credit ∅).
Proof.
  intros s T HI. apply step_credit; [done| |apply map_Forall_empty].
  rewrite map_size_empty. destruct (inv_limits _ _ HI). lia.
Qed.

Lemma step_queue_credit id v :
  sid_ok id -> varint_ok v -> step_ok (fun s => (queue_credit_locked id v s).1).
Proof.
  intros Hid Hv s T HI. unfold queue_credit_locked.
  destruct (streams s !! id) as [st|]; [|by apply step_ok_id]. destruct (stopped st); [by apply step_ok_id|].
  cbv zeta. set (pending := prune_credit s).
  assert (Hsub : pending ⊆ pending_credit s).
  { subst pending. unfold prune_credit. case_match; [apply map_filter_subseteq|done]. }
  assert (Hsize : Z.of_nat (size pending) <= max_open_streams (limits s)).
  { etrans; [|exact (inv_credit_size _ _ HI)]. by apply inj_le, map_subseteq_size. }
  assert (Hall : map_Forall (fun id v => sid_ok id /\ varint_ok v) pending).
  { intros i x Hx. eapply (inv_credit _ _ HI). by eapply lookup_weaken. }
  unfold credit_full. destruct (_ && _) eqn:Efull; cbn [fst]; [by apply step_credit|].
  apply step_credit; [done| |].
  - destruct (pending !! id) eqn:Ep; [by rewrite map_size_insert_Some by (rewrite Ep; by eexists)|].
    rewrite map_size_insert_None by done. rewrite bool_decide_eq_true_2 in Efull by done. lia.
  - apply map_Forall_insert_2; [|done]. split; [done|].
    destruct (pending !! id) as [old|] eqn:Ep; [|done]. destruct (Hall id old Ep) as [_ ?].
    unfold varint_ok in *. lia.
Qed.

(** ** Receive streams *)
Lemma step_cell l f :
  (forall c : RecvCell chan, cell_ok c -> cell_ok (f c) /\ rc_max_data c <= rc_max_data (f c)) ->
  step_ok (on_cell l f).
Proof.
  intros Hf s T HI. split; [evolves_tac|]. destruct HI. constructor; simpl; try done.
  - intros i st Hst. destruct (inv_streams i st Hst) as (? & c & Hc & ?). split; [done|].
    pose proof (Forall_lookup_1 _ _ _ _ inv_cells Hc) as Hok. destruct (Hf c Hok) as [_ ?].
    destruct (decide (recv_cell st = l)) as [<-|].
    + exists (f c). rewrite list_lookup_alter_eq, Hc. split; [done|lia].
    + exists c. rewrite list_lookup_alter_ne by done. split; [done|lia].
  - apply Forall_alter; [done|]. intros c ? Hc. by apply Hf.
Qed.

Lemma cell_ok_chan (c : RecvCell chan) ch : cell_ok c -> cell_ok (set_rc_chan ch c) /\ rc_max_data c <= rc_max_data (set_rc_chan ch c).
Proof. intros [? ?]. split; [done|]. simpl. lia. Qed.

Lemma step_sender_drop l : step_ok (sender_drop l).
Proof. apply step_cell. intros c. apply cell_ok_chan. Qed.
Lemma step_sender_clone l : step_ok (sender_clone l).
Proof. apply step_cell. intros c. apply cell_ok_chan. Qed.

Lemma step_set_streams s T m :
  inv s T -> map_Forall (fun id st => sid_ok id /\ exists c,
      recv_cells s !! recv_cell st = Some c /\ 0 <= received st <= rc_max_data c) m ->
  evolves s (set_streams m s) /\ inv (set_streams m s) T.
Proof. intros HI ?. split; [evolves_tac|]. destruct HI. by constructor. Qed.

Lemma step_delete_stream id : step_ok (fun s => set_streams (delete id (streams s)) s).
Proof. intros s T HI. apply step_set_streams; [done|]. by apply map_Forall_delete, HI. Qed.

Lemma step_no_streams : step_ok (set_streams ∅).
Proof. intros s T HI. by apply step_set_streams. Qed.

Lemma step_clear_streams : step_ok clear_streams.
Proof.
  intros s T HI. unfold clear_streams. generalize ((map_to_list (streams s)).*2). intros ls.
  apply (step_ok_comp (fun s => foldr (fun st => sender_drop (recv_cell st)) s ls));
    [|apply step_no_streams|done].
  clear. induction ls as [|l ls IH]; [apply step_ok_id|].
  apply (step_ok_comp _ _ IH (step_sender_drop (recv_cell l))).
Qed.

Lemma step_remove_recv id : step_ok (fun s => (remove_recv_stream_locked id s).1).
Proof.
  intros s T HI. unfold remove_recv_stream_locked. destruct (streams s !! id) as [st|]; simpl;
    [|by apply step_ok_id].
  apply (step_ok_comp _ _ (step_delete_stream id) (step_sender_drop (recv_cell st))). done.
Qed.

Lemma step_stop_recv id : step_ok (fun s => (stop_recv_stream_locked id s).1).
Proof.
  intros s T HI. unfold stop_recv_stream_locked. destruct (streams s !! id) as [st|] eqn:Est; simpl;
    [|by apply step_ok_id].
  destruct (step_set_streams s T (<[id := mkRecvState true (recv_cell st) (received st)]> (streams s)))
    as [HR HI']; [done| |].
  { apply map_Forall_insert_2; [|by apply HI]. exact (inv_streams _ _ HI id st Est). }
  destruct (step_delete_credit id _ _ HI'). split; [by etrans|done].
Qed.

Lemma step_insert_recv id : sid_ok id -> step_ok (fun s => (insert_recv_state id s).1).
Proof.
  intros Hid s T HI. unfold insert_recv_state. simpl.
  set (s1 := match streams s !! id with Some _ => _ | None => _ end).
  assert (Hs1 : evolves s s1 /\ inv s1 T).
  { subst s1. destruct (streams s !! id) as [old|]; [by apply step_sender_drop|by apply step_ok_id]. }
  assert (Hlim : limits s1 = limits s /\ length (recv_cells s1) = length (recv_cells s)).
  { subst s1. destruct (streams s !! id); [|done]. simpl. by rewrite length_alter. }
  destruct Hs1 as [HR HI1], Hlim as [Hlim Hlen]. rewrite <- Hlen, <- Hlim. clearbody s1. clear HI Hlim Hlen.
  destruct (inv_limits _ _ HI1) as [_ _ _ _ _ _ _ Hw _ _ _].
  split; [etrans; [exact HR|evolves_tac]|]. destruct HI1. constructor; simpl; try done.
  - intros i st. rewrite lookup_insert_Some. intros [[<- <-]|[_ Hst]].
    + split; [done|]. eexists. rewrite list_lookup_middle by done. split; [done|]. simpl. lia.
    + destruct (inv_streams i st Hst) as (? & c & Hc & ?). split; [done|]. exists c.
      by rewrite lookup_app_l by (by eapply lookup_lt_Some).
  - apply Forall_app. split; [done|]. repeat constructor; simpl; lia.
Qed.

Lemma step_account_data id n : 0 <= n -> step_ok (fun s => (account_data id n s).1).
Proof.
  intros Hn s T HI. unfold account_data. destruct (streams s !! id) as [st|] eqn:Est;
    [|by apply step_ok_id].
  destruct (inv_streams _ _ HI id st Est) as (Hid & c & Hc & Hrecv).
  unfold checked_add64. destruct (_ <=? u64_max); [|by apply step_ok_id].
  unfold cell_of. simpl. rewrite Hc. simpl.
  destruct (rc_max_data c <? received st + n) eqn:Elim; [by apply step_ok_id|]. simpl.
  destruct (step_set_streams s T
    (<[id := mkRecvState (stopped st) (recv_cell st) (received st + n)]> (streams s))) as [HR HI'];
    [done| |].
  { apply map_Forall_insert_2; [|by apply HI]. split; [done|]. exists c. split; [done|]. simpl. lia. }
  destruct (step_sender_clone (recv_cell st) _ _ HI'). split; [by etrans|done].
Qed.

Lemma consume_ok n (c : RecvCell chan) : 0 <= n -> cell_ok c ->
  cell_ok (consume n c).1 /\ rc_max_data c <= rc_max_data (consume n c).1
  /\ match (consume n c).2 with Some v => varint_ok v | None => True end.
Proof.
  intros Hn (Hg & Hm & Hc). unfold consume, cell_ok, varint_ok, saturating_add64.
  destruct (n =? 0); simpl; [done|].
  repeat (case_match; simpl; [unfold u64_max; split_and!; try done; lia|]).
  unfold u64_max in *. split_and!; try done; lia.
Qed.

(** ** Stream identifiers *)

(** An identifier below its frontier that no thread owns and that was never
    registered may become a token. *)
Lemma inv_mint s T id :
  inv s T -> (inl id ∉ T) -> flow_of s !! id = None -> sid_ok id ->
  StreamId_counter id < frontier s id -> inv s ({[inl id]} ∪ T).
Proof.
  intros HI Hnot Hfl Hid Hlt.
  assert (Hh : forall i, held i ({[inl id]} ∪ T) = held i T).
  { intros i. rewrite held_add by done. simpl. lia. }
  destruct HI. constructor; try done.
  - intros i l Hl. destruct (inv_accounts i l Hl) as (fl & ? & ? & ?). exists fl. by rewrite Hh.
  - intros i [Hi|[Hi%elem_of_singleton|Hi]%elem_of_union]; [apply inv_ids; by left| |apply inv_ids; by right].
    by injection Hi as ->.
  - intros i [Hi%elem_of_singleton|Hi]%elem_of_union; [|auto]. by injection Hi as ->.
  - intros i Hi. rewrite Hh. auto.
  - intros i n k [Hx%elem_of_singleton|Hx]%elem_of_union; [done|eauto].
Qed.

Lemma step_next_id s T dir :
  inv s T -> no_wrap s ->
  let counter := (fetch_next dir s).2 in
  let s' := (fetch_next dir s).1 in
  evolves s s' /\
  match StreamId_new counter (is_server s) dir with
  | Ok id => (inl id ∉ T) /\ inv s' ({[inl id]} ∪ T)
  | _ => inv s' T
  end.
Proof.
  intros HI [Hu Hb] counter s'. pose proof (inv_next _ _ HI) as Hn.
  assert (Hwrap : forall x, 0 <= x -> x + 1 < u64_mod -> wrap64 (x + 1) = x + 1).
  { intros x ??. unfold wrap64. apply Z.mod_small. lia. }
  assert (Hev : evolves s s').
  { subst s'. destruct dir; simpl; evolves_tac; rewrite Hwrap by lia; lia. }
  assert (Hs' : inv s' T).
  { destruct HI. subst s'. destruct dir; constructor; simpl; try done;
      try (rewrite Hwrap by lia; lia);
      (intros id Hid; destruct (inv_ids id Hid); split; [done|]; eapply Z.lt_le_trans; [done|];
       by apply frontier_evolves). }
  split; [done|]. assert (Hc : 0 <= counter) by (subst counter; destruct dir; simpl; lia).
  destruct (StreamId_new counter (is_server s) dir) as [id| |] eqn:Hnew; [|done..].
  rewrite StreamId_new_value in Hnew by done. destruct (_ <=? VarInt_MAX) eqn:Emax; [|done].
  injection Hnew as <-. set (id := mkStreamId _).
  destruct (StreamId_fields_value counter (is_server s) dir id eq_refl Hc) as (Hd & Hi & Hk).
  assert (Hnot : forall T', inv s T' -> is_Some (flow_of s !! id) \/ inl id ∈ T' -> False).
  { intros T' HI' Hin. destruct (inv_ids _ _ HI' id Hin) as [_ Hlt]. revert Hlt. unfold frontier.
    rewrite Hd, Hi, Hk, eqb_reflx. subst counter. destruct dir; simpl; lia. }
  assert (Hfl : flow_of s !! id = None).
  { destruct (flow_of s !! id) eqn:E; [|done]. exfalso. apply (Hnot T HI). left. by exists n. }
  assert (Hin : inl id ∉ T) by (intros ?; apply (Hnot T HI); by right).
  assert (Hflow : flow_of s' = flow_of s) by (subst s'; by destruct dir).
  split; [done|]. apply inv_mint; [done|done|by rewrite Hflow| |].
  - unfold sid_ok, varint_ok, id in *. simpl.
    assert (0 <= dir_bit dir <= 1) by (destruct dir; simpl; lia).
    destruct (is_server s); simpl in *; lia.
  - unfold frontier. rewrite Hd, Hi, Hk. rewrite (ev_server _ _ Hev), eqb_reflx.
    subst s' counter. destruct dir; simpl; rewrite Hwrap by lia; lia.
Qed.

(** An accepted peer identifier was never used before. *)
Lemma step_validate_peer s T id :
  inv s T -> sid_ok id -> initiator_is_server id = negb (is_server s) ->
  let r := validate_peer_locked id s in
  evolves s r.1 /\ inv r.1 T
  /\ (r.2 = true -> (inl id ∉ T) /\ inv r.1 ({[inl id]} ∪ T)).
Proof.
  intros HI Hid Hpeer r.
  assert (Hloc : eqb (initiator_is_server id) (is_server s) = false)
    by (rewrite Hpeer; by destruct (is_server s)).
  assert (Hc : 0 <= StreamId_counter id /\ StreamId_counter id + 1 < u64_max).
  { unfold sid_ok, varint_ok in Hid. destruct (sid_decompose id ltac:(lia)) as [Hdec ?].
    split; [done|]. change VarInt_MAX with (2 ^ 62 - 1) in Hid.
    assert (0 <= dir_bit (StreamId_dir id) <= 1) by (destruct (StreamId_dir id); simpl; lia).
    unfold u64_max. destruct (initiator_is_server id); simpl in *; lia. }
  assert (Hsat : saturating_add64 (StreamId_counter id) 1 = StreamId_counter id + 1)
    by (unfold saturating_add64; lia).
  destruct (r.2) eqn:Er; [|assert (r.1 = s) as ->; [|by split_and!; try done; reflexivity]];
    subst r; unfold validate_peer_locked in *; rewrite Hsat in *.
  2: by destruct (StreamId_dir id); case_match.
  set (s' := (_ : SessionInner chan * bool).1).
  assert (Hs' : evolves s s' /\ (StreamId_counter id < frontier s' id)
     /\ (frontier s id <= StreamId_counter id) /\ flow_of s' = flow_of s /\ inv s' T); [|clearbody s'].
  { assert (Hev : evolves s s').
    { subst s'. destruct (StreamId_dir id) eqn:Ed; case_match; simpl in *; try done; evolves_tac. }
    split_and!; [done|..].
    - subst s'. unfold frontier. destruct (StreamId_dir id) eqn:Ed; case_match; simpl in *; try done;
        rewrite Hloc; lia.
    - unfold frontier. rewrite Hloc. destruct (StreamId_dir id); case_match; simpl in *; try done; lia.
    - subst s'. by destruct (StreamId_dir id); case_match.
    - assert (Hids : forall i, frontier s i <= frontier s' i) by (intros; by apply frontier_evolves).
      subst s'. destruct HI. destruct (StreamId_dir id); case_match; simpl in *; try done;
      (constructor; simpl; try done); intros i Hi; specialize (inv_ids i Hi); specialize (Hids i);
        (split; [apply inv_ids|lia]). }
  destruct Hs' as (Hev & Hlt & Hge & Hflow & HI'). split_and!; [done|done|]. intros _.
  assert (Hnot : inl id ∉ T).
  { intros Hin. destruct (inv_ids _ _ HI id ltac:(by right)). lia. }
  assert (Hfl : flow_of s !! id = None).
  { destruct (flow_of s !! id) eqn:E; [|done].
    destruct (inv_ids _ _ HI id ltac:(left; by eexists)). lia. }
  split; [done|]. apply inv_mint; [done|done|by rewrite Hflow|done|lia].
Qed.
End Steps.
