(* ===== verification/NativeSafe.v ===== *)
(** * The native session as a shared state

    The instance of [Shared] for the native session, and the updates of the state
    that keep its invariant as hints for the verification of programs. *)

From S2P Require Import Prelude Buf VarInt Frame Proto Limits SendFlow Channel Async NativeState.
From S2P Require Import NativeOps NativeStream NativeRecv NativeSession NativeTasks Credit NativeInv.
From S2P Require Import NativeSteps Keep.
Open Scope mux_scope.

#[global] Instance native_shared {chan : Type -> Type} `{MpscLaws chan} : Shared (SessionInner chan) := {
  sh_inv := inv;
  sh_ev := evolves;
  sh_pre := no_wrap;
  sh_preorder := evolves_preorder
}.

#[export] Hint Resolve step_set_closed step_set_shutdown_started step_set_cancel
  step_set_peer_closed step_set_peer_close_notify step_set_session_handles step_set_active_tasks
  step_set_accept_uni_refs step_set_accept_bi_refs step_set_accept_uni_tx step_set_accept_bi_tx
  step_set_send_cells step_set_send_locals step_set_acks step_set_now step_set_wire
  step_no_credit step_clear_streams step_clear_send_flows step_sender_drop
  step_sender_clone step_ok_id : keep.

Lemma keep_step {chan : Type -> Type} `{MpscLaws chan} (s0 : SessionInner chan) f :
  step_ok f -> keep s0 (modify f) any.
Proof. intros Hf. apply keep_modify. exact Hf. Qed.
#[export] Hint Resolve keep_step : keep.
