(* ===== verification/NativeSpecs.v ===== *)
(** * The native session: specifications of the methods *)

From S2P Require Import Prelude Buf VarInt Frame Proto Limits SendFlow Channel Async NativeState.
From S2P Require Import NativeOps NativeStream NativeRecv NativeSession NativeTasks Credit NativeInv.
From S2P Require Import NativeSteps Keep NativeSafe.
Open Scope mux_scope.

Section Specs.
Context {chan : Type -> Type} `{MpscLaws chan} `{!MapOrder} `{!MapOrderLaws}.
Implicit Types (s : SessionInner chan) (T : gset tok) (id : StreamId).

(** A send direction that was registered and is gone for good. *)
Definition retired s id : Prop := is_Some (flow_of s !! id) /\ send_flows s !! id = None.

Lemma retired_evolves s s' id : evolves s s' -> retired s id -> retired s' id.
Proof.
  intros HR [[l Hl] Hn]. split; [exists l; eapply lookup_weaken; [done|by apply ev_flow_of]|].
  eapply ev_retired; [done|by exists l|done].
Qed.

Lemma sendable_evolves s s' f : evolves s s' -> sendable (limits s) f -> sendable (limits s') f.
Proof. intros HR. by rewrite (ev_limits _ _ HR). Qed.

(** ** Closing and the outbound queue *)
Lemma keep_is_closed s0 : keep s0 is_closed any.
Proof. unfold is_closed. kgo. Qed.

Lemma keep_request_shutdown s0 : keep s0 request_shutdown any.
Proof. unfold request_shutdown. kgo. Qed.

Lemma keep_complete_or_abort {A} s0 (p : nprog chan A) Post :
  keep s0 p Post -> keep s0 (complete_or_abort p) Post.
Proof. intros Hp. apply keep_with_drop; [|done]. eapply keep_safe, keep_request_shutdown. Qed.

Lemma keep_reserve s0 : keep s0 reserve any.
Proof.
  apply keep_await. intros s s' a T HR HI _ Hs. split; [|done].
  pose proof (chan_all_reserve _ _ (inv_out _ _ HI)) as Hc.
  destruct (tx_reserve (outbound s)) as [[] c]; simplify_eq; by apply step_outbound.
Qed.

(** What must hold to queue a frame that spends no credit. *)
Definition queueable s (f : Frame) : Prop :=
  sendable (limits s) f /\
  match f with
  | Stream id data _ => data = [] /\ stream_opened (is_server s) (out_log s) id
  | ResetStream id _ => retired s id
  | _ => True
  end.

Lemma queueable_evolves s s' f : evolves s s' -> queueable s f -> queueable s' f.
Proof.
  intros HR [? Hf]. split; [by eapply sendable_evolves|]. destruct f; try done.
  - destruct Hf as [-> ?]. split; [done|]. rewrite (ev_server _ _ HR).
    eapply stream_opened_prefix; [by apply ev_log|done].
  - by eapply retired_evolves.
Qed.

Lemma in_log_later s s' (f : Frame) : evolves s s' -> f ∈ out_log s -> f ∈ out_log s'.
Proof. intros HR Hf. destruct (ev_log _ _ HR) as [k ->]. apply elem_of_app. by left. Qed.

(** A queued frame is in the log from then on. *)
Definition queued (f : Frame) : result unit -> SessionInner chan -> Prop :=
  fun r s => is_ok r = true -> f ∈ out_log s.

Lemma push_queueable s T f c :
  inv s T -> chan_all (cmd_ok (limits s)) c -> queueable s f ->
  (forall id data fin, f = Stream id data fin -> is_Some (send_flows s !! id)) ->
  let s' := set_out_log (out_log s ++ [f]) (set_outbound c s) in evolves s s' /\ inv s' T.
Proof.
  intros HI Hc [Hs Hq] Hopen. apply step_push_ctl; try done.
  - intros id data fin ->. destruct Hq as [-> ?]. split_and!; [done|by eapply Hopen|done].
  - by intros id code ->.
Qed.

Lemma keep_send_frame s0 f : queueable s0 f -> keep s0 (send_frame f) (queued f).
Proof.
  intros Hf. unfold send_frame. apply keep_seq; [apply keep_is_closed|]. intros [|]; [by apply keep_ret|].
  apply keep_seq; [apply keep_reserve|]. intros [|]; [|by apply keep_ret].
  apply keep_atomic. intros s T HR HI _. pose proof (inv_out _ _ HI) as Ho.
  assert (Hq : queueable s f) by (by eapply queueable_evolves).
  assert (Hpush : (forall id data fin, f = Stream id data fin -> is_Some (send_flows s !! id)) ->
    evolves s (push_frame f s) /\ inv (push_frame f s) T).
  { intros Hopen. apply push_queueable; try done. apply chan_all_permit_send; [apply Hq|done]. }
  assert (Hlog : forall s', evolves (push_frame f s) s' -> f ∈ out_log s').
  { intros s' HR'. eapply in_log_later; [done|]. simpl. apply elem_of_app. right. by left. }
  unfold send_with_permit. destruct f as [| |id data fin| | | |];
    try (split; [by apply Hpush|intros s' ??; by apply Hlog]).
  destruct (send_flows s !! id) as [l|] eqn:El.
  - split; [|intros s' ??; by apply Hlog]. apply Hpush. intros i d b [= <- _ _]. by rewrite El.
  - split; [|done]. apply step_outbound; [done|]. by apply chan_all_permit_drop.
Qed.

Lemma keep_try_send_frame s0 f :
  queueable s0 f -> (forall id data fin, f <> Stream id data fin) -> keep s0 (try_send_frame f) any.
Proof.
  intros Hf Hns. unfold try_send_frame. apply keep_seq; [apply keep_is_closed|].
  intros [|]; [by apply keep_ret|]. apply keep_atomic. intros s T HR HI _. split; [|done].
  assert (Hq : queueable s f) by (by eapply queueable_evolves). unfold try_push_frame.
  assert (Hc : chan_all (cmd_ok (limits s)) (tx_try_send (CmdFrame f) (outbound s)).2).
  { apply chan_all_try_send; [apply Hq|by apply HI]. }
  destruct (tx_try_send _ _) as [[] c]; [|by apply step_outbound..]. apply push_queueable; try done.
  intros id data fin ->. by destruct (Hns id data fin).
Qed.

(** ** Credit and the maps *)
Lemma keep_queue_credit s0 id v : sid_ok id -> varint_ok v -> keep s0 (queue_credit id v) any.
Proof.
  intros Hid Hv. unfold queue_credit. apply keep_seq; [|intros [|]; kgo; apply keep_request_shutdown].
  apply keep_atomic. intros s T HR HI _. split; [by apply step_queue_credit|done].
Qed.

Lemma removed_flow s T id i l :
  inv s T -> send_flows s !! id = Some l -> delete id (send_flows s) !! i <> Some l.
Proof.
  intros HI Hl [Hne Hi]%lookup_delete_Some. apply Hne.
  eapply (inv_flow_inj _ _ HI); by eapply (inv_flow_map _ _ HI).
Qed.

Lemma keep_remove_send_flow s0 id :
  keep s0 (remove_send_flow id)
    (fun b s => b = true \/ is_Some (flow_of s0 !! id) -> retired s id).
Proof.
  apply keep_atomic. intros s T HR HI _. unfold remove_send_flow_locked.
  destruct (send_flows s !! id) as [l|] eqn:El; cbn [fst snd].
  - destruct (step_remove_flow id s T HI) as [HR1 HI1].
    destruct (step_flow_close (set_send_flows (delete id (send_flows s)) s) T l
      (fun i => removed_flow s T id i l HI El) HI1) as [HR2 HI2]. split; [split; [by etrans|done]|].
    intros s' HR' _. eapply retired_evolves; [done|]. split; simpl; [|apply lookup_delete_eq].
    exists l. by eapply (inv_flow_map _ _ HI).
  - split; [by apply step_ok_id|]. intros s' HR' [?|[l Hl]]; [done|]. eapply retired_evolves; [done|].
    split; [|done]. exists l. eapply lookup_weaken; [done|by apply ev_flow_of].
Qed.

Lemma keep_stop_recv_stream s0 id : keep s0 (stop_recv_stream id) any.
Proof. apply keep_atomic. intros s T HR HI _. split; [by apply step_stop_recv|done]. Qed.

Lemma keep_remove_recv_stream s0 id : keep s0 (remove_recv_stream id) any.
Proof. apply keep_atomic. intros s T HR HI _. split; [by apply step_remove_recv|done]. Qed.

Lemma keep_is_retired_direction s0 id b : keep s0 (is_retired_direction id b) any.
Proof. by apply keep_gets. Qed.

Lemma keep_take_accept_uni s0 : keep s0 take_accept_uni any.
Proof.
  apply keep_await. intros s s' a T HR HI _ [= <- <-]. split; [|done].
  destruct (accept_uni_tx s); [|by apply step_ok_id].
  destruct (step_uni_chan s T (tx_drop (accept_uni_chan s))) as [HR' HI'];
    [done|by apply chan_all_tx_drop, HI|].
  destruct (step_set_accept_uni_tx false _ _ HI'). split; [by etrans|done].
Qed.

Lemma keep_take_accept_bi s0 : keep s0 take_accept_bi any.
Proof.
  apply keep_await. intros s s' a T HR HI _ [= <- <-]. split; [|done].
  destruct (accept_bi_tx s); [|by apply step_ok_id].
  destruct (step_bi_chan s T (tx_drop (accept_bi_chan s))) as [HR' HI'];
    [done|by apply chan_all_tx_drop, HI|].
  destruct (step_set_accept_bi_tx false _ _ HI'). split; [by etrans|done].
Qed.

Lemma keep_close_all s0 : keep s0 close_all any.
Proof.
  unfold close_all. apply keep_seq.
  - apply keep_atomic. intros s T HR HI _. split; [by apply step_set_closed|done].
  - intros [|]; kgo; [apply keep_take_accept_uni|apply keep_take_accept_bi].
Qed.

Lemma keep_protocol_error s0 code reason :
  frame_ok (ConnectionClose code reason) -> keep s0 (protocol_error code reason) any.
Proof.
  intros Hf. unfold protocol_error. kgo; [|apply keep_close_all].
  by apply keep_try_send_frame.
Qed.
End Specs.

#[export] Hint Resolve keep_is_closed keep_request_shutdown keep_complete_or_abort keep_reserve
  keep_send_frame keep_try_send_frame keep_queue_credit keep_remove_send_flow keep_stop_recv_stream
  keep_remove_recv_stream keep_is_retired_direction keep_close_all keep_protocol_error
  keep_take_accept_uni keep_take_accept_bi : keep.
