(* ===== verification/NativeStreamSpecs.v ===== *)
(** * The native session: specifications of the stream handles *)

From S2P Require Import Prelude Buf VarInt Frame Proto Limits SendFlow Channel Async NativeState.
From S2P Require Import NativeOps NativeStream NativeRecv NativeSession NativeTasks Credit NativeInv.
From S2P Require Import NativeSteps Keep NativeSafe NativeSpecs.
Open Scope mux_scope.

Section RecvSpecs.
Context {chan : Type -> Type} `{MpscLaws chan} `{!MapOrder} `{!MapOrderLaws}.
Implicit Types (s : SessionInner chan) (T : gset tok) (id : StreamId).

(** Functions that leave the flow-control fields of a cell alone. *)
Definition cell_neutral (f : RecvCell chan -> RecvCell chan) : Prop :=
  forall c, cell_ok c -> cell_ok (f c) /\ rc_max_data c <= rc_max_data (f c).

Lemma neutral_finished b : cell_neutral (set_rc_finished b).
Proof. intros c (? & ? & ?). by split; [|simpl; lia]. Qed.
Lemma neutral_pending p : cell_neutral (set_rc_pending p).
Proof. intros c (? & ? & ?). by split; [|simpl; lia]. Qed.
Lemma neutral_chan ch : cell_neutral (set_rc_chan ch).
Proof. intros c. apply cell_ok_chan. Qed.

Lemma keep_on_cell s0 l f : cell_neutral f -> keep s0 (modify (on_cell l f)) any.
Proof. intros Hf. apply keep_modify. by apply step_cell. Qed.

Lemma cell_of_ok s T h : inv s T -> cell_ok (cell_of s h).
Proof.
  intros HI. unfold cell_of. destruct (recv_cells s !! rs_cell h) as [c|] eqn:E; simpl.
  - by eapply Forall_lookup_1; [apply HI|].
  - by vm_compute.
Qed.

Lemma keep_with_cell {A} s0 h (f : RecvCell chan -> RecvCell chan * A) (P : A -> Prop) :
  cell_neutral (fun c => (f c).1) -> (forall c, cell_ok c -> P (f c).2) ->
  keep s0 (atomic (with_cell h f)) (fun a _ => P a).
Proof.
  intros Hf HP. apply keep_atomic. intros s T HR HI _. split.
  - by apply (step_cell (rs_cell h) (fun c => (f c).1)).
  - intros _ _. apply HP. by eapply cell_of_ok.
Qed.

Lemma keep_on_bytes_consumed s0 h n :
  recv_handle_ok h -> 0 <= n -> keep s0 (on_bytes_consumed h n) any.
Proof.
  intros Hh Hn. unfold on_bytes_consumed.
  eapply (keep_bind _ _ _ (fun o _ => match o with Some v => varint_ok v | None => True end)).
  - apply keep_with_cell.
    + intros c Hc. by destruct (consume_ok n c Hn Hc) as (? & ? & ?).
    + intros c Hc. by destruct (consume_ok n c Hn Hc) as (? & ? & ?).
  - intros [v|] s HR Hv; simpl; [|by apply keep_ret]. by apply keep_queue_credit.
Qed.

Lemma keep_recv_event s0 h : keep s0 (recv_event h) any.
Proof.
  apply keep_await. intros s s' a T HR HI _ Hs. split; [|done].
  destruct (rx_recv _) as [[e| |] ch]; simplify_eq; (apply step_cell; [apply neutral_chan|done]).
Qed.

Lemma keep_poll_recv s0 h : keep s0 (poll_recv h) any.
Proof.
  apply keep_atomic. intros s T HR HI _. split; [|done].
  destruct (rx_recv _) as [[e| |] ch]; [apply step_cell; [apply neutral_chan|done]..|].
  by apply step_ok_id.
Qed.

Lemma keep_deliver_pending s0 h room : recv_handle_ok h -> keep s0 (deliver_pending h room) any.
Proof.
  intros Hh. unfold deliver_pending. apply keep_seq.
  - eapply keep_any, (keep_with_cell _ _ _ (fun _ => True)); [|done]. intros c. apply neutral_pending.
  - intros out. kgo. apply keep_on_bytes_consumed; [done|]. unfold blen. lia.
Qed.

#[local] Hint Resolve keep_recv_event keep_poll_recv keep_deliver_pending keep_on_cell
  neutral_finished neutral_pending neutral_chan : keep.

Lemma keep_read_chunk_internal s0 h : keep s0 (read_chunk_internal h) any.
Proof. unfold read_chunk_internal. kgo. Qed.
#[local] Hint Resolve keep_read_chunk_internal : keep.

Lemma keep_read s0 h room : recv_handle_ok h -> keep s0 (read h room) any.
Proof. intros Hh. unfold read. kgo. Qed.

Lemma keep_read_chunk s0 h max : recv_handle_ok h -> keep s0 (read_chunk h max) any.
Proof.
  intros Hh. unfold read_chunk. kgo; apply keep_on_bytes_consumed; try done; unfold blen; lia.
Qed.

Lemma keep_poll_read_loop s0 h budget room :
  recv_handle_ok h -> 0 <= room -> keep s0 (poll_read_loop h budget room) any.
Proof.
  intros Hh Hroom. induction budget as [|budget IH]; cbn [poll_read_loop]; kgo;
    apply keep_on_bytes_consumed; try done; unfold blen; lia.
Qed.

Lemma keep_poll_read s0 h budget room :
  recv_handle_ok h -> 0 <= room -> keep s0 (poll_read h budget room) any.
Proof. intros Hh Hroom. unfold poll_read. kgo. by apply keep_poll_read_loop. Qed.

Lemma keep_swap_stop_sent s0 h : keep s0 (swap_stop_sent h) any.
Proof.
  eapply keep_any, (keep_with_cell _ _ _ (fun _ => True)); [|done].
  intros c (? & ? & ?). by split; [|simpl; lia].
Qed.

Lemma queueable_stop s id code : sid_ok id -> varint_ok code -> queueable s (StopSending id code).
Proof. done. Qed.

Lemma VarInt_from_u64_ok x v : 0 <= x -> VarInt_from_u64 x = Ok v -> varint_ok x.
Proof. unfold VarInt_from_u64, varint_ok. intros ?. case_match; [|done]. lia. Qed.

Lemma keep_stop s0 h code : recv_handle_ok h -> 0 <= code -> keep s0 (stop h code) any.
Proof.
  intros Hh Hcode. apply keep_complete_or_abort.
  destruct (VarInt_from_u64 code) eqn:Ev; [|by apply keep_ret..].
  apply VarInt_from_u64_ok in Ev; [|done]. kgo; [apply keep_swap_stop_sent|].
  eapply keep_any, keep_send_frame, queueable_stop; done.
Qed.

Lemma keep_RecvStream_drop s0 h : recv_handle_ok h -> keep s0 (RecvStream_drop h) any.
Proof.
  intros Hh. unfold RecvStream_drop. kgo; [apply keep_swap_stop_sent| |].
  - apply keep_try_send_frame; [|done]. apply queueable_stop; [done|]. by apply varint_ok_small.
  - apply keep_on_cell. intros c. apply neutral_chan.
Qed.
End RecvSpecs.

#[export] Hint Resolve keep_read keep_read_chunk keep_poll_read keep_stop keep_RecvStream_drop : keep.
