(* ===== verification/NativeSendSpecs.v ===== *)
(** * The native session: specifications of the send handles

    Writing is where credit tokens are minted (a reservation), spent (a queued
    frame) and given back (a failed send). *)

From S2P Require Import Prelude Buf VarInt Frame Proto Limits SendFlow Channel Async NativeState.
From S2P Require Import NativeOps NativeStream NativeRecv NativeSession NativeTasks Credit NativeInv.
From S2P Require Import NativeSteps Keep NativeSafe NativeSpecs NativeStreamSpecs.
Open Scope mux_scope.

Section SendSpecs.
Context {chan : Type -> Type} `{MpscLaws chan} `{!MapOrder} `{!MapOrderLaws}.
Implicit Types (s : SessionInner chan) (T : gset tok) (id : StreamId) (h : SendStream).

Abbreviation W := (wp (S := SessionInner chan) sh_inv sh_ev sh_pre).

(** ** Parts of a handle outside the invariant *)
Lemma keep_on_shared s0 h f : keep s0 (modify (on_shared h f)) any.
Proof. apply keep_modify. intros s T HI. by apply step_set_send_cells. Qed.
Lemma keep_on_local s0 h f : keep s0 (modify (on_local h f)) any.
Proof. apply keep_modify. intros s T HI. by apply step_set_send_locals. Qed.
#[local] Hint Resolve keep_on_shared keep_on_local : keep.

Lemma keep_finished s0 h : keep s0 (SendStream_finished h) any.
Proof. by apply keep_gets. Qed.
Lemma keep_flow_is_closed s0 h : keep s0 (flow_is_closed h) any.
Proof. by apply keep_gets. Qed.
#[local] Hint Resolve keep_finished keep_flow_is_closed : keep.

Lemma keep_SendStream_closed s0 h : keep s0 (SendStream_closed h) any.
Proof. unfold SendStream_closed. kgo. Qed.

Lemma keep_select_api s0 h mode : keep s0 (select_api h mode) any.
Proof.
  unfold select_api. destruct (mode =? 0); [by apply keep_ret|].
  apply keep_atomic. intros s T HR HI _. split; [|done].
  repeat case_match; simpl; [by apply step_set_send_cells|by apply step_ok_id..].
Qed.
#[local] Hint Resolve keep_SendStream_closed keep_select_api : keep.

Lemma keep_begin_operation s0 h mode : keep s0 (begin_operation h mode) any.
Proof.
  unfold begin_operation. kgo. apply keep_atomic. intros s T HR HI _. split; [|done].
  case_match; simpl; [by apply step_ok_id|by apply step_set_send_cells].
Qed.

Lemma keep_end_operation s0 h : keep s0 (end_operation h) any.
Proof. apply keep_on_shared. Qed.
#[local] Hint Resolve keep_begin_operation keep_end_operation : keep.

Lemma keep_guarded {A} s0 h mode (p : nprog chan (result A)) :
  keep s0 p any -> keep s0 (guarded h mode p) any.
Proof. intros Hp. unfold guarded. kgo. Qed.

(** The two clones of the outbound sender. *)
Lemma step_outbound_clone2 : step_ok (chan := chan) outbound_clone2.
Proof. intros s T HI. apply step_outbound; [done|]. by apply chan_all_tx_clone, chan_all_tx_clone, HI. Qed.
Lemma step_outbound_drop2 : step_ok (chan := chan) outbound_drop2.
Proof. intros s T HI. apply step_outbound; [done|]. by apply chan_all_tx_drop, chan_all_tx_drop, HI. Qed.

Lemma keep_SendStream_new s0 id l :
  limits_ok (limits s0) -> sid_ok id -> flow_of s0 !! id = Some l ->
  stream_opened (is_server s0) (out_log s0) id ->
  keep s0 (SendStream_new id l) (fun h s => send_handle_ok s h).
Proof.
  intros Hl Hid Hf Ho. apply keep_atomic. intros s T HR HI _. split.
  - destruct (step_outbound_clone2 s T HI) as [HR1 HI1].
    destruct (step_set_send_cells (send_cells s ++ [mkSendShared false false 0 1]) _ _ HI1) as [HR2 HI2].
    destruct (step_set_send_locals (send_locals s ++ [no_local]) _ _ HI2) as [HR3 HI3].
    split; [|done]. etrans; [exact HR1|]. by etrans.
  - intros s' HR'. eapply (send_handle_ok_evolves s0); [|done].
    etrans; [exact HR|]. etrans; [|exact HR']. by constructor; try lia.
Qed.

Lemma keep_SendStream_clone s0 h :
  send_handle_ok s0 h -> keep s0 (SendStream_clone h) (fun h' s => send_handle_ok s h').
Proof.
  intros Hh. apply keep_atomic. intros s T HR HI _. split.
  - destruct (step_outbound_clone2 s T HI) as [HR1 HI1].
    destruct (step_set_send_cells (alter (add_strong 1) (ss_shared h) (send_cells s)) _ _ HI1) as [HR2 HI2].
    destruct (step_set_send_locals (send_locals s ++ [no_local]) _ _ HI2) as [HR3 HI3].
    split; [|done]. etrans; [exact HR1|]. by etrans.
  - intros s' HR'. cut (send_handle_ok s' h); [done|]. eapply (send_handle_ok_evolves s0); [|done].
    etrans; [exact HR|]. etrans; [|exact HR']. by constructor; try lia.
Qed.

(** ** Terminal frames *)
Lemma queueable_fin s h : send_handle_ok s h -> queueable s (Stream (ss_id h) [] true).
Proof.
  intros (Hl & Hid & _ & Ho). destruct Hl. split; [|done].
  split; [split; [done|by apply varint_ok_small]|]. unfold blen. simpl. lia.
Qed.

Lemma keep_finish s0 h : send_handle_ok s0 h -> keep s0 (finish h) any.
Proof.
  intros Hh. apply keep_guarded, keep_complete_or_abort. kgo.
  - apply keep_atomic. intros s T HR HI _. split; [|done].
    case_match; [by apply step_ok_id|by apply step_set_send_cells].
  - by eapply keep_any, keep_send_frame, queueable_fin.
Qed.

Lemma queueable_reset s id code :
  sid_ok id -> varint_ok code -> retired s id -> queueable s (ResetStream id code).
Proof. done. Qed.

Lemma keep_send_reset s0 h code :
  send_handle_ok s0 h -> varint_ok code ->
  keep s0 (remove_send_flow (ss_id h);;; send_frame (ResetStream (ss_id h) code)) any.
Proof.
  intros (Hl & Hid & Hf & Ho) Hc. eapply keep_bind; [apply keep_remove_send_flow|].
  intros b s HR Hr. eapply keep_any, keep_send_frame, queueable_reset; [done..|].
  apply Hr. right. by eexists.
Qed.

Lemma keep_reset s0 h code : send_handle_ok s0 h -> 0 <= code -> keep s0 (reset h code) any.
Proof.
  intros Hh Hcode. apply keep_guarded, keep_complete_or_abort.
  destruct (VarInt_from_u64 code) eqn:Ev; [|by apply keep_ret..].
  apply VarInt_from_u64_ok in Ev; [|done]. apply keep_seq; [apply keep_on_shared|].
  intros _. by apply keep_send_reset.
Qed.

Lemma keep_SendStream_drop s0 h : send_handle_ok s0 h -> keep s0 (SendStream_drop h) any.
Proof.
  intros (Hl & Hid & Hf & Ho). unfold SendStream_drop. apply keep_seq; [by apply keep_gets|].
  intros n. apply keep_seq.
  - destruct (negb (n =? 1)); [by apply keep_ret|].
    eapply keep_bind; [apply keep_remove_send_flow|]. intros b s HR Hr. kgo.
    apply keep_try_send_frame; [|done]. apply queueable_reset; [done|by apply varint_ok_small|].
    apply Hr. right. by eexists.
  - intros _. apply keep_modify. intros s T HI. destruct (step_outbound_drop2 s T HI) as [HR1 HI1].
    destruct (step_set_send_cells (alter (add_strong (-1)) (ss_shared h) (send_cells s)) _ _ HI1).
    split; [by etrans|done].
Qed.

(** ** Credit *)
Lemma mint_grant s T Fr h wanted :
  inv s (T ∪ Fr) -> Fr ## T -> send_handle_ok s h -> 0 <= wanted ->
  let r := try_reserve wanted (flow_at s (ss_flow h)) in
  let s' := on_flow (ss_flow h) (fun _ => r.2) s in
  (0 <= r.1 <= wanted) /\ evolves s s' /\
  exists T', T' ## Fr /\ inv s' (T' ∪ Fr) /\ granted T (ss_id h) r.1 T'.
Proof.
  intros HI Hd (Hl & Hid & Hf & Ho) Hw r s'.
  destruct (fresh_token (T ∪ Fr) (ss_id h) r.1) as [k Hk].
  destruct (step_reserve s _ (ss_id h) (ss_flow h) wanted k HI Hf Hw Hk) as [HR HI'].
  destruct (inv_accounts _ _ HI _ _ Hf) as (fl & Hfl & Hsent & Hmax).
  pose proof (try_reserve_grant wanted fl Hw ltac:(lia)) as Hg. cbv zeta in Hg.
  split; [subst r; rewrite (flow_at_lookup _ _ _ Hfl); lia|]. split; [done|].
  exists ({[inr (ss_id h, r.1, k)]} ∪ T). split_and!; [set_solver|by rewrite <- union_assoc_L|].
  exists k. split; [set_solver|done].
Qed.

Lemma W_grant T s0 h wanted :
  send_handle_ok s0 h -> 0 <= wanted ->
  W T s0 (await (poll_grant h wanted))
    (fun r T' s' => match r with
       | Ok n => (0 < n <= wanted) /\ granted T (ss_id h) n T'
       | Err _ => T' = T
       | Panic => False end).
Proof.
  intros Hh Hw. apply wp_await. intros s s' a Fr HR Hd HI Hpre Hs.
  assert (Hhs : send_handle_ok s h) by (by eapply send_handle_ok_evolves).
  destruct (mint_grant s T Fr h wanted HI Hd Hhs Hw) as (Hn & HR' & T' & Hd' & HI' & Hg).
  unfold poll_grant in Hs. destruct (try_reserve wanted _) as [n fl]. simpl in *.
  destruct (n =? 0) eqn:En.
  - destruct (_ || _); [|done]. simplify_eq. split; [reflexivity|].
    exists T. split_and!; [set_solver|done|done].
  - simplify_eq. split; [done|]. exists T'. split_and!; [done|done|]. intros _ _. split; [lia|done].
Qed.

Lemma W_atomic_token {A} T T' s0 (f : SessionInner chan -> SessionInner chan * A)
    (Q : A -> gset tok -> SessionInner chan -> Prop) :
  T' ⊆ T ->
  (forall s Fr, evolves s0 s -> inv s (T ∪ Fr) -> Fr ## T ->
     (evolves s (f s).1 /\ inv (f s).1 (T ∪ Fr) /\ forall s', Q (f s).2 T s')
     \/ (evolves s (f s).1 /\ inv (f s).1 (T' ∪ Fr) /\ forall s', Q (f s).2 T' s')) ->
  W T s0 (atomic f) Q.
Proof.
  intros Hsub Hf. apply wp_atomic. intros s Fr HR Hd HI _.
  destruct (Hf s Fr HR HI Hd) as [(HR' & HI' & HQ)|(HR' & HI' & HQ)]; (split; [done|]).
  - exists T. split_and!; [set_solver|done|eauto].
  - exists T'. split_and!; [set_solver|done|eauto].
Qed.

Lemma W_give_back T s0 h n k :
  send_handle_ok s0 h -> inr (ss_id h, n, k) ∈ T ->
  W T s0 (modify (on_flow (ss_flow h) (release n)))
    (fun _ T' _ => T' = T ∖ {[inr (ss_id h, n, k)]}).
Proof.
  intros Hh Hin. eapply (W_atomic_token T (T ∖ {[inr (ss_id h, n, k)]})); [set_solver|].
  intros s Fr HR HI Hd. right.
  destruct (send_handle_ok_evolves _ _ _ HR Hh) as (_ & _ & Hf & _).
  destruct (step_release s (T ∪ Fr) (ss_id h) (ss_flow h) n k) as [HR' HI']; [done|done|set_solver|].
  split_and!; [done| |done]. simpl.
  replace (T ∖ {[inr (ss_id h, n, k)]} ∪ Fr) with ((T ∪ Fr) ∖ {[inr (ss_id h, n, k)]}) by set_solver.
  done.
Qed.

(** Queueing data spends the token of its length. *)
Lemma push_data s T c h data k :
  inv s T -> send_handle_ok s h -> chan_all (cmd_ok (limits s)) c ->
  blen data <= max_stream_data_per_frame (limits s) ->
  is_Some (send_flows s !! ss_id h) -> inr (ss_id h, blen data, k) ∈ T ->
  let s' := set_out_log (out_log s ++ [Stream (ss_id h) data false]) (set_outbound c s) in
  evolves s s' /\ inv s' (T ∖ {[inr (ss_id h, blen data, k)]}).
Proof.
  intros HI (Hl & Hid & Hf & Ho) Hc Hlen Hopen Hin. apply (step_push s T); try done.
  - split; [|done]. split; [done|]. destruct Hl. unfold varint_ok, blen in *. lia.
  - by intros id d fin [= <- _ _].
  - intros id. rewrite held_remove by done. simpl. case_decide; lia.
  - apply tok_nonneg_remove, HI.
  - set_solver.
Qed.

Lemma sendable_data s h data :
  send_handle_ok s h -> blen data <= max_stream_data_per_frame (limits s) ->
  sendable (limits s) (Stream (ss_id h) data false).
Proof.
  intros (Hl & Hid & _) Hlen. split; [|done]. split; [done|]. destruct Hl.
  unfold varint_ok, blen in *. lia.
Qed.

Lemma W_send_data T s0 h data k :
  send_handle_ok s0 h -> blen data <= max_stream_data_per_frame (limits s0) ->
  inr (ss_id h, blen data, k) ∈ T ->
  W T s0 (send_frame (Stream (ss_id h) data false))
    (fun r T' _ => match r with
       | Ok _ => T' = T ∖ {[inr (ss_id h, blen data, k)]}
       | Err _ => T' = T
       | Panic => False end).
Proof.
  intros Hh Hlen Hin. unfold send_frame.
  eapply W_bind; [exact (keep_is_closed s0 T s0 ltac:(reflexivity))|].
  intros [|] T1 s1 HR1 [-> _]; [by intros ??|].
  eapply W_bind; [exact (keep_reserve s0 T s1 HR1)|].
  intros [|] T2 s2 HR2 [-> _]; [|by intros ??].
  eapply (W_atomic_token T (T ∖ {[inr (ss_id h, blen data, k)]})); [set_solver|].
  intros s Fr HR HI Hd. assert (HR0 : evolves s0 s) by (etrans; [exact HR1|]; by etrans).
  pose proof (send_handle_ok_evolves _ _ _ HR0 Hh) as Hhs. rewrite <- (ev_limits _ _ HR0) in Hlen.
  cbn [send_with_permit]. destruct (send_flows s !! ss_id h) as [l|] eqn:El; cbn [fst snd].
  - right. destruct (push_data s (T ∪ Fr) (permit_send (CmdFrame (Stream (ss_id h) data false)) (outbound s))
      h data k) as [HR' HI']; [done|done| |done|by rewrite El|set_solver|].
    { apply chan_all_permit_send; [by apply sendable_data|apply HI]. }
    split_and!; [done| |done].
    by replace (T ∖ {[inr (ss_id h, blen data, k)]} ∪ Fr)
      with ((T ∪ Fr) ∖ {[inr (ss_id h, blen data, k)]}) by set_solver.
  - left. destruct (step_outbound s (T ∪ Fr) (permit_drop (outbound s))) as [HR' HI'];
      [done|by apply chan_all_permit_drop, HI|]. by split_and!.
Qed.

(** ** Writing *)
Lemma keep_wanted s0 (d : list byte) :
  keep s0 (gets (fun s => payload_limit (blen d) (max_stream_data_per_frame (limits s))))
    (fun w _ => w = payload_limit (blen d) (max_stream_data_per_frame (limits s0))).
Proof. apply keep_gets. intros s s' HR _. by rewrite (ev_limits _ _ HR). Qed.

(** [write_buf]'s loop never runs out of rounds, and ends holding no credit. *)
Lemma W_write_loop h fuel : forall data T s0,
  send_handle_ok s0 h -> (length data <= fuel)%nat ->
  W T s0 (write_loop h fuel data) (fun r T' _ => T' = T /\ r <> Panic).
Proof.
  induction fuel as [|fuel IH]; intros data T s0 Hh Hfuel.
  { destruct data; [by intros ??|simpl in Hfuel; lia]. }
  cbn [write_loop]. destruct data as [|b data]; [by intros ??|]. set (d := b :: data) in *.
  eapply W_bind; [exact (keep_wanted s0 d T s0 ltac:(reflexivity))|].
  intros wanted T1 s1 HR1 [-> Hw]. destruct (wanted =? 0) eqn:E0; [by intros ??|].
  destruct (payload_limit_le (blen d) (max_stream_data_per_frame (limits s0))) as [Hw1 Hw2].
  assert (Hpos : 0 <= wanted).
  { subst wanted. unfold payload_limit, MAX_WRITE_CHUNK, blen. destruct Hh as [[] _]. lia. }
  pose proof (send_handle_ok_evolves _ _ _ HR1 Hh) as Hh1. unfold bind_result.
  eapply W_bind; [exact (W_grant T s1 h wanted Hh1 Hpos)|].
  intros [n|e|] T2 s2 HR2; [|by intros -> ??|done]. intros [Hn (k & Hk & HT2)].
  pose proof (send_handle_ok_evolves _ _ _ HR2 Hh1) as Hh2.
  assert (Hlim : limits s2 = limits s0).
  { by rewrite (ev_limits _ _ HR2), (ev_limits _ _ HR1). }
  assert (Hlen : blen (take (Z.to_nat n) d) = n) by (apply blen_take; lia).
  eapply W_bind.
  { apply (W_send_data T2 s2 h (take (Z.to_nat n) d) k); [done|rewrite Hlim, Hlen; lia|].
    rewrite Hlen, HT2. set_solver. }
  rewrite Hlen. intros [[]|e|] T3 s3 HR3; [|intros ->|done].
  - rewrite (granted_back T _ _ _ _ Hk HT2). intros ->.
    apply IH; [by eapply send_handle_ok_evolves|]. rewrite length_drop. lia.
  - eapply W_bind; [apply (W_give_back T2 s3 h n k); [by eapply send_handle_ok_evolves|set_solver]|].
    intros [] T4 s4 HR4. rewrite (granted_back T _ _ _ _ Hk HT2). intros -> s5 _. done.
Qed.

Lemma keep_write_buf s0 h data : send_handle_ok s0 h -> keep s0 (write_buf h data) any.
Proof.
  intros Hh. apply keep_guarded, keep_complete_or_abort. kgo. intros T s HR.
  eapply W_mono; [apply W_write_loop; [by eapply send_handle_ok_evolves|done]|]. naive_solver.
Qed.

(** ** [AsyncWrite] *)
Lemma keep_poll_reserve s0 : keep (S := SessionInner chan) s0 poll_reserve any.
Proof.
  apply keep_atomic. intros s T HR HI _. split; [|done].
  pose proof (chan_all_reserve _ _ (inv_out _ _ HI)) as Hc.
  destruct (tx_reserve (outbound s)) as [[] c]; [by apply step_outbound..|by apply step_ok_id].
Qed.
#[local] Hint Resolve keep_poll_reserve : keep.

Lemma chan_all_item s T f :
  inv s T -> sendable (limits s) f -> chan_all (cmd_ok (limits s)) (ps_send_item (CmdFrame f) (outbound s)).2.
Proof. intros HI Hf. apply chan_all_send_item; [done|apply HI]. Qed.

(** Queue data under the lock: the token is spent exactly when the item is accepted. *)
Lemma W_item_data T s0 h data k :
  send_handle_ok s0 h -> blen data <= max_stream_data_per_frame (limits s0) ->
  inr (ss_id h, blen data, k) ∈ T ->
  W T s0 (atomic (send_item_if_open (ss_id h) (Stream (ss_id h) data false)))
    (fun o T' _ => T' = match o with
       | Some true => T ∖ {[inr (ss_id h, blen data, k)]} | _ => T end).
Proof.
  intros Hh Hlen Hin.
  eapply (W_atomic_token T (T ∖ {[inr (ss_id h, blen data, k)]})); [set_solver|].
  intros s Fr HR HI Hd. pose proof (send_handle_ok_evolves _ _ _ HR Hh) as Hhs.
  rewrite <- (ev_limits _ _ HR) in Hlen.
  unfold send_item_if_open. destruct (send_flows s !! ss_id h) as [l|] eqn:El.
  - unfold send_item_frame.
    pose proof (chan_all_item s _ _ HI (sendable_data s h data Hhs Hlen)) as Hc.
    destruct (ps_send_item _ _) as [[] c]; simpl in *.
    + right. destruct (push_data s (T ∪ Fr) c h data k) as [HR' HI'];
        [done|done|done|done|by rewrite El|set_solver|].
      split_and!; [done| |done].
      by replace (T ∖ {[inr (ss_id h, blen data, k)]} ∪ Fr)
        with ((T ∪ Fr) ∖ {[inr (ss_id h, blen data, k)]}) by set_solver.
    + left. destruct (step_outbound s (T ∪ Fr) c HI Hc). by split_and!.
  - left. destruct (step_outbound s (T ∪ Fr) (permit_drop (outbound s))) as [HR' HI'];
      [done|by apply chan_all_permit_drop, HI|]. by split_and!.
Qed.

Lemma W_keep {A} T s0 s (p : nprog chan A) P :
  keep s0 p P -> evolves s0 s -> W T s p (fun a T' s' => T' = T /\ P a s').
Proof. intros Hp HR. by apply Hp. Qed.

(** A poll that reserves credit spends it or gives it back before it returns. *)
Lemma W_after_grant T T2 s0 h buf n k :
  send_handle_ok s0 h -> 0 <= n <= blen buf -> n <= max_stream_data_per_frame (limits s0) ->
  (inr (ss_id h, n, k) ∉ T) -> T2 = {[inr (ss_id h, n, k)]} ∪ T ->
  W T2 s0 (let* r := poll_reserve in
    match r with
    | Pending => modify (on_flow (ss_flow h) (release n));;; Ret Pending
    | Ready false => modify (on_flow (ss_flow h) (release n));;; Ret (Ready (Err io_closed))
    | Ready true =>
        let* o := atomic (send_item_if_open (ss_id h) (Stream (ss_id h) (take (Z.to_nat n) buf) false)) in
        match o with
        | Some true =>
            modify (on_local h (fun x => mkSendLocal None (fin_queued x)));;; Ret (Ready (Ok n))
        | _ => modify (on_flow (ss_flow h) (release n));;; Ret (Ready (Err io_closed))
        end
    end) (fun _ T' _ => T' = T).
Proof.
  intros Hh Hn Hlim Hk HT2. pose proof (granted_back T _ _ _ _ Hk HT2) as Hback.
  assert (Hin : inr (ss_id h, n, k) ∈ T2) by set_solver.
  assert (Hgive : forall s (p : poll (outcome IoError Z)), evolves s0 s ->
    W T2 s (modify (on_flow (ss_flow h) (release n));;; Ret p) (fun _ T' _ => T' = T)).
  { intros s p HR. eapply W_bind; [apply (W_give_back T2 s h n k); [by eapply send_handle_ok_evolves|done]|].
    intros [] T3 s3 _ -> s4 _. done. }
  assert (Hlen : blen (take (Z.to_nat n) buf) = n) by (by apply blen_take).
  eapply W_bind; [exact (keep_poll_reserve s0 T2 s0 ltac:(reflexivity))|].
  intros [[|]|] T3 s3 HR3 [-> _]; [|by apply Hgive..].
  eapply W_bind.
  { apply (W_item_data T2 s3 h (take (Z.to_nat n) buf) k); [by eapply send_handle_ok_evolves| |].
    - rewrite Hlen. by rewrite (ev_limits _ _ HR3).
    - by rewrite Hlen. }
  rewrite Hlen. intros o T4 s4 HR4 ->. assert (HR04 : evolves s0 s4) by (by etrans).
  destruct o as [[|]|]; [|by apply Hgive..]. rewrite Hback.
  eapply W_bind; [exact (keep_on_local s4 h _ T s4 ltac:(reflexivity))|].
  by intros [] T5 s5 _ [-> _] s6 _.
Qed.

(** A reservation of the polling interface. *)
Lemma W_try_reserve T s0 h wanted :
  send_handle_ok s0 h -> 0 <= wanted ->
  W T s0 (atomic (fun s =>
      let '(n, fl) := try_reserve wanted (flow_at s (ss_flow h)) in
      (on_flow (ss_flow h) (fun _ => fl) s, n)))
    (fun n T' _ => (n = 0 /\ T' = T) \/ (0 < n <= wanted /\ granted T (ss_id h) n T')).
Proof.
  intros Hh Hw. apply wp_atomic. intros s Fr HR Hd HI _.
  assert (Hhs : send_handle_ok s h) by (by eapply send_handle_ok_evolves).
  pose proof (try_reserve_zero wanted (flow_at s (ss_flow h)) Hw) as Hzero.
  destruct (mint_grant s T Fr h wanted HI Hd Hhs Hw) as (Hn & HR' & T' & Hd' & HI' & Hg).
  destruct (try_reserve wanted _) as [n fl]. cbn [fst snd] in *.
  destruct (decide (n = 0)) as [->|Hne].
  - rewrite Hzero in HR' |- * by done. split; [done|]. exists T. split_and!; [set_solver| |auto].
    destruct Hhs as (_ & _ & Hf & _). apply (step_flow s (T ∪ Fr)); try done; [| |apply HI].
    2:{ intros id fl' _ Hl. by rewrite (flow_at_lookup _ _ _ Hl). }
    intros id fl' Hid Hl. rewrite (flow_at_lookup _ _ _ Hl).
    destruct (inv_accounts _ _ HI _ _ Hid) as (fl2 & ? & ? & ?). simplify_eq. lia.
  - split; [done|]. exists T'. split_and!; [done|done|]. intros _ _. right. split; [lia|done].
Qed.

Lemma keep_poll_write_body s0 h buf :
  send_handle_ok s0 h -> keep s0 (poll_write_body h buf) any.
Proof.
  intros Hh. unfold poll_write_body. destruct buf as [|b buf]; [by apply keep_ret|].
  set (d := b :: buf). apply keep_seq; [apply keep_SendStream_closed|]. intros [|]; [by apply keep_ret|].
  eapply keep_bind; [apply keep_wanted|]. intros wanted s1 HR1 Hw. cbv beta in Hw.
  destruct (wanted =? 0) eqn:E0; [by apply keep_ret|].
  destruct (payload_limit_le (blen d) (max_stream_data_per_frame (limits s0))) as [Hw1 Hw2].
  assert (Hpos : 0 <= wanted).
  { subst wanted. unfold payload_limit, MAX_WRITE_CHUNK, blen. destruct Hh as [[] _]. lia. }
  pose proof (send_handle_ok_evolves _ _ _ HR1 Hh) as Hh1. intros T s2 HR2.
  pose proof (send_handle_ok_evolves _ _ _ HR2 Hh1) as Hh2.
  eapply W_bind; [exact (W_try_reserve T s2 h wanted Hh2 Hpos)|].
  intros n T3 s3 HR3 Hn. destruct (n =? 0) eqn:En.
  - destruct Hn as [[-> ->]|[? _]]; [|lia].
    assert (Hk : keep s3 (let* fc := flow_is_closed h in
       if fc then Ret (Ready (Err io_closed))
       else let* sc := is_closed in
            if sc then Ret (Ready (Err io_closed)) else Ret (@Pending (outcome IoError Z))) any) by kgo.
    exact (Hk T s3 ltac:(reflexivity)).
  - destruct Hn as [[-> _]|[Hn (k & Hk & HT3)]]; [done|].
    assert (Hlim : limits s3 = limits s0).
    { by rewrite (ev_limits _ _ HR3), (ev_limits _ _ HR2), (ev_limits _ _ HR1). }
    eapply W_mono; [apply (W_after_grant T T3 s3 h d n k); try done|].
    + by eapply send_handle_ok_evolves.
    + lia.
    + rewrite Hlim. lia.
    + intros a T' s' _ ->. done.
Qed.

#[local] Hint Resolve keep_poll_write_body : keep.

Lemma keep_poll_write s0 h buf : send_handle_ok s0 h -> keep s0 (poll_write h buf) any.
Proof. intros Hh. unfold poll_write. kgo. Qed.

Lemma keep_poll_waiter s0 h ack : keep s0 (poll_waiter h ack) any.
Proof.
  apply keep_atomic. intros s T HR HI _. split; [|done].
  repeat case_match; simpl; first [by apply step_set_send_locals | by apply step_ok_id].
Qed.
#[local] Hint Resolve keep_poll_waiter : keep.

Lemma keep_poll_flush_body s0 h : keep s0 (poll_flush_body h) any.
Proof.
  unfold poll_flush_body. kgo.
  apply keep_atomic. intros s T HR HI _. split; [|done].
  assert (Hc : chan_all (cmd_ok (limits s)) (ps_send_item (CmdFlush (length (acks s))) (outbound s)).2)
    by (apply chan_all_send_item; [done|apply HI]).
  destruct (ps_send_item _ _) as [[] c]; simpl in *; destruct (step_outbound s T c HI Hc) as [HR1 HI1]; [|done].
  destruct (step_set_acks (acks s ++ [AckPending]) _ _ HI1) as [HR2 HI2].
  destruct (step_set_send_locals (alter (fun x => mkSendLocal (Some (length (acks s))) (fin_queued x))
    (ss_local h) (send_locals s)) _ _ HI2) as [HR3 HI3].
  split; [|done]. etrans; [exact HR1|]. by etrans.
Qed.
#[local] Hint Resolve keep_poll_flush_body : keep.

Lemma keep_poll_flush s0 h : keep s0 (poll_flush h) any.
Proof. unfold poll_flush. kgo. Qed.
#[local] Hint Resolve keep_poll_flush : keep.

Lemma keep_item_fin s0 h :
  send_handle_ok s0 h ->
  keep s0 (atomic (send_item_if_open (ss_id h) (Stream (ss_id h) [] true))) any.
Proof.
  intros Hh. apply keep_atomic. intros s T HR HI _. split; [|done].
  pose proof (queueable_fin _ _ (send_handle_ok_evolves _ _ _ HR Hh)) as Hq.
  unfold send_item_if_open. destruct (send_flows s !! ss_id h) as [l|] eqn:El.
  - unfold send_item_frame. pose proof (chan_all_item s T _ HI (proj1 Hq)) as Hc.
    destruct (ps_send_item _ _) as [[] c]; simpl in *; [|by apply step_outbound].
    apply push_queueable; try done. by intros id d fin [= <- _ _].
  - apply step_outbound; [done|]. by apply chan_all_permit_drop, HI.
Qed.
#[local] Hint Resolve keep_item_fin : keep.

Lemma keep_poll_shutdown s0 h : send_handle_ok s0 h -> keep s0 (poll_shutdown h) any.
Proof. intros Hh. unfold poll_shutdown. kgo. Qed.
End SendSpecs.

#[export] Hint Resolve keep_SendStream_closed keep_SendStream_new keep_SendStream_clone keep_finish keep_reset
  keep_SendStream_drop keep_write_buf keep_poll_write keep_poll_flush keep_poll_shutdown : keep.
