(* ===== verification/NativeSessionSpecs.v ===== *)
(** * The native session: specifications of the session handle, the frame handler
    and the tasks *)

From S2P Require Import Prelude Buf VarInt Frame Proto Limits SendFlow Channel Async NativeState.
From S2P Require Import NativeOps NativeStream NativeRecv NativeSession NativeTasks Credit NativeInv.
From S2P Require Import NativeSteps Keep NativeSafe NativeSpecs NativeStreamSpecs NativeSendSpecs.
Open Scope mux_scope.

#[export] Hint Extern 1 (frame_ok (ConnectionClose _ _)) =>
  apply close_frame_ok; vm_compute; reflexivity : keep.

Section SessionSpecs.
Context {chan : Type -> Type} `{MpscLaws chan} `{!MapOrder} `{!MapOrderLaws}.
Implicit Types (s : SessionInner chan) (T : gset tok) (id : StreamId).

Abbreviation W := (wp (S := SessionInner chan) sh_inv sh_ev sh_pre).

(** ** Identifiers and registration *)
Lemma W_next_stream_id T s0 dir :
  W T s0 (next_stream_id dir)
    (fun r T' _ => match r with
       | Ok id => sid_ok id /\ (inl id ∉ T) /\ T' = {[inl id]} ∪ T
       | _ => T' = T end).
Proof.
  unfold next_stream_id.
  eapply (W_bind _ _ _ _ (fun counter T' s' => match StreamId_new counter (is_server s') dir with
     | Ok id => sid_ok id /\ (inl id ∉ T) /\ T' = {[inl id]} ∪ T
     | _ => T' = T end)).
  - apply wp_atomic. intros s Fr HR Hd HI Hpre.
    destruct (step_next_id s (T ∪ Fr) dir HI Hpre) as [HR' Hnew]. cbv zeta in *. split; [done|].
    destruct (StreamId_new (fetch_next dir s).2 (is_server s) dir) as [id| |] eqn:Enew.
    + destruct Hnew as [Hnot HI']. exists ({[inl id]} ∪ T).
      split_and!; [set_solver|by rewrite <- union_assoc_L|]. intros s' HR2.
      rewrite (ev_server _ _ HR2), (ev_server _ _ HR'), Enew.
      split; [|set_solver]. apply (inv_ids _ _ HI'). right. set_solver.
    + exists T. split_and!; [set_solver|done|]. intros s' HR2.
      by rewrite (ev_server _ _ HR2), (ev_server _ _ HR'), Enew.
    + exists T. split_and!; [set_solver|done|]. intros s' HR2.
      by rewrite (ev_server _ _ HR2), (ev_server _ _ HR'), Enew.
  - intros counter T1 s1 HR1 Hc.
    eapply W_bind; [apply (keep_gets s1 is_server (fun b _ => b = is_server s1)); [|reflexivity]|].
    { intros s2 s3 HR2 _. by apply ev_server. }
    intros server T2 s2 HR2 [-> ->]. intros s3 HR3.
    by destruct (StreamId_new counter (is_server s1) dir).
Qed.

Lemma W_register T s0 id :
  inl id ∈ T ->
  W T s0 (register_send_flow id 0)
    (fun r T' s' => match r with
       | Ok l => T' = T ∖ {[inl id]} /\ flow_of s' !! id = Some l
       | Err err => T' = T /\ (err = Protocol "too many open send streams"
                               \/ err = Protocol "duplicate send stream")
       | Panic => False end).
Proof.
  intros Hin. apply wp_atomic. intros s Fr HR Hd HI _.
  pose proof (step_register_flow s (T ∪ Fr) id HI ltac:(set_solver)) as Hr. cbv zeta in Hr.
  unfold register_send_flow_locked in *. destruct (_ <=? _); [|destruct (send_flows s !! id)];
    cbn [fst snd] in *.
  - split; [reflexivity|]. exists T. split_and!; [set_solver|done|auto].
  - split; [reflexivity|]. exists T. split_and!; [set_solver|done|auto].
  - destruct Hr as (HR' & HI' & Hf & _). split; [done|]. exists (T ∖ {[inl id]}).
    split_and!; [set_solver| |].
    + by replace (T ∖ {[inl id]} ∪ Fr) with ((T ∪ Fr) ∖ {[inl id]}) by set_solver.
    + intros s' HR2. split; [done|]. eapply lookup_weaken; [done|by apply ev_flow_of].
Qed.

Lemma keep_insert_recv s0 id :
  sid_ok id -> keep s0 (register_recv_stream id) (fun h _ => rs_id h = id).
Proof.
  intros Hid. apply keep_atomic. intros s T HR HI _. split; [by apply step_insert_recv|done].
Qed.

Lemma queueable_max s0 id v : sid_ok id -> varint_ok v -> queueable s0 (MaxStreamData id v).
Proof. done. Qed.

Lemma keep_window s0 :
  keep (S := SessionInner chan) s0 (gets (fun s => initial_stream_window (limits s)))
    (fun w _ => w = initial_stream_window (limits s0)).
Proof. apply keep_gets. intros s s' HR _. by rewrite (ev_limits _ _ HR). Qed.

Lemma window_ok l : limits_ok l -> varint_ok (initial_stream_window l).
Proof. intros []. unfold varint_ok. lia. Qed.

Lemma keep_send_initial_credit s0 id :
  limits_ok (limits s0) -> sid_ok id -> keep s0 (send_initial_credit id) any.
Proof.
  intros Hl Hid. eapply keep_bind; [apply keep_window|]. intros w s HR ->.
  eapply keep_any, keep_send_frame, queueable_max; [done|]. by apply window_ok.
Qed.

Lemma keep_try_register s0 id :
  limits_ok (limits s0) -> sid_ok id ->
  keep s0 (try_register_inbound_recv_stream id)
    (fun r _ => match r with
       | Ok h => rs_id h = id
       | Err (code, reason) => frame_ok (ConnectionClose code reason)
       | Panic => False end).
Proof.
  intros Hl Hid. unfold try_register_inbound_recv_stream, bind_result.
  eapply (keep_bind _ _ _ (fun r _ => match r with
       | Ok h => rs_id h = id
       | Err (code, reason) => frame_ok (ConnectionClose code reason)
       | Panic => False end)).
  - apply keep_atomic. intros s T HR HI _. unfold register_inbound_locked.
    destruct (_ <=? _); [|destruct (streams s !! id) eqn:Es]; simpl.
    + split; [by apply step_ok_id|]. intros _ _. by apply close_frame_ok.
    + split; [by apply step_ok_id|]. intros _ _. by apply close_frame_ok.
    + split; [|done]. pose proof (step_insert_recv id Hid s T HI) as Hs. unfold insert_recv_state in Hs.
      by rewrite Es in Hs |- *.
  - intros [h|[code reason]|] s HR Hr; [|by apply keep_ret|done].
    assert (Hh : recv_handle_ok h) by (unfold recv_handle_ok; by rewrite Hr).
    eapply keep_bind; [apply keep_window|]. intros w s1 HR1 ->. apply keep_seq.
    + apply keep_with_drop; [by eapply keep_safe, keep_RecvStream_drop|].
      eapply keep_any, keep_send_frame, queueable_max; [done|].
      rewrite (ev_limits _ _ HR). by apply window_ok.
    + intros r. destruct (is_ok r); [by apply keep_ret|].
      apply keep_seq; [by apply keep_RecvStream_drop|]. intros _. apply keep_ret. intros _ _.
      by apply close_frame_ok.
Qed.

(** ** Opening streams *)
Lemma W_keep_bind {A B} T s0 s (p : nprog chan A) (k : A -> nprog chan B) P Q :
  keep s0 p P -> evolves s0 s ->
  (forall a s', evolves s s' -> P a s' -> W T s' (k a) Q) -> W T s (pbind p k) Q.
Proof.
  intros Hp HR Hk. eapply W_bind; [exact (Hp T s HR)|]. intros a T' s' HR' [-> HP]. by apply Hk.
Qed.

Lemma W_of_keep {A} T s (p : nprog chan A) (P : A -> SessionInner chan -> Prop) (Q : A -> gset tok -> SessionInner chan -> Prop) :
  keep s p P -> (forall a s', evolves s s' -> P a s' -> Q a T s') -> W T s p Q.
Proof.
  intros Hp HQ. eapply W_mono; [exact (Hp T s ltac:(reflexivity))|]. intros a T' s' HR [-> ?]. auto.
Qed.

Lemma opened_by_log s id : OpenUni id ∈ out_log s \/ OpenBi id ∈ out_log s ->
  stream_opened (is_server s) (out_log s) id.
Proof. intros [?|?] _; eexists; (split; [done|]); unfold is_open; auto. Qed.

Lemma open_uni_spec T s0 :
  limits_ok (limits s0) ->
  W T s0 open_uni (fun r _ s => match r with Ok h => send_handle_ok s h | _ => True end).
Proof.
  intros Hl. apply (wp_with_drop _ _ _).
  { intros T' s HR. by eapply keep_safe; [apply keep_request_shutdown|]. }
  eapply W_bind; [apply W_next_stream_id|]. intros [id| |] T1 s1 HR1; [|by intros -> ??..].
  intros (Hid & Hnot & ->). eapply W_bind; [apply (W_register _ s1 id); set_solver|].
  intros [l| |] T2 s2 HR2; [|by intros _ ??|done]. intros [-> Hf].
  eapply (W_keep_bind _ s2); [by apply (keep_send_frame s2 (OpenUni id))|reflexivity|].
  intros [[]| |] s3 HR3 Hq.
  - assert (Hl3 : limits_ok (limits s3)).
    { by rewrite (ev_limits _ _ HR3), (ev_limits _ _ HR2), (ev_limits _ _ HR1). }
    eapply (W_keep_bind _ s3); [apply (keep_SendStream_new s3 id l); [done|done| |]|reflexivity|].
    + eapply lookup_weaken; [done|by apply ev_flow_of].
    + apply opened_by_log. left. by apply Hq.
    + intros h s4 HR4 Hh s5 HR5. by eapply send_handle_ok_evolves.
  - eapply (W_keep_bind _ s3); [apply keep_remove_send_flow|reflexivity|]. by intros b s4 _ _ s5 _.
  - by intros s4 _.
Qed.

Lemma keep_undo {A} s0 id (recv : RecvStream) (err : Error) :
  recv_handle_ok recv ->
  keep s0 (remove_stream id;;; remove_send_flow id;;; RecvStream_drop recv;;;
           Ret (@Err Error A err)) (fun r _ => r = Err err).
Proof. intros Hr. unfold remove_stream. kgo. Qed.

Lemma open_bi_spec T s0 :
  limits_ok (limits s0) ->
  W T s0 open_bi (fun r _ s => match r with Ok p => pair_ok s p | _ => True end).
Proof.
  intros Hl. apply (wp_with_drop _ _ _).
  { intros T' s HR. by eapply keep_safe; [apply keep_request_shutdown|]. }
  eapply W_bind; [apply W_next_stream_id|]. intros [id| |] T1 s1 HR1; [|by intros -> ??..].
  intros (Hid & Hnot & ->). eapply W_bind; [apply (W_register _ s1 id); set_solver|].
  intros [l| |] T2 s2 HR2; [|by intros _ ??|done]. intros [-> Hf].
  eapply (W_keep_bind _ s2); [by apply (keep_insert_recv s2 id)|reflexivity|].
  intros recv s3 HR3 Hrecv. assert (Hr : recv_handle_ok recv) by (unfold recv_handle_ok; by rewrite Hrecv).
  assert (Hdrop : forall s, safe s (RecvStream_drop recv)).
  { intros s. by eapply keep_safe, keep_RecvStream_drop. }
  assert (Hl3 : limits_ok (limits s3)).
  { by rewrite (ev_limits _ _ HR3), (ev_limits _ _ HR2), (ev_limits _ _ HR1). }
  set (Q := fun (r : result (SendStream * RecvStream)) (_ : gset tok) s =>
    match r with Ok p => pair_ok s p | _ => True end).
  assert (Hundo : forall T s err, W T s (remove_stream id;;; remove_send_flow id;;;
      RecvStream_drop recv;;; Ret (Err err)) Q).
  { intros T' s err. eapply W_of_keep; [by apply keep_undo|]. by intros a s' _ ->. }
  eapply (W_keep_bind _ s3); [apply keep_with_drop; [done|by apply (keep_send_frame s3 (OpenBi id))]|reflexivity|].
  intros [[]| |] s4 HR4 Hq; [|apply Hundo|by intros ??].
  assert (Hl4 : limits_ok (limits s4)) by (by rewrite (ev_limits _ _ HR4)).
  eapply (W_keep_bind _ s4); [apply keep_with_drop; [done|by apply keep_send_initial_credit]|reflexivity|].
  intros [[]| |] s5 HR5 _; [|apply Hundo|by intros ??].
  eapply (W_keep_bind _ s5); [apply (keep_SendStream_new s5 id l); [|done| |]|reflexivity|].
  - by rewrite (ev_limits _ _ HR5).
  - eapply lookup_weaken; [done|]. apply ev_flow_of. etrans; [exact HR3|]. by etrans.
  - apply opened_by_log. right. eapply in_log_later; [done|]. by apply Hq.
  - intros h s6 HR6 Hh s7 HR7. split; [by eapply send_handle_ok_evolves|done].
Qed.

(** ** Accepting, cloning and dropping *)
Lemma accept_uni_spec s0 :
  keep s0 accept_uni (fun r _ => match r with Ok h => recv_handle_ok h | _ => True end).
Proof.
  apply keep_await. intros s s' a T HR HI _ Hs.
  pose proof (chan_all_recv _ _ (inv_uni _ _ HI)) as Hc.
  pose proof (chan_all_recv_item recv_handle_ok) as Hitem.
  specialize (fun h => Hitem h _ (inv_uni _ _ HI)).
  destruct (rx_recv (accept_uni_chan s)) as [[h| |] c]; simplify_eq;
    (split; [by apply step_uni_chan|]); [|done]. intros _ _. by apply Hitem.
Qed.

Lemma accept_bi_spec s0 :
  keep s0 accept_bi (fun r s => match r with Ok p => pair_ok s p | _ => True end).
Proof.
  apply keep_await. intros s s' a T HR HI _ Hs.
  pose proof (chan_all_recv _ _ (inv_bi _ _ HI)) as Hc.
  pose proof (chan_all_recv_item (pair_ok s)) as Hitem.
  specialize (fun h => Hitem h _ (inv_bi _ _ HI)).
  destruct (rx_recv (accept_bi_chan s)) as [[h| |] c]; simplify_eq;
    (split; [by apply step_bi_chan|]); [|done]. intros s' HR'.
  destruct (Hitem h eq_refl). split; [|done]. eapply send_handle_ok_evolves; [exact HR'|done].
Qed.

Lemma keep_drop_pair s0 p : pair_ok s0 p -> keep s0 (drop_pair p) any.
Proof. intros [? ?]. unfold drop_pair. kgo. Qed.

Lemma keep_drop_each {A} s0 (d : A -> nprog chan unit) (l : list A) :
  Forall (fun a => keep s0 (d a) any) l -> keep s0 (drop_each d l) any.
Proof. induction 1; simpl; [by apply keep_ret|]. apply keep_seq; [done|]. by intros. Qed.

Lemma keep_Session_clone s0 : keep (S := SessionInner chan) s0 Session_clone any.
Proof.
  unfold Session_clone. kgo; apply keep_modify; intros s T HI;
    [by apply step_set_session_handles|by apply step_set_accept_uni_refs|by apply step_set_accept_bi_refs].
Qed.

Lemma keep_Session_drop s0 : keep s0 Session_drop any.
Proof.
  unfold Session_drop. apply keep_seq.
  { apply keep_atomic. intros s T HR HI _. split; [by apply step_set_session_handles|done]. }
  intros old. apply keep_seq; [kgo|]. intros _.
  eapply (keep_bind _ _ _ (fun l _ => Forall recv_handle_ok l)).
  { apply keep_atomic. intros s T HR HI _.
    destruct (step_set_accept_uni_refs (accept_uni_refs s - 1) s T HI) as [HR1 HI1].
    destruct (accept_uni_refs s =? 1); [|split; [done|]; simpl; by constructor].
    pose proof (chan_all_rx_drop recv_handle_ok (accept_uni_chan s)) as Hc.
    pose proof (rx_drop_msgs _ (accept_uni_chan s)) as Hm.
    destruct (rx_drop (accept_uni_chan s)) as [l c]. simpl in *. split.
    - destruct (step_uni_chan _ T c HI1 Hc). split; [by etrans|done].
    - intros _ _. rewrite Hm. apply HI. }
  intros uni s1 HR1 Huni. apply keep_seq.
  { apply keep_drop_each. eapply Forall_impl; [done|]. intros h Hh. by apply keep_RecvStream_drop. }
  intros _. eapply (keep_bind _ _ _ (fun l s => Forall (pair_ok s) l)).
  { apply keep_atomic. intros s T HR HI _.
    destruct (step_set_accept_bi_refs (accept_bi_refs s - 1) s T HI) as [HR2 HI2].
    destruct (accept_bi_refs s =? 1); [|split; [done|]; simpl; by constructor].
    pose proof (chan_all_rx_drop (pair_ok s) (accept_bi_chan s)) as Hc.
    pose proof (rx_drop_msgs _ (accept_bi_chan s)) as Hm.
    destruct (rx_drop (accept_bi_chan s)) as [l c]. simpl in *.
    assert (Hst : evolves s (set_accept_bi_chan c (set_accept_bi_refs (accept_bi_refs s - 1) s))
       /\ inv (set_accept_bi_chan c (set_accept_bi_refs (accept_bi_refs s - 1) s)) T).
    { destruct (step_bi_chan _ T c HI2 Hc). split; [by etrans|done]. }
    split; [done|]. intros s' HR'. rewrite Hm. eapply Forall_impl; [apply HI|]. intros p [? ?].
    split; [|done]. eapply send_handle_ok_evolves; [|done]. etrans; [apply Hst|done]. }
  intros bi s2 HR2 Hbi. apply keep_drop_each. eapply Forall_impl; [exact Hbi|]. intros p Hp.
  by apply keep_drop_pair.
Qed.

(** ** Peer frames *)
Lemma keep_dropping {A} s0 d (p : nprog chan A) :
  keep s0 d any -> keep s0 p any -> keep s0 (dropping d p) any.
Proof. intros Hd Hp. unfold dropping. kgo. Qed.

Lemma keep_accept_uni_drop s0 : keep (S := SessionInner chan) s0 accept_uni_drop any.
Proof.
  apply keep_modify. intros s T HI. apply step_uni_chan; [done|]. by apply chan_all_tx_drop, HI.
Qed.
Lemma keep_accept_bi_drop s0 : keep (S := SessionInner chan) s0 accept_bi_drop any.
Proof.
  apply keep_modify. intros s T HI. apply step_bi_chan; [done|]. by apply chan_all_tx_drop, HI.
Qed.

Lemma keep_clone_accept_uni s0 : keep (S := SessionInner chan) s0 clone_accept_uni any.
Proof.
  apply keep_await. intros s s' a T HR HI _ [= <- <-]. split; [|done].
  destruct (accept_uni_tx s); [|by apply step_ok_id].
  apply step_uni_chan; [done|]. by apply chan_all_tx_clone, HI.
Qed.
Lemma keep_clone_accept_bi s0 : keep (S := SessionInner chan) s0 clone_accept_bi any.
Proof.
  apply keep_await. intros s s' a T HR HI _ [= <- <-]. split; [|done].
  destruct (accept_bi_tx s); [|by apply step_ok_id].
  apply step_bi_chan; [done|]. by apply chan_all_tx_clone, HI.
Qed.
#[local] Hint Resolve keep_accept_uni_drop keep_accept_bi_drop keep_clone_accept_uni
  keep_clone_accept_bi keep_drop_pair : keep.

Lemma keep_deliver_uni s0 recv : recv_handle_ok recv -> keep s0 (deliver_uni recv) any.
Proof.
  intros Hr. unfold deliver_uni. kgo.
  - apply keep_atomic. intros s T HR HI _. split; [|done].
    pose proof (chan_all_try_send recv_handle_ok recv _ Hr (inv_uni _ _ HI)) as Hc.
    destruct (tx_try_send _ _) as [r c]. by apply step_uni_chan.
  - apply keep_dropping; kgo. apply keep_dropping; kgo.
Qed.

Lemma keep_deliver_bi s0 pair : pair_ok s0 pair -> keep s0 (deliver_bi pair) any.
Proof.
  intros Hp. unfold deliver_bi. kgo.
  - apply keep_atomic. intros s T HR HI _. split; [|done].
    assert (Hps : pair_ok s pair).
    { destruct Hp. split; [by eapply send_handle_ok_evolves|done]. }
    pose proof (chan_all_try_send (pair_ok s) pair _ Hps (inv_bi _ _ HI)) as Hc.
    destruct (tx_try_send _ _) as [r c]. by apply step_bi_chan.
  - apply keep_dropping; kgo. apply keep_dropping; kgo.
Qed.

Lemma keep_peer s0 :
  keep (S := SessionInner chan) s0 (gets peer_is_server) (fun b _ => b = negb (is_server s0)).
Proof. apply keep_gets. intros s s' HR _. unfold peer_is_server. by rewrite (ev_server _ _ HR). Qed.

Lemma keep_validate s0 id :
  sid_ok id -> initiator_is_server id = negb (is_server s0) ->
  keep s0 (validate_peer_stream_id id) any.
Proof.
  intros Hid Hi. apply keep_atomic. intros s T HR HI _. split; [|done].
  rewrite <- (ev_server _ _ HR) in Hi. by destruct (step_validate_peer s T id HI Hid Hi) as (? & ? & _).
Qed.

Lemma keep_handle_open_uni s0 id :
  limits_ok (limits s0) -> sid_ok id -> keep s0 (handle_open_uni id) any.
Proof.
  intros Hl Hid. unfold handle_open_uni. eapply keep_bind; [apply keep_peer|].
  intros peer s HR ->. case_match; [kgo|]. destruct (negb (eqb _ _)) eqn:Einit; [kgo|].
  apply negb_false_iff, eqb_prop in Einit. rewrite <- (ev_server _ _ HR) in Einit.
  apply keep_seq; [by apply keep_validate|]. intros [|]; cbn [negb]; [|kgo].
  eapply keep_bind; [apply keep_try_register; [|done]; by rewrite (ev_limits _ _ HR)|].
  intros [recv|[code reason]|] s1 HR1 Hr; [|by apply keep_protocol_error|done].
  apply keep_deliver_uni. unfold recv_handle_ok. by rewrite Hr.
Qed.

Lemma W_validate T s0 id :
  sid_ok id -> initiator_is_server id = negb (is_server s0) ->
  W T s0 (validate_peer_stream_id id)
    (fun b T' _ => if b : bool then inl id ∈ T' else True).
Proof.
  intros Hid Hi. apply wp_atomic. intros s Fr HR Hd HI _.
  rewrite <- (ev_server _ _ HR) in Hi.
  destruct (step_validate_peer s (T ∪ Fr) id HI Hid Hi) as (HR' & HI' & Hok). split; [done|].
  destruct (validate_peer_locked id s).2.
  - destruct (Hok eq_refl) as [Hnot HI2]. exists ({[inl id]} ∪ T).
    split_and!; [set_solver|by rewrite <- union_assoc_L|set_solver].
  - exists T. split_and!; [set_solver|done|done].
Qed.

(** The identifier accepted by [validate_peer_stream_id] is registered afresh. *)
Lemma safe_handle_open_bi s0 id :
  limits_ok (limits s0) -> sid_ok id -> safe s0 (handle_open_bi id).
Proof.
  intros Hl Hid. unfold handle_open_bi. eapply safe_keep_bind; [apply keep_peer|].
  intros peer s HR ->. case_match; [sgo|]. destruct (negb (eqb _ _)) eqn:Einit; [sgo|].
  apply negb_false_iff, eqb_prop in Einit. rewrite <- (ev_server _ _ HR) in Einit.
  intros T s' HR'. rewrite <- (ev_server _ _ HR') in Einit.
  eapply W_bind; [by apply W_validate|]. intros [|] T1 s1 HR1 Hin; cbn [negb].
  2: { eapply W_of_keep; [apply keep_protocol_error; by apply close_frame_ok|done]. }
  assert (Hlim : limits s1 = limits s0).
  { by rewrite (ev_limits _ _ HR1), (ev_limits _ _ HR'), (ev_limits _ _ HR). }
  eapply (W_keep_bind _ s1); [apply keep_try_register; [by rewrite Hlim|done]|reflexivity|].
  intros [recv|[code reason]|] s2 HR2 Hr; [| |done].
  2: { eapply W_of_keep; [by apply keep_protocol_error|done]. }
  assert (Hrecv : recv_handle_ok recv) by (unfold recv_handle_ok; by rewrite Hr).
  eapply W_bind; [by apply W_register|]. intros [l|err|] T3 s3 HR3; [|intros [-> Herr]|done].
  - intros [-> Hf]. eapply (W_keep_bind _ s3); [apply (keep_SendStream_new s3 id l); [|done|done|]|reflexivity|].
    + by rewrite (ev_limits _ _ HR3), (ev_limits _ _ HR2), Hlim.
    + intros Hloc. unfold is_local in Hloc.
      rewrite (ev_server _ _ HR3), (ev_server _ _ HR2), (ev_server _ _ HR1) in Hloc.
      exfalso. rewrite Hloc in Einit. by destruct (is_server s').
    + intros h s4 HR4 Hh. eapply W_of_keep; [by apply keep_deliver_bi|done].
  - eapply W_of_keep; [apply keep_dropping; [by apply keep_RecvStream_drop|]|done].
    apply keep_protocol_error. by destruct Herr as [-> | ->]; apply close_frame_ok.
Qed.

Lemma keep_handle_stream s0 id data fin : keep s0 (handle_stream id data fin) any.
Proof.
  unfold handle_stream. apply keep_seq; [by apply keep_gets|]. intros limit. case_match; [kgo|].
  eapply (keep_bind _ _ _ (fun r _ => match r with
    | Err reason => frame_ok (ConnectionClose 2 reason) | _ => True end)).
  - apply keep_atomic. intros s T HR HI _. split; [by apply step_account_data; [unfold blen; lia|]|].
    intros _ _. unfold account_data. repeat case_match; simpl in *; simplify_eq; try done;
      by apply close_frame_ok.
  - intros [[l st]|reason|] s HR Hr; [|by apply keep_protocol_error|by apply keep_ret].
    apply keep_dropping; kgo. apply keep_atomic. intros s1 T HR1 HI _. split; [|done].
    unfold try_send_event. destruct (tx_try_send _ _) as [r c].
    apply step_cell; [apply neutral_chan|done].
Qed.

Lemma keep_handle_stop_sending s0 id code :
  sid_ok id -> varint_ok code -> keep s0 (handle_stop_sending id code) any.
Proof.
  intros Hid Hc. unfold handle_stop_sending. eapply keep_bind; [apply keep_remove_send_flow|].
  intros [|] s HR Hr; [|kgo]. eapply keep_any, keep_send_frame, queueable_reset; [done..|]. apply Hr. by left.
Qed.

Lemma varint_u64 x : varint_ok x -> is_u64 x.
Proof. unfold varint_ok, is_u64, u64_mod. change VarInt_MAX with (2 ^ 62 - 1). lia. Qed.

Lemma keep_handle_max_stream_data s0 id max :
  varint_ok max -> keep s0 (handle_max_stream_data id max) any.
Proof.
  intros Hm. unfold handle_max_stream_data. kgo. apply keep_modify. intros s T HI.
  destruct (send_flows s !! id); [|by apply step_ok_id]. apply step_update_max; [by apply varint_u64|done].
Qed.

(** Any frame a peer can encode. *)
Lemma safe_handle_frame s0 f : limits_ok (limits s0) -> frame_ok f -> safe s0 (handle_frame f).
Proof.
  intros Hl Hf. destruct f as [id|id|id data fin|id code|id code|id max|code reason]; cbn [handle_frame].
  - by eapply keep_safe, keep_handle_open_uni.
  - by apply safe_handle_open_bi.
  - eapply keep_safe, keep_handle_stream.
  - unfold handle_reset_stream. sgo.
  - destruct Hf. by eapply keep_safe, keep_handle_stop_sending.
  - destruct Hf. by eapply keep_safe, keep_handle_max_stream_data.
  - sgo.
Qed.
End SessionSpecs.

#[export] Hint Resolve accept_uni_spec accept_bi_spec keep_Session_clone keep_Session_drop
  safe_handle_frame : keep.
