(* ===== verification/NativePool.v ===== *)
(** * The native session under every interleaving

    A session runs its reader and writer tasks together with any number of client
    programs.  A client is any sequence of calls of the public interface, each
    chosen from the results of the earlier ones, on the handles it holds; it may
    be cancelled at every suspension point.  The theorems hold in every state of
    every such execution in which the 64-bit stream counters did not wrap. *)

From S2P Require Import Prelude Buf VarInt Frame Proto Limits SendFlow Channel Async NativeState.
From S2P Require Import NativeOps NativeStream NativeRecv NativeSession NativeTasks Credit NativeInv.
From S2P Require Import NativeSteps Keep NativeSafe NativeSpecs NativeStreamSpecs NativeSendSpecs.
From S2P Require Import NativeSessionSpecs.
Open Scope mux_scope.

(** ** Clients *)
Inductive handle : Set := HSend (h : SendStream) | HRecv (h : RecvStream).

(** The public interface of [Session], [SendStream] and [RecvStream]. *)
Inductive call : Type -> Type :=
| COpenUni : call (result SendStream)
| COpenBi : call (result (SendStream * RecvStream))
| CAcceptUni : call (result RecvStream)
| CAcceptBi : call (result (SendStream * RecvStream))
| CSessionClone : call unit
| CSessionDrop : call unit
| CShutdown : call (result unit)
| CIsClosed : call bool
| CWrite (h : SendStream) (data : list byte) : call (result unit)
| CFinish (h : SendStream) : call (result unit)
| CReset (h : SendStream) (code : Z) : call (result unit)
| CSendClosed (h : SendStream) : call bool
| CSendClone (h : SendStream) : call SendStream
| CSendDrop (h : SendStream) : call unit
| CPollWrite (h : SendStream) (buf : list byte) : call (poll (outcome IoError Z))
| CPollFlush (h : SendStream) : call (poll (outcome IoError unit))
| CPollShutdown (h : SendStream) : call (poll (outcome IoError unit))
| CRead (h : RecvStream) (room : Z) : call (result (option (list byte)))
| CReadChunk (h : RecvStream) (max : Z) : call (result (option (list byte)))
| CPollRead (h : RecvStream) (budget : nat) (room : Z) : call (poll (list byte))
| CStop (h : RecvStream) (code : Z) : call (result unit)
| CRecvClosed (h : RecvStream) : call bool
| CRecvDrop (h : RecvStream) : call unit.

(** The handle a call is made on, and the unsigned arguments it passes. *)
Definition uses {A} (c : call A) : list handle :=
  match c with
  | CWrite h _ | CFinish h | CReset h _ | CSendClosed h | CSendClone h | CSendDrop h
  | CPollWrite h _ | CPollFlush h | CPollShutdown h => [HSend h]
  | CRead h _ | CReadChunk h _ | CPollRead h _ _ | CStop h _ | CRecvClosed h | CRecvDrop h => [HRecv h]
  | _ => []
  end.
Definition args_ok {A} (c : call A) : Prop :=
  match c with
  | CReset _ n | CRead _ n | CReadChunk _ n | CPollRead _ _ n | CStop _ n => 0 <= n
  | _ => True
  end.

(** The handles a call returns. *)
Definition returns {A} (c : call A) : A -> list handle :=
  match c in call A return A -> list handle with
  | COpenUni => fun r => match r with Ok h => [HSend h] | _ => [] end
  | COpenBi | CAcceptBi => fun r => match r with Ok (h, r) => [HSend h; HRecv r] | _ => [] end
  | CAcceptUni => fun r => match r with Ok h => [HRecv h] | _ => [] end
  | CSendClone _ => fun h => [HSend h]
  | _ => fun _ => []
  end.

Section Pool.
Context {chan : Type -> Type} `{MpscLaws chan} `{!MapOrder} `{!MapOrderLaws} `{!UsizeWidth}.
Implicit Types (s : SessionInner chan) (T : gset tok) (id : StreamId).

Abbreviation W := (wp (S := SessionInner chan) sh_inv sh_ev sh_pre).

Definition denote {A} (c : call A) : nprog chan A :=
  match c in call A return nprog chan A with
  | COpenUni => open_uni
  | COpenBi => open_bi
  | CAcceptUni => accept_uni
  | CAcceptBi => accept_bi
  | CSessionClone => Session_clone
  | CSessionDrop => Session_drop
  | CShutdown => shutdown
  | CIsClosed => is_closed
  | CWrite h data => write_buf h data
  | CFinish h => finish h
  | CReset h code => reset h code
  | CSendClosed h => SendStream_closed h
  | CSendClone h => SendStream_clone h
  | CSendDrop h => SendStream_drop h
  | CPollWrite h buf => poll_write h buf
  | CPollFlush h => poll_flush h
  | CPollShutdown h => poll_shutdown h
  | CRead h room => read h room
  | CReadChunk h max => read_chunk h max
  | CPollRead h budget room => poll_read h budget room
  | CStop h code => stop h code
  | CRecvClosed h => RecvStream_closed h
  | CRecvDrop h => RecvStream_drop h
  end.

Definition handle_ok s (h : handle) : Prop :=
  match h with HSend h => send_handle_ok s h | HRecv h => recv_handle_ok h end.

(** [client hs p]: [p] only makes calls on the handles [hs] and on those it gets. *)
Inductive client : list handle -> nprog chan unit -> Prop :=
| cl_done hs : client hs (Ret tt)
| cl_call {A} (c : call A) hs k :
    (forall h, h ∈ uses c -> h ∈ hs) -> args_ok c ->
    (forall a, client (returns c a ++ hs) (k a)) ->
    client hs (pbind (denote c) k).

(** What may be started: the two tasks, a client, a tick of the clock. *)
Inductive native_api s : nprog chan unit -> Prop :=
| api_client hs p : Forall (handle_ok s) hs -> client hs p -> native_api s p
| api_inbound items : native_api s (inbound_task items)
| api_outbound sink sink_flush prefer rounds :
    native_api s (outbound_task sink sink_flush prefer rounds)
| api_tick n : native_api s (modify (set_now n)).

(** ** Every call and task is safe *)
Lemma handles_later s s' hs : evolves s s' -> Forall (handle_ok s) hs -> Forall (handle_ok s') hs.
Proof.
  intros HR Hhs. eapply Forall_impl; [done|]. intros [h|h]; simpl; [|done]. by apply send_handle_ok_evolves.
Qed.

Lemma safe_shutdown s0 : safe (S := SessionInner chan) s0 shutdown.
Proof.
  unfold shutdown, complete_or_abort.
  assert (Hw : forall s, safe (S := SessionInner chan) s wait_for_tasks).
  { intros s. eapply keep_safe, (keep_await _ _ any). intros s1 s2 a T HR HI _ Hs. split; [|done].
    case_match; simplify_eq. by apply step_ok_id. }
  assert (Hh : forall s, safe (S := SessionInner chan) s shutdown_handshake).
  { intros s. unfold shutdown_handshake. apply safe_bind.
    - eapply keep_safe, (keep_await _ _ any). intros s1 s2 a T HR HI _ Hs. split; [|done].
      pose proof (chan_all_reserve _ _ (inv_out _ _ HI)) as Hc. cbv zeta in Hs.
      destruct (tx_reserve (outbound s1)) as [[] c]; simplify_eq; [|by apply step_outbound].
      destruct (step_outbound s1 T (permit_send (CmdShutdown (length (acks s1))) c)) as [HR1 HI1];
        [done|by apply chan_all_permit_send|].
      destruct (step_set_acks (acks s1 ++ [AckPending]) _ _ HI1). split; [by etrans|done].
    - intros [ack|] s1 _; [|sgo]. apply safe_bind; [|intros ? ? ?; sgo; apply Hw].
      eapply keep_safe, (keep_await _ _ any). intros s2 s3 a T HR HI _ Hs. split; [|done].
      repeat case_match; simplify_eq; by apply step_ok_id. }
  apply safe_with_drop; [by eapply keep_safe, keep_request_shutdown|].
  sgo; try apply Hw; try apply Hh.
  eapply keep_safe, (keep_atomic _ _ any). intros s2 T HR HI _. split; [|done].
  by apply step_set_shutdown_started.
Qed.

Lemma W_safe {A} T s (p : nprog chan A) (Q : A -> gset tok -> SessionInner chan -> Prop) :
  safe s p -> (forall a T s, Q a T s) -> W T s p Q.
Proof. intros Hp HQ. eapply W_mono; [exact (Hp T s ltac:(reflexivity))|]. auto. Qed.

Lemma call_spec {A} (c : call A) T s :
  limits_ok (limits s) -> Forall (handle_ok s) (uses c) -> args_ok c ->
  W T s (denote c) (fun a _ s' => Forall (handle_ok s') (returns c a)).
Proof.
  intros Hl Hu Ha. destruct c; cbn [uses args_ok denote returns] in *;
    rewrite ?Forall_singleton in Hu; cbn [handle_ok] in Hu;
    try (apply W_safe; [|by constructor];
         first [apply safe_shutdown | sgo; fail | apply (keep_safe _ _ any); by apply keep_gets]).
  - eapply W_mono; [by apply open_uni_spec|]. by intros [h| |] _ s' _ Hh; [apply Forall_singleton|..].
  - eapply W_mono; [by apply open_bi_spec|]. intros [[h r]| |] _ s' _ Hh; [|done..].
    by rewrite Forall_cons, Forall_singleton.
  - eapply W_of_keep; [apply accept_uni_spec|]. by intros [h| |] s' _ Hh; [apply Forall_singleton|..].
  - eapply W_of_keep; [apply accept_bi_spec|]. intros [[h r]| |] s' _ Hh; [|done..].
    by rewrite Forall_cons, Forall_singleton.
  - eapply W_of_keep; [by apply keep_SendStream_clone|]. intros h' s' _ Hh. by apply Forall_singleton.
Qed.

Lemma client_safe hs p : client hs p -> forall s0,
  limits_ok (limits s0) -> Forall (handle_ok s0) hs -> safe s0 p.
Proof.
  induction 1 as [hs|A c hs k Hu Ha _ IH]; intros s0 Hl Hhs; [done|]. intros T s HR.
  assert (Hls : limits_ok (limits s)) by (by rewrite (ev_limits _ _ HR)).
  pose proof (handles_later _ _ _ HR Hhs) as Hhs'.
  eapply W_bind.
  - apply (call_spec c T s); [done| |done]. apply Forall_forall. intros h Hh.
    eapply Forall_forall; [exact Hhs'|]. by apply Hu.
  - intros a T' s' HR' Hret. apply (IH a s'); [by rewrite (ev_limits _ _ HR')| |reflexivity].
    apply Forall_app. split; [done|]. by eapply handles_later.
Qed.

(** ** The tasks *)
Lemma safe_inbound_frames fuel : forall cursor s0,
  62 <= usize_bits -> limits_ok (limits s0) -> safe s0 (inbound_frames fuel cursor).
Proof.
  induction fuel as [|fuel IH]; intros cursor s0 Hw Hl; cbn [inbound_frames];
    destruct (has_remaining cursor); [sgo..| |sgo].
  destruct (Frame_decode cursor) as [[f rest]| |] eqn:Ed; [|sgo..].
  destruct (Frame_decode_inv cursor f rest Hw Ed) as (bs & _ & Hwire).
  apply safe_bind; [apply safe_handle_frame; [done|by eapply frame_wire_ok]|].
  intros r s HR. destruct (is_ok r); [|sgo]. apply IH; [done|]. by rewrite (ev_limits _ _ HR).
Qed.

Lemma safe_inbound_message m s0 :
  62 <= usize_bits -> limits_ok (limits s0) -> safe s0 (inbound_message m).
Proof.
  intros Hw Hl. destruct m as [t|data|p|p| |]; cbn [inbound_message]; [sgo| | |sgo| |sgo].
  - unfold inbound_binary. apply safe_bind; [sgo|]. intros max s HR. case_match; [sgo|].
    apply safe_inbound_frames; [done|]. by rewrite (ev_limits _ _ HR).
  - eapply keep_safe, (keep_atomic _ _ any). intros s T HR HI _. split; [|done].
    apply step_outbound; [done|]. apply chan_all_try_send; [done|apply HI].
  - unfold inbound_close. sgo. eapply keep_safe, (keep_await _ _ any).
    intros x y b T HR HI _ Hs. split; [|done]. case_match; simplify_eq. by apply step_ok_id.
Qed.

Lemma safe_inbound_work items : forall s0,
  62 <= usize_bits -> limits_ok (limits s0) -> safe s0 (inbound_work items).
Proof.
  induction items as [|m items IH]; intros s0 Hw Hl; cbn [inbound_work];
    (apply safe_bind;
     [eapply keep_safe, (keep_await _ _ any); intros s1 s2 a T HR HI _ [= <- <-];
      split; [by apply step_ok_id|done]
     |]); intros stop s HR; [sgo|].
  destruct stop; [sgo|]. destruct m as [m|]; [|sgo].
  apply safe_bind; [apply safe_inbound_message; [done|by rewrite (ev_limits _ _ HR)]|].
  intros [|] s1 HR1; [|sgo]. apply IH; [done|].
  by rewrite (ev_limits _ _ HR1), (ev_limits _ _ HR).
Qed.

Lemma safe_task_finished s0 : safe (S := SessionInner chan) s0 task_finished.
Proof.
  unfold task_finished. sgo. eapply keep_safe, keep_modify. intros x T HI. by apply step_set_active_tasks.
Qed.

Lemma safe_sink_send sink m s0 : safe (S := SessionInner chan) s0 (sink_send sink m).
Proof.
  eapply keep_safe, (keep_await _ _ any). intros s1 s2 a T HR HI _ Hs. split; [|done].
  case_match; simplify_eq; [by apply step_set_wire|by apply step_ok_id..].
Qed.

Lemma safe_flush_batch sink w s0 : safe (S := SessionInner chan) s0 (flush_batch sink w).
Proof. unfold flush_batch. case_match; [sgo|apply safe_sink_send]. Qed.

Lemma safe_acks s0 f : safe (S := SessionInner chan) s0 (modify (fun s => set_acks (f s) s)).
Proof. eapply keep_safe, keep_modify. intros s T HI. by apply step_set_acks. Qed.

Lemma safe_write_cmd sink sink_flush w cmd s0 :
  safe (S := SessionInner chan) s0 (write_cmd sink sink_flush w cmd).
Proof.
  destruct cmd as [f|m|ack|ack]; cbn [write_cmd]; unfold write_frame; sgo;
    first [apply safe_flush_batch | apply safe_sink_send | apply safe_acks | idtac].
  eapply keep_safe, (keep_await _ _ any). intros x y b T HR HI _ [= <- <-].
  split; [by apply step_ok_id|done].
Qed.

Lemma safe_next_event prefer cs s0 : safe s0 (await (next_event prefer cs)).
Proof.
  eapply keep_safe, (keep_await _ _ any). intros s s' a T HR HI _ Hs. split; [|done].
  unfold next_event in Hs.
  destruct (peer_close_notify s); [simplify_eq; by apply step_set_peer_close_notify|].
  destruct (cancel s); [simplify_eq; by apply step_ok_id|].
  assert (Hcredit : forall id, evolves s (set_pending_credit (delete id (pending_credit s)) s)
    /\ inv (set_pending_credit (delete id (pending_credit s)) s) T)
    by (intros id; by apply (step_delete_credit id)).
  assert (Hqueue : evolves s (set_outbound (rx_recv (outbound s)).2 s)
    /\ inv (set_outbound (rx_recv (outbound s)).2 s) T).
  { apply step_outbound; [done|]. by apply chan_all_recv, HI. }
  destruct (rx_recv (outbound s)) as [[cmd| |] c], cs, (first_entry (pending_credit s)) as [[id mx]|],
    prefer; simplify_eq; try done; apply Hcredit.
Qed.

Lemma safe_writer_loop sink sink_flush prefer rounds : forall w s0,
  safe s0 (writer_loop sink sink_flush prefer rounds w).
Proof.
  induction rounds as [|rounds IH]; intros w s0; cbn [writer_loop]; [sgo|].
  apply safe_bind; [apply safe_next_event|]. intros [| |[cmd|]] s HR;
    [sgo; apply safe_sink_send| | |]; try (sgo; [apply safe_flush_batch|apply safe_sink_send]).
  apply safe_bind; [apply safe_write_cmd|]. intros [w'|] s1 _; [apply IH|sgo].
Qed.

Lemma api_safe s T p :
  62 <= usize_bits -> inv s T -> native_api s p -> safe s p.
Proof.
  intros Hw HI [hs q Hhs Hc|items|sink sf prefer rounds|n].
  - eapply client_safe; [done|apply HI|done].
  - unfold inbound_task. apply safe_bind; [|intros; apply safe_task_finished].
    apply safe_select_stop, safe_inbound_work; [done|apply HI].
  - unfold outbound_task. apply safe_bind; [apply safe_select_stop, safe_writer_loop|].
    intros _ s1 _. apply safe_bind; [|intros; apply safe_task_finished].
    eapply keep_safe, keep_modify. intros s2 T2 HI2.
    pose proof (chan_all_rx_drop (cmd_ok (limits s2)) (outbound s2)) as Hc.
    destruct (rx_drop (outbound s2)) as [cmds c]. destruct (step_outbound s2 T2 c HI2 Hc) as [HR1 HI1].
    destruct (step_set_acks (foldr drop_ack (acks s2) cmds) _ _ HI1). split; [by etrans|done].
  - eapply keep_safe, keep_modify, step_set_now.
Qed.

(** ** The invariant of every execution *)
Lemma inv_init server l : limits_ok l -> inv (chan := chan) (SessionInner_new server l
    (channel (outbound_queue_len l)) (channel (accept_uni_queue_len l))
    (channel (accept_bi_queue_len l))) ∅.
Proof.
  intros Hl. destruct Hl. constructor; simpl; try done; try apply chan_all_channel.
  - rewrite map_size_empty. lia.
  - rewrite map_size_empty. lia.
  - by intros id [[? ?]|?].
  - by intros id code ?%elem_of_nil.
Qed.

Lemma native_reach_inv server l s0 c :
  62 < usize_bits -> limits_usize l -> Session_new server l = Ok s0 ->
  pool_reach native_api no_wrap s0 c ->
  limits c.1 = l /\ is_server c.1 = server /\ evolves s0 c.1 /\ exists T, inv c.1 T.
Proof.
  intros Hw Hu Hnew Hr. unfold Session_new in Hnew.
  destruct (Limits_validate l) as [[]| |] eqn:Ev; [|done..]. cbn in Hnew. injection Hnew as <-.
  pose proof (Limits_validate_ok l Hw Hu Ev) as Hl.
  assert (Hapi : forall s T p, inv s T -> native_api s p -> W ∅ s p (fun _ _ _ => True)).
  { intros s T p HI Hp. exact (api_safe s T p ltac:(lia) HI Hp ∅ s ltac:(reflexivity)). }
  destruct (pool_invariant inv evolves no_wrap native_api _ c Hapi (inv_init server l Hl) Hr) as [HR HI].
  split_and!; [exact (ev_limits _ _ HR)|exact (ev_server _ _ HR)|done|done].
Qed.
End Pool.
