(* ===== verification/NativeProps.v ===== *)
(** * The native session: properties of every execution *)

From S2P Require Import Prelude Buf VarInt Frame Proto Limits SendFlow Channel Async NativeState.
From S2P Require Import NativeOps NativeStream NativeRecv NativeSession NativeTasks Credit NativeInv.
From S2P Require Import NativeSteps Keep NativeSafe NativeSpecs NativeStreamSpecs NativeSendSpecs.
From S2P Require Import NativeSessionSpecs NativePool.
Open Scope mux_scope.

Section Properties.
Context {chan : Type -> Type} `{MpscLaws chan} `{!MapOrder} `{!MapOrderLaws} `{!UsizeWidth}.
Context (server : bool) (l : Limits) (s0 : SessionInner chan).
Context (Hwidth : 62 < usize_bits) (Husize : limits_usize l).
Context (Hnew : Session_new server l = Ok s0).

(** C7: whatever clients, peer and scheduler do, the payload bytes ever queued on a
    stream are covered by the credit its flow has taken, which stays within the
    largest limit the peer granted; the 64-bit counters do not wrap. *)
Theorem native_send_credit s ths id k :
  pool_reach native_api no_wrap s0 (s, ths) -> flow_of s !! id = Some k ->
  exists fl, flows s !! k = Some fl
    /\ 0 <= logged id (out_log s) <= flow_sent fl /\ flow_sent fl <= flow_max fl < u64_mod.
Proof.
  intros Hr Hk. destruct (native_reach_inv server l s0 _ Hwidth Husize Hnew Hr) as (_ & _ & _ & T & HI).
  simpl in HI. destruct (inv_accounts _ _ HI id k Hk) as (fl & Hfl & Hsent & Hmax). exists fl.
  pose proof (logged_nonneg id (out_log s)). pose proof (held_nonneg id T (inv_tok _ _ HI)).
  split_and!; [done|lia..].
Qed.

(** C15: the tables of a session stay within the configured number of streams: the
    open send directions, and the credit updates waiting for the writer. *)
Theorem native_resource_bounds s ths :
  pool_reach native_api no_wrap s0 (s, ths) ->
  Z.of_nat (size (send_flows s)) <= max_open_streams l
  /\ Z.of_nat (size (pending_credit s)) <= max_open_streams l.
Proof.
  intros Hr. destruct (native_reach_inv server l s0 _ Hwidth Husize Hnew Hr) as (<- & _ & _ & T & HI).
  split; apply HI.
Qed.

(** C9: no receive stream ever accounts for more bytes than the limit it advertised,
    and an advertised limit is always a valid varint. *)
Theorem native_receive_window s ths id st :
  pool_reach native_api no_wrap s0 (s, ths) -> streams s !! id = Some st ->
  exists c, recv_cells s !! recv_cell st = Some c
    /\ 0 <= received st <= rc_max_data c /\ rc_max_data c <= VarInt_MAX.
Proof.
  intros Hr Hst. destruct (native_reach_inv server l s0 _ Hwidth Husize Hnew Hr) as (_ & _ & _ & T & HI).
  destruct (inv_streams _ _ HI id st Hst) as (_ & c & Hc & Hrecv). exists c.
  destruct (Forall_lookup_1 _ _ _ _ (inv_cells _ _ HI) Hc) as (_ & ? & _). split_and!; [done|lia..].
Qed.

(** C8: in the order in which frames are queued, no stream data follows a reset of
    its stream, and data of a locally opened stream follows its OPEN. *)
Theorem native_frame_order s ths :
  pool_reach native_api no_wrap s0 (s, ths) ->
  reset_final (out_log s) /\ opened_first server (out_log s).
Proof.
  intros Hr. destruct (native_reach_inv server l s0 _ Hwidth Husize Hnew Hr) as (_ & <- & _ & T & HI).
  split; apply HI.
Qed.

(** C20: every frame a session queues, and every credit update it holds for the
    writer, encodes without panicking, and a stream frame fits one batch. *)
Theorem native_frames_encodable s ths f :
  pool_reach native_api no_wrap s0 (s, ths) ->
  f ∈ out_log s \/ (exists id max, f = MaxStreamData id max /\ pending_credit s !! id = Some max)
    \/ CmdFrame f ∈ cv_buf (view (outbound s)) ->
  Frame_encode f = Ok (frame_bytes f)
  /\ match f with Stream _ _ _ => blen (frame_bytes f) <= max_batch_bytes l | _ => True end.
Proof.
  intros Hr Hf. destruct (native_reach_inv server l s0 _ Hwidth Husize Hnew Hr) as (<- & _ & _ & T & HI).
  assert (Hs : sendable (limits s) f).
  { destruct Hf as [Hf|[(id & max & -> & Hf)|Hf]].
    - eapply Forall_forall; [apply HI|done].
    - by destruct (inv_credit _ _ HI id max Hf).
    - pose proof (inv_out _ _ HI) as Ho. unfold chan_all in Ho. rewrite Forall_forall in Ho.
      exact (Ho _ Hf). }
  destruct Hs as [Hok Hlen]. destruct (Frame_encode_bytes f Hok) as (bs & Henc & Hbs). split.
  - rewrite Henc. simpl in Hbs. by rewrite <- Hbs.
  - destruct f; try done. destruct (inv_limits _ _ HI).
    pose proof (stream_frame_overhead id data fin). simpl in *. lia.
Qed.
End Properties.

(** ** A concrete execution

    A client opens a stream, writes to it, finishes and drops it, while the reader
    receives a credit update and the writer empties the queue. *)
#[local] Existing Instance list_order.
#[local] Existing Instance usize64.

Definition demo_start : SessionInner cview :=
  SessionInner_new false Limits_default (channel 256) (channel 128) (channel 128).

Definition demo_client : nprog cview unit :=
  let* r := denote COpenUni in
  match r with
  | Ok h =>
      let* _ := denote (CWrite h (as_bytes "hello")) in
      let* _ := denote (CFinish h) in
      let* _ := denote (CSendDrop h) in
      Ret tt
  | _ => Ret tt
  end.

Definition demo_pool : list (nprog cview unit) :=
  [demo_client;
   inbound_task [Some (WsBinary (frame_bytes (MaxStreamData (mkStreamId 2) 10)));
                 Some (WsBinary (frame_bytes (OpenBi (mkStreamId 1))
                                 ++ frame_bytes (Stream (mkStreamId 1) (as_bytes "abc") false)))];
   outbound_task (fun _ _ => Ok tt) (fun _ => Ok tt) (fun _ => false) 20].

Definition demo_schedule : list choice :=
  replicate 9 (Step 0) ++ replicate 24 (Step 1) ++ replicate 15 (Step 0) ++ replicate 9 (Step 2).

Definition no_wrapb (s : SessionInner cview) : bool :=
  (next_uni s + 1 <? u64_mod) && (next_bi s + 1 <? u64_mod).

Definition demo_end : SessionInner cview * list (nprog cview unit) :=
  exec no_wrapb demo_schedule (demo_start, demo_pool).

Lemma demo_client_ok : client [] demo_client.
Proof.
  apply (cl_call COpenUni); [by intros h ?%elem_of_nil|done|]. intros [h| |]; [|constructor..].
  apply (cl_call (CWrite h _)); [set_solver|done|]. intros ?.
  apply (cl_call (CFinish h)); [set_solver|done|]. intros ?.
  apply (cl_call (CSendDrop h)); [set_solver|done|]. intros ?. constructor.
Qed.

Lemma no_wrapb_spec s : no_wrapb s = true -> no_wrap s.
Proof. unfold no_wrapb, no_wrap. lia. Qed.

Lemma demo_reach : pool_reach native_api no_wrap demo_start (demo_end.1, demo_end.2).
Proof.
  rewrite <- surjective_pairing.
  apply (exec_reach native_api no_wrap no_wrapb); [apply no_wrapb_spec|].
  apply spawn_reach; [by vm_compute|]. repeat apply Forall_cons_2; [..|apply Forall_nil_2].
  - apply (api_client _ []); [by constructor|apply demo_client_ok].
  - apply api_inbound.
  - apply api_outbound.
Qed.

Lemma demo_new : Session_new (chan := cview) false Limits_default = Ok demo_start.
Proof. vm_compute. reflexivity. Qed.

Lemma native_send_credit_witness :
  out_log demo_end.1 = [OpenUni (mkStreamId 2); MaxStreamData (mkStreamId 1) (512 * 1024);
    Stream (mkStreamId 2) (as_bytes "hello") false]
  /\ exists fl, flows demo_end.1 !! 0%nat = Some fl
    /\ 0 <= logged (mkStreamId 2) (out_log demo_end.1) <= flow_sent fl
    /\ flow_sent fl <= flow_max fl < u64_mod.
Proof.
  split; [vm_compute; reflexivity|].
  apply (native_send_credit false Limits_default demo_start) with (ths := demo_end.2) (k := 0%nat).
  - reflexivity.
  - apply limits_usize_default.
  - exact demo_new.
  - exact demo_reach.
  - vm_compute. reflexivity.
Defined.

Lemma native_resource_bounds_witness :
  Z.of_nat (size (send_flows demo_end.1)) <= 1024
  /\ Z.of_nat (size (pending_credit demo_end.1)) <= 1024.
Proof.
  apply (native_resource_bounds false Limits_default demo_start) with (ths := demo_end.2).
  - reflexivity.
  - apply limits_usize_default.
  - exact demo_new.
  - exact demo_reach.
Defined.

Lemma native_receive_window_witness :
  exists c, recv_cells demo_end.1 !! 0%nat = Some c
    /\ 0 <= 3 <= rc_max_data c /\ rc_max_data c <= VarInt_MAX.
Proof.
  apply (native_receive_window false Limits_default demo_start)
    with (ths := demo_end.2) (id := mkStreamId 1) (st := mkRecvState false 0 3).
  - reflexivity.
  - apply limits_usize_default.
  - exact demo_new.
  - exact demo_reach.
  - vm_compute. reflexivity.
Defined.

Lemma native_frame_order_witness :
  reset_final (out_log demo_end.1) /\ opened_first false (out_log demo_end.1).
Proof.
  apply (native_frame_order false Limits_default demo_start) with (ths := demo_end.2).
  - reflexivity.
  - apply limits_usize_default.
  - exact demo_new.
  - exact demo_reach.
Defined.

Lemma native_frames_encodable_witness :
  let f := Stream (mkStreamId 2) (as_bytes "hello") false in
  Frame_encode f = Ok (frame_bytes f) /\ blen (frame_bytes f) <= max_batch_bytes Limits_default.
Proof.
  apply (native_frames_encodable false Limits_default demo_start)
    with (s := demo_end.1) (ths := demo_end.2) (f := Stream (mkStreamId 2) (as_bytes "hello") false).
  - reflexivity.
  - apply limits_usize_default.
  - exact demo_new.
  - exact demo_reach.
  - left. apply (list_elem_of_lookup_2 _ 2). vm_compute. reflexivity.
Defined.
