(* ===== verification/NativeRaces.v ===== *)
(** * The native session: three races

    Executions of the model in which two threads of a client interleave badly.
    Each is a schedule of the pool of [NativePool], evaluated. *)

From S2P Require Import Prelude Buf VarInt Frame Proto Limits SendFlow Channel Async NativeState.
From S2P Require Import NativeOps NativeStream NativeRecv NativeSession NativeTasks Credit NativeInv.
From S2P Require Import NativeSteps Keep NativeSafe NativeSpecs NativeStreamSpecs NativeSendSpecs.
From S2P Require Import NativeSessionSpecs NativePool NativeProps.
Open Scope mux_scope.

#[local] Existing Instance list_order.
#[local] Existing Instance usize64.

(** A client that makes one call. *)
Definition once {A} (c : call A) : nprog cview unit := let* _ := denote c in Ret tt.

Lemma once_client {A} (c : call A) : args_ok c -> client (uses c) (once c).
Proof. intros Ha. apply (cl_call c); [done|done|]. intros a. constructor. Qed.

Lemma once_api {A} s (c : call A) :
  Forall (handle_ok s) (uses c) -> args_ok c -> native_api s (once c).
Proof. intros Hh Ha. eapply api_client; [done|by apply once_client]. Qed.

(** ** Two concurrent [open_uni] *)
Definition open_race : SessionInner cview * list (nprog cview unit) :=
  exec no_wrapb ([Step 0] ++ replicate 8 (Step 1) ++ replicate 8 (Step 0))
    (demo_start, [once COpenUni; once COpenUni]).

Definition server_start : SessionInner cview :=
  SessionInner_new true Limits_default (channel 256) (channel 128) (channel 128).

(** C37: two tasks that open streams at the same time can queue the OPEN frames in
    the reverse order of their identifiers, because an identifier is allocated and
    its OPEN queued in separate steps; a conforming peer accepts the first and
    closes the connection on the second with "OpenUni with non-monotonic StreamId". *)
Theorem concurrent_open_reorders :
  exists c, pool_reach native_api no_wrap demo_start c
    /\ out_log c.1 = [OpenUni (mkStreamId 6); OpenUni (mkStreamId 2)]
    /\ let peer := run (handle_frame (OpenUni (mkStreamId 6))) server_start in
       peer.2 = Some (Ok tt)
       /\ let r := run (handle_frame (OpenUni (mkStreamId 2))) peer.1 in
          r.2 = Some (Err (Protocol "OpenUni with non-monotonic StreamId")) /\ closed r.1 = true.
Proof.
  exists open_race. split; [|vm_compute; repeat split; reflexivity].
  apply exec_reach; [apply no_wrapb_spec|]. apply spawn_reach; [by vm_compute|].
  repeat apply Forall_cons_2; [..|apply Forall_nil_2]; by apply once_api.
Qed.

(** ** Dropping two clones *)
Definition clone_client : nprog cview unit :=
  let* r := denote COpenUni in
  match r with
  | Ok h => let* _ := denote (CSendClone h) in let* _ := denote (CSendDrop h) in Ret tt
  | _ => Ret tt
  end.

Lemma clone_client_ok : client [] clone_client.
Proof.
  apply (cl_call COpenUni); [by intros h ?%elem_of_nil|done|]. intros [h| |]; [|constructor..].
  apply (cl_call (CSendClone h)); [set_solver|done|]. intros ?.
  apply (cl_call (CSendDrop h)); [set_solver|done|]. intros ?. constructor.
Qed.

(** After [open_uni] and [clone]; the clone is handed to another thread. *)
Definition cloned : SessionInner cview * list (nprog cview unit) :=
  exec no_wrapb (replicate 9 (Step 0)) (demo_start, [clone_client]).
Definition first_handle : SendStream := mkSendStream (mkStreamId 2) 0 0 0.
Definition second_handle : SendStream := mkSendStream (mkStreamId 2) 0 0 1.

Lemma limits_ok_default : limits_ok Limits_default.
Proof. constructor; vm_compute; repeat split; congruence. Qed.

Lemma handle_ok_opened s h :
  limits s = Limits_default -> ss_id h = mkStreamId 2 ->
  flow_of s !! mkStreamId 2 = Some (ss_flow h) -> OpenUni (mkStreamId 2) ∈ out_log s ->
  handle_ok (chan := cview) s (HSend h).
Proof.
  intros Hl Hid Hf Ho. unfold handle_ok, send_handle_ok. rewrite Hl, Hid.
  split_and!; [apply limits_ok_default|by vm_compute|done|]. apply opened_by_log. by left.
Qed.

Lemma cloned_reach : pool_reach native_api no_wrap demo_start cloned.
Proof.
  apply exec_reach; [apply no_wrapb_spec|]. apply spawn_reach; [by vm_compute|].
  apply Forall_singleton. apply (api_client _ []); [by constructor|apply clone_client_ok].
Qed.

Definition drop_race : SessionInner cview * list (nprog cview unit) :=
  exec no_wrapb ([Step 0; Step 1] ++ replicate 9 (Step 0) ++ replicate 9 (Step 1))
    (cloned.1, cloned.2 ++ [once (CSendDrop second_handle)]).

(** C38: when the last two clones of an unfinished send stream are dropped at the same
    time, both destructors can read a reference count of two before either
    decrements it; then neither resets the stream: the peer gets no terminal frame,
    the flow stays registered, and the session is not aborted either. *)
Theorem concurrent_drop_leaks :
  exists c, pool_reach native_api no_wrap demo_start c
    /\ strong_count (shared_of c.1 second_handle) = 0
    /\ out_log c.1 = [OpenUni (mkStreamId 2)]
    /\ send_flows c.1 !! mkStreamId 2 = Some 0%nat
    /\ finished (shared_of c.1 second_handle) = false
    /\ shutdown_started c.1 = false /\ cancel c.1 = false.
Proof.
  exists drop_race. split_and!; [|vm_compute; reflexivity..].
  apply exec_reach; [apply no_wrapb_spec|].
  eapply pr_step; [exact cloned_reach|by vm_compute|]. rewrite (surjective_pairing cloned) at 1.
  apply ps_spawn. apply once_api; [|done]. apply Forall_singleton.
  apply handle_ok_opened; [vm_compute; reflexivity..|].
  apply (list_elem_of_lookup_2 _ 0). vm_compute. reflexivity.
Qed.

(** ** Shutting down one clone while the other writes *)
Definition credit_client : nprog cview unit := let* r := denote COpenUni in
  match r with
  | Ok h => let* _ := denote (CSendClone h) in let* _ := denote (CPollShutdown h) in Ret tt
  | _ => Ret tt
  end.

Lemma credit_client_ok : client [] credit_client.
Proof.
  apply (cl_call COpenUni); [by intros h ?%elem_of_nil|done|]. intros [h| |]; [|constructor..].
  apply (cl_call (CSendClone h)); [set_solver|done|]. intros ?.
  apply (cl_call (CPollShutdown h)); [set_solver|done|]. intros ?. constructor.
Qed.

Definition credited : SessionInner cview * list (nprog cview unit) :=
  exec no_wrapb (replicate 9 (Step 0) ++ replicate 4 (Step 1))
    (demo_start, [credit_client;
       inbound_task [Some (WsBinary (frame_bytes (MaxStreamData (mkStreamId 2) 10)))]]).

Lemma credited_reach : pool_reach native_api no_wrap demo_start credited.
Proof.
  apply exec_reach; [apply no_wrapb_spec|]. apply spawn_reach; [by vm_compute|].
  repeat apply Forall_cons_2; [| |apply Forall_nil_2]; [|apply api_inbound].
  apply (api_client _ []); [by constructor|apply credit_client_ok].
Qed.

Definition fin_race : SessionInner cview * list (nprog cview unit) :=
  exec no_wrapb (replicate 9 (Step 0) ++ replicate 14 (Step 2) ++ replicate 9 (Step 0))
    (credited.1, credited.2 ++ [once (CPollWrite second_handle (as_bytes "late"))]).

(** C39: [poll_shutdown] queues FIN without holding the guard that serialises send
    operations, and marks the stream finished only afterwards; a [poll_write] of a
    clone that runs in between queues data after the FIN. *)
Theorem shutdown_write_race :
  exists c, pool_reach native_api no_wrap demo_start c
    /\ out_log c.1 = [OpenUni (mkStreamId 2); Stream (mkStreamId 2) [] true;
                      Stream (mkStreamId 2) (as_bytes "late") false].
Proof.
  exists fin_race. split; [|vm_compute; reflexivity].
  apply exec_reach; [apply no_wrapb_spec|].
  eapply pr_step; [exact credited_reach|by vm_compute|]. rewrite (surjective_pairing credited) at 1.
  apply ps_spawn. apply once_api; [|done]. apply Forall_singleton.
  apply handle_ok_opened; [vm_compute; reflexivity..|].
  apply (list_elem_of_lookup_2 _ 0). vm_compute. reflexivity.
Qed.
