(* ===== verification/FuturesChannel.v ===== *)
(** * Bounded channels of [futures_channel::mpsc]

    The browser transport uses the channels of the [futures] crates, which are not
    part of the repository.  [FMpsc] is the interface the sources call; every
    sender has an identity, because whether [try_send] reports a full channel
    depends on the sender (each has one slot of its own besides the [buffer] shared
    ones).  [FMpscLaws] states the documented behaviour on the observable state
    [fview].  The instance at the end is a reference implementation. *)

From S2P Require Import Prelude Channel.

Record fview (A : Type) : Type := mkFview {
  fv_buffer : Z;       (** the shared slots *)
  fv_buf : list A;     (** queued messages, oldest first *)
  fv_closed : bool;    (** closed by [close_channel] or by dropping the receiver *)
  fv_senders : Z       (** live senders *)
}.
Arguments mkFview {A}.
Arguments fv_buffer {A}.
Arguments fv_buf {A}.
Arguments fv_closed {A}.
Arguments fv_senders {A}.

Class FMpsc (fchan : Type -> Type) : Type := {
  f_channel : forall {A}, Z -> fchan A;
  f_clone : forall {A}, fchan A -> nat * fchan A;
  f_drop : forall {A}, nat -> fchan A -> fchan A;
  f_try_send : forall {A}, nat -> A -> fchan A -> try_send_res * fchan A;
  (** [poll_ready]: [None] while the sender must wait, [Some false] when closed *)
  f_poll_ready : forall {A}, nat -> fchan A -> option bool * fchan A;
  f_start_send : forall {A}, nat -> A -> fchan A -> bool * fchan A;
  f_close_channel : forall {A}, fchan A -> fchan A;
  f_next : forall {A}, fchan A -> recv_res A * fchan A;
  (** the receiver is dropped, and the queued messages with it *)
  f_rx_drop : forall {A}, fchan A -> list A * fchan A
}.

Section View.
Context {A : Type}.
Definition fv_push (a : A) (v : fview A) : fview A :=
  mkFview (fv_buffer v) (fv_buf v ++ [a]) (fv_closed v) (fv_senders v).
Definition fv_set_senders (n : Z) (v : fview A) : fview A :=
  mkFview (fv_buffer v) (fv_buf v) (fv_closed v) n.
Definition fv_close (v : fview A) : fview A :=
  mkFview (fv_buffer v) (fv_buf v) true (fv_senders v).
(** The receiver ends when the channel is closed or has no sender, and is empty. *)
Definition fv_next (v : fview A) : recv_res A * fview A :=
  match fv_buf v with
  | a :: l => (RecvItem a, mkFview (fv_buffer v) l (fv_closed v) (fv_senders v))
  | [] => (if fv_closed v || (fv_senders v =? 0) then RecvEnd else RecvPending, v)
  end.
End View.

Class FMpscLaws (fchan : Type -> Type) `{FMpsc fchan} : Type := {
  fview_of : forall {A}, fchan A -> fview A;
  fview_channel A n : fview_of (f_channel (A := A) n) = mkFview n [] false 1;
  fview_clone A (c : fchan A) :
    fview_of (f_clone c).2 = fv_set_senders (fv_senders (fview_of c) + 1) (fview_of c);
  fview_drop A i (c : fchan A) :
    fview_of (f_drop i c) = fv_set_senders (fv_senders (fview_of c) - 1) (fview_of c);
  (** a message is queued exactly when [Ok] is returned *)
  fview_try_send A i (a : A) c :
    fview_of (f_try_send i a c).2 =
      match (f_try_send i a c).1 with SendOk => fv_push a (fview_of c) | _ => fview_of c end;
  (** closed channels refuse (a sender that was parked reports a full channel even then);
      a free shared slot is never refused *)
  try_send_closed A i (a : A) c :
    fv_closed (fview_of c) = true -> (f_try_send i a c).1 <> SendOk;
  try_send_gone A i (a : A) c :
    (f_try_send i a c).1 = SendClosed -> fv_closed (fview_of c) = true;
  try_send_room A i (a : A) c :
    fv_closed (fview_of c) = false ->
    Z.of_nat (length (fv_buf (fview_of c))) < fv_buffer (fview_of c) ->
    (f_try_send i a c).1 = SendOk;
  fview_poll_ready A i (c : fchan A) : fview_of (f_poll_ready i c).2 = fview_of c;
  poll_ready_closed A i (c : fchan A) :
    fv_closed (fview_of c) = true <-> (f_poll_ready i c).1 = Some false;
  (** a sender that was told it is ready may send *)
  start_send_ready A i (a : A) c :
    (f_poll_ready i c).1 = Some true -> (f_start_send i a (f_poll_ready i c).2).1 = true;
  start_send_closed A i (a : A) c :
    fv_closed (fview_of c) = true -> (f_start_send i a c).1 = false;
  fview_start_send A i (a : A) c :
    fview_of (f_start_send i a c).2 =
      if (f_start_send i a c).1 then fv_push a (fview_of c) else fview_of c;
  fview_close_channel A (c : fchan A) : fview_of (f_close_channel c) = fv_close (fview_of c);
  f_next_res A (c : fchan A) : (f_next c).1 = (fv_next (fview_of c)).1;
  fview_next A (c : fchan A) : fview_of (f_next c).2 = (fv_next (fview_of c)).2;
  f_rx_drop_msgs A (c : fchan A) : (f_rx_drop c).1 = fv_buf (fview_of c);
  fview_rx_drop A (c : fchan A) :
    fview_of (f_rx_drop c).2 =
      mkFview (fv_buffer (fview_of c)) [] true (fv_senders (fview_of c))
}.

(** ** A reference implementation without per-sender slots beyond the first

    [fview] itself, where a sender waits while the shared slots are taken. *)
Definition fv_full {A} (v : fview A) : bool :=
  fv_buffer v <=? Z.of_nat (length (fv_buf v)).

#[global] Instance fview_mpsc : FMpsc fview := {
  f_channel A n := mkFview n [] false 1;
  f_clone A v := (Z.to_nat (fv_senders v), fv_set_senders (fv_senders v + 1) v);
  f_drop A i v := fv_set_senders (fv_senders v - 1) v;
  f_try_send A i a v :=
    if fv_closed v then (SendClosed, v) else if fv_full v then (SendFull, v) else (SendOk, fv_push a v);
  f_poll_ready A i v := (if fv_closed v then Some false else if fv_full v then None else Some true, v);
  f_start_send A i a v :=
    if fv_closed v then (false, v) else (true, fv_push a v);
  f_close_channel A v := fv_close v;
  f_next A v := fv_next v;
  f_rx_drop A v := (fv_buf v, mkFview (fv_buffer v) [] true (fv_senders v))
}.

#[global] Program Instance fview_mpsc_laws : FMpscLaws fview := {
  fview_of A v := v
}.
Solve All Obligations with try done.
Next Obligation. intros A i a c. simpl. by repeat case_match. Qed.
Next Obligation. intros A i a c. simpl. by repeat case_match. Qed.
Next Obligation. intros A i a c. simpl. by repeat case_match. Qed.
Next Obligation.
  intros A i a c Hc Hl. unfold fview_mpsc, f_try_send. rewrite Hc. unfold fv_full.
  destruct (_ <=? _) eqn:E; [lia|done].
Qed.
Next Obligation. intros A i c. simpl. repeat case_match; naive_solver. Qed.
Next Obligation. intros A i a c. simpl. by repeat case_match. Qed.
Next Obligation. intros A i a c Hc. simpl. by rewrite Hc. Qed.
Next Obligation. intros A i a c. simpl. by repeat case_match. Qed.
