(* ===== verification/WasmState.v ===== *)
(** * The browser session: shared state

    Models the data of [websock-wasm-mux/src/session.rs].  The browser runs the
    session on one thread: code between two suspension points is one step, so a
    synchronous method is a function on the state, written in the state monad
    [wst].  The locks of [futures_util::lock::Mutex] around the accept queues'
    senders are never held at a suspension point, so on one thread [lock().await]
    is always ready, and [handle_frame], [protocol_error] and [close_all] are
    synchronous too.  The receive cells, flows and shared send cells have the
    types of the native session; [w_wire], [w_out_log] and [w_flow_of] are
    history, never read by the code. *)

From S2P Require Import Prelude Buf VarInt Frame Proto Limits SendFlow Channel Async NativeState.
From S2P Require Import FuturesChannel.

(** [Limits] of this crate has the fields, the defaults and the checks of the native one. *)
Definition wasm_Limits : Set := Limits.
Definition wasm_Limits_default : wasm_Limits := Limits_default.
Definition wasm_Limits_validate `{UsizeWidth} (l : wasm_Limits) : result unit := Limits_validate l.

Inductive wasm_OutboundCmd : Set := WFrame (f : Frame).

(** A send handle: its shared cell, its flow, and its own fields. *)
Record wasm_SendStream : Set := mkWSendStream {
  ws_id : StreamId;
  ws_shared : nat;
  ws_flow : nat;
  ws_local : nat
}.

(** [outbound] is the handle's own sender of the outbound channel. *)
Record wasm_SendLocal : Set := mkWLocal {
  wl_outbound : nat;
  wl_close_in_flight : bool
}.

(** A [oneshot] of [close_waiters]. *)
Inductive waiter : Set := Waiting | Woken | Canceled.

Section WasmState.
Context {fchan : Type -> Type}.

Record WasmSession : Type := mkWasm {
  w_limits : wasm_Limits;
  w_outbound : fchan wasm_OutboundCmd;
  w_outbound_tx : nat;                        (** the session's own sender *)
  w_pending_credit : gmap StreamId Z;
  w_accept_uni_tx : option nat;               (** the sender in the [Option] *)
  w_accept_bi_tx : option nat;
  w_accept_uni_chan : fchan RecvStream;
  w_accept_bi_chan : fchan (wasm_SendStream * RecvStream);
  w_accept_uni_refs : Z;                      (** [Rc]s of the receiving ends *)
  w_accept_bi_refs : Z;
  w_streams : gmap StreamId RecvState;
  w_send_flows : gmap StreamId nat;
  w_next_uni : Z;
  w_next_bi : Z;
  w_next_peer_uni : Z;
  w_next_peer_bi : Z;
  w_closed : bool;
  w_shutdown_started : bool;
  w_session_handles : Z;
  w_close_waiters : list nat;
  w_task_finished : bool;
  (* the heap *)
  w_flows : list SendFlowState;
  w_recv_cells : list (RecvCell fchan);
  w_send_cells : list SendShared;
  w_send_locals : list wasm_SendLocal;
  w_waiters : list waiter;
  (* the environment: a clock in milliseconds *)
  w_now : Z;
  (* history *)
  w_wire : list (list byte);
  w_out_log : list Frame;
  w_flow_of : gmap StreamId nat
}.

Ltac w_replace_field f v r :=
  let e := constr:(mkWasm (w_limits r) (w_outbound r) (w_outbound_tx r) (w_pending_credit r)
    (w_accept_uni_tx r) (w_accept_bi_tx r) (w_accept_uni_chan r) (w_accept_bi_chan r)
    (w_accept_uni_refs r) (w_accept_bi_refs r) (w_streams r) (w_send_flows r) (w_next_uni r)
    (w_next_bi r) (w_next_peer_uni r) (w_next_peer_bi r) (w_closed r) (w_shutdown_started r)
    (w_session_handles r) (w_close_waiters r) (w_task_finished r) (w_flows r) (w_recv_cells r)
    (w_send_cells r) (w_send_locals r) (w_waiters r) (w_now r) (w_wire r) (w_out_log r)
    (w_flow_of r)) in
  let x := constr:(f r) in
  match eval pattern x in e with
  | ?g _ => let t := eval cbv beta in (g v) in exact t
  end.

Implicit Types s : WasmSession.

Definition set_w_outbound v s : WasmSession := ltac:(w_replace_field w_outbound v s).
Definition set_w_pending_credit v s : WasmSession := ltac:(w_replace_field w_pending_credit v s).
Definition set_w_accept_uni_tx v s : WasmSession := ltac:(w_replace_field w_accept_uni_tx v s).
Definition set_w_accept_bi_tx v s : WasmSession := ltac:(w_replace_field w_accept_bi_tx v s).
Definition set_w_accept_uni_chan v s : WasmSession := ltac:(w_replace_field w_accept_uni_chan v s).
Definition set_w_accept_bi_chan v s : WasmSession := ltac:(w_replace_field w_accept_bi_chan v s).
Definition set_w_accept_uni_refs v s : WasmSession := ltac:(w_replace_field w_accept_uni_refs v s).
Definition set_w_accept_bi_refs v s : WasmSession := ltac:(w_replace_field w_accept_bi_refs v s).
Definition set_w_streams v s : WasmSession := ltac:(w_replace_field w_streams v s).
Definition set_w_send_flows v s : WasmSession := ltac:(w_replace_field w_send_flows v s).
Definition set_w_next_uni v s : WasmSession := ltac:(w_replace_field w_next_uni v s).
Definition set_w_next_bi v s : WasmSession := ltac:(w_replace_field w_next_bi v s).
Definition set_w_next_peer_uni v s : WasmSession := ltac:(w_replace_field w_next_peer_uni v s).
Definition set_w_next_peer_bi v s : WasmSession := ltac:(w_replace_field w_next_peer_bi v s).
Definition set_w_closed v s : WasmSession := ltac:(w_replace_field w_closed v s).
Definition set_w_shutdown_started v s : WasmSession := ltac:(w_replace_field w_shutdown_started v s).
Definition set_w_session_handles v s : WasmSession := ltac:(w_replace_field w_session_handles v s).
Definition set_w_close_waiters v s : WasmSession := ltac:(w_replace_field w_close_waiters v s).
Definition set_w_task_finished v s : WasmSession := ltac:(w_replace_field w_task_finished v s).
Definition set_w_flows v s : WasmSession := ltac:(w_replace_field w_flows v s).
Definition set_w_recv_cells v s : WasmSession := ltac:(w_replace_field w_recv_cells v s).
Definition set_w_send_cells v s : WasmSession := ltac:(w_replace_field w_send_cells v s).
Definition set_w_send_locals v s : WasmSession := ltac:(w_replace_field w_send_locals v s).
Definition set_w_waiters v s : WasmSession := ltac:(w_replace_field w_waiters v s).
Definition set_w_now v s : WasmSession := ltac:(w_replace_field w_now v s).
Definition set_w_wire v s : WasmSession := ltac:(w_replace_field w_wire v s).
Definition set_w_out_log v s : WasmSession := ltac:(w_replace_field w_out_log v s).
Definition set_w_flow_of v s : WasmSession := ltac:(w_replace_field w_flow_of v s).
End WasmState.

Arguments WasmSession : clear implicits.

(** ** Synchronous code: a state monad *)
Definition wst (fchan : Type -> Type) (A : Type) : Type := WasmSession fchan -> WasmSession fchan * A.

#[global] Instance wst_ret fchan : MRet (wst fchan) := fun A a s => (s, a).
#[global] Instance wst_bind fchan : MBind (wst fchan) := fun A B k m s =>
  match m s with (s', a) => k a s' end.

Definition wget {fchan A} (f : WasmSession fchan -> A) : wst fchan A := fun s => (s, f s).
Definition wmod {fchan} (f : WasmSession fchan -> WasmSession fchan) : wst fchan unit := fun s => (f s, tt).

(** One access to the state. *)
Definition wop {fchan A} (f : WasmSession fchan -> WasmSession fchan * A) : wst fchan A := f.

(** The [?] operator. *)
Definition wtry {fchan E A B} (m : wst fchan (outcome E A)) (k : A -> wst fchan (outcome E B)) :
  wst fchan (outcome E B) :=
  r ← m; match r with Ok a => k a | Err e => mret (Err e) | Panic => mret Panic end.
Notation "'let!' x := m 'in' k" := (wtry m (fun x => k))
  (at level 10, x name, m at level 200, k at level 200) : mux_scope.

(** ** Asynchronous code *)
Abbreviation wprog fchan A := (@prog (WasmSession fchan) A).
