(* ===== verification/WasmOps.v ===== *)
(** * The browser session: methods of [SessionInner]

    Models the synchronous methods of [SessionInner] in
    [websock-wasm-mux/src/session.rs], in the source's order.  Unlike the native
    session, a frame is queued with [try_send] and refused when the queue is full,
    and [try_send_frame] does not look at the closed flags. *)

From S2P Require Import Prelude Buf VarInt Frame Proto Limits SendFlow Channel Async NativeState.
From S2P Require Import NativeOps NativeStream NativeRecv FuturesChannel WasmState.
Open Scope mux_scope.

(** [SendFlowState] of this crate is the native one. *)
Definition wasm_SendFlowState : Set := SendFlowState.
Definition wasm_flow_new : Z -> wasm_SendFlowState := SendFlowState_new.
Definition wasm_try_reserve : Z -> wasm_SendFlowState -> Z * wasm_SendFlowState := try_reserve.
Definition wasm_release : Z -> wasm_SendFlowState -> wasm_SendFlowState := release.
Definition wasm_update_max : Z -> wasm_SendFlowState -> wasm_SendFlowState := update_max.
Definition wasm_flow_close : wasm_SendFlowState -> wasm_SendFlowState := flow_close.

Section WasmOps.
Context {fchan : Type -> Type} `{FMpsc fchan} `{MapOrder}.
Implicit Types (s : WasmSession fchan) (id : StreamId).
Abbreviation st := (wst fchan).

(** ** Heap accesses *)
Definition w_flow_at s (l : nat) : SendFlowState := default (SendFlowState_new 0) (w_flows s !! l).
Definition w_on_flow (l : nat) (f : SendFlowState -> SendFlowState) s : WasmSession fchan :=
  set_w_flows (alter f l (w_flows s)) s.
Definition w_on_cell (l : nat) (f : RecvCell fchan -> RecvCell fchan) s : WasmSession fchan :=
  set_w_recv_cells (alter f l (w_recv_cells s)) s.
(** A receive state owns the sender its channel was created with. *)
Definition w_sender_drop (l : nat) s : WasmSession fchan :=
  w_on_cell l (fun c => set_rc_chan (f_drop 0 (rc_chan c)) c) s.

Definition wasm_is_closed s : bool := w_closed s || w_shutdown_started s.

(** ** Closing and the outbound queue *)
Definition wasm_request_shutdown : st unit := wmod (fun s =>
  if w_shutdown_started s then s
  else set_w_outbound (f_close_channel (w_outbound s)) (set_w_shutdown_started true s)).

(** Record a frame the queue accepted. *)
Definition w_log_frame (f : Frame) s : WasmSession fchan := set_w_out_log (w_out_log s ++ [f]) s.

Definition wasm_try_send_frame (f : Frame) : st (result unit) := fun s =>
  match f_try_send (w_outbound_tx s) (WFrame f) (w_outbound s) with
  | (SendOk, c) => (w_log_frame f (set_w_outbound c s), Ok tt)
  | (_, c) => (set_w_outbound c s, Err Closed)
  end.
Definition wasm_send_frame (f : Frame) : st (result unit) := wasm_try_send_frame f.

(** ** Flow-control credit *)
Definition w_credit_full s (m : gmap StreamId Z) : bool :=
  max_open_streams (w_limits s) <=? Z.of_nat (size m).
Definition w_prune_credit s : gmap StreamId Z :=
  if w_credit_full s (w_pending_credit s)
  then filter (fun kv => is_Some (w_streams s !! kv.1)) (w_pending_credit s)
  else w_pending_credit s.

Definition wasm_queue_credit id (maximum : Z) : st unit := fun s =>
  match w_streams s !! id with
  | None => (s, tt)
  | Some rs =>
      if stopped rs then (s, tt)
      else
        let pending := w_prune_credit s in
        if w_credit_full s pending && bool_decide (pending !! id = None)
        then wasm_request_shutdown (set_w_pending_credit pending s)
        else
          let v := match pending !! id with Some old => Z.max old maximum | None => maximum end in
          (set_w_pending_credit (<[id := v]> pending) s, tt)
  end.

(** The [poll_fn] of [next_credit]: [None] while there is no update. *)
Definition wasm_next_credit s : option (WasmSession fchan * Frame) :=
  match first_entry (w_pending_credit s) with
  | Some (id, max) =>
      Some (set_w_pending_credit (delete id (w_pending_credit s)) s, MaxStreamData id max)
  | None => None
  end.

(** ** The send and receive maps *)
Definition wasm_register_send_flow id (initial_max : Z) : st (result nat) := fun s =>
  if max_open_streams (w_limits s) <=? Z.of_nat (size (w_send_flows s))
  then (s, Err (Protocol "too many open send streams"))
  else match w_send_flows s !! id with
  | Some _ => (s, Err (Protocol "duplicate send stream"))
  | None =>
      let l := length (w_flows s) in
      (set_w_flow_of (<[id := l]> (w_flow_of s))
         (set_w_send_flows (<[id := l]> (w_send_flows s))
            (set_w_flows (w_flows s ++ [wasm_flow_new initial_max]) s)), Ok l)
  end.

Definition wasm_remove_send_flow id : st bool := fun s =>
  match w_send_flows s !! id with
  | Some l => (w_on_flow l wasm_flow_close (set_w_send_flows (delete id (w_send_flows s)) s), true)
  | None => (s, false)
  end.

Definition wasm_stop_recv_stream id : st bool := fun s =>
  match w_streams s !! id with
  | None => (s, false)
  | Some rs =>
      (set_w_pending_credit (delete id (w_pending_credit s))
         (set_w_streams (<[id := mkRecvState true (recv_cell rs) (received rs)]> (w_streams s)) s),
       true)
  end.

(** [streams.remove(&id)], which drops the event sender. *)
Definition wasm_remove_stream id : st bool := fun s =>
  match w_streams s !! id with
  | None => (s, false)
  | Some rs => (w_sender_drop (recv_cell rs) (set_w_streams (delete id (w_streams s)) s), true)
  end.

Definition wasm_register_recv_stream id : st RecvStream := fun s =>
  let l := length (w_recv_cells s) in
  let window := initial_stream_window (w_limits s) in
  let cell := mkRecvCell (f_channel (recv_event_queue_len (w_limits s))) window false [] 0 window
                window (stream_window_update_threshold (w_limits s)) false in
  let s' := match w_streams s !! id with Some old => w_sender_drop (recv_cell old) s | None => s end in
  (set_w_streams (<[id := mkRecvState false l 0]> (w_streams s'))
     (set_w_recv_cells (w_recv_cells s' ++ [cell]) s'),
   mkRecvStream id l).

(** ** Stream identifiers: the browser is always the client *)
Definition wasm_fetch_next (dir : StreamDir) : st Z := fun s =>
  match dir with
  | Uni => (set_w_next_uni (wrap64 (w_next_uni s + 1)) s, w_next_uni s)
  | Bi => (set_w_next_bi (wrap64 (w_next_bi s + 1)) s, w_next_bi s)
  end.
Definition wasm_next_stream_id (dir : StreamDir) : st (result StreamId) :=
  n ← wasm_fetch_next dir;
  mret (map_err (fun _ => Protocol "stream id overflow: value too large for varint encoding")
          (StreamId_new n false dir)).

Definition wasm_validate_peer_stream_id id : st bool := fun s =>
  let counter := StreamId_counter id in
  let next := saturating_add64 counter 1 in
  match StreamId_dir id with
  | Uni => if counter <? w_next_peer_uni s then (s, false) else (set_w_next_peer_uni next s, true)
  | Bi => if counter <? w_next_peer_bi s then (s, false) else (set_w_next_peer_bi next s, true)
  end.

Definition w_frontier s id : Z :=
  match negb (initiator_is_server id), StreamId_dir id with
  | true, Uni => w_next_uni s
  | true, Bi => w_next_bi s
  | false, Uni => w_next_peer_uni s
  | false, Bi => w_next_peer_bi s
  end.
Definition wasm_is_retired_direction id (receiving : bool) s : bool :=
  let local := negb (initiator_is_server id) in
  if bool_decide (StreamId_dir id = Uni) && eqb local receiving then false
  else StreamId_counter id <? w_frontier s id.

(** ** Closing everything *)
Definition w_clear_streams s : WasmSession fchan :=
  set_w_streams ∅ (foldr (fun rs => w_sender_drop (recv_cell rs)) s (map_to_list (w_streams s)).*2).
Definition w_clear_send_flows s : WasmSession fchan :=
  set_w_send_flows ∅
    (foldr (fun l => w_on_flow l wasm_flow_close) s (map_to_list (w_send_flows s)).*2).

(** [*self.accept_uni_tx.lock().await = None], which drops the sender. *)
Definition w_take_accept_uni s : WasmSession fchan :=
  match w_accept_uni_tx s with
  | Some i => set_w_accept_uni_tx None (set_w_accept_uni_chan (f_drop i (w_accept_uni_chan s)) s)
  | None => s
  end.
Definition w_take_accept_bi s : WasmSession fchan :=
  match w_accept_bi_tx s with
  | Some i => set_w_accept_bi_tx None (set_w_accept_bi_chan (f_drop i (w_accept_bi_chan s)) s)
  | None => s
  end.

Definition wasm_close_all : st unit := wmod (fun s =>
  if w_closed s then s
  else
    let s := set_w_closed true s in
    let s := set_w_pending_credit ∅ s in
    let s := w_clear_streams s in
    let s := w_clear_send_flows s in
    let s := w_take_accept_uni s in
    w_take_accept_bi s).

Definition wasm_protocol_error (code : Z) (reason : string) : st (result unit) :=
  wasm_try_send_frame (ConnectionClose code reason);;
  wasm_close_all;;
  mret (Err (Protocol reason)).

(** Waiters whose receiver is still there are told. *)
Definition wasm_finish_task : st unit := wmod (fun s =>
  set_w_close_waiters []
    (set_w_waiters
       (foldr (fun l => alter (fun w => match w with Waiting => Woken | w => w end) l)
          (w_waiters s) (w_close_waiters s))
       (set_w_task_finished true s))).
End WasmOps.
