(* ===== verification/WasmStreams.v ===== *)
(** * The browser session: stream handles

    Models [SendStream] and [RecvStream] of [websock-wasm-mux/src/session.rs]: the
    direct methods, [AsyncWrite] and [AsyncRead] of [futures_io], [Clone] and
    [Drop].  Methods without a suspension point are functions of the state monad,
    [async] ones without an [await] included; [write_buf] and the reads are
    programs. *)

From S2P Require Import Prelude Buf VarInt Frame Proto Limits SendFlow Channel Async NativeState.
From S2P Require Import NativeOps NativeStream NativeRecv FuturesChannel WasmState WasmOps.
Open Scope mux_scope.

Section WasmSend.
Context {fchan : Type -> Type} `{FMpsc fchan} `{MapOrder}.
Implicit Types (s : WasmSession fchan) (id : StreamId) (h : wasm_SendStream).
Abbreviation st := (wst fchan).

(** ** Send handles *)
Definition w_no_local : wasm_SendLocal := mkWLocal 0 false.
Definition w_shared_of s h : SendShared := default no_shared (w_send_cells s !! ws_shared h).
Definition w_local_of s h : wasm_SendLocal := default w_no_local (w_send_locals s !! ws_local h).
Definition w_on_shared h (f : SendShared -> SendShared) s : WasmSession fchan :=
  set_w_send_cells (alter f (ws_shared h) (w_send_cells s)) s.
Definition w_on_local h (f : wasm_SendLocal -> wasm_SendLocal) s : WasmSession fchan :=
  set_w_send_locals (alter f (ws_local h) (w_send_locals s)) s.

(** Clone a sender of the outbound channel. *)
Definition w_outbound_clone : st nat := fun s =>
  match f_clone (w_outbound s) with (i, c) => (set_w_outbound c s, i) end.
Definition w_outbound_drop (i : nat) : st unit :=
  wmod (fun s => set_w_outbound (f_drop i (w_outbound s)) s).
Definition w_new_local (i : nat) : st nat := fun s =>
  (set_w_send_locals (w_send_locals s ++ [mkWLocal i false]) s, length (w_send_locals s)).

Definition wasm_SendStream_new id (flow : nat) : st wasm_SendStream :=
  i ← w_outbound_clone;
  local ← w_new_local i;
  wop (fun s => (set_w_send_cells (w_send_cells s ++ [mkSendShared false false 0 1]) s,
                 mkWSendStream id (length (w_send_cells s)) flow local)).

Definition wasm_SendStream_clone h : st wasm_SendStream :=
  i ← w_outbound_clone;
  local ← w_new_local i;
  wmod (w_on_shared h (add_strong 1));;
  mret (mkWSendStream (ws_id h) (ws_shared h) (ws_flow h) local).

Definition wasm_flow_is_closed s h : bool := flow_closed (w_flow_at s (ws_flow h)).
Definition wasm_SendStream_closed h s : bool :=
  finished (w_shared_of s h) || wasm_flow_is_closed s h || wasm_is_closed s.

Definition wasm_select_api h (mode : Z) : st (result unit) := fun s =>
  if mode =? 0 then (s, Ok tt)
  else
    let old := api_mode (w_shared_of s h) in
    if old =? 0 then (w_on_shared h (set_api_mode mode) s, Ok tt)
    else if old =? mode then (s, Ok tt)
    else (s, Err (Protocol "cannot mix direct and AsyncWrite APIs on a send stream")).

Definition wasm_begin_operation h (mode : Z) : st (result unit) :=
  let! _ := wasm_select_api h mode in
  wop (fun s =>
    if operation (w_shared_of s h)
    then (s, Err (Protocol "concurrent send operations are unsupported"))
    else (w_on_shared h (set_operation true) s, Ok tt)).

(** [SendOperation::drop] *)
Definition wasm_end_operation h : st unit := wmod (w_on_shared h (set_operation false)).

(** Synchronous code under the operation guard. *)
Definition w_guarded {A} h (mode : Z) (m : st (result A)) : st (result A) :=
  let! _ := wasm_begin_operation h mode in
  r ← m;
  wasm_end_operation h;;
  mret r.

(** The guard of [complete_or_abort]. *)
Definition wasm_complete_or_abort {A} (p : wprog fchan A) : wprog fchan A :=
  with_drop (atomic wasm_request_shutdown) p.

(** *** Direct writes *)

(** The first [poll_fn] of [write_buf]. *)
Definition w_poll_grant h (wanted : Z) s : option (WasmSession fchan * result Z) :=
  let '(grant, fl) := wasm_try_reserve wanted (w_flow_at s (ws_flow h)) in
  if grant =? 0 then
    if wasm_flow_is_closed s h || finished (w_shared_of s h) || wasm_is_closed s
    then Some (s, Err Closed) else None
  else Some (w_on_flow (ws_flow h) (fun _ => fl) s, Ok grant).

(** [poll_ready] and [start_send] of sender [i] with a frame: [None] while pending,
    otherwise whether the frame was queued. *)
Definition w_start_send (i : nat) (f : Frame) : st bool := fun s =>
  match f_start_send i (WFrame f) (w_outbound s) with
  | (true, c) => (w_log_frame f (set_w_outbound c s), true)
  | (false, c) => (set_w_outbound c s, false)
  end.
Definition w_poll_ready (i : nat) : st (option bool) := fun s =>
  match f_poll_ready i (w_outbound s) with (r, c) => (set_w_outbound c s, r) end.

(** The second [poll_fn] of [write_buf]. *)
Definition w_poll_queue h (i : nat) (f : Frame) s : option (WasmSession fchan * bool) :=
  if wasm_flow_is_closed s h then Some (s, false)
  else match w_poll_ready i s with
  | (_, None) => None
  | (s, Some false) => Some (s, false)
  | (s, Some true) => Some (w_start_send i f s)
  end.

(** One round per frame; every round queues at least one byte. *)
Fixpoint wasm_write_loop h (i : nat) (fuel : nat) (data : list byte) : wprog fchan (result unit) :=
  match data with
  | [] => Ret (Ok tt)
  | _ =>
      match fuel with
      | O => Ret Panic
      | S fuel =>
          let* wanted :=
            gets (fun s => payload_limit (blen data) (max_stream_data_per_frame (w_limits s))) in
          if wanted =? 0 then Ret (Err (Protocol "stream frame payload limit is zero"))
          else
            let? grant := await (w_poll_grant h wanted) in
            let* queued :=
              await (w_poll_queue h i (Stream (ws_id h) (take (Z.to_nat grant) data) false)) in
            if queued then wasm_write_loop h i fuel (drop (Z.to_nat grant) data)
            else
              modify (w_on_flow (ws_flow h) (wasm_release grant));;;
              Ret (Err Closed)
      end
  end.

Definition wasm_write_buf h (data : list byte) : wprog fchan (result unit) :=
  let? _ := atomic (wasm_begin_operation h 1) in
  let* r := with_drop (atomic (wasm_end_operation h)) (wasm_complete_or_abort (
    let* c := gets (wasm_SendStream_closed h) in
    if c then Ret (Err Closed)
    else
      let* i := atomic w_outbound_clone in
      let* r := with_drop (atomic (w_outbound_drop i)) (wasm_write_loop h i (length data) data) in
      atomic (w_outbound_drop i);;;
      Ret r)) in
  atomic (wasm_end_operation h);;;
  Ret r.

Definition wasm_write h (data : list byte) : wprog fchan (result unit) := wasm_write_buf h data.
Definition wasm_write_all h (data : list byte) : wprog fchan (result unit) := wasm_write h data.

(** *** Ending the direction *)
Definition wasm_finish h : st (result unit) :=
  w_guarded h 1 (wop (fun s =>
    if finished (w_shared_of s h) then (s, Ok tt)
    else if wasm_flow_is_closed s h || wasm_is_closed s then (s, Err Closed)
    else
      (wmod (w_on_shared h (set_finished true));;
       let! _ := wasm_send_frame (Stream (ws_id h) [] true) in
       wasm_remove_send_flow (ws_id h);;
       mret (Ok tt)) s)).

Definition wasm_reset h (code : Z) : st (result unit) :=
  w_guarded h 0
    match VarInt_from_u64 code with
    | Ok _ =>
        wmod (w_on_shared h (set_finished true));;
        wasm_remove_send_flow (ws_id h);;
        wasm_send_frame (ResetStream (ws_id h) code)
    | _ => mret (Err (Protocol "reset code exceeds mux varint range"))
    end.

(** The fields are dropped after the destructor's body. *)
Definition wasm_SendStream_drop h : st unit :=
  last ← wget (fun s => strong_count (w_shared_of s h) =? 1);
  (if (last : bool) then
     wasm_remove_send_flow (ws_id h);;
     f ← wget (fun s => finished (w_shared_of s h));
     if (f : bool) then mret tt
     else
       r ← wasm_try_send_frame (ResetStream (ws_id h) 0);
       if is_ok r then mret tt else wasm_request_shutdown
   else mret tt);;
  wmod (w_on_shared h (add_strong (-1)));;
  i ← wget (fun s => wl_outbound (w_local_of s h));
  w_outbound_drop i.

(** *** [AsyncWrite] *)
Definition io_result (r : option bool) : poll (outcome IoError unit) :=
  match r with
  | None => Pending
  | Some false => Ready (Err io_closed)
  | Some true => Ready (Ok tt)
  end.

Definition w_poll_write_body h (buf : list byte) : st (poll (outcome IoError Z)) := fun s =>
  match buf with
  | [] => (s, Ready (Ok 0))
  | _ =>
      if wasm_SendStream_closed h s then (s, Ready (Err io_closed))
      else
        let wanted := payload_limit (blen buf) (max_stream_data_per_frame (w_limits s)) in
        if wanted =? 0
        then (s, Ready (Err (io_invalid_input "stream frame payload limit is zero")))
        else
          let '(chunk_len, fl) := wasm_try_reserve wanted (w_flow_at s (ws_flow h)) in
          let s := w_on_flow (ws_flow h) (fun _ => fl) s in
          let give_back s := w_on_flow (ws_flow h) (wasm_release chunk_len) s in
          if chunk_len =? 0 then
            (s, if wasm_flow_is_closed s h || wasm_is_closed s then Ready (Err io_closed) else Pending)
          else
            let i := wl_outbound (w_local_of s h) in
            match w_poll_ready i s with
            | (s, None) => (give_back s, Pending)
            | (s, Some false) => (give_back s, Ready (Err io_closed))
            | (s, Some true) =>
                match w_start_send i (Stream (ws_id h) (take (Z.to_nat chunk_len) buf) false) s with
                | (s, false) => (give_back s, Ready (Err io_closed))
                | (s, true) => (s, Ready (Ok chunk_len))
                end
            end
  end.

Definition w_api_error {A} (r : result unit) (m : st (poll (outcome IoError A))) :
  st (poll (outcome IoError A)) :=
  match r with
  | Err error => mret (Ready (Err (io_other (Error_to_string error))))
  | _ => m
  end.

Definition wasm_poll_write h (buf : list byte) : st (poll (outcome IoError Z)) :=
  a ← wasm_select_api h 2;
  w_api_error a (
    o ← wasm_begin_operation h 2;
    w_api_error o (
      r ← w_poll_write_body h buf;
      wasm_end_operation h;;
      mret r)).

Definition wasm_poll_flush h : st (poll (outcome IoError unit)) :=
  a ← wasm_select_api h 2;
  w_api_error a (
    i ← wget (fun s => wl_outbound (w_local_of s h));
    r ← w_poll_ready i;
    mret (io_result r)).

(** The first part of [poll_close]: queue FIN unless it is already; [Some] returns. *)
Definition w_close_fin h : st (option (poll (outcome IoError unit))) := fun s =>
  if finished (w_shared_of s h) || wl_close_in_flight (w_local_of s h) then (s, None)
  else
    let i := wl_outbound (w_local_of s h) in
    match w_poll_ready i s with
    | (s, None) => (s, Some Pending)
    | (s, Some false) => (s, Some (Ready (Err io_closed)))
    | (s, Some true) =>
        match w_start_send i (Stream (ws_id h) [] true) s with
        | (s, false) => (s, Some (Ready (Err io_closed)))
        | (s, true) =>
            (wmod (w_on_shared h (set_finished true));;
             wmod (w_on_local h (fun x => mkWLocal (wl_outbound x) true));;
             wasm_remove_send_flow (ws_id h);;
             mret None) s
        end
    end.

Definition wasm_poll_close h : st (poll (outcome IoError unit)) :=
  a ← wasm_select_api h 2;
  w_api_error a (wop (fun s =>
    if negb (finished (w_shared_of s h)) && (wasm_flow_is_closed s h || wasm_is_closed s)
    then (s, Ready (Err io_closed))
    else
      (o ← w_close_fin h;
       match o with
       | Some r => mret r
       | None =>
           i ← wget (fun s => wl_outbound (w_local_of s h));
           r ← w_poll_ready i;
           mret (io_result r)
       end) s)).
End WasmSend.

(** ** Receive handles *)
Section WasmRecv.
Context {fchan : Type -> Type} `{FMpsc fchan} `{MapOrder}.
Implicit Types (s : WasmSession fchan) (h : RecvStream) (c : RecvCell fchan).
Abbreviation st := (wst fchan).

Definition w_no_cell : RecvCell fchan := mkRecvCell (f_channel 0) 0 false [] 0 0 0 0 false.
Definition w_cell_of s h : RecvCell fchan := default w_no_cell (w_recv_cells s !! rs_cell h).
Definition w_with_cell {A} h (f : RecvCell fchan -> RecvCell fchan * A) : st A := fun s =>
  (w_on_cell (rs_cell h) (fun c => (f c).1) s, (f (w_cell_of s h)).2).

(** [on_bytes_consumed] computes what the native one does. *)
Definition wasm_on_bytes_consumed h (n : Z) : st unit :=
  o ← w_with_cell h (consume n);
  match o with Some target => wasm_queue_credit (rs_id h) target | None => mret tt end.

Definition w_set_finished h : st unit := wmod (w_on_cell (rs_cell h) (set_rc_finished true)).
Definition w_set_pending h (p : list byte) : st unit := wmod (w_on_cell (rs_cell h) (set_rc_pending p)).

(** Copy up to [room] bytes out of [pending]. *)
Definition w_deliver_pending h (room : Z) : st (list byte) :=
  out ← w_with_cell h (take_pending room);
  wasm_on_bytes_consumed h (blen out);;
  mret out.

(** [receiver.poll_next]: the event, the end, or pending. *)
Definition w_poll_next h : st (poll (option RecvEvent)) := fun s =>
  match f_next (rc_chan (w_cell_of s h)) with
  | (RecvItem e, ch) => (w_on_cell (rs_cell h) (set_rc_chan ch) s, Ready (Some e))
  | (RecvEnd, ch) => (w_on_cell (rs_cell h) (set_rc_chan ch) s, Ready None)
  | (RecvPending, ch) => (w_on_cell (rs_cell h) (set_rc_chan ch) s, Pending)
  end.
(** [receiver.next().await] *)
Definition w_next_event h : wprog fchan (option RecvEvent) :=
  await (fun s => match w_poll_next h s with
                  | (s, Ready e) => Some (s, e)
                  | (_, Pending) => None
                  end).

Definition w_on_fin h (event : RecvEvent) : st unit :=
  if ev_fin event then w_set_finished h else mret tt.

(** What [read_chunk_internal] does with the event. *)
Definition w_chunk_of_event h (ev : option RecvEvent) : st (option (list byte)) :=
  match ev with
  | Some event =>
      w_on_fin h event;;
      mret (if bool_decide (ev_data event = []) && ev_fin event then None else Some (ev_data event))
  | None => w_set_finished h;; mret None
  end.
Definition wasm_read_chunk_internal h : wprog fchan (result (option (list byte))) :=
  let* ev := w_next_event h in
  let* o := atomic (w_chunk_of_event h ev) in
  Ret (Ok o).

(** [read(buf)] with [buf.len() = room]; it returns the bytes copied. *)
Definition wasm_read h (room : Z) : wprog fchan (result (option (list byte))) :=
  if room =? 0 then Ret (Ok (Some []))
  else
    let* c := gets (fun s => w_cell_of s h) in
    let deliver := let* out := atomic (w_deliver_pending h room) in Ret (Ok (Some out)) in
    if bool_decide (rc_pending c = []) then
      if rc_finished c then Ret (Ok None)
      else
        let? chunk := wasm_read_chunk_internal h in
        match chunk with
        | Some chunk => atomic (w_set_pending h chunk);;; deliver
        | None => Ret (Ok None)
        end
    else deliver.

Definition wasm_read_buf h (remaining_mut : Z) : wprog fchan (result (option (list byte))) :=
  wasm_read h remaining_mut.

(** [read_chunk] once its event is there. *)
Definition w_split_event h (max : Z) (ev : option RecvEvent) : st (option (list byte)) :=
  match ev with
  | Some event =>
      w_on_fin h event;;
      if bool_decide (ev_data event = []) && ev_fin event then mret None
      else if max <? blen (ev_data event) then
        let chunk := take (Z.to_nat max) (ev_data event) in
        w_set_pending h (drop (Z.to_nat max) (ev_data event));;
        wasm_on_bytes_consumed h (blen chunk);;
        mret (Some chunk)
      else
        wasm_on_bytes_consumed h (blen (ev_data event));;
        mret (Some (ev_data event))
  | None => w_set_finished h;; mret None
  end.
Definition wasm_read_chunk h (max : Z) : wprog fchan (result (option (list byte))) :=
  if max =? 0 then Ret (Err (Protocol "read_chunk max must be greater than zero"))
  else
    let* c := gets (fun s => w_cell_of s h) in
    if negb (bool_decide (rc_pending c = [])) then
      let* chunk := atomic (w_deliver_pending h max) in Ret (Ok (Some chunk))
    else if rc_finished c then Ret (Ok None)
    else
      let* ev := w_next_event h in
      let* o := atomic (w_split_event h max ev) in
      Ret (Ok o).

(** [poll_read]: the loop skips empty events, of which there are at most as many as
    the channel holds; [fuel] is that number. *)
Fixpoint w_poll_read_loop h (fuel : nat) (room : Z) : st (poll (list byte)) :=
  match fuel with
  | O => mret Pending
  | S fuel =>
      ev ← w_poll_next h;
      match ev with
      | Pending => mret Pending
      | Ready None => w_set_finished h;; mret (Ready [])
      | Ready (Some event) =>
          w_on_fin h event;;
          if bool_decide (ev_data event = []) then
            if ev_fin event then mret (Ready []) else w_poll_read_loop h fuel room
          else
            let amt := Z.min (blen (ev_data event)) room in
            (if amt <? blen (ev_data event)
             then w_set_pending h (drop (Z.to_nat amt) (ev_data event)) else mret tt);;
            wasm_on_bytes_consumed h amt;;
            mret (Ready (take (Z.to_nat amt) (ev_data event)))
      end
  end.

Definition wasm_poll_read h (fuel : nat) (room : Z) : st (poll (list byte)) := fun s =>
  if room =? 0 then (s, Ready [])
  else if negb (bool_decide (rc_pending (w_cell_of s h) = [])) then
    (out ← w_deliver_pending h room; mret (Ready out)) s
  else if rc_finished (w_cell_of s h) then (s, Ready [])
  else w_poll_read_loop h fuel room s.

(** *** Stopping and dropping *)
Definition w_swap_stop_sent h : st bool :=
  w_with_cell h (fun c => (set_rc_stop_sent true c, rc_stop_sent c)).

Definition wasm_stop h (code : Z) : st (result unit) :=
  match VarInt_from_u64 code with
  | Ok _ =>
      already ← w_swap_stop_sent h;
      if (already : bool) then mret (Ok tt)
      else
        open ← wasm_stop_recv_stream (rs_id h);
        if (open : bool) then wasm_send_frame (StopSending (rs_id h) code) else mret (Ok tt)
  | _ => mret (Err (Protocol "stop code exceeds mux varint range"))
  end.

Definition wasm_RecvStream_closed h s : bool := rc_finished (w_cell_of s h).

(** The destructor, then the receiving end of the channel. *)
Definition wasm_RecvStream_drop h : st unit :=
  needs_stop ← wasm_stop_recv_stream (rs_id h);
  f ← wget (fun s => rc_finished (w_cell_of s h));
  (if needs_stop && negb f then
     already ← w_swap_stop_sent h;
     if (already : bool) then mret tt
     else
       r ← wasm_try_send_frame (StopSending (rs_id h) 0);
       if is_ok r then mret tt else wasm_request_shutdown
   else mret tt);;
  wmod (w_on_cell (rs_cell h) (fun c => set_rc_chan (f_rx_drop (rc_chan c)).2 c)).
End WasmRecv.
