(* ===== verification/WasmSession.v ===== *)
(** * The browser session: peer frames, the public handle and the session task

    Models [handle_frame], [Session] and [spawn_task] of
    [websock-wasm-mux/src/session.rs]. *)

From S2P Require Import Prelude Buf VarInt Frame Proto Limits SendFlow Channel Async NativeState.
From S2P Require Import NativeOps NativeStream NativeRecv FuturesChannel WasmState WasmOps WasmStreams.
Open Scope mux_scope.

Section WasmSession.
Context {fchan : Type -> Type} `{FMpsc fchan} `{MapOrder}.
Implicit Types (s : WasmSession fchan) (id : StreamId).
Abbreviation st := (wst fchan).

(** ** Peer frames *)

(** Register the receive side of an inbound stream, or say what is wrong. *)
Definition w_register_inbound id : st (outcome (Z * string) RecvStream) := fun s =>
  if max_open_streams (w_limits s) <=? Z.of_nat (size (w_streams s))
  then (s, Err (3, "too many open streams"))
  else match w_streams s !! id with
  | Some _ => (s, Err (1, "duplicate stream open"))
  | None => match wasm_register_recv_stream id s with (s, h) => (s, Ok h) end
  end.

(** The initial credit of an inbound stream; a full queue drops it. *)
Definition w_initial_credit id : st unit := fun s =>
  match wasm_try_send_frame (MaxStreamData id (initial_stream_window (w_limits s))) s with
  | (s, _) => (s, tt)
  end.

(** Hand a stream to the accept queue; a rejected one is dropped after the error. *)
Definition w_deliver_uni (recv : RecvStream) : st (result unit) := fun s =>
  match w_accept_uni_tx s with
  | Some i =>
      match f_try_send i recv (w_accept_uni_chan s) with
      | (SendOk, c) => (set_w_accept_uni_chan c s, Ok tt)
      | (SendFull, c) =>
          (r ← wasm_protocol_error 3 "accept queue full";
           wasm_RecvStream_drop recv;;
           mret r) (set_w_accept_uni_chan c s)
      | (SendClosed, c) =>
          (wasm_RecvStream_drop recv;; mret (Err Closed)) (set_w_accept_uni_chan c s)
      end
  | None => (wasm_RecvStream_drop recv;; mret (Err Closed)) s
  end.

Definition wasm_drop_pair (p : wasm_SendStream * RecvStream) : st unit :=
  wasm_SendStream_drop p.1;; wasm_RecvStream_drop p.2.

Definition w_deliver_bi (pair : wasm_SendStream * RecvStream) : st (result unit) := fun s =>
  match w_accept_bi_tx s with
  | Some i =>
      match f_try_send i pair (w_accept_bi_chan s) with
      | (SendOk, c) => (set_w_accept_bi_chan c s, Ok tt)
      | (SendFull, c) =>
          (r ← wasm_protocol_error 3 "accept queue full";
           wasm_drop_pair pair;;
           mret r) (set_w_accept_bi_chan c s)
      | (SendClosed, c) => (wasm_drop_pair pair;; mret (Err Closed)) (set_w_accept_bi_chan c s)
      end
  | None => (wasm_drop_pair pair;; mret (Err Closed)) s
  end.

Definition wasm_handle_open_uni id : st (result unit) :=
  if negb (bool_decide (StreamId_dir id = Uni)) then
    wasm_protocol_error 1 "OpenUni with non-uni StreamId"
  else if negb (initiator_is_server id) then wasm_protocol_error 1 "OpenUni with wrong initiator"
  else
    valid ← wasm_validate_peer_stream_id id;
    if negb valid then wasm_protocol_error 1 "OpenUni with non-monotonic StreamId"
    else
      r ← w_register_inbound id;
      match r with
      | Err (code, reason) => wasm_protocol_error code reason
      | Ok recv =>
          w_initial_credit id;;
          w_deliver_uni recv
      | Panic => mret Panic
      end.

Definition wasm_handle_open_bi id : st (result unit) :=
  if negb (bool_decide (StreamId_dir id = Bi)) then
    wasm_protocol_error 1 "OpenBi with non-bi StreamId"
  else if negb (initiator_is_server id) then wasm_protocol_error 1 "OpenBi with wrong initiator"
  else
    valid ← wasm_validate_peer_stream_id id;
    if negb valid then wasm_protocol_error 1 "OpenBi with non-monotonic StreamId"
    else
      r ← w_register_inbound id;
      match r with
      | Err (code, reason) => wasm_protocol_error code reason
      | Ok recv =>
          w_initial_credit id;;
          fl ← wasm_register_send_flow id 0;
          match fl with
          | Ok flow =>
              send ← wasm_SendStream_new id flow;
              w_deliver_bi (send, recv)
          | Err err =>
              r ← wasm_protocol_error 3 (Error_to_string err);
              wasm_RecvStream_drop recv;;
              mret r
          | Panic => mret Panic
          end
      | Panic => mret Panic
      end.

(** [state.sender.try_send(RecvEvent { data, fin })] *)
Definition w_try_send_event (l : nat) (e : RecvEvent) : st try_send_res := fun s =>
  match f_try_send 0 e (rc_chan (w_cell_of s (mkRecvStream (mkStreamId 0) l))) with
  | (r, c) => (w_on_cell l (set_rc_chan c) s, r)
  end.

(** Under the borrow of [streams]: account for the data and pass it on; whether
    the queue overflowed, or the reason of the violation. *)
Definition w_stream_data id (data : list byte) (fin : bool) : st (outcome string bool) := fun s =>
  match w_streams s !! id with
  | None => (s, Err "Stream data on unknown stream")
  | Some rs =>
      match checked_add64 (received rs) (blen data) with
      | None => (s, Err "stream data overflow")
      | Some r =>
          if rc_max_data (w_cell_of s (mkRecvStream id (recv_cell rs))) <? r
          then (s, Err "stream flow-control limit exceeded")
          else
            (wmod (set_w_streams (<[id := mkRecvState (stopped rs) (recv_cell rs) r]> (w_streams s)));;
             overflow ←
               (if stopped rs then mret false
                else
                  r ← w_try_send_event (recv_cell rs) (mkRecvEvent data fin);
                  mret (match r with SendFull => true | _ => false end));
             (if fin then wasm_remove_stream id else mret true);;
             mret (Ok overflow)) s
      end
  end.

Definition wasm_handle_stream id (data : list byte) (fin : bool) : st (result unit) := fun s =>
  if max_stream_data_per_frame (w_limits s) <? blen data
  then wasm_protocol_error 2 "stream data too large" s
  else
    (r ← w_stream_data id data fin;
     match r with
     | Err reason => wasm_protocol_error 2 reason
     | Ok overflow =>
         if (overflow : bool) then wasm_protocol_error 3 "receive queue full" else mret (Ok tt)
     | Panic => mret Panic
     end) s.

Definition wasm_handle_reset_stream id : st (result unit) :=
  removed ← wasm_remove_stream id;
  retired ← wget (wasm_is_retired_direction id true);
  if removed || retired then mret (Ok tt) else wasm_protocol_error 1 "reset on unknown stream".

Definition wasm_handle_stop_sending id (code : Z) : st (result unit) :=
  removed ← wasm_remove_send_flow id;
  if (removed : bool) then wasm_send_frame (ResetStream id code)
  else
    retired ← wget (wasm_is_retired_direction id false);
    if (retired : bool) then mret (Ok tt) else wasm_protocol_error 1 "stop on unknown stream".

Definition wasm_handle_max_stream_data id (max : Z) : st (result unit) :=
  wmod (fun s => match w_send_flows s !! id with
                 | Some l => w_on_flow l (wasm_update_max max) s
                 | None => s
                 end);;
  mret (Ok tt).

Definition wasm_handle_frame (f : Frame) : st (result unit) :=
  match f with
  | OpenUni id => wasm_handle_open_uni id
  | OpenBi id => wasm_handle_open_bi id
  | Stream id data fin => wasm_handle_stream id data fin
  | ResetStream id _ => wasm_handle_reset_stream id
  | StopSending id code => wasm_handle_stop_sending id code
  | MaxStreamData id max => wasm_handle_max_stream_data id max
  | ConnectionClose _ _ => wasm_close_all;; mret (Err Closed)
  end.

(** ** The public handle *)
Definition wasm_SessionInner_new (l : wasm_Limits) (out : fchan wasm_OutboundCmd)
    (uni : fchan RecvStream) (bi : fchan (wasm_SendStream * RecvStream)) : WasmSession fchan := {|
  w_limits := l; w_outbound := out; w_outbound_tx := 0; w_pending_credit := ∅;
  w_accept_uni_tx := Some 0%nat; w_accept_bi_tx := Some 0%nat;
  w_accept_uni_chan := uni; w_accept_bi_chan := bi; w_accept_uni_refs := 1; w_accept_bi_refs := 1;
  w_streams := ∅; w_send_flows := ∅;
  w_next_uni := 0; w_next_bi := 0; w_next_peer_uni := 0; w_next_peer_bi := 0;
  w_closed := false; w_shutdown_started := false; w_session_handles := 1;
  w_close_waiters := []; w_task_finished := false;
  w_flows := []; w_recv_cells := []; w_send_cells := []; w_send_locals := []; w_waiters := [];
  w_now := 0; w_wire := []; w_out_log := []; w_flow_of := ∅
|}.

Definition wasm_Session_new `{UsizeWidth} (l : wasm_Limits) : result (WasmSession fchan) :=
  _ ← wasm_Limits_validate l;
  Ok (wasm_SessionInner_new l (f_channel (outbound_queue_len l))
        (f_channel (accept_uni_queue_len l)) (f_channel (accept_bi_queue_len l))).

Definition wasm_open_uni : st (result wasm_SendStream) :=
  let! id := wasm_next_stream_id Uni in
  let! flow := wasm_register_send_flow id 0 in
  r ← wasm_send_frame (OpenUni id);
  match r with
  | Err err => wasm_remove_send_flow id;; mret (Err err)
  | _ => h ← wasm_SendStream_new id flow; mret (Ok h)
  end.

Definition wasm_open_bi : st (result (wasm_SendStream * RecvStream)) :=
  let! id := wasm_next_stream_id Bi in
  let! flow := wasm_register_send_flow id 0 in
  recv ← wasm_register_recv_stream id;
  let undo err : st (result (wasm_SendStream * RecvStream)) :=
    wasm_remove_stream id;;
    wasm_remove_send_flow id;;
    wasm_RecvStream_drop recv;;
    mret (Err err) in
  r ← wasm_send_frame (OpenBi id);
  match r with
  | Err err => undo err
  | _ =>
      window ← wget (fun s => initial_stream_window (w_limits s));
      r ← wasm_send_frame (MaxStreamData id window);
      match r with
      | Err err => undo err
      | _ => h ← wasm_SendStream_new id flow; mret (Ok (h, recv))
      end
  end.

(** The mutex around a receiving end only orders the callers that wait on it. *)
Definition wasm_accept_uni : wprog fchan (result RecvStream) :=
  await (fun s => match f_next (w_accept_uni_chan s) with
                  | (RecvItem h, c) => Some (set_w_accept_uni_chan c s, Ok h)
                  | (RecvEnd, c) => Some (set_w_accept_uni_chan c s, Err Closed)
                  | (RecvPending, _) => None
                  end).
Definition wasm_accept_bi : wprog fchan (result (wasm_SendStream * RecvStream)) :=
  await (fun s => match f_next (w_accept_bi_chan s) with
                  | (RecvItem h, c) => Some (set_w_accept_bi_chan c s, Ok h)
                  | (RecvEnd, c) => Some (set_w_accept_bi_chan c s, Err Closed)
                  | (RecvPending, _) => None
                  end).

(** Enter a waiter, forgetting the cancelled ones; [None] when the task is done. *)
Definition w_add_waiter : st (option nat) := fun s =>
  if w_task_finished s then (s, None)
  else
    let l := length (w_waiters s) in
    let live := List.filter
      (fun k => match w_waiters s !! k with Some Canceled => false | _ => true end)
      (w_close_waiters s) in
    (set_w_close_waiters (live ++ [l]) (set_w_waiters (w_waiters s ++ [Waiting]) s), Some l).
Definition w_cancel_waiter (l : nat) : st unit :=
  wmod (fun s => set_w_waiters (alter (fun w => match w with Waiting => Canceled | w => w end) l
                                  (w_waiters s)) s).

Definition wasm_wait_closed : wprog fchan (result unit) :=
  let* o := atomic w_add_waiter in
  match o with
  | None => Ret (Ok tt)
  | Some l =>
      with_drop (atomic (w_cancel_waiter l))
        (await (fun s => match w_waiters s !! l with
                         | Some Woken => Some (s, Ok tt)
                         | _ => None
                         end))
  end.

Definition wasm_shutdown : wprog fchan (result unit) :=
  atomic wasm_request_shutdown;;;
  wasm_wait_closed.

Definition wasm_Session_is_closed s : bool := w_task_finished s.

Definition wasm_Session_clone : st unit := wmod (fun s =>
  set_w_accept_bi_refs (w_accept_bi_refs s + 1)
    (set_w_accept_uni_refs (w_accept_uni_refs s + 1)
       (set_w_session_handles (w_session_handles s + 1) s))).

Definition w_drop_each {A} (d : A -> st unit) (l : list A) : st unit :=
  foldr (fun a m => d a;; m) (mret tt) l.

(** The receiving ends are dropped with the last handle. *)
Definition w_drop_accept_uni : st unit :=
  l ← wop (fun s =>
    let s' := set_w_accept_uni_refs (w_accept_uni_refs s - 1) s in
    if w_accept_uni_refs s =? 1
    then match f_rx_drop (w_accept_uni_chan s) with (l, c) => (set_w_accept_uni_chan c s', l) end
    else (s', []));
  w_drop_each wasm_RecvStream_drop l.
Definition w_drop_accept_bi : st unit :=
  l ← wop (fun s =>
    let s' := set_w_accept_bi_refs (w_accept_bi_refs s - 1) s in
    if w_accept_bi_refs s =? 1
    then match f_rx_drop (w_accept_bi_chan s) with (l, c) => (set_w_accept_bi_chan c s', l) end
    else (s', []));
  w_drop_each wasm_drop_pair l.

Definition wasm_Session_drop : st unit :=
  remaining ← wop (fun s => (set_w_session_handles (w_session_handles s - 1) s,
                             w_session_handles s - 1));
  (if remaining =? 0 then wasm_request_shutdown else mret tt);;
  w_drop_accept_uni;;
  w_drop_accept_bi.

(** ** The session task

    The connection is the environment: [recv] yields the given items, [sink] says
    which sends succeed after what was sent before, [close_done] when [close]
    completes.  [select!] picks between ready branches by the oracle [pick]. *)

(** Decode and handle the frames of one message; [false] leaves the loop. *)
Fixpoint wasm_inbound_frames `{UsizeWidth} (fuel : nat) (cursor : list byte) : st bool :=
  if has_remaining cursor then
    match fuel with
    | O => mret false
    | S fuel =>
        match Frame_decode cursor with
        | Ok (frame, rest) =>
            r ← wasm_handle_frame frame;
            if is_ok r then wasm_inbound_frames fuel rest else mret false
        | _ => wasm_protocol_error 1 "invalid frame";; mret false
        end
    end
  else mret true.

Definition wasm_on_message `{UsizeWidth} (msg : result Message) : st bool :=
  match msg with
  | Ok (Binary data) => fun s =>
      if max_ws_message_size (w_limits s) <? blen data
      then (wasm_protocol_error 2 "ws message too large";; mret false) s
      else wasm_inbound_frames (length data) data s
  | Ok (Text _) => wasm_protocol_error 1 "text message not supported";; mret false
  | _ => mret false
  end.

(** [outbound_rx.try_recv()] *)
Definition w_try_recv : st (option Frame) := fun s =>
  match f_next (w_outbound s) with
  | (RecvItem (WFrame f), c) => (set_w_outbound c s, Some f)
  | (_, c) => (set_w_outbound c s, None)
  end.

Definition w_batch_limit (l : Limits) : Z := Z.min (max_batch_bytes l) (max_ws_message_size l).

(** Fill a batch; a frame that does not fit is kept for the next one.  A round adds
    one frame, so [max_batch_frames] rounds suffice.  [None] is a panic of [encode]. *)
Fixpoint wasm_fill_batch (fuel : nat) (batch : list byte) (batch_frames : Z) :
  st (option (list byte * option Frame)) := fun s =>
  match fuel with
  | O => (s, Some (batch, None))
  | S fuel =>
      if (max_batch_frames (w_limits s) <=? batch_frames)
         || (w_batch_limit (w_limits s) <=? blen batch)
      then (s, Some (batch, None))
      else match w_try_recv s with
      | (s, Some next_frame) =>
          match Frame_encode next_frame with
          | Ok next =>
              if negb (bool_decide (batch = [])) && (w_batch_limit (w_limits s) <? blen batch + blen next)
              then (s, Some (batch, Some next_frame))
              else wasm_fill_batch fuel (batch ++ next) (batch_frames + 1) s
          | _ => (s, None)
          end
      | (s, None) => (s, Some (batch, None))
      end
  end.

Definition wasm_make_batch (f : Frame) : st (option (list byte * option Frame)) := fun s =>
  match Frame_encode f with
  | Ok encoded => wasm_fill_batch (Z.to_nat (max_batch_frames (w_limits s))) encoded 1 s
  | _ => (s, None)
  end.

Inductive wasm_event : Type :=
| EvRecv (msg : result Message) (rest : list (result Message))
| EvOut (cmd : option Frame).

(** The [out] branch without a kept frame; [credit] prefers a credit update. *)
Definition w_next_out (credit : bool) s : option (WasmSession fchan * option Frame) :=
  let queued := match f_next (w_outbound s) with
                | (RecvItem (WFrame f), c) => Some (set_w_outbound c s, Some f)
                | (RecvEnd, c) => Some (set_w_outbound c s, None)
                | (RecvPending, _) => None
                end in
  let update := match wasm_next_credit s with Some (s, f) => Some (s, Some f) | None => None end in
  match queued, update with
  | Some q, Some u => Some (if credit then u else q)
  | Some q, None => Some q
  | None, u => u
  end.

Definition w_select (pick : bool * bool) (pending_frame : option Frame)
    (items : list (result Message)) s : option (WasmSession fchan * wasm_event) :=
  let recv := match items with m :: rest => Some (s, EvRecv m rest) | [] => None end in
  let out := match pending_frame with
             | Some f => Some (s, EvOut (Some f))
             | None => match w_next_out pick.2 s with
                       | Some (s, o) => Some (s, EvOut o)
                       | None => None
                       end
             end in
  match recv, out with
  | Some r, Some o => Some (if pick.1 then r else o)
  | Some r, None => Some r
  | None, o => o
  end.

Context (sink : list (list byte) -> list byte -> bool).
Context (close_done : list (list byte) -> bool).

(** [conn.send(Message::Binary(batch)).await] *)
Definition w_conn_send (batch : list byte) : wprog fchan bool :=
  await (fun s => if sink (w_wire s) batch
                  then Some (set_w_wire (w_wire s ++ [batch]) s, true) else Some (s, false)).

(** The loop; [None] when a panic stops everything. *)
Fixpoint wasm_task_loop `{UsizeWidth} (pick : nat -> bool * bool) (rounds : nat)
    (pending_frame : option Frame) (items : list (result Message)) : wprog fchan (option unit) :=
  match rounds with
  | O => Ret None
  | S rounds =>
      let* ev := await (w_select (pick rounds) pending_frame items) in
      match ev with
      | EvRecv msg rest =>
          let* continue := atomic (wasm_on_message msg) in
          if (continue : bool) then wasm_task_loop pick rounds pending_frame rest else Ret (Some tt)
      | EvOut None => Ret (Some tt)
      | EvOut (Some f) =>
          let* b := atomic (wasm_make_batch f) in
          match b with
          | None => Ret None
          | Some (batch, kept) =>
              let* sent := w_conn_send batch in
              if (sent : bool) then wasm_task_loop pick rounds kept items else Ret (Some tt)
          end
      end
  end.

(** After the loop: close with a deadline of five seconds, then release everything. *)
Definition wasm_task_end : wprog fchan unit :=
  let* start := gets w_now in
  let* _ := await (fun s => if close_done (w_wire s) || (start + 5000 <=? w_now s)
                            then Some (s, tt) else None) in
  atomic (wop (fun s => (set_w_outbound (f_rx_drop (w_outbound s)).2 s, tt)));;;
  atomic wasm_close_all;;;
  atomic wasm_finish_task.

Definition wasm_task `{UsizeWidth} (pick : nat -> bool * bool) (rounds : nat)
    (items : list (result Message)) : wprog fchan unit :=
  let* r := wasm_task_loop pick rounds None items in
  match r with Some _ => wasm_task_end | None => Ret tt end.
End WasmSession.
