(* ===== verification/WasmInv.v ===== *)
(** * The browser session: invariant

    The invariant is split by what it reads: [send_inv] is about the send flows,
    the frames queued so far and the stream counters ([sview]), [recv_inv] about
    the receive states, their cells and the pending credit, [queue_inv] about what
    the channels hold.  An update of a field outside a part keeps it trivially. *)

From S2P Require Import Prelude Buf VarInt Frame Proto Limits SendFlow Channel Async NativeState.
From S2P Require Import NativeOps NativeStream NativeRecv NativeSession NativeTasks Credit NativeInv.
From S2P Require Import FuturesChannel WasmState WasmOps WasmStreams WasmSession.

(** ** Order of the queued frames *)

(** [f] ends the send direction of [id]. *)
Definition terminal (id : StreamId) (f : Frame) : Prop :=
  match f with
  | ResetStream i _ | Stream i _ true => i = id
  | _ => False
  end.

(** No stream frame, data or FIN, follows the FIN or the reset of its stream.  (A reset
    may: resetting a finished stream queues it.) *)
Definition terminal_final (l : list Frame) : Prop :=
  forall i j id f data fin,
    l !! i = Some f -> terminal id f -> l !! j = Some (Stream id data fin) -> (j <= i)%nat.

Definition open_id (f : Frame) : option StreamId :=
  match f with OpenUni id | OpenBi id => Some id | _ => None end.
(** The direction an OPEN frame asks for. *)
Definition open_dir (f : Frame) : StreamDir := match f with OpenUni _ => Uni | _ => Bi end.

(** Streams of a direction are opened in the order of their identifiers. *)
Definition opens_ordered (l : list Frame) : Prop :=
  forall i j f g a b, (i < j)%nat -> l !! i = Some f -> l !! j = Some g ->
    open_id f = Some a -> open_id g = Some b -> StreamId_dir a = StreamId_dir b ->
    StreamId_counter a < StreamId_counter b.

Lemma terminal_final_snoc l f :
  terminal_final l ->
  (forall id data fin g, f = Stream id data fin -> g ∈ l -> ~ terminal id g) ->
  terminal_final (l ++ [f]).
Proof.
  intros Hl Hf i j id g data fin Hi Ht Hj.
  apply lookup_snoc_inv in Hi as [Hi|[-> ->]]; apply lookup_snoc_inv in Hj as [Hj|[-> Heq]].
  - eauto.
  - exfalso. eapply (Hf id data fin g); [done| |done]. by eapply list_elem_of_lookup_2.
  - apply lookup_lt_Some in Hj. lia.
  - done.
Qed.

Lemma opens_ordered_snoc l f :
  opens_ordered l ->
  (forall a b g, open_id f = Some b -> g ∈ l -> open_id g = Some a ->
     StreamId_dir a = StreamId_dir b -> StreamId_counter a < StreamId_counter b) ->
  opens_ordered (l ++ [f]).
Proof.
  intros Hl Hf i j g h a b Hij Hi Hj Ha Hb Hd.
  apply lookup_snoc_inv in Hi as [Hi|[-> ->]]; apply lookup_snoc_inv in Hj as [Hj|[-> ->]].
  - eauto.
  - eapply (Hf a b g); [done| |done..]. by eapply list_elem_of_lookup_2.
  - apply lookup_lt_Some in Hj. lia.
  - lia.
Qed.

(** ** The send part *)
Record sview : Set := mkSview {
  sv_limits : Limits;
  sv_flows : list SendFlowState;
  sv_open : gmap StreamId nat;
  sv_of : gmap StreamId nat;
  sv_log : list Frame;
  sv_uni : Z;
  sv_bi : Z;
  sv_puni : Z;
  sv_pbi : Z
}.

Definition sv_frontier (v : sview) (id : StreamId) : Z :=
  match negb (initiator_is_server id), StreamId_dir id with
  | true, Uni => sv_uni v
  | true, Bi => sv_bi v
  | false, Uni => sv_puni v
  | false, Bi => sv_pbi v
  end.

Definition sv_accounts (v : sview) (T : gset tok) (id : StreamId) (l : nat) : Prop :=
  exists fl, sv_flows v !! l = Some fl
    /\ flow_sent fl = logged id (sv_log v) + held id T
    /\ flow_sent fl <= flow_max fl < u64_mod.

Record send_inv (v : sview) (T : gset tok) : Prop := {
  si_limits : limits_ok (sv_limits v);
  si_map : sv_open v ⊆ sv_of v;
  si_size : Z.of_nat (size (sv_open v)) <= max_open_streams (sv_limits v);
  si_accounts : forall id l, sv_of v !! id = Some l -> sv_accounts v T id l;
  si_inj : forall i j l, sv_of v !! i = Some l -> sv_of v !! j = Some l -> i = j;
  si_live : forall id l fl, sv_of v !! id = Some l -> sv_flows v !! l = Some fl ->
      flow_closed fl = false -> sv_open v !! id = Some l;
  si_open : forall id l fl, sv_open v !! id = Some l -> sv_flows v !! l = Some fl ->
      flow_closed fl = false;
  si_ids : forall id, is_Some (sv_of v !! id) ->
      sid_ok id /\ StreamId_counter id < sv_frontier v id;
  si_unsent : forall id, sv_of v !! id = None -> held id T = 0 /\ logged id (sv_log v) = 0;
  si_tok : tok_nonneg T;
  si_next : 0 <= sv_uni v /\ 0 <= sv_bi v;
  si_log : Forall (sendable (sv_limits v)) (sv_log v);
  si_terminal : forall id f, f ∈ sv_log v -> terminal id f ->
      is_Some (sv_of v !! id) /\ sv_open v !! id = None;
  si_final : terminal_final (sv_log v);
  si_opened : opened_first false (sv_log v);
  si_opens : forall f id, f ∈ sv_log v -> open_id f = Some id ->
      initiator_is_server id = false /\ StreamId_counter id < sv_frontier v id;
  si_dirs : forall f id, f ∈ sv_log v -> open_id f = Some id -> StreamId_dir id = open_dir f;
  si_ordered : opens_ordered (sv_log v)
}.

Definition sv_set_log (l : list Frame) (v : sview) : sview :=
  mkSview (sv_limits v) (sv_flows v) (sv_open v) (sv_of v) l (sv_uni v) (sv_bi v) (sv_puni v) (sv_pbi v).
Definition sv_set_flows (fs : list SendFlowState) (v : sview) : sview :=
  mkSview (sv_limits v) fs (sv_open v) (sv_of v) (sv_log v) (sv_uni v) (sv_bi v) (sv_puni v) (sv_pbi v).
Definition sv_set_maps (fs : list SendFlowState) (o f : gmap StreamId nat) (v : sview) : sview :=
  mkSview (sv_limits v) fs o f (sv_log v) (sv_uni v) (sv_bi v) (sv_puni v) (sv_pbi v).
Definition sv_set_next (u b pu pb : Z) (v : sview) : sview :=
  mkSview (sv_limits v) (sv_flows v) (sv_open v) (sv_of v) (sv_log v) u b pu pb.

Implicit Types (v : sview) (T : gset tok) (id : StreamId).

Lemma frame_amount_nonneg id f : 0 <= frame_amount id f.
Proof. unfold frame_amount, blen. repeat case_match; lia. Qed.

(** A frame is queued; [T'] is [T] without the credit it spends. *)
Lemma send_push v T T' f :
  send_inv v T -> sendable (sv_limits v) f ->
  (forall id data fin, f = Stream id data fin ->
     fin = false /\ is_Some (sv_open v !! id) /\ stream_opened false (sv_log v) id) ->
  (forall id code, f = ResetStream id code -> is_Some (sv_of v !! id) /\ sv_open v !! id = None) ->
  (forall id, open_id f = Some id -> initiator_is_server id = false
     /\ StreamId_dir id = open_dir f /\ StreamId_counter id < sv_frontier v id
     /\ forall g a, g ∈ sv_log v -> open_id g = Some a -> StreamId_dir a = StreamId_dir id ->
          StreamId_counter a < StreamId_counter id) ->
  (forall id, frame_amount id f + held id T' = held id T) -> tok_nonneg T' ->
  send_inv (sv_set_log (sv_log v ++ [f]) v) T'.
Proof.
  intros HI Hf Hstream Hreset Hopen Hheld Htok. destruct HI. constructor; simpl; try done.
  - intros id l Hl. destruct (si_accounts0 id l Hl) as (fl & ? & Hsent & ?). exists fl. simpl.
    rewrite logged_app. simpl. specialize (Hheld id). split_and!; [done|lia..].
  - intros id Hid. destruct (si_unsent0 id Hid). specialize (Hheld id).
    pose proof (held_nonneg id T' Htok). pose proof (frame_amount_nonneg id f).
    rewrite logged_app. simpl. lia.
  - apply Forall_app. auto.
  - intros id g [Hin|Hin%list_elem_of_singleton]%elem_of_app Ht; [eauto|]. subst g.
    destruct f as [| |i data fin|i code| | |]; simpl in Ht; try done.
    + destruct fin; [|done]. by destruct (Hstream _ _ _ eq_refl).
    + subst i. eauto.
  - apply terminal_final_snoc; [done|]. intros id data fin g -> Hg Ht.
    destruct (Hstream _ _ _ eq_refl) as (_ & [l Hl] & _). destruct (si_terminal0 _ _ Hg Ht). congruence.
  - apply opened_first_snoc; [done|]. intros id data fin ->. by eapply Hstream.
  - intros g id [Hin|Hin%list_elem_of_singleton]%elem_of_app Hg; [eauto|]. subst g. by destruct (Hopen id Hg) as (? & _ & ? & _).
  - intros g id [Hin|Hin%list_elem_of_singleton]%elem_of_app Hg; [eauto|]. subst g. by destruct (Hopen id Hg) as (_ & ? & _).
  - apply opens_ordered_snoc; [done|]. intros a b g Hb Hg Ha Hd.
    destruct (Hopen b Hb) as (_ & _ & _ & Hlt). by eapply Hlt.
Qed.

(** Frames that are neither data, nor resets, nor OPENs. *)
Definition plain (f : Frame) : Prop :=
  match f with StopSending _ _ | MaxStreamData _ _ | ConnectionClose _ _ => True | _ => False end.

Lemma send_push_plain v T f :
  send_inv v T -> sendable (sv_limits v) f -> plain f ->
  send_inv (sv_set_log (sv_log v ++ [f]) v) T.
Proof.
  intros HI Hf Hp. apply (send_push v T T f HI Hf); try by destruct f.
  apply HI.
Qed.

Lemma send_push_reset v T id code :
  send_inv v T -> varint_ok code -> is_Some (sv_of v !! id) -> sv_open v !! id = None ->
  send_inv (sv_set_log (sv_log v ++ [ResetStream id code]) v) T.
Proof.
  intros HI Hc Hof Hopen. destruct (si_ids _ _ HI id Hof) as [Hid _].
  apply (send_push v T T); try done; try apply HI. intros i c [= <- <-]. done.
Qed.

(** A flow is updated and tokens change along. *)
Lemma send_flow v T T' l f :
  send_inv v T ->
  (forall id fl, sv_of v !! id = Some l -> sv_flows v !! l = Some fl ->
     flow_sent (f fl) = flow_sent fl + (held id T' - held id T)
     /\ flow_sent (f fl) <= flow_max (f fl) < u64_mod) ->
  (forall fl, flow_closed (f fl) = flow_closed fl) ->
  (forall id, sv_of v !! id <> Some l -> held id T' = held id T) -> tok_nonneg T' ->
  send_inv (sv_set_flows (alter f l (sv_flows v)) v) T'.
Proof.
  intros HI Hf Hcl Hother Htok. destruct HI. constructor; simpl; try done.
  - intros id k Hk. destruct (si_accounts0 id k Hk) as (fl & Hl & Hsent & Hmax).
    unfold sv_accounts. simpl. destruct (decide (k = l)) as [->|Hne].
    + exists (f fl). rewrite list_lookup_alter_eq, Hl. destruct (Hf id fl Hk Hl). split_and!; [done|lia..].
    + exists fl. rewrite list_lookup_alter_ne by done. rewrite (Hother id) by congruence. done.
  - intros id k fl Hk Hfl Hc. destruct (decide (k = l)) as [->|Hne].
    + rewrite list_lookup_alter_eq in Hfl. destruct (sv_flows v !! l) eqn:E; [|done].
      injection Hfl as <-. rewrite Hcl in Hc. eauto.
    + rewrite list_lookup_alter_ne in Hfl by done. eauto.
  - intros id k fl Hk Hfl. destruct (decide (k = l)) as [->|Hne].
    + rewrite list_lookup_alter_eq in Hfl. destruct (sv_flows v !! l) eqn:E; [|done].
      injection Hfl as <-. rewrite Hcl. eauto.
    + rewrite list_lookup_alter_ne in Hfl by done. eauto.
  - intros id Hid. rewrite (Hother id) by congruence. auto.
Qed.

Lemma send_flow_keep v T l f :
  send_inv v T ->
  (forall fl, flow_sent fl <= flow_max fl < u64_mod ->
     flow_sent (f fl) = flow_sent fl /\ flow_max fl <= flow_max (f fl) < u64_mod) ->
  (forall fl, flow_closed (f fl) = flow_closed fl) ->
  send_inv (sv_set_flows (alter f l (sv_flows v)) v) T.
Proof.
  intros HI Hf Hcl. apply (send_flow v T T); try done; [|apply HI].
  intros id fl Hid Hl. destruct (si_accounts _ _ HI id l Hid) as (fl' & ? & ? & Hm).
  simplify_eq. destruct (Hf fl Hm). lia.
Qed.

Lemma send_update_max v T l m :
  send_inv v T -> is_u64 m -> send_inv (sv_set_flows (alter (update_max m) l (sv_flows v)) v) T.
Proof.
  intros HI Hm. apply send_flow_keep; [done|..]; unfold update_max, is_u64 in *;
    intros fl; repeat case_match; simpl; try done; lia.
Qed.

(** A reservation mints the token of what it grants; giving it back burns it. *)
Lemma send_reserve v T id l fl wanted k :
  send_inv v T -> sv_of v !! id = Some l -> sv_flows v !! l = Some fl -> 0 <= wanted ->
  let r := try_reserve wanted fl in
  let t := inr (id, r.1, k) in
  t ∉ T -> send_inv (sv_set_flows (alter (fun _ => r.2) l (sv_flows v)) v) ({[t]} ∪ T).
Proof.
  intros HI Hid Hl Hw r t Ht. destruct (si_accounts _ _ HI id l Hid) as (fl' & Hl' & Hsent & Hmax).
  simplify_eq. pose proof (try_reserve_grant wanted fl Hw ltac:(lia)) as Hr. fold r in Hr. cbv zeta in Hr.
  assert (Hcl : flow_closed r.2 = flow_closed fl)
    by (subst r; unfold try_reserve; by repeat case_match).
  assert (Halt : alter (fun _ => r.2) l (sv_flows v)
    = alter (fun x => mkFlow (flow_max r.2) (flow_sent r.2) (flow_closed x) (flow_wakes r.2)) l (sv_flows v)).
  { apply list_eq. intros i. destruct (decide (i = l)) as [->|]; [|by rewrite !list_lookup_alter_ne].
    rewrite !list_lookup_alter_eq, Hl. simpl. f_equal. rewrite <- Hcl. by destruct r.2. }
  rewrite Halt. apply (send_flow v T); try done.
  - intros i x Hi Hx. assert (i = id) as -> by (by eapply (si_inj _ _ HI)).
    rewrite held_add by done. simplify_eq. simpl. rewrite decide_True by done. lia.
  - intros i Hi. rewrite held_add by done. simpl. rewrite decide_False by congruence. lia.
  - intros i n k' [Hin%elem_of_singleton|Hin]%elem_of_union; [simplify_eq; lia|].
    by eapply (si_tok _ _ HI).
Qed.

Lemma send_release v T id l n k :
  send_inv v T -> sv_of v !! id = Some l -> inr (id, n, k) ∈ T ->
  send_inv (sv_set_flows (alter (release n) l (sv_flows v)) v) (T ∖ {[inr (id, n, k)]}).
Proof.
  intros HI Hid Ht. pose proof (si_tok _ _ HI) as Htok. apply (send_flow v T); try done.
  - intros i fl Hi Hl. assert (i = id) as -> by (by eapply (si_inj _ _ HI)).
    destruct (si_accounts _ _ HI id l Hid) as (fl' & ? & Hsent & Hmax). simplify_eq.
    pose proof (held_nonneg id _ (tok_nonneg_remove (inr (id, n, k)) T Htok)) as Hh.
    rewrite held_remove in Hh |- * by done. simpl in *. rewrite decide_True in Hh |- * by done.
    pose proof (Htok _ _ _ Ht). pose proof (logged_nonneg id (sv_log v)).
    unfold release, wrap64. destruct (n =? 0) eqn:E; simpl; [lia|].
    rewrite Z.mod_small by lia. lia.
  - intros fl. unfold release. by case_match.
  - intros i Hi. rewrite held_remove by done. simpl. rewrite decide_False by congruence. lia.
  - by apply tok_nonneg_remove.
Qed.

(** A direction is closed: its flow is closed and leaves the map. *)
Lemma send_remove v T id l :
  send_inv v T -> sv_open v !! id = Some l ->
  send_inv (sv_set_maps (alter flow_close l (sv_flows v)) (delete id (sv_open v)) (sv_of v) v) T.
Proof.
  intros HI Hopen. pose proof (lookup_weaken _ _ _ _ Hopen (si_map _ _ HI)) as Hof.
  destruct HI. constructor; simpl in *; try done.
  - etrans; [apply delete_subseteq|done].
  - etrans; [|exact si_size0]. by apply inj_le, map_subseteq_size, delete_subseteq.
  - intros i k Hk. destruct (si_accounts0 i k Hk) as (fl & Hl & ? & ?). unfold sv_accounts. simpl.
    destruct (decide (k = l)) as [->|Hne].
    + exists (flow_close fl). by rewrite list_lookup_alter_eq, Hl.
    + exists fl. by rewrite list_lookup_alter_ne.
  - intros i k fl Hi Hk Hc. destruct (decide (k = l)) as [->|Hne].
    { rewrite list_lookup_alter_eq in Hk. destruct (sv_flows v !! l); simplify_eq/=. }
    rewrite list_lookup_alter_ne in Hk by done. rewrite lookup_delete_ne by congruence. eauto.
  - intros i k fl [Hne Hi]%lookup_delete_Some Hk. rewrite list_lookup_alter_ne in Hk; [eauto|].
    intros <-. apply Hne. eapply si_inj0; [done|]. by eapply lookup_weaken.
  - intros i f Hin Ht. destruct (si_terminal0 i f Hin Ht). split; [done|]. apply lookup_delete_None. auto.
Qed.

(** FIN is queued and the direction closed in the same step. *)
Lemma send_fin v T id l :
  send_inv v T -> sv_open v !! id = Some l -> stream_opened false (sv_log v) id ->
  send_inv (sv_set_maps (alter flow_close l (sv_flows v)) (delete id (sv_open v)) (sv_of v)
              (sv_set_log (sv_log v ++ [Stream id [] true]) v)) T.
Proof.
  intros HI Hopen Hop. pose proof (lookup_weaken _ _ _ _ Hopen (si_map _ _ HI)) as Hof.
  assert (Hno : forall g, g ∈ sv_log v -> ~ terminal id g).
  { intros g Hg Ht. destruct (si_terminal _ _ HI id g Hg Ht). congruence. }
  destruct (si_ids _ _ HI id ltac:(by exists l)) as [Hid _].
  assert (Hz : forall i, logged i (sv_log v ++ [Stream id [] true]) = logged i (sv_log v)).
  { intros i. rewrite logged_app. simpl. case_decide; unfold blen; simpl; lia. }
  destruct (send_remove v T id l HI Hopen). constructor; simpl in *; try done.
  - intros i k Hk. destruct (si_accounts0 i k Hk) as (fl & ? & ? & ?). exists fl. simpl. by rewrite Hz.
  - intros i Hi. rewrite Hz. auto.
  - apply Forall_app. split; [done|]. apply Forall_singleton.
    split; [split; [done|apply varint_ok_small; unfold blen; simpl; lia]|].
    destruct si_limits0. unfold blen. simpl. lia.
  - intros i f [Hin|Hin%list_elem_of_singleton]%elem_of_app Ht; [eauto|]. subst f. simpl in Ht. subst i.
    split; [by exists l|]. apply lookup_delete_eq.
  - apply terminal_final_snoc; [done|]. intros i data fin g [= <- <- <-]. apply Hno.
  - apply opened_first_snoc; [done|]. by intros i data fin [= <- <- <-].
  - intros f i [Hin|Hin%list_elem_of_singleton]%elem_of_app Hf; [eauto|]. by subst f.
  - intros f i [Hin|Hin%list_elem_of_singleton]%elem_of_app Hf; [eauto|]. by subst f.
  - apply opens_ordered_snoc; [done|]. done.
Qed.

(** Closing every direction. *)
Lemma send_clear v T fs :
  send_inv v T ->
  (forall l fl, sv_flows v !! l = Some fl -> exists fl', fs !! l = Some fl'
     /\ flow_sent fl' = flow_sent fl /\ flow_max fl' = flow_max fl
     /\ (flow_closed fl' = false -> flow_closed fl = false)
     /\ (forall id, sv_open v !! id = Some l -> flow_closed fl' = true)) ->
  send_inv (sv_set_maps fs ∅ (sv_of v) v) T.
Proof.
  intros HI Hfs. destruct HI. constructor; simpl in *; try done.
  - apply map_empty_subseteq.
  - rewrite map_size_empty. destruct si_limits0. lia.
  - intros id l Hl. destruct (si_accounts0 id l Hl) as (fl & Hfl & ? & ?).
    destruct (Hfs l fl Hfl) as (fl' & ? & ? & ? & _). exists fl'. simpl. split_and!; [done|lia..].
  - intros id l fl Hl Hfl Hc. destruct (si_accounts0 id l Hl) as (fl0 & Hfl0 & _).
    destruct (Hfs l fl0 Hfl0) as (fl' & ? & _ & _ & Hc' & Hopen). simplify_eq.
    specialize (Hopen id (si_live0 id l fl0 Hl Hfl0 (Hc' Hc))). congruence.
  - intros id f Hin Ht. destruct (si_terminal0 id f Hin Ht). by rewrite lookup_empty.
Qed.

(** A new direction. *)
Lemma send_register v T id :
  send_inv v T -> sv_of v !! id = None -> sid_ok id -> StreamId_counter id < sv_frontier v id ->
  Z.of_nat (size (sv_open v)) < max_open_streams (sv_limits v) ->
  let l := length (sv_flows v) in
  send_inv (sv_set_maps (sv_flows v ++ [SendFlowState_new 0]) (<[id := l]> (sv_open v))
              (<[id := l]> (sv_of v)) v) T.
Proof.
  intros HI Hfresh Hsid Hfr Hsize l. destruct HI.
  assert (Hnew : sv_open v !! id = None).
  { destruct (sv_open v !! id) eqn:E; [|done]. by rewrite (lookup_weaken _ _ _ _ E si_map0) in Hfresh. }
  assert (Hlt : forall i k, sv_of v !! i = Some k -> (k < l)%nat).
  { intros i k Hk. destruct (si_accounts0 i k Hk) as (fl & Hfl & _). by eapply lookup_lt_Some. }
  constructor; simpl; try done.
  - by apply insert_mono.
  - rewrite map_size_insert_None by done. lia.
  - intros i k Hk. unfold sv_accounts. simpl. apply lookup_insert_Some in Hk as [[<- <-]|[Hne Hk]].
    + exists (SendFlowState_new 0). rewrite list_lookup_middle by done. simpl.
      destruct (si_unsent0 id Hfresh). unfold u64_mod. split_and!; [done|lia..].
    + destruct (si_accounts0 i k Hk) as (fl & Hfl & ? & ?). exists fl.
      rewrite lookup_app_l by (by eapply lookup_lt_Some). done.
  - intros i j k Hi Hj.
    apply lookup_insert_Some in Hi as [[<- <-]|[? Hi]], Hj as [[<- Hj]|[? Hj]]; subst; try done;
      [by apply Hlt in Hj; lia|apply Hlt in Hi; subst l; lia|eauto].
  - intros i k fl Hk Hfl Hc. apply lookup_insert_Some in Hk as [[<- <-]|[Hne Hk]]; [by rewrite lookup_insert_eq|].
    rewrite lookup_insert_ne by done. rewrite lookup_app_l in Hfl by eauto. eauto.
  - intros i k fl Hk Hfl. apply lookup_insert_Some in Hk as [[<- <-]|[Hne Hk]].
    + rewrite list_lookup_middle in Hfl by done. by simplify_eq.
    + rewrite lookup_app_l in Hfl by (eapply Hlt; by eapply lookup_weaken). eauto.
  - intros i Hi. destruct (decide (i = id)) as [->|]; [done|]. rewrite lookup_insert_ne in Hi by done. auto.
  - intros i Hi. apply lookup_insert_None in Hi as [Hi _]. auto.
  - intros i f Hin Ht. destruct (si_terminal0 i f Hin Ht) as [[k Hk] ?].
    assert (i <> id) by congruence. rewrite !lookup_insert_ne by done. split; [by exists k|done].
Qed.

(** The counters grow. *)
Lemma send_next v T u b pu pb :
  send_inv v T -> sv_uni v <= u -> sv_bi v <= b -> sv_puni v <= pu -> sv_pbi v <= pb ->
  send_inv (sv_set_next u b pu pb v) T.
Proof.
  intros HI Hu Hb Hpu Hpb.
  assert (Hfr : forall id, sv_frontier v id <= sv_frontier (sv_set_next u b pu pb v) id).
  { intros id. unfold sv_frontier. simpl. repeat case_match; lia. }
  destruct HI. constructor; simpl; try done.
  - intros id Hid. destruct (si_ids0 id Hid). split; [done|]. eapply Z.lt_le_trans; [done|apply Hfr].
  - lia.
  - intros f id Hin Hf. destruct (si_opens0 f id Hin Hf). split; [done|].
    eapply Z.lt_le_trans; [done|apply Hfr].
Qed.

(** ** The receive part *)
Section RecvPart.
Context {fchan : Type -> Type}.

Definition w_cell_ok (c : RecvCell fchan) : Prop :=
  rc_granted c = rc_max_data c /\ 0 <= rc_max_data c <= VarInt_MAX /\ 0 <= rc_consumed c.

Record recv_inv (l : Limits) (streams : gmap StreamId RecvState) (cells : list (RecvCell fchan))
    (pending : gmap StreamId Z) : Prop := {
  ri_credit_size : Z.of_nat (size pending) <= max_open_streams l;
  ri_credit : map_Forall (fun id x => sid_ok id /\ varint_ok x) pending;
  ri_streams : map_Forall (fun id st => sid_ok id /\ exists c,
      cells !! recv_cell st = Some c /\ 0 <= received st <= rc_max_data c) streams;
  ri_cells : Forall w_cell_ok cells
}.

(** A cell is updated; its limit does not shrink. *)
Lemma recv_cell_upd l st cs p k f :
  recv_inv l st cs p ->
  (forall c, cs !! k = Some c -> w_cell_ok c -> w_cell_ok (f c) /\ rc_max_data c <= rc_max_data (f c)) ->
  recv_inv l st (alter f k cs) p.
Proof.
  intros [Hs Hc Hst Hcs] Hf. constructor; try done.
  - intros id x Hx. destruct (Hst id x Hx) as (? & c & Hk & Hr). split; [done|].
    destruct (decide (recv_cell x = k)) as [<-|Hne].
    + exists (f c). rewrite list_lookup_alter_eq, Hk. simpl. split; [done|].
      destruct (Hf c Hk ltac:(by eapply Forall_lookup_1)). lia.
    + exists c. by rewrite list_lookup_alter_ne.
  - apply Forall_lookup_2. intros i c Hi. destruct (decide (i = k)) as [->|Hne].
    + rewrite list_lookup_alter_eq in Hi. destruct (cs !! k) as [c0|] eqn:E; [|done].
      injection Hi as <-. apply Hf; [done|]. by eapply Forall_lookup_1.
    + rewrite list_lookup_alter_ne in Hi by done. by eapply Forall_lookup_1.
Qed.

(** Updates that leave the limit alone. *)
Lemma recv_cell_same l st cs p k f :
  recv_inv l st cs p ->
  (forall c, rc_max_data (f c) = rc_max_data c /\ rc_granted (f c) = rc_granted c
     /\ rc_consumed (f c) = rc_consumed c) ->
  recv_inv l st (alter f k cs) p.
Proof.
  intros HI Hf. apply recv_cell_upd; [done|]. intros c _ (? & ? & ?).
  destruct (Hf c) as (Hm & Hg & Hc). unfold w_cell_ok. rewrite Hm, Hg, Hc. split_and!; try done; lia.
Qed.

Lemma recv_streams_sub l st st' cs p : recv_inv l st cs p -> st' ⊆ st -> recv_inv l st' cs p.
Proof.
  intros [] Hsub. constructor; try done. intros id x Hx. apply ri_streams0. by eapply lookup_weaken.
Qed.

Lemma recv_credit_sub l st cs p p' : recv_inv l st cs p -> p' ⊆ p -> recv_inv l st cs p'.
Proof.
  intros [] Hsub. constructor; try done.
  - etrans; [|exact ri_credit_size0]. by apply inj_le, map_subseteq_size.
  - intros id x Hx. apply ri_credit0. by eapply lookup_weaken.
Qed.

Lemma recv_credit_insert l st cs p id x :
  recv_inv l st cs p -> sid_ok id -> varint_ok x ->
  (p !! id = None -> Z.of_nat (size p) < max_open_streams l) ->
  recv_inv l st cs (<[id := match p !! id with Some old => Z.max old x | None => x end]> p).
Proof.
  intros HI Hid Hx Hsz. destruct HI. constructor; try done.
  - destruct (p !! id) eqn:E; [by rewrite map_size_insert_Some by (rewrite E; by eexists)|].
    rewrite map_size_insert_None by done. specialize (Hsz eq_refl). lia.
  - apply map_Forall_insert_2; [|done]. split; [done|]. destruct (p !! id) as [old|] eqn:E; [|done].
    destruct (ri_credit0 id old E). unfold varint_ok in *. lia.
Qed.

Lemma recv_streams_insert l st cs p id x :
  recv_inv l st cs p -> sid_ok id ->
  (exists c, cs !! recv_cell x = Some c /\ 0 <= received x <= rc_max_data c) ->
  recv_inv l (<[id := x]> st) cs p.
Proof. intros [] Hid Hx. constructor; try done. by apply map_Forall_insert_2. Qed.

Lemma recv_cells_app l st cs p c : recv_inv l st cs p -> w_cell_ok c -> recv_inv l st (cs ++ [c]) p.
Proof.
  intros [] Hc. constructor; try done; [|by apply Forall_app; auto].
  intros id x Hx. destruct (ri_streams0 id x Hx) as (? & c' & Hk & ?). split; [done|]. exists c'.
  rewrite lookup_app_l by (by eapply lookup_lt_Some). done.
Qed.

Lemma w_consume_ok n (c : RecvCell fchan) : 0 <= n -> w_cell_ok c ->
  w_cell_ok (consume n c).1 /\ rc_max_data c <= rc_max_data (consume n c).1
  /\ match (consume n c).2 with Some x => varint_ok x | None => True end.
Proof.
  intros Hn (Hg & Hm & Hc). unfold consume, w_cell_ok, varint_ok, saturating_add64.
  destruct (n =? 0); simpl; [done|].
  repeat (case_match; simpl; [unfold u64_max; split_and!; try done; lia|]).
  unfold u64_max in *. split_and!; try done; lia.
Qed.
End RecvPart.

(** ** The whole invariant *)
Section WasmInvariant.
Context {fchan : Type -> Type} `{FMpscLaws fchan}.
Implicit Types s : WasmSession fchan.

Definition fchan_all {A} (P : A -> Prop) (c : fchan A) : Prop := Forall P (fv_buf (fview_of c)).

Definition send_view s : sview :=
  mkSview (w_limits s) (w_flows s) (w_send_flows s) (w_flow_of s) (w_out_log s)
    (w_next_uni s) (w_next_bi s) (w_next_peer_uni s) (w_next_peer_bi s).

Definition w_cmd_ok (l : Limits) (c : wasm_OutboundCmd) : Prop := match c with WFrame f => sendable l f end.

(** A send handle may be used: its stream is registered with its flow, and its OPEN
    is queued when it was opened here. *)
Definition w_send_ok s (h : wasm_SendStream) : Prop :=
  sid_ok (ws_id h) /\ w_flow_of s !! ws_id h = Some (ws_flow h)
  /\ stream_opened false (w_out_log s) (ws_id h).
Definition w_recv_ok (h : RecvStream) : Prop := sid_ok (rs_id h).
Definition w_pair_ok s (p : wasm_SendStream * RecvStream) : Prop := w_send_ok s p.1 /\ w_recv_ok p.2.

Record winv s T : Prop := {
  wi_send : send_inv (send_view s) T;
  wi_recv : recv_inv (w_limits s) (w_streams s) (w_recv_cells s) (w_pending_credit s);
  wi_out : fchan_all (w_cmd_ok (w_limits s)) (w_outbound s);
  wi_uni : fchan_all w_recv_ok (w_accept_uni_chan s);
  wi_bi : fchan_all (w_pair_ok s) (w_accept_bi_chan s)
}.

(** How states follow each other. *)
Record wev s s' : Prop := {
  we_limits : w_limits s' = w_limits s;
  we_flow_of : w_flow_of s ⊆ w_flow_of s';
  we_retired : forall id, is_Some (w_flow_of s !! id) ->
      w_send_flows s !! id = None -> w_send_flows s' !! id = None;
  we_log : w_out_log s `prefix_of` w_out_log s';
  we_closed : w_closed s = true -> w_closed s' = true;
  we_shutdown : w_shutdown_started s = true -> w_shutdown_started s' = true;
  we_finished : w_task_finished s = true -> w_task_finished s' = true
}.

#[global] Instance wev_preorder : PreOrder wev.
Proof.
  split.
  - intros s. constructor; auto.
  - intros s1 s2 s3 [L1 F1 X1 P1 C1 D1 K1] [L2 F2 X2 P2 C2 D2 K2].
    constructor; [congruence|by etrans| |by etrans|auto..].
    intros id [l Hl] ?. apply X2; [|auto]. exists l. by eapply lookup_weaken.
Qed.

Definition w_no_wrap s : Prop := w_next_uni s + 1 < u64_mod /\ w_next_bi s + 1 < u64_mod.

Lemma w_send_ok_later s s' h : wev s s' -> w_send_ok s h -> w_send_ok s' h.
Proof.
  intros [] (? & ? & ?). split_and!; [done|by eapply lookup_weaken|by eapply stream_opened_prefix].
Qed.

Lemma w_pair_ok_later s s' p : wev s s' -> w_pair_ok s p -> w_pair_ok s' p.
Proof. intros HR []. split; [by eapply w_send_ok_later|done]. Qed.

Lemma fchan_all_impl {A} (P Q : A -> Prop) (c : fchan A) :
  (forall a, P a -> Q a) -> fchan_all P c -> fchan_all Q c.
Proof. intros HPQ Hc. by eapply Forall_impl. Qed.

(** *** Channel operations keep what holds of the messages *)
Section Messages.
Context {A : Type} (P : A -> Prop).

Lemma fchan_all_channel n : fchan_all P (f_channel n).
Proof. unfold fchan_all. rewrite fview_channel. constructor. Qed.
Lemma fchan_all_clone c : fchan_all P c -> fchan_all P (f_clone c).2.
Proof. unfold fchan_all. by rewrite fview_clone. Qed.
Lemma fchan_all_drop i c : fchan_all P c -> fchan_all P (f_drop i c).
Proof. unfold fchan_all. by rewrite fview_drop. Qed.
Lemma fchan_all_close c : fchan_all P c -> fchan_all P (f_close_channel c).
Proof. unfold fchan_all. by rewrite fview_close_channel. Qed.
Lemma fchan_all_poll_ready i c : fchan_all P c -> fchan_all P (f_poll_ready i c).2.
Proof. unfold fchan_all. by rewrite fview_poll_ready. Qed.
Lemma fchan_all_rx_drop c : fchan_all P (f_rx_drop c).2.
Proof. unfold fchan_all. rewrite fview_rx_drop. constructor. Qed.
Lemma fchan_all_try_send i a c : P a -> fchan_all P c -> fchan_all P (f_try_send i a c).2.
Proof.
  unfold fchan_all. rewrite fview_try_send. intros Ha Hc. case_match; simpl; [|done..].
  apply Forall_app; auto.
Qed.
Lemma fchan_all_try_send_refused i a c :
  (f_try_send i a c).1 <> SendOk -> fchan_all P c -> fchan_all P (f_try_send i a c).2.
Proof. unfold fchan_all. rewrite fview_try_send. intros Ha Hc. by case_match. Qed.
Lemma fchan_all_start_send i a c : P a -> fchan_all P c -> fchan_all P (f_start_send i a c).2.
Proof.
  unfold fchan_all. rewrite fview_start_send. intros Ha Hc. case_match; simpl; [|done].
  apply Forall_app; auto.
Qed.
Lemma fchan_all_next c : fchan_all P c -> fchan_all P (f_next c).2.
Proof.
  unfold fchan_all. rewrite fview_next. unfold fv_next. intros Hc.
  destruct (fv_buf (fview_of c)) eqn:E; simpl; [by rewrite E|]. by apply Forall_inv_tail in Hc.
Qed.
Lemma fchan_all_item c a : fchan_all P c -> (f_next c).1 = RecvItem a -> P a.
Proof.
  unfold fchan_all. rewrite f_next_res. unfold fv_next. intros Hc.
  destruct (fv_buf (fview_of c)) eqn:E; simpl; [by case_match|]. intros [= ->]. by apply Forall_inv in Hc.
Qed.
Lemma fchan_all_dropped c : fchan_all P c -> Forall P (f_rx_drop c).1.
Proof. unfold fchan_all. by rewrite f_rx_drop_msgs. Qed.
End Messages.
End WasmInvariant.
