(* ===== verification/WasmSteps.v ===== *)
(** * The browser session: synchronous methods keep the invariant

    [wkeep s0 m Post]: run in a state that follows [s0] and satisfies the
    invariant, [m] leads to a later state that satisfies it with the same tokens,
    and [Post] holds of the result there. *)

From S2P Require Import Prelude Buf VarInt Frame Proto Limits SendFlow Channel Async NativeState.
From S2P Require Import NativeOps NativeStream NativeRecv NativeSession NativeTasks Credit NativeInv.
From S2P Require Import FuturesChannel WasmState WasmOps WasmStreams WasmSession WasmInv.
Open Scope mux_scope.

Create HintDb wkeep.

Section WasmSteps.
Context {fchan : Type -> Type} `{FMpscLaws fchan} `{!MapOrder} `{!MapOrderLaws}.
Implicit Types (s : WasmSession fchan) (T : gset tok) (id : StreamId).
Abbreviation st := (wst fchan).

Definition wkeep {A} s0 (m : st A) (Post : A -> WasmSession fchan -> Prop) : Prop :=
  forall s T, wev s0 s -> winv s T ->
    wev s (m s).1 /\ winv (m s).1 T /\ Post (m s).2 (m s).1.
Definition wany {A} : A -> WasmSession fchan -> Prop := fun _ _ => True.

(** ** Rules *)
Lemma wkeep_mono {A} s0 (m : st A) (P Q : A -> WasmSession fchan -> Prop) :
  wkeep s0 m P -> (forall a s, wev s0 s -> P a s -> Q a s) -> wkeep s0 m Q.
Proof.
  intros Hm HPQ s T HR HI. destruct (Hm s T HR HI) as (? & ? & ?). split_and!; [done..|].
  apply HPQ; [by trans s|done].
Qed.
Lemma wkeep_any {A} s0 (m : st A) P : wkeep s0 m P -> wkeep s0 m wany.
Proof. intros Hm. by eapply wkeep_mono. Qed.
Lemma wkeep_later {A} s0 s1 (m : st A) P : wkeep s0 m P -> wev s0 s1 -> wkeep s1 m P.
Proof. intros Hm HR s T HR'. apply Hm. by trans s1. Qed.
Lemma wkeep_ret {A} s0 (a : A) (Post : A -> WasmSession fchan -> Prop) :
  (forall s, wev s0 s -> Post a s) -> wkeep s0 (mret a) Post.
Proof. intros HP s T HR HI. split_and!; [reflexivity|done|]. by apply HP. Qed.
Lemma wkeep_bind {A B} s0 (m : st A) (k : A -> st B) P Q :
  wkeep s0 m P -> (forall a s, wev s0 s -> P a s -> wkeep s (k a) Q) -> wkeep s0 (m ≫= k) Q.
Proof.
  intros Hm Hk s T HR HI. destruct (Hm s T HR HI) as (HR1 & HI1 & HP).
  unfold mbind, wst_bind. destruct (m s) as [s1 a]. simpl in *.
  destruct (Hk a s1 ltac:(by trans s) HP s1 T ltac:(reflexivity) HI1) as (? & ? & ?).
  split_and!; [by trans s1|done..].
Qed.
Lemma wkeep_seq {A B} s0 (m : st A) (k : A -> st B) Q :
  wkeep s0 m wany -> (forall a, wkeep s0 (k a) Q) -> wkeep s0 (m ≫= k) Q.
Proof. intros Hm Hk. eapply wkeep_bind; [done|]. intros a s HR _. by eapply wkeep_later. Qed.
Lemma wkeep_try {E A B} s0 (m : st (outcome E A)) (k : A -> st (outcome E B)) P Q :
  wkeep s0 m P -> (forall a s, wev s0 s -> P (Ok a) s -> wkeep s (k a) Q) ->
  (forall e s, Q (Err e) s) -> (forall s, Q Panic s) -> wkeep s0 (wtry m k) Q.
Proof.
  intros Hm Hk He Hp. eapply wkeep_bind; [done|]. intros [a|e|] s HR HP; [by apply Hk|by apply wkeep_ret..].
Qed.
Lemma wkeep_get {A} s0 (f : WasmSession fchan -> A) (Post : A -> WasmSession fchan -> Prop) :
  (forall s, wev s0 s -> Post (f s) s) -> wkeep s0 (wget f) Post.
Proof. intros HP s T HR HI. split_and!; [reflexivity|done|]. by apply HP. Qed.
Lemma wkeep_mod s0 f :
  (forall s T, wev s0 s -> winv s T -> wev s (f s) /\ winv (f s) T) -> wkeep s0 (wmod f) wany.
Proof. intros Hf s T HR HI. destruct (Hf s T HR HI). done. Qed.

(** From one given state: for conditions that later states need not satisfy. *)
Definition wat {A} s T (m : st A) (Post : A -> WasmSession fchan -> Prop) : Prop :=
  wev s (m s).1 /\ winv (m s).1 T /\ Post (m s).2 (m s).1.
Lemma wat_bind {A B} s T (m : st A) (k : A -> st B) P Q :
  wat s T m P ->
  (forall a s1, wev s s1 -> winv s1 T -> P a s1 -> wat s1 T (k a) Q) -> wat s T (m ≫= k) Q.
Proof.
  intros (HR1 & HI1 & HP) Hk. unfold wat, mbind, wst_bind in *. destruct (m s) as [s1 a]. simpl in *.
  destruct (Hk a s1 HR1 HI1 HP) as (? & ? & ?). split_and!; [by trans s1|done..].
Qed.
Lemma wat_keep {A} s T (m : st A) P : winv s T -> wkeep s m P -> wat s T m P.
Proof. intros HI Hm. apply Hm; [reflexivity|done]. Qed.

(** ** State updates *)
Definition wstep (f : WasmSession fchan -> WasmSession fchan) : Prop :=
  forall s T, winv s T -> wev s (f s) /\ winv (f s) T.

Lemma wstep_mod s0 f : wstep f -> wkeep s0 (wmod f) wany.
Proof. intros Hf. apply wkeep_mod. auto. Qed.
Lemma wstep_id : wstep (fun s => s).
Proof. intros s T HI. split; [reflexivity|done]. Qed.
Lemma wstep_comp f g : wstep f -> wstep g -> wstep (fun s => g (f s)).
Proof.
  intros Hf Hg s T HI. destruct (Hf s T HI) as [? HI1]. destruct (Hg _ T HI1). split; [by trans (f s)|done].
Qed.

(** The parts that a step leaves alone follow from the old invariant. *)
Lemma winv_intro s s' T T' :
  winv s T -> wev s s' -> send_inv (send_view s') T' ->
  recv_inv (w_limits s') (w_streams s') (w_recv_cells s') (w_pending_credit s') ->
  fchan_all (w_cmd_ok (w_limits s')) (w_outbound s') ->
  w_accept_uni_chan s' = w_accept_uni_chan s -> w_accept_bi_chan s' = w_accept_bi_chan s ->
  winv s' T'.
Proof.
  intros HI HR Hs Hr Ho Hu Hb. constructor; [done..| |].
  - rewrite Hu. apply HI.
  - rewrite Hb. eapply fchan_all_impl; [|apply HI]. intros p. by apply w_pair_ok_later.
Qed.

Ltac wev_tac := constructor; simpl; first [done | reflexivity | by intros; congruence | idtac].
Ltac wouter := let HI := fresh in intros ? ? HI; split; [wev_tac|eapply winv_intro; [exact HI|wev_tac|..]; simpl; try done; apply HI].

Lemma wstep_closed : wstep (set_w_closed true). Proof. wouter. Qed.
Lemma wstep_shutdown_started : wstep (set_w_shutdown_started true). Proof. wouter. Qed.
Lemma wstep_task_finished : wstep (set_w_task_finished true). Proof. wouter. Qed.
Lemma wstep_uni_tx x : wstep (set_w_accept_uni_tx x). Proof. wouter. Qed.
Lemma wstep_bi_tx x : wstep (set_w_accept_bi_tx x). Proof. wouter. Qed.
Lemma wstep_uni_refs x : wstep (set_w_accept_uni_refs x). Proof. wouter. Qed.
Lemma wstep_bi_refs x : wstep (set_w_accept_bi_refs x). Proof. wouter. Qed.
Lemma wstep_handles x : wstep (set_w_session_handles x). Proof. wouter. Qed.
Lemma wstep_close_waiters x : wstep (set_w_close_waiters x). Proof. wouter. Qed.
Lemma wstep_waiters x : wstep (set_w_waiters x). Proof. wouter. Qed.
Lemma wstep_send_cells x : wstep (set_w_send_cells x). Proof. wouter. Qed.
Lemma wstep_send_locals x : wstep (set_w_send_locals x). Proof. wouter. Qed.
Lemma wstep_now x : wstep (set_w_now x). Proof. wouter. Qed.
Lemma wstep_wire x : wstep (set_w_wire x). Proof. wouter. Qed.

Lemma wstep_on_shared h f : wstep (w_on_shared h f).
Proof. intros s T HI. by apply wstep_send_cells. Qed.
Lemma wstep_on_local h f : wstep (w_on_local h f).
Proof. intros s T HI. by apply wstep_send_locals. Qed.

Lemma wstep_outbound s T c :
  winv s T -> fchan_all (w_cmd_ok (w_limits s)) c -> wev s (set_w_outbound c s) /\ winv (set_w_outbound c s) T.
Proof.
  intros HI Hc. split; [wev_tac|]. eapply winv_intro; [exact HI|wev_tac|..]; simpl; try done; apply HI.
Qed.
Lemma wstep_uni_chan s T c :
  winv s T -> fchan_all w_recv_ok c ->
  wev s (set_w_accept_uni_chan c s) /\ winv (set_w_accept_uni_chan c s) T.
Proof. intros HI Hc. split; [wev_tac|]. destruct HI. by constructor. Qed.
Lemma wstep_bi_chan s T c :
  winv s T -> fchan_all (w_pair_ok s) c ->
  wev s (set_w_accept_bi_chan c s) /\ winv (set_w_accept_bi_chan c s) T.
Proof. intros HI Hc. split; [wev_tac|]. destruct HI. by constructor. Qed.

(** A step on the receive part. *)
Lemma wstep_recv s T m cs p :
  winv s T -> recv_inv (w_limits s) m cs p ->
  let s' := set_w_pending_credit p (set_w_recv_cells cs (set_w_streams m s)) in
  wev s s' /\ winv s' T.
Proof.
  intros HI Hr s'. assert (wev s s') by (subst s'; wev_tac). split; [done|].
  eapply winv_intro; [exact HI|done|..]; simpl; try done; apply HI.
Qed.

Lemma wstep_streams s T m :
  winv s T -> recv_inv (w_limits s) m (w_recv_cells s) (w_pending_credit s) ->
  wev s (set_w_streams m s) /\ winv (set_w_streams m s) T.
Proof. intros HI Hr. exact (wstep_recv s T m _ _ HI Hr). Qed.
Lemma wstep_cells s T cs :
  winv s T -> recv_inv (w_limits s) (w_streams s) cs (w_pending_credit s) ->
  wev s (set_w_recv_cells cs s) /\ winv (set_w_recv_cells cs s) T.
Proof. intros HI Hr. exact (wstep_recv s T _ cs _ HI Hr). Qed.
Lemma wstep_credit s T p :
  winv s T -> recv_inv (w_limits s) (w_streams s) (w_recv_cells s) p ->
  wev s (set_w_pending_credit p s) /\ winv (set_w_pending_credit p s) T.
Proof. intros HI Hr. exact (wstep_recv s T _ _ p HI Hr). Qed.

Lemma wstep_cell_same k f :
  (forall c : RecvCell fchan, rc_max_data (f c) = rc_max_data c /\ rc_granted (f c) = rc_granted c
     /\ rc_consumed (f c) = rc_consumed c) -> wstep (w_on_cell k f).
Proof. intros Hf s T HI. apply wstep_cells; [done|]. apply recv_cell_same; [apply HI|done]. Qed.
Lemma wstep_sender_drop k : wstep (w_sender_drop k).
Proof. by apply wstep_cell_same. Qed.

(** A frame enters the queue and the history. *)
Lemma wstep_push s T T' f c :
  winv s T -> fchan_all (w_cmd_ok (w_limits s)) c ->
  send_inv (sv_set_log (w_out_log s ++ [f]) (send_view s)) T' ->
  let s' := w_log_frame f (set_w_outbound c s) in wev s s' /\ winv s' T'.
Proof.
  intros HI Hc Hs s'. assert (wev s s') by (subst s'; wev_tac; by apply prefix_app_r). split; [done|].
  eapply winv_intro; [exact HI|done|..]; simpl; try done; apply HI.
Qed.

(** A step on the flows only. *)
Lemma wstep_flows s T T' fs :
  winv s T -> send_inv (sv_set_flows fs (send_view s)) T' ->
  wev s (set_w_flows fs s) /\ winv (set_w_flows fs s) T'.
Proof.
  intros HI Hs. split; [wev_tac|]. eapply winv_intro; [exact HI|wev_tac|..]; simpl; try done; apply HI.
Qed.
Lemma wstep_update_max l m : is_u64 m -> wstep (w_on_flow l (wasm_update_max m)).
Proof. intros Hm s T HI. eapply wstep_flows; [done|]. apply send_update_max; [apply HI|done]. Qed.
End WasmSteps.

(** Follow the structure of a synchronous method. *)
Ltac wgo :=
  lazymatch goal with
  | |- wkeep _ (mret _) _ => first [by apply wkeep_ret | apply wkeep_ret]
  | |- wkeep _ (_ ≫= _) _ => eapply wkeep_seq; [wgo|intros ?; wgo]
  | |- wkeep _ (wtry _ _) _ => eapply wkeep_try; [eapply wkeep_any; wgo|intros ? ? ? _; wgo|done|done]
  | |- wkeep _ (if ?b then _ else _) _ => destruct b; wgo
  | |- wkeep _ (match ?x with _ => _ end) _ => destruct x; wgo
  | |- wkeep _ (wget _) _ => by apply wkeep_get
  | |- wkeep _ (wmod _) _ => try solve [apply wstep_mod; eauto 3 with wkeep]
  | |- wkeep _ _ _ => try solve [eauto 4 with wkeep | eapply wkeep_any; eauto 4 with wkeep]
  | |- _ => idtac
  end.

#[export] Hint Resolve wstep_closed wstep_shutdown_started wstep_task_finished wstep_uni_tx
  wstep_bi_tx wstep_uni_refs wstep_bi_refs wstep_handles wstep_close_waiters wstep_waiters
  wstep_send_cells wstep_send_locals wstep_now wstep_wire wstep_on_shared wstep_on_local
  wstep_sender_drop wstep_id : wkeep.
