(* ===== verification/WasmSpecs.v ===== *)
(** * The browser session: specifications of the methods of [SessionInner]

    Each synchronous method keeps the invariant of [WasmInv]. *)

From S2P Require Import Prelude Buf VarInt Frame Proto Limits SendFlow Channel Async NativeState.
From S2P Require Import NativeOps NativeStream NativeRecv NativeSession NativeTasks Credit NativeInv.
From S2P Require Import FuturesChannel WasmState WasmOps WasmStreams WasmSession WasmInv WasmSteps.
Open Scope mux_scope.

Section WasmSpecs.
Context {fchan : Type -> Type} `{FMpscLaws fchan} `{!MapOrder} `{!MapOrderLaws}.
Implicit Types (s : WasmSession fchan) (T : gset tok) (id : StreamId).
Abbreviation st := (wst fchan).

(** ** Queueing frames *)
Lemma wkeep_request_shutdown s0 : wkeep s0 wasm_request_shutdown wany.
Proof.
  apply wkeep_mod. intros s T HR HI. case_match; [by apply wstep_id|].
  destruct (wstep_shutdown_started s T HI) as [HR1 HI1].
  destruct (wstep_outbound _ T (f_close_channel (w_outbound s)) HI1) as [HR2 HI2];
    [apply fchan_all_close, HI|]. split; [by etrans|exact HI2].
Qed.

Definition w_queued (f : Frame) (r : result unit) s : Prop :=
  match r with Ok _ => f ∈ w_out_log s | Err e => e = Closed | Panic => False end.

(** When the frame may follow what was queued, [try_send] keeps the invariant. *)
Lemma try_send_frame_ok s T f :
  winv s T -> sendable (w_limits s) f ->
  send_inv (sv_set_log (w_out_log s ++ [f]) (send_view s)) T ->
  let r := wasm_try_send_frame f s in
  wev s r.1 /\ winv r.1 T /\ w_queued f r.2 r.1 /\ w_flow_of r.1 = w_flow_of s
  /\ w_send_flows r.1 = w_send_flows s.
Proof.
  intros HI Hf Hs. unfold wasm_try_send_frame.
  pose proof (fchan_all_try_send (w_cmd_ok (w_limits s)) (w_outbound_tx s) (WFrame f) (w_outbound s)
    Hf (wi_out _ _ HI)) as Hc.
  destruct (f_try_send _ _ _) as [r c]. simpl in Hc. destruct r; simpl.
  - destruct (wstep_push s T T f c HI Hc Hs). split_and!; try done. apply elem_of_app. right. by left.
  - destruct (wstep_outbound s T c HI Hc). done.
  - destruct (wstep_outbound s T c HI Hc). done.
Qed.

Lemma wkeep_send_plain s0 f :
  sendable (w_limits s0) f -> plain f -> wkeep s0 (wasm_try_send_frame f) wany.
Proof.
  intros Hf Hp s T HR HI. rewrite <- (we_limits _ _ HR) in Hf.
  destruct (try_send_frame_ok s T f HI Hf) as (? & ? & _); [|done].
  apply send_push_plain; [apply HI|done..].
Qed.

(** The direction was registered and is closed. *)
Definition w_retired s id : Prop := is_Some (w_flow_of s !! id) /\ w_send_flows s !! id = None.
Lemma w_retired_later s s' id : wev s s' -> w_retired s id -> w_retired s' id.
Proof.
  intros HR [[l Hl] ?]. split; [exists l; eapply lookup_weaken; [done|apply HR]|].
  apply (we_retired _ _ HR); [by exists l|done].
Qed.

Lemma wkeep_send_reset s0 id code :
  varint_ok code -> w_retired s0 id -> wkeep s0 (wasm_try_send_frame (ResetStream id code)) wany.
Proof.
  intros Hc Hr s T HR HI. destruct (w_retired_later _ _ _ HR Hr) as [Hof Hopen].
  destruct (si_ids _ _ (wi_send _ _ HI) id Hof) as [Hid _].
  destruct (try_send_frame_ok s T (ResetStream id code) HI) as (? & ? & _); [done| |done].
  apply send_push_reset; [apply HI|done..].
Qed.

(** ** Credit *)
Lemma wkeep_queue_credit s0 id x :
  sid_ok id -> varint_ok x -> wkeep s0 (wasm_queue_credit id x) wany.
Proof.
  intros Hid Hx s T HR HI. unfold wasm_queue_credit.
  destruct (w_streams s !! id) as [rs|]; [|by split_and!; [reflexivity|done..]].
  destruct (stopped rs); [by split_and!; [reflexivity|done..]|]. cbv zeta.
  set (pending := w_prune_credit s).
  assert (Hr : recv_inv (w_limits s) (w_streams s) (w_recv_cells s) pending).
  { eapply recv_credit_sub; [apply HI|]. subst pending. unfold w_prune_credit.
    case_match; [apply map_filter_subseteq|done]. }
  unfold w_credit_full. destruct (_ && _) eqn:Efull.
  - destruct (wstep_credit s T pending HI Hr) as [HR1 HI1].
    destruct (wkeep_request_shutdown s _ T HR1 HI1) as (? & ? & _). split_and!; [by etrans|done..].
  - destruct (wstep_credit s T _ HI (recv_credit_insert _ _ _ _ id x Hr Hid Hx ltac:(
      intros Hn; rewrite bool_decide_eq_true_2 in Efull by done; lia))) as [? ?]. done.
Qed.

Lemma w_next_credit_ok s T s' f :
  winv s T -> wasm_next_credit s = Some (s', f) -> wev s s' /\ winv s' T /\ sendable (w_limits s) f.
Proof.
  intros HI. unfold wasm_next_credit. destruct (first_entry _) as [[id mx]|] eqn:E; [|done]. intros [= <- <-].
  apply first_entry_some in E.
  destruct (wstep_credit s T _ HI (recv_credit_sub _ _ _ _ _ (wi_recv _ _ HI) (delete_subseteq _ id))).
  split_and!; [done..|]. by destruct (ri_credit _ _ _ _ (wi_recv _ _ HI) id mx E).
Qed.

(** ** The maps *)
Lemma wkeep_remove_send_flow s0 id :
  wkeep s0 (wasm_remove_send_flow id) (fun b s => w_send_flows s !! id = None
    /\ (b = true -> is_Some (w_flow_of s !! id))).
Proof.
  intros s T HR HI. unfold wasm_remove_send_flow.
  destruct (w_send_flows s !! id) as [l|] eqn:E; [|by split_and!; [reflexivity|done..]].
  pose proof (send_remove _ _ id l (wi_send _ _ HI) E) as Hs. simpl.
  set (s' := w_on_flow _ _ _).
  assert (HR' : wev s s').
  { constructor; simpl; try done. intros i Hi Hn. apply lookup_delete_None. auto. }
  split_and!; [done| |by rewrite lookup_delete_eq|].
  - eapply winv_intro; [exact HI|done|exact Hs|..]; simpl; try done; apply HI.
  - intros _. exists l. eapply lookup_weaken; [exact E|apply (si_map _ _ (wi_send _ _ HI))].
Qed.

Lemma wkeep_stop_recv_stream s0 id : wkeep s0 (wasm_stop_recv_stream id) wany.
Proof.
  intros s T HR HI. unfold wasm_stop_recv_stream.
  destruct (w_streams s !! id) as [rs|] eqn:E; [|by split_and!; [reflexivity|done..]]. simpl.
  destruct (ri_streams _ _ _ _ (wi_recv _ _ HI) id rs E) as (Hid & Hc).
  destruct (wstep_recv s T (<[id := mkRecvState true (recv_cell rs) (received rs)]> (w_streams s))
    (w_recv_cells s) (delete id (w_pending_credit s)) HI) as [? ?]; [|done].
  apply (recv_streams_insert _ _ _ _ id); [|done|done].
  eapply recv_credit_sub; [apply HI|apply delete_subseteq].
Qed.

Lemma wkeep_remove_stream s0 id : wkeep s0 (wasm_remove_stream id) wany.
Proof.
  intros s T HR HI. unfold wasm_remove_stream.
  destruct (w_streams s !! id) as [rs|] eqn:E; [|by split_and!; [reflexivity|done..]].
  destruct (wstep_streams s T (delete id (w_streams s)) HI) as [HR1 HI1].
  { eapply recv_streams_sub; [apply HI|apply delete_subseteq]. }
  destruct (wstep_sender_drop (recv_cell rs) _ _ HI1). split_and!; [by etrans|done..].
Qed.

Lemma w_fresh_cell_ok l (ch : fchan RecvEvent) :
  limits_ok l -> w_cell_ok (mkRecvCell ch (initial_stream_window l) false [] 0
    (initial_stream_window l) (initial_stream_window l) (stream_window_update_threshold l) false).
Proof. intros []. unfold w_cell_ok. simpl. lia. Qed.

Lemma wkeep_register_recv_stream s0 id :
  sid_ok id -> wkeep s0 (wasm_register_recv_stream id) (fun h _ => rs_id h = id).
Proof.
  intros Hid s T HR HI. unfold wasm_register_recv_stream. cbv zeta.
  set (cell := mkRecvCell _ _ _ _ _ _ _ _ _).
  set (s1 := match w_streams s !! id with Some _ => _ | None => _ end).
  assert (Hs1 : wev s s1 /\ winv s1 T /\ w_limits s1 = w_limits s
    /\ length (w_recv_cells s1) = length (w_recv_cells s)).
  { subst s1. destruct (w_streams s !! id) as [old|]; [|by split_and!; [reflexivity|done..]].
    destruct (wstep_sender_drop (recv_cell old) s T HI). split_and!; [done..|]. simpl. apply length_alter. }
  destruct Hs1 as (HR1 & HI1 & Hl & Hlen).
  assert (Hcell : w_cell_ok cell).
  { apply w_fresh_cell_ok. apply (si_limits _ _ (wi_send _ _ HI)). }
  destruct (wstep_recv s1 T (<[id := mkRecvState false (length (w_recv_cells s)) 0]> (w_streams s1))
    (w_recv_cells s1 ++ [cell]) (w_pending_credit s1) HI1) as [HR2 HI2].
  - apply recv_streams_insert; [|done|].
    + apply recv_cells_app; [apply HI1|done].
    + exists cell. simpl. rewrite <- Hlen, list_lookup_middle by done. split; [done|].
      subst cell. simpl. pose proof (si_limits _ _ (wi_send _ _ HI)) as Hlim. simpl in Hlim. destruct Hlim. lia.
  - simpl. split_and!; [by etrans|exact HI2|done].
Qed.

(** ** Closing *)
Lemma clear_flows_lookup (ls : list nat) s k :
  w_flows (foldr (fun l => w_on_flow l wasm_flow_close) s ls) !! k
  = (fun fl => foldr (fun l fl => if decide (l = k) then flow_close fl else fl) fl ls) <$> (w_flows s !! k).
Proof.
  induction ls as [|l ls IH]; simpl; [by destruct (w_flows s !! k)|].
  destruct (decide (l = k)) as [->|Hne].
  - rewrite list_lookup_alter_eq, IH. by destruct (w_flows s !! k).
  - by rewrite list_lookup_alter_ne.
Qed.

Lemma foldr_close (ls : list nat) (k : nat) fl :
  let fl' := foldr (fun l fl => if decide (l = k) then flow_close fl else fl) fl ls in
  flow_sent fl' = flow_sent fl /\ flow_max fl' = flow_max fl
  /\ (flow_closed fl' = false -> flow_closed fl = false)
  /\ (k ∈ ls -> flow_closed fl' = true).
Proof.
  induction ls as [|l ls IH]; simpl; [by split_and!; try done; intros ?%elem_of_nil|].
  destruct IH as (? & ? & ? & Hin). destruct (decide (l = k)) as [->|Hne]; simpl; [done|].
  split_and!; [done..|]. intros [->|]%elem_of_cons; [done|auto].
Qed.

(** [foldr] over the flows touches nothing else. *)
Lemma clear_flows_same (ls : list nat) s :
  foldr (fun l => w_on_flow l wasm_flow_close) s ls
  = set_w_flows (w_flows (foldr (fun l => w_on_flow l wasm_flow_close) s ls)) s.
Proof. induction ls as [|l ls IH]; simpl; [by destruct s|]. by rewrite IH. Qed.

Lemma wstep_clear_send_flows : wstep (w_clear_send_flows (fchan := fchan)).
Proof.
  intros s T HI. unfold w_clear_send_flows. set (ls := (map_to_list (w_send_flows s)).*2).
  rewrite clear_flows_same. set (fs := w_flows _). set (s' := set_w_send_flows _ _).
  assert (HR : wev s s') by (constructor; simpl; done).
  split; [done|]. eapply winv_intro; [exact HI|done|..]; simpl; try done; try apply HI.
  apply (send_clear (send_view s)); [apply HI|]. simpl. intros l fl Hl.
  destruct (foldr_close ls l fl) as (? & ? & ? & Hin).
  exists (foldr (fun k fl => if decide (k = l) then flow_close fl else fl) fl ls).
  split_and!; [|done..|].
  - subst fs. rewrite clear_flows_lookup, Hl. done.
  - intros id Hid. apply Hin. subst ls. apply list_elem_of_fmap. exists (id, l).
    split; [done|]. by apply elem_of_map_to_list.
Qed.

Lemma wstep_clear_streams : wstep (w_clear_streams (fchan := fchan)).
Proof.
  intros s T HI. unfold w_clear_streams. generalize ((map_to_list (w_streams s)).*2). intros ls.
  apply (wstep_comp (fun s => foldr (fun rs => w_sender_drop (recv_cell rs)) s ls) (set_w_streams ∅));
    [..|done].
  - clear. induction ls as [|l ls IH]; [apply wstep_id|].
    apply (wstep_comp _ _ IH (wstep_sender_drop (recv_cell l))).
  - clear. intros s T HI. apply wstep_streams; [done|].
    eapply recv_streams_sub; [apply HI|apply map_empty_subseteq].
Qed.

Lemma wstep_take_accept_uni : wstep w_take_accept_uni.
Proof.
  intros s T HI. unfold w_take_accept_uni. destruct (w_accept_uni_tx s) as [i|]; [|by apply wstep_id].
  destruct (wstep_uni_chan s T (f_drop i (w_accept_uni_chan s)) HI) as [HR1 HI1];
    [apply fchan_all_drop, HI|]. destruct (wstep_uni_tx None _ _ HI1). split; [by etrans|done].
Qed.
Lemma wstep_take_accept_bi : wstep w_take_accept_bi.
Proof.
  intros s T HI. unfold w_take_accept_bi. destruct (w_accept_bi_tx s) as [i|]; [|by apply wstep_id].
  destruct (wstep_bi_chan s T (f_drop i (w_accept_bi_chan s)) HI) as [HR1 HI1];
    [apply fchan_all_drop, HI|]. destruct (wstep_bi_tx None _ _ HI1). split; [by etrans|done].
Qed.
Lemma wstep_no_credit : wstep (fchan := fchan) (set_w_pending_credit ∅).
Proof.
  intros s T HI. apply wstep_credit; [done|]. eapply recv_credit_sub; [apply HI|apply map_empty_subseteq].
Qed.

Lemma wkeep_close_all s0 : wkeep s0 wasm_close_all wany.
Proof.
  apply wkeep_mod. intros s T HR HI. destruct (w_closed s); [by apply wstep_id|].
  destruct (wstep_closed s T HI) as [R1 I1]. destruct (wstep_no_credit _ T I1) as [R2 I2].
  destruct (wstep_clear_streams _ T I2) as [R3 I3]. destruct (wstep_clear_send_flows _ T I3) as [R4 I4].
  destruct (wstep_take_accept_uni _ T I4) as [R5 I5]. destruct (wstep_take_accept_bi _ T I5) as [R6 I6].
  split; [|exact I6]. by repeat (etrans; [eassumption|]).
Qed.

Lemma wkeep_finish_task s0 : wkeep s0 wasm_finish_task wany.
Proof.
  apply wkeep_mod. intros s T HR HI. destruct (wstep_task_finished s T HI) as [R1 I1].
  destruct (wstep_waiters (foldr (fun l => alter (fun w => match w with Waiting => Woken | w => w end) l)
          (w_waiters s) (w_close_waiters s)) _ T I1) as [R2 I2].
  destruct (wstep_close_waiters [] _ T I2) as [R3 I3]. split; [|exact I3].
  by repeat (etrans; [eassumption|]).
Qed.

Lemma wkeep_protocol_error s0 code reason :
  frame_ok (ConnectionClose code reason) -> wkeep s0 (wasm_protocol_error code reason) wany.
Proof.
  intros Hr. unfold wasm_protocol_error.
  eapply wkeep_seq; [by apply wkeep_send_plain|]. intros _.
  eapply wkeep_seq; [apply wkeep_close_all|]. intros _. by apply wkeep_ret.
Qed.
End WasmSpecs.

#[export] Hint Resolve wkeep_request_shutdown wkeep_queue_credit wkeep_remove_send_flow
  wkeep_stop_recv_stream wkeep_remove_stream wkeep_close_all wkeep_finish_task : wkeep.
#[export] Hint Extern 2 (wkeep _ (wasm_protocol_error _ _) _) =>
  apply wkeep_protocol_error, close_frame_ok; vm_compute; reflexivity : wkeep.
