(* ===== verification/WasmSendSpecs.v ===== *)
(** * The browser session: send handles keep the invariant *)

From S2P Require Import Prelude Buf VarInt Frame Proto Limits SendFlow Channel Async NativeState.
From S2P Require Import NativeOps NativeStream NativeRecv NativeSession NativeTasks Credit NativeInv.
From S2P Require Import Keep FuturesChannel WasmState WasmOps WasmStreams WasmSession WasmInv.
From S2P Require Import WasmSteps WasmSpecs.
Open Scope mux_scope.

Section WasmSendSpecs.
Context {fchan : Type -> Type} `{FMpscLaws fchan} `{!MapOrder} `{!MapOrderLaws}.
Implicit Types (s : WasmSession fchan) (T : gset tok) (id : StreamId) (h : wasm_SendStream).
Abbreviation st := (wst fchan).

(** ** Guards *)
Lemma wkeep_select_api s0 h mode : wkeep s0 (wasm_select_api h mode) wany.
Proof.
  intros s T HR HI. unfold wasm_select_api. repeat case_match; simpl;
    try (by split_and!; [reflexivity|done..]). by destruct (wstep_on_shared h (set_api_mode mode) s T HI).
Qed.

Lemma wkeep_begin_operation s0 h mode : wkeep s0 (wasm_begin_operation h mode) wany.
Proof.
  unfold wasm_begin_operation. eapply wkeep_try; [apply wkeep_select_api| |done|done].
  intros _ s1 _ _ s T HR HI. unfold wop. case_match; [by split_and!; [reflexivity|done..]|].
  by destruct (wstep_on_shared h (set_operation true) s T HI).
Qed.

Lemma wkeep_end_operation s0 h : wkeep s0 (wasm_end_operation h) wany.
Proof. apply wstep_mod, wstep_on_shared. Qed.

Lemma wkeep_guarded {A} s0 h mode (m : st (result A)) :
  wkeep s0 m wany -> wkeep s0 (w_guarded h mode m) wany.
Proof.
  intros Hm. unfold w_guarded. eapply wkeep_try; [apply wkeep_begin_operation| |done|done].
  intros _ s1 HR _. eapply wkeep_seq; [by eapply wkeep_later|]. intros r.
  eapply wkeep_seq; [apply wkeep_end_operation|]. intros _. by apply wkeep_ret.
Qed.

(** ** Handles *)
Lemma wkeep_outbound_clone s0 : wkeep s0 w_outbound_clone wany.
Proof.
  intros s T HR HI. unfold w_outbound_clone.
  pose proof (fchan_all_clone _ _ (wi_out _ _ HI)) as Hc.
  destruct (f_clone (w_outbound s)) as [i c]. simpl in *. by destruct (wstep_outbound s T c HI Hc).
Qed.
Lemma wkeep_outbound_drop s0 i : wkeep s0 (w_outbound_drop i) wany.
Proof. apply wkeep_mod. intros s T HR HI. apply wstep_outbound; [done|]. apply fchan_all_drop, HI. Qed.
Lemma wkeep_new_local s0 i : wkeep s0 (w_new_local i) wany.
Proof. intros s T HR HI. unfold w_new_local. simpl. by destruct (wstep_send_locals (w_send_locals s ++ [mkWLocal i false]) s T HI). Qed.

Lemma wkeep_SendStream_new s0 id l :
  wkeep s0 (wasm_SendStream_new id l) (fun h _ => ws_id h = id /\ ws_flow h = l).
Proof.
  unfold wasm_SendStream_new. eapply wkeep_seq; [apply wkeep_outbound_clone|]. intros i.
  eapply wkeep_seq; [apply wkeep_new_local|]. intros k s T HR HI. unfold wop. simpl.
  destruct (wstep_send_cells (w_send_cells s ++ [mkSendShared false false 0 1]) s T HI). done.
Qed.

Lemma wkeep_SendStream_clone s0 h :
  w_send_ok s0 h -> wkeep s0 (wasm_SendStream_clone h) (fun h' s => w_send_ok s h').
Proof.
  intros Hh. unfold wasm_SendStream_clone. eapply wkeep_seq; [apply wkeep_outbound_clone|]. intros i.
  eapply wkeep_seq; [apply wkeep_new_local|]. intros k.
  eapply wkeep_seq; [apply wstep_mod, wstep_on_shared|]. intros _. apply wkeep_ret. intros s HR.
  by apply (w_send_ok_later _ _ _ HR) in Hh.
Qed.

(** ** Ending the direction *)
Lemma wkeep_reset s0 h code :
  0 <= code -> w_send_ok s0 h -> wkeep s0 (wasm_reset h code) wany.
Proof.
  intros Hc Hh. apply wkeep_guarded.
  unfold VarInt_from_u64. destruct (code <=? VarInt_MAX) eqn:E; [|by apply wkeep_ret].
  eapply wkeep_seq; [apply wstep_mod, wstep_on_shared|]. intros _.
  eapply wkeep_bind; [apply wkeep_remove_send_flow|]. intros b s HR [Hno _].
  apply wkeep_send_reset; [unfold varint_ok; lia|]. split; [|done].
  destruct (w_send_ok_later _ _ _ HR Hh) as (_ & -> & _). by eexists.
Qed.

Lemma wkeep_SendStream_drop s0 h : w_send_ok s0 h -> wkeep s0 (wasm_SendStream_drop h) wany.
Proof.
  intros Hh. unfold wasm_SendStream_drop. eapply wkeep_seq; [by apply wkeep_get|]. intros last.
  eapply wkeep_seq.
  - destruct last; [|by apply wkeep_ret].
    eapply wkeep_bind; [apply wkeep_remove_send_flow|]. intros b s HR [Hno _].
    assert (Hr : w_retired s (ws_id h)).
    { split; [|done]. destruct (w_send_ok_later _ _ _ HR Hh) as (_ & -> & _). by eexists. }
    eapply wkeep_seq; [by apply wkeep_get|]. intros [|]; [by apply wkeep_ret|].
    eapply wkeep_seq; [apply wkeep_send_reset; [apply varint_ok_small; lia|done]|]. intros r. wgo.
  - intros _. eapply wkeep_seq; [apply wstep_mod, wstep_on_shared|]. intros _.
    eapply wkeep_seq; [by apply wkeep_get|]. intros i. apply wkeep_outbound_drop.
Qed.

(** A flow that is not closed is in the map. *)
Lemma w_live s T h :
  winv s T -> w_send_ok s h -> wasm_flow_is_closed s h = false ->
  w_send_flows s !! ws_id h = Some (ws_flow h)
  /\ w_flows s !! ws_flow h = Some (w_flow_at s (ws_flow h)).
Proof.
  intros HI (_ & Hof & _) Hc. destruct (si_accounts _ _ (wi_send _ _ HI) _ _ Hof) as (fl & Hfl & _).
  simpl in Hfl. unfold wasm_flow_is_closed, w_flow_at in *. rewrite Hfl in Hc |- *. simpl in Hc |- *. split; [|done].
  exact (si_live _ _ (wi_send _ _ HI) _ _ _ Hof Hfl Hc).
Qed.

(** FIN queued into channel state [c], then the direction removed. *)
Lemma wstep_fin s T h c :
  winv s T -> w_send_ok s h -> wasm_flow_is_closed s h = false ->
  fchan_all (w_cmd_ok (w_limits s)) c ->
  let s1 := w_log_frame (Stream (ws_id h) [] true) (set_w_outbound c s) in
  let s2 := (wasm_remove_send_flow (ws_id h) s1).1 in
  wev s s2 /\ winv s2 T.
Proof.
  intros HI Hh Hc Hch s1 s2. destruct (w_live s T h HI Hh Hc) as [Hopen _].
  pose proof (send_fin _ _ _ _ (wi_send _ _ HI) Hopen ltac:(apply Hh)) as Hs.
  subst s2. unfold wasm_remove_send_flow. subst s1. simpl. rewrite Hopen. simpl.
  set (s2 := w_on_flow _ _ _).
  assert (HR : wev s s2).
  { constructor; simpl; try done; [|by apply prefix_app_r].
    intros i Hi Hn. apply lookup_delete_None. auto. }
  split; [done|]. eapply winv_intro; [exact HI|done|exact Hs|..]; simpl; try done; apply HI.
Qed.

Lemma w_fin_sendable s T h : winv s T -> w_send_ok s h -> sendable (w_limits s) (Stream (ws_id h) [] true).
Proof.
  intros HI (Hid & _). pose proof (si_limits _ _ (wi_send _ _ HI)) as Hl. simpl in Hl. destruct Hl.
  split; [split; [done|apply varint_ok_small; unfold blen; simpl; lia]|]. unfold blen. simpl. lia.
Qed.

Lemma on_shared_fin h f g s c :
  let s1 := w_on_shared h f s in
  wasm_remove_send_flow (ws_id h) (w_log_frame g (set_w_outbound c s1))
  = (w_on_shared h f (wasm_remove_send_flow (ws_id h) (w_log_frame g (set_w_outbound c s))).1,
     (wasm_remove_send_flow (ws_id h) (w_log_frame g (set_w_outbound c s))).2).
Proof. simpl. unfold wasm_remove_send_flow. simpl. by case_match. Qed.

Lemma wkeep_finish s0 h : w_send_ok s0 h -> wkeep s0 (wasm_finish h) wany.
Proof.
  intros Hh. apply wkeep_guarded. intros s T HR HI. unfold wop.
  destruct (finished _); [by split_and!; [reflexivity|done..]|].
  destruct (wasm_flow_is_closed s h) eqn:Ec; simpl; [by split_and!; [reflexivity|done..]|].
  destruct (wasm_is_closed s); [by split_and!; [reflexivity|done..]|].
  pose proof (w_send_ok_later _ _ _ HR Hh) as Hh'.
  unfold wmod, mbind, wst_bind, wtry, wasm_send_frame, wasm_try_send_frame.
  unfold mbind, wst_bind. cbn [w_outbound w_outbound_tx w_on_shared set_w_send_cells].
  pose proof (fchan_all_try_send (w_cmd_ok (w_limits s)) (w_outbound_tx s)
    (WFrame (Stream (ws_id h) [] true)) (w_outbound s) (w_fin_sendable s T h HI Hh') (wi_out _ _ HI)) as Hc.
  destruct (f_try_send _ _ _) as [r c]. simpl in Hc. destruct r.
  - destruct (wstep_fin s T h c HI Hh' Ec Hc) as [HR1 HI1]. rewrite on_shared_fin.
    destruct (wstep_on_shared h (set_finished true) _ T HI1). simpl. split_and!; [by etrans|done..].
  - destruct (wstep_on_shared h (set_finished true) s T HI) as [HR1 HI1].
    destruct (wstep_outbound _ T c HI1 Hc). simpl. split_and!; [by etrans|done..].
  - destruct (wstep_on_shared h (set_finished true) s T HI) as [HR1 HI1].
    destruct (wstep_outbound _ T c HI1 Hc). simpl. split_and!; [by etrans|done..].
Qed.

(** ** [AsyncWrite] *)
Lemma wkeep_poll_ready s0 i : wkeep s0 (w_poll_ready i) wany.
Proof.
  intros s T HR HI. unfold w_poll_ready.
  pose proof (fchan_all_poll_ready _ i _ (wi_out _ _ HI)) as Hc.
  destruct (f_poll_ready i (w_outbound s)) as [r c]. simpl in *. by destruct (wstep_outbound s T c HI Hc).
Qed.

Lemma wkeep_api_error {A} s0 r (m : st (poll (outcome IoError A))) :
  wkeep s0 m wany -> wkeep s0 (w_api_error r m) wany.
Proof. intros Hm. unfold w_api_error. destruct r; [done|by apply wkeep_ret|done]. Qed.

Lemma wkeep_poll_flush s0 h : wkeep s0 (wasm_poll_flush h) wany.
Proof.
  unfold wasm_poll_flush. eapply wkeep_seq; [apply wkeep_select_api|]. intros a. apply wkeep_api_error.
  eapply wkeep_seq; [by apply wkeep_get|]. intros i. eapply wkeep_seq; [apply wkeep_poll_ready|].
  intros r. by apply wkeep_ret.
Qed.

Lemma w_poll_ready_same i s :
  let r := w_poll_ready i s in
  r.1 = set_w_outbound (f_poll_ready i (w_outbound s)).2 s /\ r.2 = (f_poll_ready i (w_outbound s)).1.
Proof. unfold w_poll_ready. by destruct (f_poll_ready i (w_outbound s)). Qed.

Lemma w_send_ok_same s s' h :
  w_flow_of s' = w_flow_of s -> w_out_log s' = w_out_log s -> w_send_ok s h -> w_send_ok s' h.
Proof. unfold w_send_ok. by intros -> ->. Qed.

Lemma wkeep_close_fin s0 h :
  w_send_ok s0 h ->
  forall s T, wev s0 s -> winv s T ->
    (finished (w_shared_of s h) = false -> wasm_flow_is_closed s h = false) ->
    let r := w_close_fin h s in wev s r.1 /\ winv r.1 T.
Proof.
  intros Hh s T HR HI Hopen. unfold w_close_fin.
  destruct (finished (w_shared_of s h)); [by split; [reflexivity|done]|]. specialize (Hopen eq_refl).
  destruct (wl_close_in_flight _); simpl; [by split; [reflexivity|done]|].
  set (i := wl_outbound _). destruct (wkeep_poll_ready s0 i s T HR HI) as (HR1 & HI1 & _).
  pose proof (w_poll_ready_same i s) as [Hs1 _]. destruct (w_poll_ready i s) as [s1 [[|]|]]; [|done|done].
  simpl in *. pose proof (w_send_ok_later _ _ _ (transitivity HR HR1) Hh) as Hh1.
  assert (Hopen1 : wasm_flow_is_closed s1 h = false) by (by rewrite Hs1).
  pose proof (fchan_all_start_send (w_cmd_ok (w_limits s1)) i (WFrame (Stream (ws_id h) [] true))
    (w_outbound s1) (w_fin_sendable s1 T h HI1 Hh1) (wi_out _ _ HI1)) as Hc.
  unfold w_start_send. destruct (f_start_send i _ _) as [[] c]; simpl in Hc.
  - destruct (wstep_fin s1 T h c HI1 Hh1 Hopen1 Hc) as [HR2 HI2].
    unfold wmod, mbind, wst_bind. cbn [fst snd].
    set (g := fun x => mkWLocal (wl_outbound x) true).
    assert (Heq : forall x : WasmSession fchan, wasm_remove_send_flow (ws_id h) (w_on_local h g (w_on_shared h (set_finished true) x))
      = (w_on_local h g (w_on_shared h (set_finished true) (wasm_remove_send_flow (ws_id h) x).1),
         (wasm_remove_send_flow (ws_id h) x).2)).
    { intros x. unfold wasm_remove_send_flow. simpl. by case_match. }
    rewrite Heq. destruct (wstep_on_shared h (set_finished true) _ T HI2) as [HR3 HI3].
    destruct (wstep_on_local h g _ T HI3) as [HR4 HI4]. simpl. split; [|exact HI4].
    by repeat (etrans; [eassumption|]).
  - destruct (wstep_outbound s1 T c HI1 Hc). simpl. split; [by etrans|done].
Qed.

Lemma wkeep_poll_close s0 h : w_send_ok s0 h -> wkeep s0 (wasm_poll_close h) wany.
Proof.
  intros Hh. unfold wasm_poll_close. eapply wkeep_seq; [apply wkeep_select_api|]. intros a.
  apply wkeep_api_error. intros s T HR HI. unfold wop.
  destruct (negb _ && _) eqn:E; [by split_and!; [reflexivity|done..]|].
  assert (Hopen : finished (w_shared_of s h) = false -> wasm_flow_is_closed s h = false).
  { intros Hf. rewrite Hf in E. simpl in E. by destruct (wasm_flow_is_closed s h). }
  destruct (wkeep_close_fin s0 h Hh s T HR HI Hopen) as [HR1 HI1].
  unfold mbind, wst_bind. destruct (w_close_fin h s) as [s1 [r|]]; simpl in *; [done|].
  set (i := wl_outbound _). destruct (wkeep_poll_ready s1 i s1 T ltac:(reflexivity) HI1) as (HR2 & HI2 & _).
  destruct (w_poll_ready i s1) as [s2 r]. simpl in *. split_and!; [by etrans|done..].
Qed.

(** ** Data *)

(** A reserved chunk is queued, which spends its token. *)
Lemma wstep_start_data s T h i data k :
  winv s T -> w_send_ok s h -> wasm_flow_is_closed s h = false ->
  blen data <= max_stream_data_per_frame (w_limits s) -> inr (ws_id h, blen data, k) ∈ T ->
  let r := w_start_send i (Stream (ws_id h) data false) s in
  wev s r.1 /\ winv r.1 (if r.2 then T ∖ {[inr (ws_id h, blen data, k)]} else T)
  /\ w_flow_of r.1 = w_flow_of s.
Proof.
  intros HI Hh Hc Hlen Ht. destruct (w_live s T h HI Hh Hc) as [Hopen _].
  pose proof (si_limits _ _ (wi_send _ _ HI)) as Hl. simpl in Hl.
  assert (Hf : sendable (w_limits s) (Stream (ws_id h) data false)).
  { split; [|done]. split; [apply Hh|]. unfold varint_ok, blen in *. destruct Hl. lia. }
  pose proof (fchan_all_start_send (w_cmd_ok (w_limits s)) i (WFrame (Stream (ws_id h) data false))
    (w_outbound s) Hf (wi_out _ _ HI)) as Hch.
  unfold w_start_send. destruct (f_start_send i _ _) as [[] c]; simpl in *.
  - destruct (wstep_push s T (T ∖ {[inr (ws_id h, blen data, k)]}) (Stream (ws_id h) data false) c HI Hch)
      as [? ?]; [|done].
    apply (send_push (send_view s) T); try done; [apply HI| | |].
    + intros id d fin [= <- <- <-]. split_and!; [done|by eexists|apply Hh].
    + intros id. rewrite held_remove by done. simpl. lia.
    + apply tok_nonneg_remove, (si_tok _ _ (wi_send _ _ HI)).
  - by destruct (wstep_outbound s T c HI Hch).
Qed.

Lemma wstep_give_back s T h n k :
  winv s T -> w_send_ok s h -> inr (ws_id h, n, k) ∈ T ->
  let s' := w_on_flow (ws_flow h) (wasm_release n) s in
  wev s s' /\ winv s' (T ∖ {[inr (ws_id h, n, k)]}).
Proof.
  intros HI (_ & Hof & _) Ht. apply (wstep_flows s T); [done|].
  apply send_release; [apply HI|exact Hof|done].
Qed.

Lemma wstep_grant s T h wanted k :
  winv s T -> w_send_ok s h -> 0 <= wanted ->
  let r := wasm_try_reserve wanted (w_flow_at s (ws_flow h)) in
  inr (ws_id h, r.1, k) ∉ T ->
  let s' := w_on_flow (ws_flow h) (fun _ => r.2) s in
  wev s s' /\ winv s' ({[inr (ws_id h, r.1, k)]} ∪ T) /\ 0 <= r.1 <= wanted.
Proof.
  intros HI (_ & Hof & _) Hw r Ht s'.
  destruct (si_accounts _ _ (wi_send _ _ HI) _ _ Hof) as (fl & Hfl & _ & Hmax). simpl in Hfl.
  assert (Hat : w_flow_at s (ws_flow h) = fl) by (unfold w_flow_at; by rewrite Hfl).
  subst r s'. rewrite Hat in *.
  pose proof (try_reserve_grant wanted fl Hw ltac:(lia)) as (? & _).
  destruct (wstep_flows s T ({[inr (ws_id h, (wasm_try_reserve wanted fl).1, k)]} ∪ T)
    (alter (fun _ => (wasm_try_reserve wanted fl).2) (ws_flow h) (w_flows s)) HI) as [? ?]; [|done].
  apply (send_reserve (send_view s) T (ws_id h) (ws_flow h) fl); try done. apply HI.
Qed.

Lemma w_on_flow_id s l fl : w_flows s !! l = Some fl -> w_on_flow l (fun _ => fl) s = s.
Proof.
  intros Hl. unfold w_on_flow. replace (alter (fun _ => fl) l (w_flows s)) with (w_flows s).
  - by destruct s.
  - apply list_eq. intros i. destruct (decide (i = l)) as [->|]; [|by rewrite list_lookup_alter_ne].
    by rewrite list_lookup_alter_eq, Hl.
Qed.

Lemma w_closed_flow_upd s h fl :
  flow_closed fl = wasm_flow_is_closed s h ->
  wasm_flow_is_closed (w_on_flow (ws_flow h) (fun _ => fl) s) h = wasm_flow_is_closed s h.
Proof.
  unfold wasm_flow_is_closed, w_flow_at. intros Hfl. simpl. rewrite list_lookup_alter_eq.
  by destruct (w_flows s !! ws_flow h).
Qed.

Lemma w_wanted_range s T (buf : list byte) :
  winv s T -> let wanted := payload_limit (blen buf) (max_stream_data_per_frame (w_limits s)) in
  0 <= wanted <= blen buf /\ wanted <= max_stream_data_per_frame (w_limits s).
Proof.
  intros HI wanted. pose proof (si_limits _ _ (wi_send _ _ HI)) as Hl. simpl in Hl. destruct Hl.
  subst wanted. unfold payload_limit, MAX_WRITE_CHUNK, blen. lia.
Qed.

(** The body of [poll_write] takes credit and spends it or gives it back. *)
Lemma wkeep_poll_write_body s0 h buf : w_send_ok s0 h -> wkeep s0 (w_poll_write_body h buf) wany.
Proof.
  intros Hh0 s T HR HI. pose proof (w_send_ok_later _ _ _ HR Hh0) as Hh.
  unfold w_poll_write_body. destruct buf as [|b buf]; [by split_and!; [reflexivity|done..]|].
  set (d := b :: buf). unfold wasm_SendStream_closed.
  destruct (finished _); [by split_and!; [reflexivity|done..]|].
  destruct (wasm_flow_is_closed s h) eqn:Ec; simpl; [by split_and!; [reflexivity|done..]|].
  destruct (wasm_is_closed s); [by split_and!; [reflexivity|done..]|].
  destruct (w_wanted_range s T d HI) as [Hw Hmax]. set (wanted := payload_limit _ _) in *.
  destruct (wanted =? 0); [by split_and!; [reflexivity|done..]|].
  set (n := (wasm_try_reserve wanted (w_flow_at s (ws_flow h))).1).
  destruct (fresh_token T (ws_id h) n) as [k Hk].
  destruct (wstep_grant s T h wanted k HI Hh ltac:(lia) Hk) as (HR1 & HI1 & Hn).
  destruct (w_live s T h HI Hh Ec) as [_ Hfl].
  assert (Hcl : flow_closed (wasm_try_reserve wanted (w_flow_at s (ws_flow h))).2 = wasm_flow_is_closed s h).
  { unfold wasm_flow_is_closed, wasm_try_reserve, try_reserve. by repeat case_match. }
  pose proof (try_reserve_zero wanted (w_flow_at s (ws_flow h)) ltac:(lia)) as Hzero.
  fold (wasm_try_reserve wanted (w_flow_at s (ws_flow h))) in Hzero.
  fold n in HI1, Hn, Hzero. subst n.
  destruct (wasm_try_reserve wanted _) as [n fl]. cbn [fst snd] in *.
  set (s1 := w_on_flow (ws_flow h) (fun _ => fl) s) in *.
  destruct (n =? 0) eqn:En.
  { assert (s1 = s) as ->; [|by split_and!; [reflexivity|done..]].
    subst s1. rewrite (Hzero ltac:(lia)). by apply w_on_flow_id. }
  assert (Hc1 : wasm_flow_is_closed s1 h = false) by (subst s1; by rewrite w_closed_flow_upd).
  assert (Hback : ({[inr (ws_id h, n, k)]} ∪ T) ∖ {[inr (ws_id h, n, k)]} = T) by set_solver.
  set (i := wl_outbound _).
  destruct (wkeep_poll_ready s0 i s1 _ (transitivity HR HR1) HI1) as (HR2 & HI2 & _).
  pose proof (w_poll_ready_same i s1) as [Hs2 _].
  destruct (w_poll_ready i s1) as [s2 o]. cbn [fst snd] in *.
  assert (Hh2 : w_send_ok s2 h).
  { eapply w_send_ok_later; [|exact Hh]. by trans s1. }
  destruct (wstep_give_back s2 _ h n k HI2 Hh2 ltac:(set_solver)) as [HR3 HI3]. rewrite Hback in HI3.
  assert (Hdone : wev s (w_on_flow (ws_flow h) (wasm_release n) s2)) by (etrans; [|done]; by trans s1).
  destruct o as [[|]|]; [|by split_and!..].
  assert (Hlen : blen (take (Z.to_nat n) d) = n) by (apply blen_take; lia).
  destruct (wstep_start_data s2 ({[inr (ws_id h, n, k)]} ∪ T) h i (take (Z.to_nat n) d) k HI2 Hh2)
    as (HR4 & HI4 & _); [by rewrite Hs2| |rewrite Hlen; set_solver|].
  { rewrite Hlen. subst s1. rewrite Hs2. simpl. lia. }
  rewrite Hlen in HI4. destruct (w_start_send i _ s2) as [s3 []]; cbn [fst snd] in *.
  - rewrite Hback in HI4. split_and!; [|done|done]. etrans; [|done]. by trans s1.
  - assert (Hh3 : w_send_ok s3 h) by (by eapply w_send_ok_later).
    destruct (wstep_give_back s3 _ h n k HI4 Hh3 ltac:(set_solver)) as [HR5 HI5]. rewrite Hback in HI5.
    split_and!; [|done|done]. etrans; [|done]. etrans; [|done]. by trans s1.
Qed.

Lemma wkeep_poll_write s0 h buf : w_send_ok s0 h -> wkeep s0 (wasm_poll_write h buf) wany.
Proof.
  intros Hh. unfold wasm_poll_write. eapply wkeep_seq; [apply wkeep_select_api|]. intros a.
  apply wkeep_api_error. eapply wkeep_seq; [apply wkeep_begin_operation|]. intros o. apply wkeep_api_error.
  eapply wkeep_seq; [by apply wkeep_poll_write_body|]. intros r.
  eapply wkeep_seq; [apply wkeep_end_operation|]. intros _. by apply wkeep_ret.
Qed.
End WasmSendSpecs.
