(* ===== verification/WasmSessionSpecs.v ===== *)
(** * The browser session: receive handles, peer frames and the public handle keep
    the invariant *)

From S2P Require Import Prelude Buf VarInt Frame Proto Limits SendFlow Channel Async NativeState.
From S2P Require Import NativeOps NativeStream NativeRecv NativeSession NativeTasks Credit NativeInv.
From S2P Require Import FuturesChannel WasmState WasmOps WasmStreams WasmSession WasmInv.
From S2P Require Import WasmSteps WasmSpecs WasmSendSpecs.
Open Scope mux_scope.

Section WasmSessionSpecs.
Context {fchan : Type -> Type} `{FMpscLaws fchan} `{!MapOrder} `{!MapOrderLaws}.
Implicit Types (s : WasmSession fchan) (T : gset tok) (id : StreamId) (h : RecvStream).
Abbreviation st := (wst fchan).

(** ** Receive handles *)
Lemma wkeep_set_finished s0 h : wkeep s0 (w_set_finished h) wany.
Proof. apply wstep_mod. by apply wstep_cell_same. Qed.
Lemma wkeep_set_pending s0 h p : wkeep s0 (w_set_pending h p) wany.
Proof. apply wstep_mod. by apply wstep_cell_same. Qed.
Lemma wkeep_on_fin s0 h e : wkeep s0 (w_on_fin h e) wany.
Proof. unfold w_on_fin. destruct (ev_fin e); [apply wkeep_set_finished|by apply wkeep_ret]. Qed.

Lemma wkeep_with_cell_same {A} s0 h (f : RecvCell fchan -> RecvCell fchan * A) :
  (forall c, rc_max_data (f c).1 = rc_max_data c /\ rc_granted (f c).1 = rc_granted c
     /\ rc_consumed (f c).1 = rc_consumed c) -> wkeep s0 (w_with_cell h f) wany.
Proof.
  intros Hf s T HR HI. unfold w_with_cell. simpl.
  by destruct (wstep_cell_same (rs_cell h) (fun c => (f c).1) Hf s T HI).
Qed.

(** Consuming bytes raises the limit by what was consumed, and queues the credit. *)
Lemma wkeep_on_bytes_consumed s0 h n :
  0 <= n -> w_recv_ok h -> wkeep s0 (wasm_on_bytes_consumed h n) wany.
Proof.
  intros Hn Hh. unfold wasm_on_bytes_consumed.
  apply (wkeep_bind _ _ _ (fun o _ => match o with Some x => varint_ok x | None => True end)).
  - intros s T HR HI. unfold w_with_cell. cbn [fst snd].
    destruct (wstep_cells s T (alter (fun c => (consume n c).1) (rs_cell h) (w_recv_cells s)) HI) as [HR1 HI1].
    { apply recv_cell_upd; [apply HI|]. intros c _ Hc. destruct (w_consume_ok n c Hn Hc) as (? & ? & _). done. }
    split_and!; [done..|]. unfold w_cell_of. destruct (w_recv_cells s !! rs_cell h) as [c|] eqn:E; simpl.
    + pose proof (Forall_lookup_1 _ _ _ _ (ri_cells _ _ _ _ (wi_recv _ _ HI)) E) as Hc.
      by destruct (w_consume_ok n c Hn Hc) as (_ & _ & ?).
    + assert (Hno : w_cell_ok w_no_cell) by (unfold w_cell_ok, w_no_cell; simpl; change VarInt_MAX with (2^62-1); lia).
      by destruct (w_consume_ok n w_no_cell Hn Hno) as (_ & _ & ?).
  - intros [x|] s HR Hx; [|by apply wkeep_ret]. by apply wkeep_queue_credit.
Qed.

Lemma wkeep_deliver_pending s0 h room : w_recv_ok h -> wkeep s0 (w_deliver_pending h room) wany.
Proof.
  intros Hh. unfold w_deliver_pending. eapply wkeep_seq; [by apply wkeep_with_cell_same|]. intros out.
  eapply wkeep_seq; [apply wkeep_on_bytes_consumed; [unfold blen; lia|done]|]. intros _. by apply wkeep_ret.
Qed.

Lemma wkeep_poll_next s0 h : wkeep s0 (w_poll_next h) wany.
Proof.
  intros s T HR HI. unfold w_poll_next.
  destruct (f_next _) as [[e| |] ch]; simpl;
    by destruct (wstep_cell_same (rs_cell h) (set_rc_chan ch) ltac:(done) s T HI).
Qed.

Lemma wkeep_chunk_of_event s0 h ev : wkeep s0 (w_chunk_of_event h ev) wany.
Proof.
  unfold w_chunk_of_event. destruct ev as [e|].
  - eapply wkeep_seq; [apply wkeep_on_fin|]. intros _. by apply wkeep_ret.
  - eapply wkeep_seq; [apply wkeep_set_finished|]. intros _. by apply wkeep_ret.
Qed.

Lemma wkeep_split_event s0 h max ev : w_recv_ok h -> wkeep s0 (w_split_event h max ev) wany.
Proof.
  intros Hh. unfold w_split_event. destruct ev as [e|].
  - eapply wkeep_seq; [apply wkeep_on_fin|]. intros _. case_match; [by apply wkeep_ret|].
    assert (Hc : forall n, 0 <= n -> wkeep s0 (wasm_on_bytes_consumed h n) wany)
      by (intros; by apply wkeep_on_bytes_consumed).
    case_match.
    + eapply wkeep_seq; [apply wkeep_set_pending|]. intros _.
      eapply wkeep_seq; [apply Hc; unfold blen; lia|]. intros _. by apply wkeep_ret.
    + eapply wkeep_seq; [apply Hc; unfold blen; lia|]. intros _. by apply wkeep_ret.
  - eapply wkeep_seq; [apply wkeep_set_finished|]. intros _. by apply wkeep_ret.
Qed.

Lemma wkeep_poll_read_loop h fuel room : forall s0,
  0 <= room -> w_recv_ok h -> wkeep s0 (w_poll_read_loop h fuel room) wany.
Proof.
  induction fuel as [|fuel IH]; intros s0 Hroom Hh; cbn [w_poll_read_loop]; [by apply wkeep_ret|].
  eapply wkeep_seq; [apply wkeep_poll_next|]. intros [[e|]|]; [| |by apply wkeep_ret].
  - eapply wkeep_seq; [apply wkeep_on_fin|]. intros _. case_match.
    + case_match; [by apply wkeep_ret|by apply IH].
    + eapply wkeep_seq; [case_match; [apply wkeep_set_pending|by apply wkeep_ret]|]. intros _.
      eapply wkeep_seq; [apply wkeep_on_bytes_consumed; [unfold blen; lia|done]|]. intros _. by apply wkeep_ret.
  - eapply wkeep_seq; [apply wkeep_set_finished|]. intros _. by apply wkeep_ret.
Qed.

Lemma wkeep_poll_read s0 h fuel room : 0 <= room -> w_recv_ok h -> wkeep s0 (wasm_poll_read h fuel room) wany.
Proof.
  intros Hr Hh s T HR HI. unfold wasm_poll_read. case_match; [by split_and!; [reflexivity|done..]|].
  case_match; [|case_match; [by split_and!; [reflexivity|done..]|by apply (wkeep_poll_read_loop _ _ _ s0)]].
  apply (wkeep_seq s0 (w_deliver_pending h room) (fun out => mret (Ready out)) wany); [|by intros ?; apply wkeep_ret|done|done].
  by apply wkeep_deliver_pending.
Qed.

Lemma wkeep_stop s0 h code : 0 <= code -> w_recv_ok h -> wkeep s0 (wasm_stop h code) wany.
Proof.
  intros Hc Hh. unfold wasm_stop, VarInt_from_u64. destruct (code <=? VarInt_MAX) eqn:E; [|by apply wkeep_ret].
  eapply wkeep_seq; [by apply wkeep_with_cell_same|]. intros [|]; [by apply wkeep_ret|].
  eapply wkeep_seq; [apply wkeep_stop_recv_stream|]. intros [|]; [|by apply wkeep_ret].
  apply wkeep_send_plain; [|done]. repeat split; [apply Hh..|unfold varint_ok; lia|unfold varint_ok; lia].
Qed.

Lemma wkeep_RecvStream_drop s0 h : w_recv_ok h -> wkeep s0 (wasm_RecvStream_drop h) wany.
Proof.
  intros Hh. unfold wasm_RecvStream_drop. eapply wkeep_seq; [apply wkeep_stop_recv_stream|]. intros b.
  eapply wkeep_seq; [by apply wkeep_get|]. intros f. eapply wkeep_seq.
  - destruct (b && negb f); [|by apply wkeep_ret].
    eapply wkeep_seq; [by apply wkeep_with_cell_same|]. intros [|]; [by apply wkeep_ret|].
    eapply wkeep_seq; [apply wkeep_send_plain; [|done]|].
    + split; [|done]. split; [done|]. apply varint_ok_small. lia.
    + intros r. case_match; [by apply wkeep_ret|apply wkeep_request_shutdown].
  - intros _. apply wstep_mod. by apply wstep_cell_same.
Qed.

#[local] Hint Resolve wkeep_RecvStream_drop : wkeep.

(** ** Streams opened by the peer *)
Lemma wkeep_deliver_uni s0 recv : w_recv_ok recv -> wkeep s0 (w_deliver_uni recv) wany.
Proof.
  intros Hr s T HR HI. unfold w_deliver_uni.
  pose proof (fun s => wkeep_RecvStream_drop s recv Hr) as Hdrop.
  destruct (w_accept_uni_tx s) as [i|].
  2: { by apply (wkeep_seq s (wasm_RecvStream_drop recv) (fun _ => mret (Err Closed)) wany (Hdrop s)
         ltac:(intros ?; by apply wkeep_ret) s T ltac:(reflexivity)). }
  pose proof (fchan_all_try_send w_recv_ok i recv _ Hr (wi_uni _ _ HI)) as Hc.
  destruct (f_try_send i recv _) as [r c]. simpl in Hc.
  destruct (wstep_uni_chan s T c HI Hc) as [HR1 HI1].
  destruct r; [done|..];
    match goal with |- wev _ (?m ?x).1 /\ _ =>
      enough (Hm : wkeep s m wany) by
        (destruct (Hm x T HR1 HI1) as (? & ? & _); split_and!; [by etrans|done..]) end; wgo.
Qed.

Lemma wkeep_drop_pair s0 p : w_pair_ok s0 p -> wkeep s0 (wasm_drop_pair p) wany.
Proof.
  intros [Hs Hr]. unfold wasm_drop_pair. eapply wkeep_seq; [by apply wkeep_SendStream_drop|].
  intros _. by apply wkeep_RecvStream_drop.
Qed.

Lemma wkeep_deliver_bi s0 p : w_pair_ok s0 p -> wkeep s0 (w_deliver_bi p) wany.
Proof.
  intros Hp s T HR HI. unfold w_deliver_bi. pose proof (w_pair_ok_later _ _ _ HR Hp) as Hps.
  pose proof (wkeep_drop_pair s p Hps) as Hdrop.
  destruct (w_accept_bi_tx s) as [i|].
  2: { by apply (wkeep_seq s (wasm_drop_pair p) (fun _ => mret (Err Closed)) wany Hdrop
         ltac:(intros ?; by apply wkeep_ret) s T ltac:(reflexivity)). }
  pose proof (fchan_all_try_send (w_pair_ok s) i p _ Hps (wi_bi _ _ HI)) as Hc.
  destruct (f_try_send i p _) as [r c]. simpl in Hc.
  destruct (wstep_bi_chan s T c HI Hc) as [HR1 HI1].
  destruct r; [done|..];
    match goal with |- wev _ (?m ?x).1 /\ _ =>
      enough (Hm : wkeep s m wany) by
        (destruct (Hm x T HR1 HI1) as (? & ? & _); split_and!; [by etrans|done..]) end; wgo.
Qed.

Lemma wkeep_initial_credit s0 id : sid_ok id -> wkeep s0 (w_initial_credit id) wany.
Proof.
  intros Hid s T HR HI. unfold w_initial_credit.
  pose proof (si_limits _ _ (wi_send _ _ HI)) as Hl. simpl in Hl.
  pose proof (wkeep_send_plain s (MaxStreamData id (initial_stream_window (w_limits s)))) as Hsend.
  destruct Hsend with (s := s) (T := T) as (? & ? & _); [|done|reflexivity|done|].
  - split; [|done]. split; [done|]. unfold varint_ok. destruct Hl. lia.
  - by destruct (wasm_try_send_frame _ s).
Qed.

Lemma wkeep_register_inbound s0 id :
  sid_ok id -> wkeep s0 (w_register_inbound id) (fun r _ =>
    match r with
    | Ok h => w_recv_ok h
    | Err e => frame_ok (ConnectionClose e.1 e.2)
    | Panic => False end).
Proof.
  intros Hid s T HR HI. unfold w_register_inbound.
  case_match; [split_and!; [reflexivity|done|]; apply close_frame_ok; vm_compute; reflexivity|].
  case_match; [split_and!; [reflexivity|done|]; apply close_frame_ok; vm_compute; reflexivity|].
  destruct (wkeep_register_recv_stream s0 id Hid s T HR HI) as (? & ? & Hh).
  destruct (wasm_register_recv_stream id s) as [s1 h]. simpl in *. split_and!; [done..|].
  unfold w_recv_ok. by rewrite Hh.
Qed.

(** *** Fresh identifiers *)

(** [id] was never registered and lies below its frontier. *)
Definition w_fresh s id : Prop :=
  sid_ok id /\ w_flow_of s !! id = None /\ StreamId_counter id < w_frontier s id.

(** What freshness depends on. *)
Definition ids_view s := (w_flow_of s, (w_next_uni s, w_next_bi s, w_next_peer_uni s, w_next_peer_bi s)).
Lemma w_fresh_same s s' id : ids_view s' = ids_view s -> w_fresh s id -> w_fresh s' id.
Proof.
  unfold ids_view, w_fresh, w_frontier. intros [= -> -> -> -> ->]. done.
Qed.

Lemma ids_try_send f s : ids_view (wasm_try_send_frame f s).1 = ids_view s.
Proof. unfold wasm_try_send_frame. by repeat case_match. Qed.
Lemma ids_initial_credit id s : ids_view (w_initial_credit id s).1 = ids_view s.
Proof.
  unfold w_initial_credit. pose proof (ids_try_send (MaxStreamData id (initial_stream_window (w_limits s))) s).
  by destruct (wasm_try_send_frame _ s).
Qed.
Lemma ids_register_recv id s : ids_view (wasm_register_recv_stream id s).1 = ids_view s.
Proof. unfold wasm_register_recv_stream. simpl. by case_match. Qed.
Lemma ids_register_inbound id s : ids_view (w_register_inbound id s).1 = ids_view s.
Proof.
  unfold w_register_inbound. pose proof (ids_register_recv id s).
  by repeat case_match.
Qed.

(** An accepted peer identifier was never used before. *)
Lemma validate_peer_ok s T id :
  winv s T -> sid_ok id -> initiator_is_server id = true ->
  let r := wasm_validate_peer_stream_id id s in
  wev s r.1 /\ winv r.1 T /\ (r.2 = true -> w_fresh r.1 id).
Proof.
  intros HI Hid Hpeer r.
  assert (Hc : 0 <= StreamId_counter id /\ StreamId_counter id + 1 < u64_max).
  { unfold sid_ok, varint_ok in Hid. destruct (sid_decompose id ltac:(lia)) as [Hdec ?].
    split; [done|]. change VarInt_MAX with (2 ^ 62 - 1) in Hid.
    assert (0 <= dir_bit (StreamId_dir id) <= 1) by (destruct (StreamId_dir id); simpl; lia).
    unfold u64_max. destruct (initiator_is_server id); simpl in *; lia. }
  assert (Hsat : saturating_add64 (StreamId_counter id) 1 = StreamId_counter id + 1)
    by (unfold saturating_add64; lia).
  assert (Hnew : forall s', wev s s' -> w_flow_of s' = w_flow_of s ->
    w_frontier s id <= StreamId_counter id -> StreamId_counter id < w_frontier s' id -> w_fresh s' id).
  { intros s' _ Hof Hge Hlt. split_and!; [done| |done]. rewrite Hof.
    destruct (w_flow_of s !! id) eqn:E; [|done].
    destruct (si_ids _ _ (wi_send _ _ HI) id ltac:(by eexists)) as [_ Hfr].
    unfold sv_frontier in Hfr. unfold w_frontier in Hge. simpl in Hfr. repeat case_match; lia. }
  subst r. unfold wasm_validate_peer_stream_id. rewrite Hsat. unfold w_frontier in Hnew.
  rewrite Hpeer in Hnew. simpl in Hnew.
  destruct (StreamId_dir id); (case_match; [by split_and!; [reflexivity|done|]|]);
    cbn [fst snd]; match goal with |- wev _ ?s' /\ _ =>
      assert (HR : wev s s') by (by constructor);
      split_and!; [done| |intros _; apply Hnew; simpl; [done..|lia|lia]];
      (eapply winv_intro; [exact HI|done|..]; simpl; try done; try apply HI);
      (apply (send_next (send_view s)); [apply HI|simpl; lia..]) end.
Qed.

Lemma wkeep_validate s0 id :
  sid_ok id -> initiator_is_server id = true ->
  wkeep s0 (wasm_validate_peer_stream_id id) (fun b s => b = true -> w_fresh s id).
Proof. intros Hid Hp s T HR HI. by apply validate_peer_ok. Qed.

Lemma wkeep_handle_open_uni s0 id : sid_ok id -> wkeep s0 (wasm_handle_open_uni id) wany.
Proof.
  intros Hid. unfold wasm_handle_open_uni. case_match; [wgo|].
  destruct (initiator_is_server id) eqn:Ei; simpl; [|wgo].
  eapply wkeep_bind; [by apply wkeep_validate|]. intros [|] s1 HR1 _; simpl; [|wgo].
  eapply wkeep_bind; [by apply wkeep_register_inbound|]. intros [recv|[code reason]|] s2 HR2 Hr; [| |done].
  - eapply wkeep_seq; [by apply wkeep_initial_credit|]. intros _. by apply wkeep_deliver_uni.
  - by apply wkeep_protocol_error.
Qed.

(** *** Registering a send direction *)
Lemma register_send_flow_ok s T id :
  winv s T -> w_fresh s id ->
  wat s T (wasm_register_send_flow id 0) (fun r s' => match r with
  | Ok l => w_flow_of s' !! id = Some l /\ w_out_log s' = w_out_log s
            /\ forall i, w_frontier s' i = w_frontier s i
  | Err e => (e = Protocol "too many open send streams" \/ e = Protocol "duplicate send stream")
  | Panic => False
  end).
Proof.
  intros HI (Hid & Hof & Hlt). unfold wat, wasm_register_send_flow.
  destruct (_ <=? _) eqn:Esz; [by split_and!; [reflexivity|done|left]|].
  destruct (w_send_flows s !! id) eqn:Edup; [by split_and!; [reflexivity|done|right]|]. simpl.
  set (s' := set_w_flow_of _ _).
  assert (HR : wev s s').
  { constructor; simpl; try done; [by apply insert_subseteq|].
    intros i [k Hk] Hn. rewrite lookup_insert_ne; [done|]. congruence. }
  split_and!; [done| |by rewrite lookup_insert_eq|done|done].
  eapply winv_intro; [exact HI|done|..]; simpl; try done; try apply HI.
  apply (send_register (send_view s) T id); simpl; try done; [apply HI|lia].
Qed.

Lemma wkeep_accept_bi s0 id recv l :
  w_recv_ok recv -> sid_ok id -> w_flow_of s0 !! id = Some l -> initiator_is_server id = true ->
  wkeep s0 (send ← wasm_SendStream_new id l; w_deliver_bi (send, recv)) wany.
Proof.
  intros Hr Hid Hof Hi. eapply wkeep_bind; [apply wkeep_SendStream_new|]. intros send s1 HR1 [Hs1 Hs2].
  apply wkeep_deliver_bi. split; [|done]. unfold w_send_ok. simpl. rewrite Hs1, Hs2.
  split_and!; [done|eapply lookup_weaken; [done|apply HR1]|].
  intros Hloc. unfold is_local in Hloc. congruence.
Qed.

Lemma wkeep_handle_open_bi s0 id : sid_ok id -> wkeep s0 (wasm_handle_open_bi id) wany.
Proof.
  intros Hid. unfold wasm_handle_open_bi. case_match; [wgo|].
  destruct (initiator_is_server id) eqn:Ei; simpl; [|wgo].
  intros s T HR HI. eapply (wat_bind s T (wasm_validate_peer_stream_id id)).
  { apply wat_keep; [done|]. by apply wkeep_validate. }
  intros [|] s1 HR1 HI1 Hfresh; simpl; [|apply wat_keep; [done|wgo]]. specialize (Hfresh eq_refl).
  eapply (wat_bind s1 T _ _ (fun r s' => w_fresh s' id /\ match r with
    | Ok h => w_recv_ok h | Err e => frame_ok (ConnectionClose e.1 e.2) | Panic => False end)).
  { destruct (wkeep_register_inbound s1 id Hid s1 T ltac:(reflexivity) HI1) as (? & ? & ?).
    split_and!; [done..| |done]. by eapply w_fresh_same, Hfresh; apply ids_register_inbound. }
  intros [recv|[code reason]|] s2 HR2 HI2 [Hfresh2 Hr]; [|by apply wat_keep, wkeep_protocol_error|done].
  eapply (wat_bind s2 T _ _ (fun _ s' => w_fresh s' id)).
  { destruct (wkeep_initial_credit s2 id Hid s2 T ltac:(reflexivity) HI2) as (? & ? & _).
    split_and!; [done..|]. by eapply w_fresh_same, Hfresh2; apply ids_initial_credit. }
  intros _ s3 HR3 HI3 Hfresh3. eapply wat_bind; [by apply register_send_flow_ok|].
  intros [l|e|] s4 HR4 HI4 Hreg; [| |done]; apply wat_keep; try done.
  - apply wkeep_accept_bi; try done. apply Hreg.
  - eapply wkeep_seq; [|intros r; wgo]. destruct Hreg as [-> | ->]; wgo.
Qed.

(** ** Data and control frames *)
Lemma wkeep_try_send_event s0 l e : wkeep s0 (w_try_send_event l e) wany.
Proof.
  intros s T HR HI. unfold w_try_send_event. destruct (f_try_send _ _ _) as [r c]. simpl.
  by destruct (wstep_cell_same l (set_rc_chan c) ltac:(done) s T HI).
Qed.

Lemma wkeep_stream_data s0 id data fin :
  wkeep s0 (w_stream_data id data fin) (fun r _ =>
    match r with Ok _ => True | Err e => frame_ok (ConnectionClose 2 e) | Panic => False end).
Proof.
  intros s T HR HI. unfold w_stream_data.
  destruct (w_streams s !! id) as [rs|] eqn:Est;
    [|split_and!; [reflexivity|done|]; apply close_frame_ok; vm_compute; reflexivity].
  unfold checked_add64. destruct (_ <=? u64_max) eqn:Eo;
    [|split_and!; [reflexivity|done|]; apply close_frame_ok; vm_compute; reflexivity].
  destruct (ri_streams _ _ _ _ (wi_recv _ _ HI) id rs Est) as (Hid & c & Hc & Hrecv).
  assert (Hcell : w_cell_of s (mkRecvStream id (recv_cell rs)) = c)
    by (unfold w_cell_of; simpl; by rewrite Hc).
  rewrite Hcell. destruct (_ <? _) eqn:Elim;
    [split_and!; [reflexivity|done|]; apply close_frame_ok; vm_compute; reflexivity|].
  match goal with |- wev _ (?m s).1 /\ _ => change (wat s T m (fun r _ =>
    match r with Ok _ => True | Err e => frame_ok (ConnectionClose 2 e) | Panic => False end)) end.
  eapply (wat_bind s T (wmod _) _ wany).
  { unfold wat, wmod. cbn [fst snd].
    destruct (wstep_streams s T (<[id := mkRecvState (stopped rs) (recv_cell rs)
      (received rs + blen data)]> (w_streams s)) HI) as [? ?]; [|done].
    apply recv_streams_insert; [apply HI|done|]. exists c. simpl. unfold blen in *. split; [done|lia]. }
  intros _ s1 HR1 HI1 _. apply wat_keep; [done|].
  eapply wkeep_seq.
  { destruct (stopped rs); [by apply wkeep_ret|]. eapply wkeep_seq; [apply wkeep_try_send_event|].
    intros r. by apply wkeep_ret. }
  intros b. eapply wkeep_seq; [destruct fin; [apply wkeep_remove_stream|by apply wkeep_ret]|].
  intros _. by apply wkeep_ret.
Qed.

Lemma wkeep_handle_stream s0 id data fin : wkeep s0 (wasm_handle_stream id data fin) wany.
Proof.
  intros s T HR HI. unfold wasm_handle_stream. case_match.
  { match goal with |- wev _ (?m s).1 /\ _ => change (wat s T m wany) end. apply wat_keep; [done|wgo]. }
  match goal with |- wev _ (?m s).1 /\ _ => change (wat s T m wany) end. apply wat_keep; [done|].
  eapply wkeep_bind; [apply wkeep_stream_data|]. intros [b|e|] s1 HR1 Hr; [| |done].
  - destruct b; wgo.
  - by apply wkeep_protocol_error.
Qed.

Lemma wkeep_handle_stop_sending s0 id code :
  varint_ok code -> wkeep s0 (wasm_handle_stop_sending id code) wany.
Proof.
  intros Hc. unfold wasm_handle_stop_sending. eapply wkeep_bind; [apply wkeep_remove_send_flow|].
  intros [|] s1 HR1 [Hno Hof]; [apply wkeep_send_reset; [done|split; [by apply Hof|done]]|].
  eapply wkeep_seq; [by apply wkeep_get|]. intros [|]; wgo.
Qed.

Lemma wkeep_handle_max_stream_data s0 id max :
  varint_ok max -> wkeep s0 (wasm_handle_max_stream_data id max) wany.
Proof.
  intros Hm. unfold wasm_handle_max_stream_data. eapply wkeep_seq; [|intros _; wgo].
  apply wstep_mod. intros s T HI. case_match; [|by apply wstep_id].
  apply wstep_update_max; [|done]. unfold varint_ok, is_u64, u64_mod in *.
  change VarInt_MAX with (2 ^ 62 - 1) in Hm. lia.
Qed.

Lemma wkeep_handle_frame s0 f : frame_ok f -> wkeep s0 (wasm_handle_frame f) wany.
Proof.
  destruct f; cbn [frame_ok wasm_handle_frame]; intros Hf; destruct_and?.
  - by apply wkeep_handle_open_uni.
  - by apply wkeep_handle_open_bi.
  - apply wkeep_handle_stream.
  - unfold wasm_handle_reset_stream. wgo.
  - by apply wkeep_handle_stop_sending.
  - by apply wkeep_handle_max_stream_data.
  - wgo.
Qed.

(** ** The public handle *)

(** The counter of a new local stream exceeds those of the streams opened before. *)
Lemma next_stream_id_ok s T dir :
  winv s T -> w_no_wrap s ->
  wat s T (wasm_next_stream_id dir) (fun r s' => match r with
  | Ok id => w_fresh s' id /\ initiator_is_server id = false /\ StreamId_dir id = dir
      /\ w_out_log s' = w_out_log s
      /\ forall g a, g ∈ w_out_log s' -> open_id g = Some a -> StreamId_dir a = dir ->
           StreamId_counter a < StreamId_counter id
  | _ => True
  end).
Proof.
  intros HI [Hu Hb]. unfold wat, wasm_next_stream_id, mbind, wst_bind, wasm_fetch_next.
  pose proof (si_next _ _ (wi_send _ _ HI)) as Hn. simpl in Hn.
  assert (Hwrap : forall x, 0 <= x -> x + 1 < u64_mod -> wrap64 (x + 1) = x + 1).
  { intros x ??. unfold wrap64. apply Z.mod_small. lia. }
  set (r := match dir with Uni => _ | Bi => _ end).
  assert (Hr : wev s r.1 /\ winv r.1 T /\ 0 <= r.2
    /\ w_flow_of r.1 = w_flow_of s /\ w_out_log r.1 = w_out_log s
    /\ forall id, initiator_is_server id = false -> StreamId_dir id = dir ->
         w_frontier s id = r.2 /\ w_frontier r.1 id = r.2 + 1).
  { subst r. destruct dir; cbn [fst snd]; rewrite Hwrap by lia;
      match goal with |- wev _ ?s' /\ _ =>
        assert (HR : wev s s') by (by constructor);
        split_and!; [done| |lia|done|done|intros id Hi Hd; unfold w_frontier; by rewrite Hi, Hd];
        (eapply winv_intro; [exact HI|done|..]; simpl; try done; try apply HI);
        (apply (send_next (send_view s)); [apply HI|simpl; lia..]) end. }
  destruct Hr as (HR & HI' & Hc & Hof & Hlog & Hfr). destruct r as [s' n]. cbn [fst snd] in *.
  split_and!; [done..|]. rewrite StreamId_new_value by done.
  destruct (_ <=? VarInt_MAX) eqn:Emax; simpl; [|done]. set (id := mkStreamId _).
  destruct (StreamId_fields_value n false dir id eq_refl Hc) as (Hd & Hi & Hk).
  destruct (Hfr id Hi Hd) as [Hf1 Hf2].
  assert (Hsid : sid_ok id).
  { unfold sid_ok, varint_ok, id in *. simpl in *.
    assert (0 <= dir_bit dir <= 1) by (destruct dir; simpl; lia). lia. }
  split_and!; [|done|done|done|].
  - split_and!; [done| |lia]. rewrite Hof. destruct (w_flow_of s !! id) eqn:E; [|done].
    destruct (si_ids _ _ (wi_send _ _ HI) id ltac:(by eexists)) as [_ Hlt].
    change (sv_frontier (send_view s) id) with (w_frontier s id) in Hlt. lia.
  - intros g a Hg Ha Hda. rewrite Hlog in Hg.
    destruct (si_opens _ _ (wi_send _ _ HI) g a Hg Ha) as [Hia Hlt].
    destruct (Hfr a Hia Hda) as [Hfa _].
    change (sv_frontier (send_view s) a) with (w_frontier s a) in Hlt. lia.
Qed.

(** OPEN of a new stream is queued after its registration. *)
Lemma send_open_ok s T id f l :
  winv s T -> open_id f = Some id -> sid_ok id -> initiator_is_server id = false ->
  StreamId_dir id = open_dir f ->
  w_flow_of s !! id = Some l ->
  (forall g a, g ∈ w_out_log s -> open_id g = Some a -> StreamId_dir a = StreamId_dir id ->
     StreamId_counter a < StreamId_counter id) ->
  wat s T (wasm_send_frame f) (w_queued f).
Proof.
  intros HI Hf Hid Hi Hdir Hof Hord.
  assert (Hs : sendable (w_limits s) f) by (destruct f; simplify_eq/=; done).
  destruct (try_send_frame_ok s T f HI Hs) as (? & ? & ? & _); [|done].
  apply (send_push (send_view s) T T); try done; try (by destruct f); [apply HI| |].
  - intros i Hi'. assert (i = id) as -> by congruence. split_and!; [done|done| |done].
    by apply (si_ids _ _ (wi_send _ _ HI)); eexists.
  - apply (si_tok _ _ (wi_send _ _ HI)).
Qed.

Lemma opened_by s id f : open_id f = Some id -> f ∈ w_out_log s -> stream_opened false (w_out_log s) id.
Proof. intros Hf Hin _. exists f. split; [done|]. unfold is_open. destruct f; simplify_eq/=; auto. Qed.

Definition w_opened (r : result wasm_SendStream) s : Prop :=
  match r with Ok h => w_send_ok s h | _ => True end.

Lemma wat_new_handle s T id l f :
  winv s T -> sid_ok id -> w_flow_of s !! id = Some l -> open_id f = Some id -> f ∈ w_out_log s ->
  wat s T (wasm_SendStream_new id l) (fun (h : wasm_SendStream) s' => w_send_ok s' h).
Proof.
  intros HI Hid Hof Hf Hin.
  destruct (wkeep_SendStream_new s id l s T ltac:(reflexivity) HI) as (HR & ? & Hh1 & Hh2).
  split_and!; [done..|]. unfold w_send_ok. rewrite Hh1, Hh2. split_and!; [done| |].
  - eapply lookup_weaken; [done|apply HR].
  - apply (stream_opened_prefix _ _ _ _ (we_log _ _ HR)). by eapply opened_by.
Qed.

Lemma open_uni_ok s T : winv s T -> w_no_wrap s -> wat s T wasm_open_uni w_opened.
Proof.
  intros HI Hw. unfold wasm_open_uni, wtry. eapply wat_bind; [by apply next_stream_id_ok|].
  intros [id|e|] s1 HR1 HI1 Hid; [|by apply wat_keep, wkeep_ret..].
  destruct Hid as (Hfresh & Hi & Hd & Hlog & Hord).
  eapply wat_bind; [by apply register_send_flow_ok|].
  intros [l|e|] s2 HR2 HI2 Hreg; [|by apply wat_keep, wkeep_ret..].
  destruct Hreg as (Hof & Hlog2 & Hfr).
  eapply wat_bind.
  { apply (send_open_ok s2 T id (OpenUni id) l); try done; [apply Hfresh|].
    rewrite Hlog2, Hd. exact Hord. }
  intros [[]|e|] s3 HR3 HI3 Hq; [|apply wat_keep; [done|]|done].
  - eapply wat_bind; [apply (wat_new_handle s3 T id l (OpenUni id)); try done;
      [apply Hfresh|eapply lookup_weaken; [done|apply HR3]]|].
    intros h s4 HR4 HI4 Hh. apply wat_keep; [done|]. apply wkeep_ret. intros s5 HR5.
    by eapply w_send_ok_later.
  - eapply wkeep_seq; [eapply wkeep_any, wkeep_remove_send_flow|]. intros _. by apply wkeep_ret.
Qed.

Definition w_opened_pair (r : result (wasm_SendStream * RecvStream)) s : Prop :=
  match r with Ok p => w_pair_ok s p | _ => True end.

Lemma log_register_recv id s : w_out_log (wasm_register_recv_stream id s).1 = w_out_log s.
Proof. unfold wasm_register_recv_stream. simpl. by case_match. Qed.

Lemma wkeep_undo_open {A} s0 id recv (err : Error) :
  w_recv_ok recv ->
  wkeep (A := result A) s0 (wasm_remove_stream id;; wasm_remove_send_flow id;;
    wasm_RecvStream_drop recv;; mret (Err err)) (fun r s => match r with Ok _ => False | _ => True end).
Proof.
  intros Hr. eapply wkeep_seq; [apply wkeep_remove_stream|]. intros _.
  eapply wkeep_seq; [eapply wkeep_any, wkeep_remove_send_flow|]. intros _.
  eapply wkeep_seq; [by apply wkeep_RecvStream_drop|]. intros _. by apply wkeep_ret.
Qed.

Lemma open_bi_ok s T : winv s T -> w_no_wrap s -> wat s T wasm_open_bi w_opened_pair.
Proof.
  intros HI Hw. unfold wasm_open_bi, wtry. eapply wat_bind; [by apply next_stream_id_ok|].
  intros [id|e|] s1 HR1 HI1 Hid; [|by apply wat_keep, wkeep_ret..].
  destruct Hid as (Hfresh & Hi & Hd & Hlog & Hord). pose proof (proj1 Hfresh) as Hsid.
  eapply wat_bind; [by apply register_send_flow_ok|].
  intros [l|e|] s2 HR2 HI2 Hreg; [|by apply wat_keep, wkeep_ret..].
  destruct Hreg as (Hof & Hlog2 & Hfr).
  eapply (wat_bind _ _ _ _ (fun recv s' => w_recv_ok recv /\ w_out_log s' = w_out_log s2)).
  { destruct (wkeep_register_recv_stream s2 id Hsid s2 T ltac:(reflexivity) HI2) as (? & ? & Hr).
    split_and!; [done..| |apply log_register_recv]. unfold w_recv_ok. by rewrite Hr. }
  intros recv s3 HR3 HI3 [Hr Hlog3].
  assert (Hof3 : w_flow_of s3 !! id = Some l) by (eapply lookup_weaken; [done|apply HR3]).
  assert (Hundo : forall s5 err, winv s5 T -> wat s5 T (wasm_remove_stream id;; wasm_remove_send_flow id;;
    wasm_RecvStream_drop recv;; mret (Err err)) w_opened_pair).
  { intros s5 err HI5. apply wat_keep; [done|]. eapply wkeep_mono; [by apply wkeep_undo_open|].
    by intros [?|?|]. }
  eapply wat_bind.
  { apply (send_open_ok s3 T id (OpenBi id) l); try done. rewrite Hlog3, Hlog2, Hd. exact Hord. }
  intros [[]|e|] s4 HR4 HI4 Hq; [|by apply Hundo|done].
  eapply wat_bind; [apply wat_keep; [done|]; by apply (wkeep_get _ _ (fun w _ => w = initial_stream_window (w_limits s4)));
    intros s' HR'; rewrite (we_limits _ _ HR')|].
  intros window s5 HR5 HI5 ->.
  eapply (wat_bind _ _ _ _ wany).
  { apply wat_keep; [done|]. apply wkeep_send_plain; [|done]. split; [|done]. split; [done|].
    pose proof (si_limits _ _ (wi_send _ _ HI4)) as Hl. simpl in Hl. unfold varint_ok. destruct Hl. lia. }
  intros r s6 HR6 HI6 _.
  assert (Hnew : wat s6 T (h ← wasm_SendStream_new id l; mret (Ok (h, recv))) w_opened_pair).
  { eapply wat_bind; [apply (wat_new_handle s6 T id l (OpenBi id)); try done|].
    - eapply lookup_weaken; [exact Hof3|]. etrans; [apply HR4|]. etrans; [apply HR5|apply HR6].
    - destruct (we_log _ _ HR5) as [k5 E5], (we_log _ _ HR6) as [k6 E6]. simpl in Hq.
      rewrite E6, E5, <- app_assoc. apply elem_of_app. by left.
    - intros h s7 HR7 HI7 Hh. apply wat_keep; [done|]. apply wkeep_ret. intros s8 HR8. split; [|done].
      by eapply w_send_ok_later. }
  destruct r; [exact Hnew|by apply Hundo|exact Hnew].
Qed.

(** ** Session handles *)
Lemma wkeep_Session_clone s0 : wkeep (fchan := fchan) s0 wasm_Session_clone wany.
Proof.
  apply wkeep_mod. intros s T HR HI. destruct (wstep_handles (w_session_handles s + 1) s T HI) as [R1 I1].
  destruct (wstep_uni_refs (w_accept_uni_refs s + 1) _ T I1) as [R2 I2].
  destruct (wstep_bi_refs (w_accept_bi_refs s + 1) _ T I2) as [R3 I3].
  split; [|exact I3]. by repeat (etrans; [eassumption|]).
Qed.

Lemma wkeep_drop_each {A} s0 (d : A -> st unit) (l : list A) :
  (forall a, a ∈ l -> wkeep s0 (d a) wany) -> wkeep s0 (w_drop_each d l) wany.
Proof.
  induction l as [|a l IH]; intros Hd; simpl; [by apply wkeep_ret|].
  eapply wkeep_seq; [apply Hd; by left|]. intros _. apply IH. intros x Hx. apply Hd. by right.
Qed.

Lemma wkeep_drop_accept_uni s0 : wkeep s0 w_drop_accept_uni wany.
Proof.
  unfold w_drop_accept_uni. apply (wkeep_bind _ _ _ (fun l _ => Forall w_recv_ok l)).
  - intros s T HR HI. unfold wop. destruct (wstep_uni_refs (w_accept_uni_refs s - 1) s T HI) as [R1 I1].
    case_match; [|by split_and!].
    pose proof (fchan_all_dropped _ _ (wi_uni _ _ HI)) as Hl.
    pose proof (fchan_all_rx_drop w_recv_ok (w_accept_uni_chan s)) as Hc.
    destruct (f_rx_drop _) as [l c]. simpl in *.
    destruct (wstep_uni_chan _ T c I1 Hc) as [R2 I2]. split_and!; [by etrans|done|done].
  - intros l s HR Hl. apply wkeep_drop_each. intros h Hin. apply wkeep_RecvStream_drop.
    rewrite Forall_forall in Hl. auto.
Qed.

Lemma wkeep_drop_accept_bi s0 : wkeep s0 w_drop_accept_bi wany.
Proof.
  unfold w_drop_accept_bi. apply (wkeep_bind _ _ _ (fun l s => Forall (w_pair_ok s) l)).
  - intros s T HR HI. unfold wop. destruct (wstep_bi_refs (w_accept_bi_refs s - 1) s T HI) as [R1 I1].
    case_match; [|by split_and!].
    pose proof (fchan_all_dropped _ _ (wi_bi _ _ I1)) as Hl.
    pose proof (fchan_all_rx_drop (w_pair_ok (set_w_accept_bi_refs (w_accept_bi_refs s - 1) s)) (w_accept_bi_chan s)) as Hc.
    simpl in Hl. destruct (f_rx_drop _) as [l c]. simpl in *.
    destruct (wstep_bi_chan _ T c I1 Hc) as [R2 I2]. split_and!; [by etrans|done|].
    eapply Forall_impl; [exact Hl|]. intros p. by apply w_pair_ok_later.
  - intros l s HR Hl. apply wkeep_drop_each. intros p Hin. apply wkeep_drop_pair.
    rewrite Forall_forall in Hl. auto.
Qed.

Lemma wkeep_Session_drop s0 : wkeep s0 wasm_Session_drop wany.
Proof.
  unfold wasm_Session_drop. eapply (wkeep_seq _ (wop _)).
  { intros s T HR HI. by destruct (wstep_handles (w_session_handles s - 1) s T HI). }
  intros n. eapply wkeep_seq; [case_match; [apply wkeep_request_shutdown|by apply wkeep_ret]|].
  intros _. eapply wkeep_seq; [apply wkeep_drop_accept_uni|]. intros _. apply wkeep_drop_accept_bi.
Qed.
End WasmSessionSpecs.
