(* ===== verification/WasmPool.v ===== *)
(** * The browser session under every schedule

    The session task and any number of client programs share the state of one
    browser session.  Every synchronous method is one step; clients are arbitrary
    sequences of calls of the public interface on the handles they hold, and may be
    cancelled at every suspension point. *)

From S2P Require Import Prelude Buf VarInt Frame Proto Limits SendFlow Channel Async NativeState.
From S2P Require Import NativeOps NativeStream NativeRecv NativeSession NativeTasks Credit NativeInv.
From S2P Require Import Keep FuturesChannel WasmState WasmOps WasmStreams WasmSession WasmInv.
From S2P Require Import WasmSteps WasmSpecs WasmSendSpecs WasmSessionSpecs.
Open Scope mux_scope.

#[global] Instance wasm_shared {fchan : Type -> Type} `{FMpscLaws fchan} : Shared (WasmSession fchan) := {
  sh_inv := winv;
  sh_ev := wev;
  sh_pre := w_no_wrap;
  sh_preorder := wev_preorder
}.

Section WasmProgs.
Context {fchan : Type -> Type} `{FMpscLaws fchan} `{!MapOrder} `{!MapOrderLaws}.
Implicit Types (s : WasmSession fchan) (T : gset tok).
Abbreviation W := (wp (S := WasmSession fchan) sh_inv sh_ev sh_pre).

(** A synchronous method is one step of a program. *)
Lemma keep_sync {A} s0 (m : wst fchan A) P :
  wkeep s0 m P -> (forall a s s', wev s s' -> P a s -> P a s') -> keep s0 (atomic m) P.
Proof.
  intros Hm HP. apply keep_atomic. intros s T HR HI _. destruct (Hm s T HR HI) as (? & ? & ?).
  split; [done|]. intros s' HR'. by eapply HP.
Qed.
Lemma keep_sync_any {A} s0 (m : wst fchan A) : wkeep s0 m wany -> keep s0 (atomic m) any.
Proof. intros Hm. by apply (keep_sync s0 m any). Qed.
Lemma keep_wat {A} s0 (m : wst fchan A) P :
  (forall s T, wev s0 s -> winv s T -> w_no_wrap s -> wat s T m P) ->
  (forall a s s', wev s s' -> P a s -> P a s') -> keep s0 (atomic m) P.
Proof.
  intros Hm HP. apply keep_atomic. intros s T HR HI Hw. destruct (Hm s T HR HI Hw) as (? & ? & ?).
  split; [done|]. intros s' HR'. by eapply HP.
Qed.

(** ** Writing *)
Lemma W_w_grant T s0 h wanted :
  w_send_ok s0 h -> 0 <= wanted ->
  W T s0 (await (w_poll_grant h wanted))
    (fun r T' s' => match r with
       | Ok n => (0 < n <= wanted) /\ granted T (ws_id h) n T'
       | Err _ => T' = T
       | Panic => False end).
Proof.
  intros Hh Hw. apply wp_await. intros s s' a Fr HR Hd HI Hpre Hs.
  pose proof (w_send_ok_later _ _ _ HR Hh) as Hhs. unfold w_poll_grant in Hs.
  destruct (fresh_token (T ∪ Fr) (ws_id h) (wasm_try_reserve wanted (w_flow_at s (ws_flow h))).1) as [k Hk].
  destruct (wstep_grant s _ h wanted k HI Hhs Hw Hk) as (HR1 & HI1 & Hn).
  destruct (wasm_try_reserve wanted _) as [n fl]. cbn [fst snd] in *.
  destruct (n =? 0) eqn:En.
  - destruct (_ || _); [|done]. simplify_eq. split; [reflexivity|].
    exists T. split_and!; [set_solver|done|done].
  - simplify_eq. split; [done|]. exists ({[inr (ws_id h, n, k)]} ∪ T).
    split_and!; [set_solver|by rewrite <- union_assoc_L|]. intros _ _. split; [lia|].
    exists k. split; [set_solver|done].
Qed.

Lemma W_w_queue T s0 h i data k :
  w_send_ok s0 h -> blen data <= max_stream_data_per_frame (w_limits s0) ->
  inr (ws_id h, blen data, k) ∈ T ->
  W T s0 (await (w_poll_queue h i (Stream (ws_id h) data false)))
    (fun b T' s' => T' = if b then T ∖ {[inr (ws_id h, blen data, k)]} else T).
Proof.
  intros Hh Hlen Ht. apply wp_await. intros s s' a Fr HR Hd HI Hpre Hs.
  pose proof (w_send_ok_later _ _ _ HR Hh) as Hhs. unfold w_poll_queue in Hs.
  destruct (wasm_flow_is_closed s h) eqn:Ec.
  { simplify_eq. split; [reflexivity|]. exists T. split_and!; [set_solver|done|done]. }
  destruct (wkeep_poll_ready s i s _ ltac:(reflexivity) HI) as (HR1 & HI1 & _).
  pose proof (w_poll_ready_same i s) as [Hs1 _].
  destruct (w_poll_ready i s) as [s1 [[|]|]]; cbn [fst snd] in *; [| |done].
  - destruct (wstep_start_data s1 _ h i data k HI1) as (HR2 & HI2 & _).
    + by eapply w_send_ok_later.
    + by rewrite Hs1.
    + rewrite Hs1. simpl. by rewrite (we_limits _ _ HR).
    + set_solver.
    + destruct (w_start_send i _ s1) as [s2 b]. injection Hs as <- <-. cbn [fst snd] in *.
      split; [by etrans|]. exists (if b then T ∖ {[inr (ws_id h, blen data, k)]} else T).
      destruct b; split_and!; [set_solver| |done|set_solver|done|done].
      replace (T ∖ {[inr (ws_id h, blen data, k)]} ∪ Fr)
        with ((T ∪ Fr) ∖ {[inr (ws_id h, blen data, k)]}) by set_solver. done.
  - simplify_eq. split; [done|]. exists T. split_and!; [set_solver|done|done].
Qed.

Lemma W_w_give_back T s0 h n k :
  w_send_ok s0 h -> inr (ws_id h, n, k) ∈ T ->
  W T s0 (modify (w_on_flow (ws_flow h) (wasm_release n)))
    (fun _ T' _ => T' = T ∖ {[inr (ws_id h, n, k)]}).
Proof.
  intros Hh Ht. apply wp_atomic. intros s Fr HR Hd HI _. cbn [fst snd].
  destruct (wstep_give_back s _ h n k HI (w_send_ok_later _ _ _ HR Hh) ltac:(set_solver)) as [HR1 HI1].
  split; [done|]. exists (T ∖ {[inr (ws_id h, n, k)]}). split_and!; [set_solver| |done].
  replace (T ∖ {[inr (ws_id h, n, k)]} ∪ Fr) with ((T ∪ Fr) ∖ {[inr (ws_id h, n, k)]}) by set_solver.
  done.
Qed.

Lemma keep_w_wanted s0 (d : list byte) :
  keep s0 (gets (fun s => payload_limit (blen d) (max_stream_data_per_frame (w_limits s))))
    (fun w _ => w = payload_limit (blen d) (max_stream_data_per_frame (w_limits s0))).
Proof. apply keep_gets. intros s s' HR _. by rewrite (we_limits _ _ HR). Qed.

(** [write_buf]'s loop never runs out of rounds, and ends holding no credit. *)
Lemma W_w_write_loop h i fuel : forall data T s0,
  w_send_ok s0 h -> limits_ok (w_limits s0) -> (length data <= fuel)%nat ->
  W T s0 (wasm_write_loop h i fuel data) (fun r T' _ => T' = T /\ r <> Panic).
Proof.
  induction fuel as [|fuel IH]; intros data T s0 Hh Hl Hfuel.
  { destruct data; [by intros ??|simpl in Hfuel; lia]. }
  cbn [wasm_write_loop]. destruct data as [|b data]; [by intros ??|]. set (d := b :: data) in *.
  set (lim := max_stream_data_per_frame (w_limits s0)).
  eapply W_bind; [exact (keep_w_wanted s0 d T s0 ltac:(reflexivity))|].
  intros wanted T1 s1 HR1 [-> Hw]. cbv beta in Hw. fold lim in Hw.
  destruct (wanted =? 0) eqn:E0; [by intros ??|].
  destruct (payload_limit_le (blen d) lim) as [Hw1 Hw2].
  assert (Hpos : 0 <= wanted).
  { subst wanted lim. unfold payload_limit, MAX_WRITE_CHUNK, blen. destruct Hl. lia. }
  pose proof (w_send_ok_later _ _ _ HR1 Hh) as Hh1. unfold bind_result.
  eapply W_bind; [exact (W_w_grant T s1 h wanted Hh1 Hpos)|].
  intros [n|e|] T2 s2 HR2; [|by intros -> ??|done]. intros [Hn (k & Hk & HT2)].
  pose proof (w_send_ok_later _ _ _ HR2 Hh1) as Hh2.
  assert (Hlim : w_limits s2 = w_limits s0) by (by rewrite (we_limits _ _ HR2), (we_limits _ _ HR1)).
  assert (Hlen : blen (take (Z.to_nat n) d) = n) by (apply blen_take; lia).
  eapply W_bind.
  { apply (W_w_queue T2 s2 h i (take (Z.to_nat n) d) k); [done|rewrite Hlim, Hlen; subst lim; lia|].
    rewrite Hlen, HT2. set_solver. }
  rewrite Hlen. intros [|] T3 s3 HR3 ->; pose proof (w_send_ok_later _ _ _ HR3 Hh2) as Hh3.
  - rewrite (granted_back T _ _ _ _ Hk HT2). apply IH; [done| |rewrite length_drop; lia].
    by rewrite (we_limits _ _ HR3), Hlim.
  - eapply W_bind; [apply (W_w_give_back T2 s3 h n k); [done|set_solver]|].
    intros [] T4 s4 HR4. rewrite (granted_back T _ _ _ _ Hk HT2). intros -> s5 _. done.
Qed.

Lemma keep_w_write_buf s0 h data :
  w_send_ok s0 h -> limits_ok (w_limits s0) -> keep s0 (wasm_write_buf h data) any.
Proof.
  intros Hh Hl. unfold wasm_write_buf, wasm_complete_or_abort.
  assert (Hend : forall s, keep s (atomic (wasm_end_operation h)) any)
    by (intros; apply keep_sync_any, wkeep_end_operation).
  apply keep_seq_result; [apply keep_sync_any, wkeep_begin_operation|]. intros _.
  eapply keep_seq; [|intros r; eapply keep_seq; [apply Hend|intros _; by apply keep_ret]].
  apply keep_with_drop; [by apply (keep_safe _ _ any)|].
  apply keep_with_drop; [apply (keep_safe _ _ any), keep_sync_any, wkeep_request_shutdown|].
  eapply keep_seq; [by apply keep_gets|]. intros c. destruct c; [by apply keep_ret|].
  eapply keep_seq; [apply keep_sync_any, wkeep_outbound_clone|]. intros i.
  assert (Hdrop : forall s, keep s (atomic (w_outbound_drop i)) any)
    by (intros; apply keep_sync_any, wkeep_outbound_drop).
  eapply keep_seq; [|intros r; eapply keep_seq; [apply Hdrop|intros _; by apply keep_ret]].
  apply keep_with_drop; [by apply (keep_safe _ _ any)|]. intros T s HR.
  eapply W_mono; [apply W_w_write_loop; [by eapply w_send_ok_later|by rewrite (we_limits _ _ HR)|done]|].
  by intros r T' s' HR' [-> _].
Qed.

(** ** Reading and accepting *)
Lemma keep_w_next_event s0 h : keep s0 (w_next_event h) any.
Proof.
  apply (keep_await _ _ any). intros s s' a T HR HI _ Hs. split; [|done].
  destruct (wkeep_poll_next s0 h s T HR HI) as (? & ? & _).
  destruct (w_poll_next h s) as [s1 [e|]]; simplify_eq. done.
Qed.

Lemma keep_w_read s0 h room : w_recv_ok h -> keep s0 (wasm_read h room) any.
Proof.
  intros Hh. unfold wasm_read. case_match; [by apply keep_ret|].
  eapply keep_seq; [by apply keep_gets|]. intros c.
  assert (Hd : keep (A := result (option (list byte))) s0
    (let* out := atomic (w_deliver_pending h room) in Ret (Ok (Some out))) any).
  { eapply keep_seq; [by apply keep_sync_any, wkeep_deliver_pending|]. intros; by apply keep_ret. }
  case_match; [|done]. case_match; [by apply keep_ret|].
  apply keep_seq_result.
  - unfold wasm_read_chunk_internal. eapply keep_seq; [apply keep_w_next_event|]. intros ev.
    eapply keep_seq; [apply keep_sync_any, wkeep_chunk_of_event|]. intros; by apply keep_ret.
  - intros [chunk|]; [|by apply keep_ret].
    eapply keep_seq; [apply keep_sync_any, wkeep_set_pending|]. intros _. done.
Qed.

Lemma keep_w_read_chunk s0 h max : w_recv_ok h -> keep s0 (wasm_read_chunk h max) any.
Proof.
  intros Hh. unfold wasm_read_chunk. case_match; [by apply keep_ret|].
  eapply keep_seq; [by apply keep_gets|]. intros c. case_match.
  { eapply keep_seq; [by apply keep_sync_any, wkeep_deliver_pending|]. intros; by apply keep_ret. }
  case_match; [by apply keep_ret|]. eapply keep_seq; [apply keep_w_next_event|]. intros ev.
  eapply keep_seq; [by apply keep_sync_any, wkeep_split_event|]. intros; by apply keep_ret.
Qed.

Lemma keep_w_accept_uni s0 :
  keep s0 wasm_accept_uni (fun r _ => match r with Ok h => w_recv_ok h | _ => True end).
Proof.
  apply keep_await. intros s s' a T HR HI _ Hs.
  pose proof (fchan_all_next _ _ (wi_uni _ _ HI)) as Hc.
  pose proof (fun h => fchan_all_item _ _ h (wi_uni _ _ HI)) as Hh.
  destruct (f_next (w_accept_uni_chan s)) as [[h| |] c]; simplify_eq/=;
    (split; [by apply wstep_uni_chan|]); intros _ _; [by apply Hh|done].
Qed.

Lemma keep_w_accept_bi s0 :
  keep s0 wasm_accept_bi (fun r s => match r with Ok p => w_pair_ok s p | _ => True end).
Proof.
  apply keep_await. intros s s' a T HR HI _ Hs.
  pose proof (fchan_all_next _ _ (wi_bi _ _ HI)) as Hc.
  pose proof (fun h => fchan_all_item _ _ h (wi_bi _ _ HI)) as Hh.
  destruct (f_next (w_accept_bi_chan s)) as [[p| |] c]; simplify_eq/=;
    (assert (HR1 : wev s (set_w_accept_bi_chan c s)) by apply (wstep_bi_chan s T c HI Hc));
    (split; [by apply wstep_bi_chan|]); intros s2 HR2; [|done].
  eapply w_pair_ok_later; [exact HR2|]. eapply w_pair_ok_later; [exact HR1|]. by apply Hh.
Qed.

Lemma keep_w_wait_closed s0 : keep (S := WasmSession fchan) s0 wasm_wait_closed any.
Proof.
  unfold wasm_wait_closed. eapply keep_seq.
  - apply keep_sync_any. intros s T HR HI. unfold w_add_waiter. case_match; [by split_and!; [reflexivity|done..]|].
    cbv zeta. cbn [fst snd]. destruct (wstep_waiters (w_waiters s ++ [Waiting]) s T HI) as [R1 I1].
    match goal with |- context [set_w_close_waiters ?l _] => destruct (wstep_close_waiters l _ T I1) as [R2 I2] end.
    split_and!; [by etrans|done|done].
  - intros [l|]; [|by apply keep_ret]. apply keep_with_drop.
    + apply (keep_safe _ _ any), keep_sync_any, wstep_mod. intros s T HI. by apply wstep_waiters.
    + apply (keep_await _ _ any). intros s s' a T HR HI _ Hs. split; [|done].
      repeat case_match; simplify_eq. by apply wstep_id.
Qed.

Lemma keep_w_shutdown s0 : keep (S := WasmSession fchan) s0 wasm_shutdown any.
Proof.
  unfold wasm_shutdown. eapply keep_seq; [apply keep_sync_any, wkeep_request_shutdown|].
  intros _. apply keep_w_wait_closed.
Qed.
End WasmProgs.

(** ** Clients *)
Inductive whandle : Set := WSend (h : wasm_SendStream) | WRecv (h : RecvStream).

(** The public interface of the browser session. *)
Inductive wcall : Type -> Type :=
| WOpenUni : wcall (result wasm_SendStream)
| WOpenBi : wcall (result (wasm_SendStream * RecvStream))
| WAcceptUni : wcall (result RecvStream)
| WAcceptBi : wcall (result (wasm_SendStream * RecvStream))
| WSessionClone : wcall unit
| WSessionDrop : wcall unit
| WShutdown : wcall (result unit)
| WIsClosed : wcall bool
| WWrite (h : wasm_SendStream) (data : list byte) : wcall (result unit)
| WFinish (h : wasm_SendStream) : wcall (result unit)
| WReset (h : wasm_SendStream) (code : Z) : wcall (result unit)
| WSendClosed (h : wasm_SendStream) : wcall bool
| WSendClone (h : wasm_SendStream) : wcall wasm_SendStream
| WSendDrop (h : wasm_SendStream) : wcall unit
| WPollWrite (h : wasm_SendStream) (buf : list byte) : wcall (poll (outcome IoError Z))
| WPollFlush (h : wasm_SendStream) : wcall (poll (outcome IoError unit))
| WPollClose (h : wasm_SendStream) : wcall (poll (outcome IoError unit))
| WRead (h : RecvStream) (room : Z) : wcall (result (option (list byte)))
| WReadChunk (h : RecvStream) (max : Z) : wcall (result (option (list byte)))
| WPollRead (h : RecvStream) (fuel : nat) (room : Z) : wcall (poll (list byte))
| WStop (h : RecvStream) (code : Z) : wcall (result unit)
| WRecvClosed (h : RecvStream) : wcall bool
| WRecvDrop (h : RecvStream) : wcall unit.

Definition wuses {A} (c : wcall A) : list whandle :=
  match c with
  | WWrite h _ | WFinish h | WReset h _ | WSendClosed h | WSendClone h | WSendDrop h
  | WPollWrite h _ | WPollFlush h | WPollClose h => [WSend h]
  | WRead h _ | WReadChunk h _ | WPollRead h _ _ | WStop h _ | WRecvClosed h | WRecvDrop h => [WRecv h]
  | _ => []
  end.
Definition wargs_ok {A} (c : wcall A) : Prop :=
  match c with
  | WReset _ n | WRead _ n | WReadChunk _ n | WPollRead _ _ n | WStop _ n => 0 <= n
  | _ => True
  end.
Definition wreturns {A} (c : wcall A) : A -> list whandle :=
  match c in wcall A return A -> list whandle with
  | WOpenUni => fun r => match r with Ok h => [WSend h] | _ => [] end
  | WOpenBi | WAcceptBi => fun r => match r with Ok (h, r) => [WSend h; WRecv r] | _ => [] end
  | WAcceptUni => fun r => match r with Ok h => [WRecv h] | _ => [] end
  | WSendClone _ => fun h => [WSend h]
  | _ => fun _ => []
  end.

Section WasmPool.
Context {fchan : Type -> Type} `{FMpscLaws fchan} `{!MapOrder} `{!MapOrderLaws} `{!UsizeWidth}.
Implicit Types (s : WasmSession fchan) (T : gset tok).
Abbreviation W := (wp (S := WasmSession fchan) sh_inv sh_ev sh_pre).

Definition wdenote {A} (c : wcall A) : wprog fchan A :=
  match c in wcall A return wprog fchan A with
  | WOpenUni => atomic wasm_open_uni
  | WOpenBi => atomic wasm_open_bi
  | WAcceptUni => wasm_accept_uni
  | WAcceptBi => wasm_accept_bi
  | WSessionClone => atomic wasm_Session_clone
  | WSessionDrop => atomic wasm_Session_drop
  | WShutdown => wasm_shutdown
  | WIsClosed => gets wasm_Session_is_closed
  | WWrite h data => wasm_write_buf h data
  | WFinish h => atomic (wasm_finish h)
  | WReset h code => atomic (wasm_reset h code)
  | WSendClosed h => gets (wasm_SendStream_closed h)
  | WSendClone h => atomic (wasm_SendStream_clone h)
  | WSendDrop h => atomic (wasm_SendStream_drop h)
  | WPollWrite h buf => atomic (wasm_poll_write h buf)
  | WPollFlush h => atomic (wasm_poll_flush h)
  | WPollClose h => atomic (wasm_poll_close h)
  | WRead h room => wasm_read h room
  | WReadChunk h max => wasm_read_chunk h max
  | WPollRead h fuel room => atomic (wasm_poll_read h fuel room)
  | WStop h code => atomic (wasm_stop h code)
  | WRecvClosed h => gets (wasm_RecvStream_closed h)
  | WRecvDrop h => atomic (wasm_RecvStream_drop h)
  end.

Definition whandle_ok s (h : whandle) : Prop :=
  match h with WSend h => w_send_ok s h | WRecv h => w_recv_ok h end.

Inductive wclient : list whandle -> wprog fchan unit -> Prop :=
| wcl_done hs : wclient hs (Ret tt)
| wcl_call {A} (c : wcall A) hs k :
    (forall h, h ∈ wuses c -> h ∈ hs) -> wargs_ok c ->
    (forall a, wclient (wreturns c a ++ hs) (k a)) ->
    wclient hs (pbind (wdenote c) k).

Inductive wasm_api s : wprog fchan unit -> Prop :=
| wapi_client hs p : Forall (whandle_ok s) hs -> wclient hs p -> wasm_api s p
| wapi_task sink close_done pick rounds items :
    wasm_api s (wasm_task sink close_done pick rounds items)
| wapi_tick n : wasm_api s (modify (set_w_now n)).

(** ** Every call is safe *)
Lemma whandles_later s s' hs : wev s s' -> Forall (whandle_ok s) hs -> Forall (whandle_ok s') hs.
Proof.
  intros HR Hhs. eapply Forall_impl; [done|]. intros [h|h]; simpl; [|done]. by apply w_send_ok_later.
Qed.

Lemma wcall_spec {A} (c : wcall A) s0 :
  limits_ok (w_limits s0) -> Forall (whandle_ok s0) (wuses c) -> wargs_ok c ->
  keep s0 (wdenote c) (fun a s => Forall (whandle_ok s) (wreturns c a)).
Proof.
  intros Hl Hu Ha.
  assert (Hnone : forall B (p : wprog fchan B), keep s0 p any ->
    keep s0 p (fun _ s => Forall (whandle_ok s) [])).
  { intros B p Hp. eapply keep_mono; [exact Hp|]. intros; constructor. }
  destruct c; cbn [wdenote wreturns wuses wargs_ok] in *;
    rewrite ?Forall_singleton in Hu; simpl in Hu; try apply Hnone; try (by apply keep_gets).
  - eapply keep_mono; [apply (keep_wat s0 wasm_open_uni w_opened)|].
    + intros; by apply open_uni_ok.
    + intros [h|e|] s s' HR; [by apply w_send_ok_later|done..].
    + intros [h|e|] s HR Hr; [by apply Forall_singleton|constructor..].
  - eapply keep_mono; [apply (keep_wat s0 wasm_open_bi w_opened_pair)|].
    + intros; by apply open_bi_ok.
    + intros [h|e|] s s' HR; [by apply w_pair_ok_later|done..].
    + intros [[h r]|e|] s HR Hr; [|constructor..]. destruct Hr. apply Forall_cons_2; [done|]. by apply Forall_singleton.
  - eapply keep_mono; [apply keep_w_accept_uni|]. intros [h|e|] s HR Hr; [by apply Forall_singleton|constructor..].
  - eapply keep_mono; [apply keep_w_accept_bi|]. intros [[h r]|e|] s HR Hr; [|constructor..].
    destruct Hr. apply Forall_cons_2; [done|]. by apply Forall_singleton.
  - apply keep_sync_any, wkeep_Session_clone.
  - apply keep_sync_any, wkeep_Session_drop.
  - apply keep_w_shutdown.
  - by apply keep_w_write_buf.
  - by apply keep_sync_any, wkeep_finish.
  - by apply keep_sync_any, wkeep_reset.
  - eapply keep_mono; [apply (keep_sync s0 _ (fun h' s => w_send_ok s h'))|].
    + by apply wkeep_SendStream_clone.
    + intros h' s s' HR. by apply w_send_ok_later.
    + intros h' s HR Hh. by apply Forall_singleton.
  - by apply keep_sync_any, wkeep_SendStream_drop.
  - by apply keep_sync_any, wkeep_poll_write.
  - by apply keep_sync_any, wkeep_poll_flush.
  - by apply keep_sync_any, wkeep_poll_close.
  - by apply keep_w_read.
  - by apply keep_w_read_chunk.
  - by apply keep_sync_any, wkeep_poll_read.
  - by apply keep_sync_any, wkeep_stop.
  - by apply keep_sync_any, wkeep_RecvStream_drop.
Qed.

Lemma wclient_safe hs p : wclient hs p -> forall s0,
  limits_ok (w_limits s0) -> Forall (whandle_ok s0) hs -> safe s0 p.
Proof.
  induction 1 as [hs|A c hs k Hu Ha _ IH]; intros s0 Hl Hhs; [done|].
  eapply safe_keep_bind.
  - apply wcall_spec; [done| |done]. apply Forall_forall. intros h Hh.
    eapply Forall_forall; [exact Hhs|]. by apply Hu.
  - intros a s HR Hret. apply IH; [by rewrite (we_limits _ _ HR)|].
    apply Forall_app. split; [done|]. by eapply whandles_later.
Qed.

(** ** The session task *)
Lemma wkeep_inbound_frames fuel : forall cursor s0,
  0 <= usize_bits -> wkeep s0 (wasm_inbound_frames fuel cursor) wany.
Proof.
  induction fuel as [|fuel IH]; intros cursor s0 Hw; cbn [wasm_inbound_frames];
    destruct (has_remaining cursor); [wgo..| |wgo].
  destruct (Frame_decode cursor) as [[f rest]| |] eqn:Ed; [|wgo..].
  destruct (Frame_decode_ok cursor f rest Hw Ed) as [Hf _].
  eapply wkeep_seq; [by apply wkeep_handle_frame|]. intros r. case_match; [by apply IH|wgo].
Qed.

Lemma wkeep_on_message s0 m : 0 <= usize_bits -> wkeep s0 (wasm_on_message m) wany.
Proof.
  intros Hw. destruct m as [[t|data]|e|]; cbn [wasm_on_message]; [wgo| |wgo|wgo].
  intros s T HR HI. case_match.
  - match goal with |- wev _ (?m s).1 /\ _ => change (wat s T m wany) end. apply wat_keep; [done|wgo].
  - by apply (wkeep_inbound_frames _ _ s0).
Qed.

Lemma wkeep_fill_batch fuel : forall batch n s0, wkeep s0 (wasm_fill_batch fuel batch n) wany.
Proof.
  induction fuel as [|fuel IH]; intros batch n s0 s T HR HI; cbn [wasm_fill_batch];
    [by split_and!; [reflexivity|done..]|]. case_match; [by split_and!; [reflexivity|done..]|].
  unfold w_try_recv. pose proof (fchan_all_next _ _ (wi_out _ _ HI)) as Hc.
  destruct (f_next (w_outbound s)) as [[[f]| |] c]; cbn [fst snd] in *;
    destruct (wstep_outbound s T c HI Hc) as [R1 I1]; [|done|done].
  destruct (Frame_encode f); [|done|done]. case_match; [done|].
  destruct (IH (batch ++ a) (n + 1) s _ T R1 I1) as (? & ? & _). split_and!; [by etrans|done..].
Qed.

Lemma wkeep_make_batch s0 f : wkeep s0 (wasm_make_batch f) wany.
Proof.
  intros s T HR HI. unfold wasm_make_batch. destruct (Frame_encode f); [|by split_and!; [reflexivity|done..]..].
  by apply (wkeep_fill_batch _ _ _ s0).
Qed.

Lemma safe_w_select pick pending items s0 : safe s0 (await (w_select pick pending items)).
Proof.
  apply (keep_safe _ _ any), keep_await. intros s s' a T HR HI _ Hs. split; [|done].
  assert (Hout : forall b s2 o, w_next_out b s = Some (s2, o) -> wev s s2 /\ winv s2 T).
  { intros b s2 o Ho. unfold w_next_out in Ho.
    pose proof (fchan_all_next _ _ (wi_out _ _ HI)) as Hc.
    pose proof (fun c => wstep_outbound s T c HI) as Hq.
    destruct (f_next (w_outbound s)) as [[[f]| |] c]; cbn [fst snd] in *;
      destruct (wasm_next_credit s) as [[s3 g]|] eqn:Ec, b; simplify_eq; try (by apply Hq);
      by destruct (w_next_credit_ok s T _ _ HI Ec) as (? & ? & _). }
  unfold w_select in Hs.
  destruct items as [|m items], pending as [f|]; simplify_eq/=; try (by apply wstep_id).
  - destruct (w_next_out pick.2 s) as [[s2 o]|] eqn:Eo; simplify_eq. by eapply Hout.
  - destruct pick.1; simplify_eq; by apply wstep_id.
  - destruct (w_next_out pick.2 s) as [[s2 o]|] eqn:Eo; [|simplify_eq; by apply wstep_id].
    destruct pick.1; simplify_eq; [by apply wstep_id|by eapply Hout].
Qed.

Lemma safe_w_task_loop sink pick rounds : forall pending items s0,
  0 <= usize_bits -> safe s0 (wasm_task_loop sink pick rounds pending items).
Proof.
  induction rounds as [|rounds IH]; intros pending items s0 Hw; cbn [wasm_task_loop]; [sgo|].
  apply safe_bind; [apply safe_w_select|]. intros [m rest|[f|]] s1 HR1; [| |sgo].
  - apply safe_bind; [by apply (keep_safe _ _ any), keep_sync_any, wkeep_on_message|].
    intros [|] s2 _; [by apply IH|sgo].
  - apply safe_bind; [apply (keep_safe _ _ any), keep_sync_any, wkeep_make_batch|].
    intros [[b kept]|] s2 _; [|sgo]. apply safe_bind.
    + apply (keep_safe _ _ any), keep_await. intros s s' a T HR HI _ Hs. split; [|done].
      case_match; simplify_eq; [by apply wstep_wire|by apply wstep_id].
    + intros [|] s3 _; [by apply IH|sgo].
Qed.

Lemma safe_w_task_end close_done s0 : safe s0 (wasm_task_end (fchan := fchan) close_done).
Proof.
  unfold wasm_task_end. apply safe_bind; [by apply (keep_safe _ _ any), keep_gets|]. intros start s1 _.
  apply safe_bind.
  { apply (keep_safe _ _ any), keep_await. intros s s' a T HR HI _ Hs. split; [|done].
    case_match; simplify_eq. by apply wstep_id. }
  intros _ s2 _. apply safe_bind; [|intros _ s3 _; apply safe_bind; [|intros _ s4 _]];
    apply (keep_safe _ _ any), keep_sync_any;
    [|apply wkeep_close_all|apply wkeep_finish_task].
  intros s T HR HI. unfold wop. cbn [fst snd].
  by destruct (wstep_outbound s T (f_rx_drop (w_outbound s)).2 HI ltac:(apply fchan_all_rx_drop)).
Qed.

Lemma wapi_safe s T p : 0 <= usize_bits -> winv s T -> wasm_api s p -> safe s p.
Proof.
  intros Hw HI [hs q Hhs Hc|sink cd pick rounds items|n].
  - eapply wclient_safe; [done|apply (si_limits _ _ (wi_send _ _ HI))|done].
  - unfold wasm_task. apply safe_bind; [by apply safe_w_task_loop|].
    intros [[]|] s1 _; [apply safe_w_task_end|sgo].
  - apply (keep_safe _ _ any), keep_modify. intros x U HU. by apply wstep_now.
Qed.

(** ** The invariant of every execution *)
Lemma winv_init l : limits_ok l -> winv (fchan := fchan) (wasm_SessionInner_new l
    (f_channel (outbound_queue_len l)) (f_channel (accept_uni_queue_len l))
    (f_channel (accept_bi_queue_len l))) ∅.
Proof.
  intros Hl. constructor; simpl; try apply fchan_all_channel.
  - destruct Hl. constructor; simpl; try done.
    + by rewrite map_size_empty; lia.
    + by intros id [? ?].
    + by intros id f ?%elem_of_nil.
    + by intros f id ?%elem_of_nil.
    + by intros f id ?%elem_of_nil.
  - destruct Hl. constructor; simpl; try done; [by rewrite map_size_empty; lia].
Qed.

Lemma wasm_reach_inv l s0 c :
  0 <= usize_bits -> limits_ok l -> wasm_Session_new l = Ok s0 ->
  pool_reach wasm_api w_no_wrap s0 c ->
  w_limits c.1 = l /\ wev s0 c.1 /\ exists T, winv c.1 T.
Proof.
  intros Hw Hl Hnew Hr. unfold wasm_Session_new in Hnew.
  destruct (wasm_Limits_validate l) as [[]| |]; [|done..]. cbn in Hnew. injection Hnew as <-.
  assert (Hapi : forall s T p, winv s T -> wasm_api s p -> W ∅ s p (fun _ _ _ => True)).
  { intros s T p HI Hp. exact (wapi_safe s T p Hw HI Hp ∅ s ltac:(reflexivity)). }
  destruct (pool_invariant winv wev w_no_wrap wasm_api _ c Hapi (winv_init l Hl) Hr) as [HR HI].
  split_and!; [exact (we_limits _ _ HR)|done|done].
Qed.
End WasmPool.
