(* ===== verification/WasmProps.v ===== *)
(** * The browser session: properties of every execution *)

From S2P Require Import Prelude Buf VarInt Frame Proto Limits SendFlow Channel Async NativeState.
From S2P Require Import NativeOps NativeStream NativeRecv NativeSession NativeTasks Credit NativeInv.
From S2P Require Import Keep FuturesChannel WasmState WasmOps WasmStreams WasmSession WasmInv.
From S2P Require Import WasmSteps WasmSpecs WasmSendSpecs WasmSessionSpecs WasmPool.
Open Scope mux_scope.

(** Validated limits are consistent, unless the batch limit saturates [usize]. *)
Lemma wasm_validated `{UsizeWidth} l :
  limits_usize l -> max_stream_data_per_frame l + 33 <= usize_max ->
  wasm_Limits_validate l = Ok tt -> limits_ok l.
Proof.
  intros Hu Hm Hv. apply Limits_validate_iff in Hv as [Hl|Hbad]; [done| |done]. lia.
Qed.

Section WasmProperties.
Context {fchan : Type -> Type} `{FMpscLaws fchan} `{!MapOrder} `{!MapOrderLaws} `{!UsizeWidth}.
Context (l : Limits) (s0 : WasmSession fchan).
Context (Hwidth : 0 <= usize_bits) (Husize : limits_usize l).
Context (Hframe : max_stream_data_per_frame l + 33 <= usize_max).
Context (Hnew : wasm_Session_new l = Ok s0).

Lemma wasm_inv s ths :
  pool_reach wasm_api w_no_wrap s0 (s, ths) -> w_limits s = l /\ exists T, winv s T.
Proof.
  intros Hr. assert (Hl : limits_ok l).
  { apply wasm_validated; [done..|]. unfold wasm_Session_new in Hnew.
    by destruct (wasm_Limits_validate l) as [[]| |]. }
  by destruct (wasm_reach_inv l s0 (s, ths) Hwidth Hl Hnew Hr) as (? & _ & ?).
Qed.

(** C13: whatever clients, peer and scheduler do, the payload bytes a browser session
    ever queued on a stream are covered by the credit its flow has taken, which
    stays within the largest limit the peer granted. *)
Theorem wasm_send_credit s ths id k :
  pool_reach wasm_api w_no_wrap s0 (s, ths) -> w_flow_of s !! id = Some k ->
  exists fl, w_flows s !! k = Some fl
    /\ 0 <= logged id (w_out_log s) <= flow_sent fl /\ flow_sent fl <= flow_max fl < u64_mod.
Proof.
  intros Hr Hk. destruct (wasm_inv s ths Hr) as (_ & T & HI).
  destruct (si_accounts _ _ (wi_send _ _ HI) id k Hk) as (fl & Hfl & Hsent & Hmax). exists fl.
  pose proof (logged_nonneg id (w_out_log s)).
  pose proof (held_nonneg id T (si_tok _ _ (wi_send _ _ HI))). simpl in Hsent. split_and!; [done|lia..].
Qed.

(** C14: in the order in which a browser session queues its frames, no stream frame
    (data or FIN) follows the FIN or the reset of its stream, data of a locally opened
    stream follows its OPEN, and the streams of a direction are opened in the order of
    their identifiers.  Resets are not restricted: [reset_after_fin] shows one that
    follows a FIN. *)
Theorem wasm_frame_order s ths :
  pool_reach wasm_api w_no_wrap s0 (s, ths) ->
  terminal_final (w_out_log s) /\ opened_first false (w_out_log s) /\ opens_ordered (w_out_log s).
Proof.
  intros Hr. destruct (wasm_inv s ths Hr) as (_ & T & HI). split_and!; apply (wi_send _ _ HI).
Qed.


(** C21: every frame a browser session queues, or holds as a credit update, encodes
    without panicking, and a stream frame fits one batch. *)
Theorem wasm_frames_encodable s ths f :
  pool_reach wasm_api w_no_wrap s0 (s, ths) ->
  f ∈ w_out_log s \/ (exists id max, f = MaxStreamData id max /\ w_pending_credit s !! id = Some max)
    \/ WFrame f ∈ fv_buf (fview_of (w_outbound s)) ->
  Frame_encode f = Ok (frame_bytes f)
  /\ match f with Stream _ _ _ => blen (frame_bytes f) <= max_batch_bytes l | _ => True end.
Proof.
  intros Hr Hf. destruct (wasm_inv s ths Hr) as (<- & T & HI).
  assert (Hs : sendable (w_limits s) f).
  { destruct Hf as [Hf|[(id & max & -> & Hf)|Hf]].
    - eapply Forall_forall; [apply (si_log _ _ (wi_send _ _ HI))|done].
    - by destruct (ri_credit _ _ _ _ (wi_recv _ _ HI) id max Hf).
    - pose proof (wi_out _ _ HI) as Ho. unfold fchan_all in Ho. rewrite Forall_forall in Ho.
      exact (Ho _ Hf). }
  destruct Hs as [Hok Hlen]. destruct (Frame_encode_bytes f Hok) as (bs & Henc & Hbs). split.
  - rewrite Henc. simpl in Hbs. by rewrite <- Hbs.
  - destruct f; try done. pose proof (si_limits _ _ (wi_send _ _ HI)) as Hl. simpl in Hl. destruct Hl.
    pose proof (stream_frame_overhead id data fin). simpl in *. lia.
Qed.
End WasmProperties.

(** ** A concrete execution

    A client opens a stream, writes to it, finishes and drops it, while the task
    receives credit and a peer stream, and empties the queue.  [usize] has 32 bits. *)
#[local] Existing Instance list_order.
#[local] Existing Instance usize32.

Definition wdemo_start : WasmSession fview :=
  wasm_SessionInner_new Limits_default (f_channel 256) (f_channel 128) (f_channel 128).

Definition wdemo_client : wprog fview unit :=
  let* r := wdenote WOpenUni in
  match r with
  | Ok h =>
      let* _ := wdenote (WWrite h (as_bytes "hello")) in
      let* _ := wdenote (WFinish h) in
      let* _ := wdenote (WSendDrop h) in
      Ret tt
  | _ => Ret tt
  end.

Definition wdemo_pool : list (wprog fview unit) :=
  [wdemo_client;
   wasm_task (fun _ _ => true) (fun _ => true) (fun n => (negb (Nat.even n), false)) 20
     [Ok (Binary (frame_bytes (MaxStreamData (mkStreamId 2) 10)));
      Ok (Binary (frame_bytes (OpenBi (mkStreamId 1))
                  ++ frame_bytes (Stream (mkStreamId 1) (as_bytes "abc") false)))]].

Definition wdemo_schedule : list choice :=
  replicate 6 (Step 0) ++ replicate 8 (Step 1) ++ replicate 12 (Step 0) ++ replicate 12 (Step 1).

Definition w_no_wrapb (s : WasmSession fview) : bool :=
  (w_next_uni s + 1 <? u64_mod) && (w_next_bi s + 1 <? u64_mod).

Definition wdemo_end : WasmSession fview * list (wprog fview unit) :=
  exec w_no_wrapb wdemo_schedule (wdemo_start, wdemo_pool).

Lemma wdemo_client_ok : wclient [] wdemo_client.
Proof.
  apply (wcl_call WOpenUni); [by intros h ?%elem_of_nil|done|]. intros [h| |]; [|constructor..].
  apply (wcl_call (WWrite h _)); [set_solver|done|]. intros ?.
  apply (wcl_call (WFinish h)); [set_solver|done|]. intros ?.
  apply (wcl_call (WSendDrop h)); [set_solver|done|]. intros ?. constructor.
Qed.

Lemma w_no_wrapb_spec s : w_no_wrapb s = true -> w_no_wrap s.
Proof. unfold w_no_wrapb, w_no_wrap. lia. Qed.

Lemma wdemo_reach : pool_reach wasm_api w_no_wrap wdemo_start (wdemo_end.1, wdemo_end.2).
Proof.
  rewrite <- surjective_pairing.
  apply (exec_reach wasm_api w_no_wrap w_no_wrapb); [apply w_no_wrapb_spec|].
  apply spawn_reach; [by vm_compute|]. repeat apply Forall_cons_2; [..|apply Forall_nil_2].
  - apply (wapi_client _ []); [by constructor|apply wdemo_client_ok].
  - apply wapi_task.
Qed.

Lemma wdemo_new : wasm_Session_new (fchan := fview) Limits_default = Ok wdemo_start.
Proof. vm_compute. reflexivity. Qed.

Lemma wdemo_usize : limits_usize Limits_default.
Proof. unfold limits_usize. repeat constructor; vm_compute; discriminate. Qed.

Lemma wasm_send_credit_witness :
  w_out_log wdemo_end.1 = [OpenUni (mkStreamId 2); MaxStreamData (mkStreamId 1) (512 * 1024);
    Stream (mkStreamId 2) (as_bytes "hello") false; Stream (mkStreamId 2) [] true]
  /\ exists fl, w_flows wdemo_end.1 !! 0%nat = Some fl
    /\ 0 <= logged (mkStreamId 2) (w_out_log wdemo_end.1) <= flow_sent fl
    /\ flow_sent fl <= flow_max fl < u64_mod.
Proof.
  split; [vm_compute; reflexivity|].
  apply (wasm_send_credit Limits_default wdemo_start) with (ths := wdemo_end.2) (k := 0%nat).
  - vm_compute. discriminate.
  - apply wdemo_usize.
  - vm_compute. discriminate.
  - exact wdemo_new.
  - exact wdemo_reach.
  - vm_compute. reflexivity.
Defined.

Lemma wasm_frame_order_witness :
  terminal_final (w_out_log wdemo_end.1) /\ opened_first false (w_out_log wdemo_end.1)
  /\ opens_ordered (w_out_log wdemo_end.1).
Proof.
  apply (wasm_frame_order Limits_default wdemo_start) with (ths := wdemo_end.2).
  - vm_compute. discriminate.
  - apply wdemo_usize.
  - vm_compute. discriminate.
  - exact wdemo_new.
  - exact wdemo_reach.
Defined.

(** A finished stream can still be reset, and the reset is queued. *)
Definition reset_client : wprog fview unit :=
  let* r := wdenote WOpenUni in
  match r with
  | Ok h =>
      let* _ := wdenote (WFinish h) in
      let* _ := wdenote (WReset h 7) in
      Ret tt
  | _ => Ret tt
  end.
Lemma reset_after_fin :
  w_out_log (run reset_client wdemo_start).1
  = [OpenUni (mkStreamId 2); Stream (mkStreamId 2) [] true; ResetStream (mkStreamId 2) 7].
Proof. vm_compute. reflexivity. Qed.


Lemma wasm_frames_encodable_witness :
  let f := Stream (mkStreamId 2) (as_bytes "hello") false in
  Frame_encode f = Ok (frame_bytes f) /\ blen (frame_bytes f) <= max_batch_bytes Limits_default.
Proof.
  apply (wasm_frames_encodable Limits_default wdemo_start)
    with (s := wdemo_end.1) (ths := wdemo_end.2) (f := Stream (mkStreamId 2) (as_bytes "hello") false).
  - vm_compute. discriminate.
  - apply wdemo_usize.
  - vm_compute. discriminate.
  - exact wdemo_new.
  - exact wdemo_reach.
  - left. vm_compute. right. right. left.
Defined.
