(* ===== verification/Protocol.v ===== *)
(** * The multiplexing protocol, as seen by one endpoint

    An abstract specification of how an endpoint reacts to the frames of its peer: the
    open receive directions with their accounting, the open send directions with the
    credit granted for them, and the frontiers of the stream identifiers.  No channels,
    cells, locks or handles.  [ep_check] says which frames violate the protocol, with
    the error code and the reason; [ep_apply] what an accepted frame does; [ep_answer]
    which frames the peer is sent for it.  [conforms] ties an implementation to them:
    its result, its new state and the frames it queued.  Both sessions refine it
    ([WasmRefine], [NativeRefine]).

    The rules are those of [docs/mux-protocol.md] with three exceptions, where both
    sessions do something else and [ep_check] follows the sessions: a FIN for a receive
    direction that is gone is a violation, although the document calls terminal frames
    of retired directions harmless; stream data for a direction that is gone has code 2
    where the document's table gives stream state violations code 1; and an [OpenBi]
    whose send direction exists already has code 3, again where the table has 1.
    [doc_check] is the document's verdict, [ep_check_doc] says that the two differ in
    these cases only. *)

From S2P Require Import Prelude Buf VarInt Frame Proto Limits SendFlow NativeState.
Open Scope mux_scope.

(** A receive direction: bytes received, the advertised limit, and whether the
    application has stopped it. *)
Record recv_dir : Set := mkRecvDir { rd_received : Z; rd_limit : Z; rd_stopped : bool }.

Record endpoint : Set := mkEndpoint {
  ep_server : bool;
  ep_recv : gmap StreamId recv_dir;
  ep_send : gmap StreamId Z;           (** the largest limit the peer granted *)
  ep_local_uni : Z;                    (** the next counters of either side *)
  ep_local_bi : Z;
  ep_peer_uni : Z;
  ep_peer_bi : Z
}.

Definition ep_set_recv (m : gmap StreamId recv_dir) (e : endpoint) : endpoint :=
  mkEndpoint (ep_server e) m (ep_send e) (ep_local_uni e) (ep_local_bi e) (ep_peer_uni e) (ep_peer_bi e).
Definition ep_set_send (m : gmap StreamId Z) (e : endpoint) : endpoint :=
  mkEndpoint (ep_server e) (ep_recv e) m (ep_local_uni e) (ep_local_bi e) (ep_peer_uni e) (ep_peer_bi e).
Definition ep_set_peer (dir : StreamDir) (n : Z) (e : endpoint) : endpoint :=
  mkEndpoint (ep_server e) (ep_recv e) (ep_send e) (ep_local_uni e) (ep_local_bi e)
    (match dir with Uni => n | Bi => ep_peer_uni e end)
    (match dir with Uni => ep_peer_bi e | Bi => n end).

(** A fresh endpoint. *)
Definition ep_new (server : bool) : endpoint := mkEndpoint server ∅ ∅ 0 0 0 0.

Section Endpoint.
Context (l : Limits).
Implicit Types (e : endpoint) (id : StreamId) (f : Frame).

Definition ep_peer_next e (dir : StreamDir) : Z :=
  match dir with Uni => ep_peer_uni e | Bi => ep_peer_bi e end.
Definition ep_is_local e id : bool := eqb (initiator_is_server id) (ep_server e).
Definition ep_frontier e id : Z :=
  match ep_is_local e id, StreamId_dir id with
  | true, Uni => ep_local_uni e
  | true, Bi => ep_local_bi e
  | false, Uni => ep_peer_uni e
  | false, Bi => ep_peer_bi e
  end.

(** A direction that exists for this identifier and has been opened before. *)
Definition ep_retired e id (receiving : bool) : bool :=
  if bool_decide (StreamId_dir id = Uni) && eqb (ep_is_local e id) receiving then false
  else StreamId_counter id <? ep_frontier e id.

(** Limits of the receive side an OPEN runs into. *)
Definition open_limits e id : option (Z * string) :=
  if max_open_streams l <=? Z.of_nat (size (ep_recv e)) then Some (3, "too many open streams")
  else match ep_recv e !! id with Some _ => Some (1, "duplicate stream open") | None => None end.

(** The checks common to both OPEN frames. *)
Definition ep_check_open e id (dir : StreamDir) (name : string) : option (Z * string) :=
  if negb (bool_decide (StreamId_dir id = dir)) then
    Some (1, name +:+ " with non-" +:+ (match dir with Uni => "uni" | Bi => "bi" end) +:+ " StreamId")
  else if negb (eqb (initiator_is_server id) (negb (ep_server e))) then
    Some (1, name +:+ " with wrong initiator")
  else if StreamId_counter id <? ep_peer_next e dir then
    Some (1, name +:+ " with non-monotonic StreamId")
  else open_limits e id.

(** The violation a frame is, if it is one: the error code and the reason. *)
Definition ep_check e f : option (Z * string) :=
  match f with
  | OpenUni id => ep_check_open e id Uni "OpenUni"
  | OpenBi id =>
      match ep_check_open e id Bi "OpenBi" with
      | Some v => Some v
      | None =>
          if max_open_streams l <=? Z.of_nat (size (ep_send e)) then
            Some (3, "protocol error: too many open send streams")
          else match ep_send e !! id with
          | Some _ => Some (3, "protocol error: duplicate send stream")
          | None => None
          end
      end
  | Stream id data _ =>
      if max_stream_data_per_frame l <? blen data then Some (2, "stream data too large")
      else match ep_recv e !! id with
      | None => Some (2, "Stream data on unknown stream")
      | Some d =>
          if u64_max <? rd_received d + blen data then Some (2, "stream data overflow")
          else if rd_limit d <? rd_received d + blen data then
            Some (2, "stream flow-control limit exceeded")
          else None
      end
  | ResetStream id _ =>
      if bool_decide (is_Some (ep_recv e !! id)) || ep_retired e id true then None
      else Some (1, "reset on unknown stream")
  | StopSending id _ =>
      if bool_decide (is_Some (ep_send e !! id)) || ep_retired e id false then None
      else Some (1, "stop on unknown stream")
  | MaxStreamData _ _ | ConnectionClose _ _ => None
  end.

Definition ep_open e id (dir : StreamDir) : endpoint :=
  ep_set_peer dir (saturating_add64 (StreamId_counter id) 1)
    (ep_set_recv (<[id := mkRecvDir 0 (initial_stream_window l) false]> (ep_recv e)) e).

(** What a frame that is no violation does. *)
Definition ep_apply e f : endpoint :=
  match f with
  | OpenUni id => ep_open e id Uni
  | OpenBi id => ep_set_send (<[id := 0]> (ep_send e)) (ep_open e id Bi)
  | Stream id data fin =>
      match ep_recv e !! id with
      | Some d =>
          if (fin : bool) then ep_set_recv (delete id (ep_recv e)) e
          else ep_set_recv
                 (<[id := mkRecvDir (rd_received d + blen data) (rd_limit d) (rd_stopped d)]> (ep_recv e)) e
      | None => e
      end
  | ResetStream id _ => ep_set_recv (delete id (ep_recv e)) e
  | StopSending id _ => ep_set_send (delete id (ep_send e)) e
  | MaxStreamData id max => ep_set_send (alter (Z.max max) id (ep_send e)) e
  | ConnectionClose _ _ => e
  end.

(** The frames the peer is sent for a frame that is no violation: the first credit of a
    stream it opened, and the end of a direction it asked to stop. *)
Definition ep_answer e f : list Frame :=
  match f with
  | OpenUni id | OpenBi id => [MaxStreamData id (initial_stream_window l)]
  | StopSending id code => if bool_decide (is_Some (ep_send e !! id)) then [ResetStream id code] else []
  | _ => []
  end.

(** The verdict of [docs/mux-protocol.md], where it differs from [ep_check]. *)
Definition doc_check e f : option (Z * string) :=
  match f with
  | OpenBi id =>
      match ep_check_open e id Bi "OpenBi", ep_send e !! id with
      | None, Some _ =>
          if max_open_streams l <=? Z.of_nat (size (ep_send e)) then ep_check e f
          else Some (1, "protocol error: duplicate send stream")
      | _, _ => ep_check e f
      end
  | Stream id data fin =>
      match ep_recv e !! id with
      | None =>
          if max_stream_data_per_frame l <? blen data then ep_check e f
          else if (fin : bool) && ep_retired e id true then None
          else Some (1, "Stream data on unknown stream")
      | Some _ => ep_check e f
      end
  | _ => ep_check e f
  end.

Lemma ep_check_doc e f :
  ep_check e f <> doc_check e f ->
  match f with
  | Stream id _ _ => ep_recv e !! id = None
  | OpenBi id => is_Some (ep_send e !! id)
  | _ => False
  end.
Proof.
  destruct f as [id|id|id data fin|id code|id code|id max|code reason]; simpl; try done.
  - destruct (ep_send e !! id); [by eexists|]. by repeat case_match.
  - by destruct (ep_recv e !! id).
Qed.

(** ** What an implementation may answer *)

(** Local limits that may refuse a frame which is no violation, with the code and the
    reason.  The first credit of a stream is sent before the send direction of [OpenBi]
    is looked at. *)
Definition local_refusal e f (code : Z) (reason : string) : Prop :=
  match f with
  | OpenUni _ => ep_check e f = None
      /\ ((code, reason) = (3, "accept queue full") \/ (code, reason) = (2, "failed to send initial stream credit"))
  | OpenBi id => (ep_check e f = None /\ (code, reason) = (3, "accept queue full"))
      \/ (ep_check_open e id Bi "OpenBi" = None /\ (code, reason) = (2, "failed to send initial stream credit"))
  | Stream _ _ _ => ep_check e f = None /\ (code, reason) = (3, "receive queue full")
  | _ => False
  end.

(** Frames that are answered with a frame, and so may wait for room in its queue. *)
Definition may_wait f : Prop :=
  match f with OpenUni _ | OpenBi _ | StopSending _ _ => True | _ => False end.

(** Frames that may end the session without a violation: the peer closes it, nobody
    accepts streams any more, or the answer to [StopSending] cannot be queued. *)
Definition may_close f : Prop :=
  match f with
  | ConnectionClose _ _ | OpenUni _ | OpenBi _ | StopSending _ _ => True
  | _ => False
  end.
End Endpoint.

Definition accept_dir (f : Frame) : StreamDir := match f with OpenUni _ => Uni | _ => Bi end.

(** The local queues before the frame is handled. *)
Record queues : Type := mkQueues {
  q_slots : nat;                    (** free slots of the outbound queue; none when it takes no frames *)
  q_full : StreamDir -> bool;       (** the accept queue has no free slot *)
  q_gone : StreamDir -> bool;       (** nobody accepts such streams any more *)
  q_event_full : StreamId -> bool   (** the receive queue of the stream has no free slot *)
}.

(** The queue that makes the session refuse a frame is really full. *)
Definition q_refuses (q : queues) (f : Frame) (reason : string) : Prop :=
  match f with
  | OpenUni _ | OpenBi _ =>
      if bool_decide (reason = "accept queue full") then q_full q (accept_dir f) = true else q_slots q = 0%nat
  | Stream id _ _ => q_event_full q id = true
  | _ => False
  end.

(** The frames [wanted] were offered to the outbound queue in this order, and [out] were
    queued: all of them as long as there are free slots. *)
Definition offered (slots : nat) (wanted out : list Frame) : Prop :=
  take slots wanted `prefix_of` out /\ out `sublist_of` wanted.

(** The frames sent for an OPEN before the session may have to report an error. *)
Definition ep_before (l : Limits) (e : endpoint) (f : Frame) : list Frame :=
  match f with
  | OpenUni id => match ep_check_open l e id Uni "OpenUni" with None => ep_answer l e f | Some _ => [] end
  | OpenBi id => match ep_check_open l e id Bi "OpenBi" with None => ep_answer l e f | Some _ => [] end
  | _ => []
  end.

(** The frames sent by the destructors of a stream that nobody accepts. *)
Definition drop_frames (f : Frame) : list Frame :=
  match f with
  | OpenUni id => [StopSending id 0]
  | OpenBi id => [ResetStream id 0; StopSending id 0]
  | _ => []
  end.

Definition ep_stop (id : StreamId) (e : endpoint) : endpoint :=
  ep_set_recv (alter (fun d => mkRecvDir (rd_received d) (rd_limit d) true) id (ep_recv e)) e.

(** A stream the peer opened and nobody accepts: it is stopped and not sent on. *)
Definition ep_abandon (f : Frame) (e : endpoint) : endpoint :=
  match f with
  | OpenUni id => ep_stop id e
  | OpenBi id => ep_stop id (ep_set_send (delete id (ep_send e)) e)
  | _ => e
  end.

(** How an implementation's handling of a frame relates to the specification.  [same]
    relates its new state to an abstract one, [torn] says that it is torn down, [out] are
    the frames it queued.  [strict] implementations make sure that the first credit of a
    stream is queued, the others offer it only.
    - [Ok]: the frame is no violation, its effect is the specified one, and the answer
      is queued.
    - A protocol error: it is the specified one, or a full local queue is the reason; the
      session is torn down, and the peer is told the code and the reason, if the queue
      takes the frame.
    - [Closed]: the peer closed the session, which is torn down; or the answer to a stop
      could not be queued; or the peer's stream is taken and given up at once, because
      nobody accepts it. *)
Definition conforms (strict : bool) (l : Limits) (q : queues) (e : endpoint) (f : Frame) (r : outcome Error unit)
    (same : endpoint -> Prop) (torn : Prop) (out : list Frame) : Prop :=
  match r with
  | Ok _ =>
      ep_check l e f = None /\ same (ep_apply l e f)
      /\ match f with
         | ConnectionClose _ _ => False
         | OpenUni _ | OpenBi _ =>
             if strict then out = ep_answer l e f else offered (q_slots q) (ep_answer l e f) out
         | _ => out = ep_answer l e f
         end
  | Err (Protocol reason) =>
      torn /\ exists code out1 out2,
        (ep_check l e f = Some (code, reason) \/ (local_refusal l e f code reason /\ q_refuses q f reason))
        /\ out = out1 ++ out2
        /\ offered (q_slots q) (ep_before l e f ++ [ConnectionClose code reason]) out1
        /\ out2 `sublist_of` drop_frames f
  | Err Closed =>
      ep_check l e f = None
      /\ match f with
         | ConnectionClose _ _ => torn /\ out = []
         | StopSending id _ =>
             is_Some (ep_send e !! id) /\ same (ep_apply l e f) /\ q_slots q = 0%nat /\ out = []
         | OpenUni _ | OpenBi _ =>
             q_gone q (accept_dir f) = true /\ same (ep_abandon f (ep_apply l e f))
             /\ offered (q_slots q) (ep_answer l e f ++ drop_frames f) out
         | _ => False
         end
  | _ => False
  end.

Lemma conforms_mono strict l q e f r (same same' : endpoint -> Prop) torn out :
  (forall e, same e -> same' e) ->
  conforms strict l q e f r same torn out -> conforms strict l q e f r same' torn out.
Proof. intros Hs. destruct r as [[]|[]|], f; simpl; naive_solver. Qed.

(** ** Offering frames one after the other *)
Lemma offered_nil k : offered k [] [].
Proof. split; [by rewrite take_nil|constructor]. Qed.
Lemma offered_all k fs : offered k fs fs.
Proof. split; [|done]. exists (drop k fs). by rewrite take_drop. Qed.
Lemma offered_app k1 k2 w1 w2 o1 o2 :
  offered k1 w1 o1 -> offered k2 w2 o2 -> (k1 - length w1 <= k2)%nat -> offered k1 (w1 ++ w2) (o1 ++ o2).
Proof.
  intros [Hp1 Hs1] [Hp2 Hs2] Hk. split; [|by apply sublist_app]. rewrite take_app.
  destruct (decide (k1 <= length w1)%nat) as [Hle|Hgt].
  - replace (k1 - length w1)%nat with 0%nat by lia. rewrite take_0, app_nil_r.
    etrans; [exact Hp1|]. by apply prefix_app_r.
  - rewrite take_ge in Hp1 |- * by lia. pose proof (prefix_length _ _ Hp1). pose proof (sublist_length _ _ Hs1).
    assert (o1 = w1) as -> by (destruct Hp1 as [x ->]; rewrite length_app in *; destruct x; [by rewrite app_nil_r|simpl in *; lia]).
    apply prefix_app. etrans; [|exact Hp2]. exists (take (k2 - (k1 - length w1)) (drop (k1 - length w1) w2)).
    rewrite take_take_drop. f_equal. lia.
Qed.
(** A single frame: queued, or there was no free slot. *)
Lemma offered_one k f (ok : bool) : (ok = false -> k = 0%nat) -> offered k [f] (if ok then [f] else []).
Proof. intros Hok. destruct ok; [apply offered_all|]. rewrite Hok by done. split; [done|apply sublist_nil_l]. Qed.
