(* ===== verification/ByteStream.v ===== *)
(** * What a receive stream promises: a byte queue

    The receive side of both sessions implements one contract, stated here: the
    payload the peer sends on a stream comes out of the reads in order, once, and
    followed by the end of the stream.  [recv_side] are the operations (a frame
    from the peer, a read by the application), [recv_laws] what they promise about
    the bytes a stream holds; [deliver_exact] and [drain_complete] follow from the
    laws for every sequence of operations.  The sessions discharge the laws. *)

From S2P Require Import Prelude Buf Frame Proto NativeState NativeStream.

(** The reads of [RecvStream]: [read]/[read_buf], [read_chunk] and [poll_read]. *)
Inductive rcall : Set := CRead (room : Z) | CReadChunk (max : Z) | CPollRead (room : Z).
Definition rcall_room (c : rcall) : Z :=
  match c with CRead n | CReadChunk n | CPollRead n => n end.

(** What a read returned: bytes, the end of the stream, nothing yet, or an error. *)
Inductive rres : Type := RBytes (b : list byte) | REnd | RWait | RFail.

Definition of_read (r : option (outcome Error (option (list byte)))) : rres :=
  match r with
  | Some (Ok (Some b)) => RBytes b
  | Some (Ok None) => REnd
  | Some _ => RFail
  | None => RWait
  end.
(** [poll_read] reports the end as a read of no bytes. *)
Definition of_poll (r : option (poll (list byte))) : rres :=
  match r with
  | Some (Ready []) => REnd
  | Some (Ready b) => RBytes b
  | Some Pending | None => RWait
  end.

(** The payload a frame carries for a stream, and whether it ends the stream. *)
Definition payload_for (id : StreamId) (f : Frame) : list byte :=
  match f with Stream i data _ => if decide (i = id) then data else [] | _ => [] end.
Definition ends (id : StreamId) (f : Frame) : Prop :=
  match f with Stream i _ true | ResetStream i _ => i = id | _ => False end.

Record recv_side (S : Type) : Type := mkRecvSide {
  rs_frame : Frame -> S -> S * bool;     (** whether the frame was accepted *)
  rs_call : rcall -> S -> S * rres
}.
Arguments mkRecvSide {S}.
Arguments rs_frame {S}.
Arguments rs_call {S}.

(** [holds s B live n]: the stream holds the bytes [B], in [n] pieces besides the
    one being read, and more may arrive when [live]. *)
Definition call_law {S : Type} (holds : S -> list byte -> bool -> nat -> Prop) (room : Z)
    (B : list byte) (live : bool) (n : nat) (r : S * rres) : Prop :=
  match r with
  | (s', RBytes b) => exists B' n', B = b ++ B' /\ holds s' B' live n'
      /\ blen b <= room /\ (length B' + n' < length B + n)%nat
  | (s', REnd) => B = [] /\ live = false /\ exists n', holds s' [] false n'
  | (s', RWait) => B = [] /\ live = true /\ exists n', holds s' [] true n'
  | (s', RFail) => False
  end.

Record recv_laws {S : Type} (R : recv_side S) (id : StreamId)
    (holds : S -> list byte -> bool -> nat -> Prop) : Prop := {
  law_frame s B live n f : holds s B live n ->
    let '(s', accepted) := rs_frame R f s in
    exists live' n',
      holds s' (B ++ if accepted then payload_for id f else []) live' n'
      /\ (live' = true -> live = true)
      /\ (accepted = true -> ends id f -> live' = false);
  law_call s B live n c : holds s B live n -> 0 < rcall_room c ->
    call_law holds (rcall_room c) B live n (rs_call R c s)
}.

(** ** Sequences of operations *)
Inductive rop : Type := Peer (f : Frame) | Call (c : rcall).
Definition rop_ok (o : rop) : Prop := match o with Peer _ => True | Call c => 0 < rcall_room c end.

Section Deliver.
Context {S : Type} (R : recv_side S) (id : StreamId).

(** The final state, the payload accepted and the bytes returned. *)
Fixpoint deliver (l : list rop) (s : S) : S * list byte * list byte :=
  match l with
  | [] => (s, [], [])
  | Peer f :: l =>
      let '(s, accepted) := rs_frame R f s in
      let '(s, inp, out) := deliver l s in
      (s, (if accepted then payload_for id f else []) ++ inp, out)
  | Call c :: l =>
      let '(s, r) := rs_call R c s in
      let '(s, inp, out) := deliver l s in
      (s, inp, match r with RBytes b => b ++ out | _ => out end)
  end.

(** Read until the end of the stream. *)
Fixpoint drain (fuel : nat) (c : rcall) (s : S) : option (list byte) :=
  match fuel with
  | O => None
  | Datatypes.S fuel =>
      match rs_call R c s with
      | (s, RBytes b) => (b ++.) <$> drain fuel c s
      | (_, REnd) => Some []
      | (_, _) => None
      end
  end.

Context (holds : S -> list byte -> bool -> nat -> Prop) (laws : recv_laws R id holds).

(** In order, once, and nothing lost. *)
Lemma deliver_exact l s B live n :
  holds s B live n -> Forall rop_ok l ->
  let '(s', inp, out) := deliver l s in
  exists B' live' n', holds s' B' live' n' /\ B ++ inp = out ++ B' /\ (live' = true -> live = true).
Proof.
  revert s B live n. induction l as [|[f|c] l IH]; intros s B live n Hs Hl; simpl.
  - exists B, live, n. by rewrite app_nil_r.
  - apply Forall_cons in Hl as [_ Hl]. pose proof (law_frame _ _ _ laws s B live n f Hs) as Hf.
    destruct (rs_frame R f s) as [s1 acc]. destruct Hf as (live1 & n1 & Hs1 & Hlive & _).
    specialize (IH s1 _ live1 n1 Hs1 Hl). destruct (deliver l s1) as [[s2 inp] out].
    destruct IH as (B' & live' & n' & Hs2 & HB & Hlive'). exists B', live', n'.
    split_and!; [done| |auto]. by rewrite app_assoc.
  - apply Forall_cons in Hl as [Hc Hl]. pose proof (law_call _ _ _ laws s B live n c Hs Hc) as Hcall.
    destruct (rs_call R c s) as [s1 [b| | |]]; [| | |done].
    + destruct Hcall as (B1 & n1 & -> & Hs1 & _). specialize (IH s1 B1 live n1 Hs1 Hl).
      destruct (deliver l s1) as [[s2 inp] out]. destruct IH as (B' & live' & n' & Hs2 & HB & Hlive').
      exists B', live', n'. split_and!; [done| |done]. by rewrite <- !app_assoc, HB.
    + destruct Hcall as (-> & -> & n1 & Hs1). specialize (IH s1 [] false n1 Hs1 Hl).
      destruct (deliver l s1) as [[s2 inp] out]. naive_solver.
    + destruct Hcall as (-> & -> & n1 & Hs1). specialize (IH s1 [] true n1 Hs1 Hl).
      destruct (deliver l s1) as [[s2 inp] out]. naive_solver.
Qed.

(** Once nothing more can arrive, reading returns what is left and then the end. *)
Lemma drain_complete fuel c s B n :
  holds s B false n -> 0 < rcall_room c -> (length B + n < fuel)%nat -> drain fuel c s = Some B.
Proof.
  intros Hs Hc. revert s B n Hs. induction fuel as [|fuel IH]; intros s B n Hs Hf; [lia|]. simpl.
  pose proof (law_call _ _ _ laws s B false n c Hs Hc) as Hcall.
  destruct (rs_call R c s) as [s1 [b| | |]]; [| | |done].
  - destruct Hcall as (B1 & n1 & -> & Hs1 & _ & Hlt). by rewrite (IH s1 B1 n1 Hs1) by lia.
  - by destruct Hcall as (-> & _).
  - by destruct Hcall as (_ & ? & _).
Qed.
End Deliver.

(** ** Lemmas for the implementations *)
Lemma call_law_more {S} (holds : S -> list byte -> bool -> nat -> Prop) room B live n n' r :
  (n <= n')%nat -> call_law holds room B live n r -> call_law holds room B live n' r.
Proof.
  destruct r as [s1 [b| | |]]; [|done..]. intros Hn (B' & m & ? & ? & ? & ?).
  exists B', m. split_and!; [done..|]. lia.
Qed.

Lemma blen_take_le (k : Z) (b : list byte) room :
  k <= room -> 0 <= k -> blen (take (Z.to_nat k) b) <= room.
Proof. unfold blen. rewrite length_take. lia. Qed.

Lemma take_nonempty (k : Z) (b : list byte) : 0 < k -> b <> [] -> take (Z.to_nat k) b <> [].
Proof. destruct b; [done|]. intros Hk _. by destruct (Z.to_nat k) eqn:E; [lia|]. Qed.

(** ** The cell of a receive stream *)
Definition evs_bytes (l : list RecvEvent) : list byte := mjoin (ev_data <$> l).

(** FIN is the last event, and nothing is queued once it was read. *)
Definition fin_last (l : list RecvEvent) : Prop :=
  match reverse l with [] => True | _ :: l => Forall (fun e => ev_fin e = false) l end.

Record cell_holds (pending : list byte) (finished : bool) (q : list RecvEvent)
    (B : list byte) (live : bool) (n : nat) : Prop := {
  ch_bytes : B = pending ++ evs_bytes q;
  ch_pieces : n = length q;
  ch_open : live = true -> finished = false /\ Forall (fun e => ev_fin e = false) q;
  ch_done : finished = true -> q = [];
  ch_fin : fin_last q
}.

Lemma evs_bytes_app l k : evs_bytes (l ++ k) = evs_bytes l ++ evs_bytes k.
Proof. unfold evs_bytes. by rewrite fmap_app, join_app. Qed.

Lemma fin_last_cons e l : fin_last (e :: l) <-> (l <> [] -> ev_fin e = false) /\ fin_last l.
Proof.
  unfold fin_last. rewrite reverse_cons. destruct l as [|e' l].
  { rewrite reverse_nil. simpl. split; [done|]. intros _. constructor. }
  destruct (reverse (e' :: l)) as [|x r] eqn:E.
  { apply (f_equal length) in E. by rewrite length_reverse in E. }
  simpl. rewrite Forall_app, Forall_singleton. naive_solver.
Qed.

Lemma fin_last_snoc l e : Forall (fun e => ev_fin e = false) l -> fin_last (l ++ [e]).
Proof. intros Hl. unfold fin_last. rewrite reverse_snoc. by apply Forall_reverse. Qed.

Lemma cell_holds_push pending q B n e :
  cell_holds pending false q B true n ->
  cell_holds pending false (q ++ [e]) (B ++ ev_data e) (negb (ev_fin e)) (n + 1).
Proof.
  intros [-> -> Hopen Hdone Hfin]. destruct (Hopen eq_refl) as [_ Hq]. constructor.
  - rewrite evs_bytes_app, app_assoc. unfold evs_bytes at 3. simpl. by rewrite app_nil_r.
  - by rewrite length_app.
  - intros He. split; [done|]. apply Forall_app. split; [done|]. apply Forall_singleton.
    by destruct (ev_fin e).
  - done.
  - by apply fin_last_snoc.
Qed.

(** Part of the pending bytes is taken. *)
Lemma cell_holds_take pending finished q B live n k :
  cell_holds pending finished q B live n ->
  B = take k pending ++ (drop k pending ++ evs_bytes q)
  /\ cell_holds (drop k pending) finished q (drop k pending ++ evs_bytes q) live n.
Proof. intros [-> -> ? ? ?]. split; [by rewrite app_assoc, take_drop|by constructor]. Qed.

(** The oldest event is taken; [pending'] of it is kept. *)
Lemma cell_holds_pop finished e q B live n k :
  cell_holds [] finished (e :: q) B live n ->
  B = take k (ev_data e) ++ (drop k (ev_data e) ++ evs_bytes q)
  /\ finished = false /\ (ev_fin e = true -> live = false)
  /\ cell_holds (drop k (ev_data e)) (ev_fin e) q (drop k (ev_data e) ++ evs_bytes q) live (n - 1).
Proof.
  intros [-> -> Hopen Hdone Hfin]. apply fin_last_cons in Hfin as [He Hfin].
  assert (Hlive : ev_fin e = true -> live = false).
  { destruct live; [|done]. destruct (Hopen eq_refl) as [_ Hq%Forall_inv]. congruence. }
  assert (finished = false) as -> by (destruct finished; [by specialize (Hdone eq_refl)|done]).
  split_and!; [|done..|].
  - by rewrite app_assoc, take_drop.
  - constructor; [done|simpl; lia| |destruct q; [done|intros; by rewrite He in *]|done].
    intros ->. destruct (Hopen eq_refl) as [_ Hq%Forall_cons]. destruct Hq as [Hq ?].
    split; [|done]. done.
Qed.

Lemma cell_holds_dead p f q B live n : cell_holds p f q B live n -> cell_holds p f q B false n.
Proof. intros []. by constructor. Qed.

(** The entries of a table that own cell [l]: the one of [id], if it is there. *)
Definition drops (l : nat) (rss : list RecvState) : list RecvState :=
  filter (fun rs => recv_cell rs = l) rss.

Lemma drops_entries (m : gmap StreamId RecvState) (id : StreamId) (l : nat) (live : bool) :
  (if live then exists r, m !! id = Some (mkRecvState false l r) else m !! id = None) ->
  (forall i rs, m !! i = Some rs -> recv_cell rs = l -> i = id) ->
  length (drops l (map_to_list m).*2) = Z.to_nat (Z.b2z live).
Proof.
  intros He Ha. unfold drops. destruct live.
  - destruct He as [r He].
    rewrite <- (insert_delete_id _ _ _ He), map_to_list_insert by apply lookup_delete_eq. simpl.
    rewrite filter_cons_True by done. simpl. rewrite filter_none; [done|].
    apply Forall_forall. intros rs ([i rs'] & -> & Hin%elem_of_map_to_list)%list_elem_of_fmap Hl.
    apply lookup_delete_Some in Hin as [Hne Hin]. by destruct (Ha i rs' Hin).
  - rewrite filter_none; [done|].
    apply Forall_forall. intros rs ([i rs'] & -> & Hin%elem_of_map_to_list)%list_elem_of_fmap Hl.
    pose proof (Ha i rs' Hin Hl). congruence.
Qed.
