(* ===== verification/NativeReads.v ===== *)
(** * The native session: a receive stream is a byte queue

    The receive side of the native session satisfies the laws of [ByteStream] when
    the handling of a frame and the calls of the reader run one after the other
    ([run]): whatever frames the peer sends, the reads of a stream return its
    payload in order, once, and followed by the end. *)

From S2P Require Import Prelude Buf VarInt Frame Proto Limits SendFlow Channel Async NativeState.
From S2P Require Import NativeOps NativeStream NativeRecv NativeSession ByteStream.
Open Scope mux_scope.

Section NativeReads.
Context {chan : Type -> Type} `{MpscLaws chan} `{!MapOrder}.
Implicit Types (s : SessionInner chan) (i : StreamId) (c : RecvCell chan).
Abbreviation cv c := (view (rc_chan c)).

(** A handler that is still suspended has not accepted its frame. *)
Definition accepted (r : SessionInner chan * option (result unit)) : SessionInner chan * bool :=
  match r with
  | (s, Some r) => (s, is_ok r)
  | (s, None) => (s, false)
  end.

(** [poll_read] is given a round per queued event. *)
Definition native_side (h : RecvStream) : recv_side (SessionInner chan) := mkRecvSide
  (fun f s => accepted (run (handle_frame f) s))
  (fun call s =>
     match call with
     | CRead room => match run (read h room) s with (s, r) => (s, of_read r) end
     | CReadChunk max => match run (read_chunk h max) s with (s, r) => (s, of_read r) end
     | CPollRead room =>
         match run (poll_read h (S (length (cv_buf (cv (cell_of s h))))) room) s with
         | (s, r) => (s, of_poll r)
         end
     end).

Lemma run_with_drop {A} (d : nprog chan unit) (p : nprog chan A) s : run (with_drop d p) s = run p s.
Proof.
  revert s. induction p as [a|f IH|f k IH] using prog_ind; intros s; [done|..]; simpl.
  - specialize (IH s). destruct (f s) as [s' p']. apply IH.
  - specialize (IH s). destruct (f s) as [[s' p']|]; [apply IH|done].
Qed.

(** [p] never suspends when it runs alone. *)
Definition replies {A} (p : nprog chan A) : Prop := forall s, is_Some (run p s).2.
Lemma returns_bind {A B} (p : nprog chan A) (k : A -> nprog chan B) :
  replies p -> (forall a, replies (k a)) -> replies (pbind p k).
Proof.
  intros Hp Hk s. rewrite run_bind. specialize (Hp s). destruct (run p s) as [s1 [a|]]; simpl in *; [apply Hk|].
  by destruct Hp.
Qed.
Lemma returns_atomic {A} (f : SessionInner chan -> SessionInner chan * A) : replies (atomic f).
Proof. intros s. simpl. by destruct (f s). Qed.
Lemma returns_protocol_error code reason : replies (protocol_error code reason).
Proof.
  unfold protocol_error, try_send_frame, is_closed, close_all.
  repeat first [apply returns_atomic | apply returns_bind; [|intros ?] | by intros s; eexists | case_match].
Qed.

Lemma run_gets {A B} (f : SessionInner chan -> A) (k : A -> nprog chan B) s :
  run (pbind (gets f) k) s = run (k (f s)) s.
Proof. done. Qed.
Lemma run_atomic {A B} (f : SessionInner chan -> SessionInner chan * A) (k : A -> nprog chan B) s :
  run (pbind (atomic f) k) s = match f s with (s', a) => run (k a) s' end.
Proof. simpl. by destruct (f s). Qed.

Section Stream.
Context (id : StreamId) (l : nat).

Definition npeer_next s i : Z :=
  match StreamId_dir i with Uni => next_peer_uni s | Bi => next_peer_bi s end.

(** [x] counts clones of the event sender that a handler holds for the moment. *)
Record nholds (x : Z) s (B : list byte) (live : bool) (n : nat) : Prop := {
  nh_cell : exists c, recv_cells s !! l = Some c /\ cv_rx (cv c) = true
    /\ cv_senders (cv c) = Z.b2z live + x
    /\ cell_holds (rc_pending c) (rc_finished c) (cv_buf (cv c)) B live n;
  nh_entry : if live then exists r, streams s !! id = Some (mkRecvState false l r)
             else streams s !! id = None;
  nh_alone : forall i rs, streams s !! i = Some rs ->
    (recv_cell rs < length (recv_cells s))%nat /\ (recv_cell rs = l -> i = id);
  nh_used : initiator_is_server id = peer_is_server s -> StreamId_counter id < npeer_next s id;
  nh_next : next_peer_uni s <= u64_max /\ next_peer_bi s <= u64_max
}.

(** Run from [s], [p] leaves the bytes of the stream alone. *)
Definition nk {A} (x : Z) s (p : nprog chan A) (Post : A -> SessionInner chan -> Prop) : Prop :=
  forall B live n, nholds x s B live n ->
    exists live', nholds x (run p s).1 B live' n /\ (live' = true -> live = true)
      /\ forall a, (run p s).2 = Some a -> Post a (run p s).1.
Definition nany {A} : A -> SessionInner chan -> Prop := fun _ _ => True.

Lemma nk_bind {A B} x s (p : nprog chan A) (k : A -> nprog chan B) P Q :
  nk x s p P -> (forall a s1, P a s1 -> nk x s1 (k a) Q) -> nk x s (pbind p k) Q.
Proof.
  intros Hp Hk C live n Hs. destruct (Hp C live n Hs) as (live1 & Hs1 & Hl1 & HP).
  rewrite run_bind. destruct (run p s) as [s1 [a|]]; simpl in *.
  - destruct (Hk a s1 (HP a eq_refl) C live1 n Hs1) as (live2 & Hs2 & Hl2 & HQ). exists live2. auto.
  - by exists live1.
Qed.
Lemma nk_seq {A B} x s (p : nprog chan A) (k : A -> nprog chan B) Q :
  nk x s p nany -> (forall a s1, nk x s1 (k a) Q) -> nk x s (pbind p k) Q.
Proof. intros Hp Hk. by eapply nk_bind. Qed.
Lemma nk_ret {A} x s (a : A) (Post : A -> SessionInner chan -> Prop) : Post a s -> nk x s (Ret a) Post.
Proof. intros HP B live n Hs. exists live. split_and!; [done..|]. by intros ? [= <-]. Qed.
Lemma nk_mono {A} x s (p : nprog chan A) (P Q : A -> SessionInner chan -> Prop) :
  nk x s p P -> (forall a s', P a s' -> Q a s') -> nk x s p Q.
Proof. intros Hp HPQ B live n Hs. destruct (Hp B live n Hs) as (? & ? & ? & ?). eauto 6. Qed.
Lemma nk_with_drop {A} x s d (p : nprog chan A) P : nk x s p P -> nk x s (with_drop d p) P.
Proof. unfold nk. by rewrite run_with_drop. Qed.
Lemma nk_run {A} x s (p : nprog chan A) P B live n :
  nk x s p P -> nholds x s B live n ->
  exists live', nholds x (run p s).1 B live' n /\ (live' = true -> live = true)
    /\ forall a, (run p s).2 = Some a -> P a (run p s).1.
Proof. auto. Qed.

(** Programs that leave the receive part alone. *)
Definition ndata s := (streams s, recv_cells s, next_peer_uni s, next_peer_bi s, is_server s).
Definition outer {A} (p : nprog chan A) : Prop := forall s, ndata (run p s).1 = ndata s.

Lemma nholds_same x s s' B live n : ndata s' = ndata s -> nholds x s B live n -> nholds x s' B live n.
Proof.
  intros [= E1 E2 E3 E4 E5] []. constructor; unfold npeer_next, peer_is_server in *;
    by rewrite ?E1, ?E2, ?E3, ?E4, ?E5.
Qed.
Lemma nk_outer {A} x s (p : nprog chan A) : outer p -> nk x s p nany.
Proof. intros Hp B live n Hs. exists live. split_and!; [by eapply nholds_same; [apply Hp|]|done..]. Qed.

Lemma outer_ret {A} (a : A) : outer (Ret a). Proof. done. Qed.
Lemma outer_bind {A B} (p : nprog chan A) (k : A -> nprog chan B) :
  outer p -> (forall a, outer (k a)) -> outer (pbind p k).
Proof.
  intros Hp Hk s. rewrite run_bind. specialize (Hp s). destruct (run p s) as [s1 [a|]]; simpl in *; [|done].
  by rewrite Hk.
Qed.
Lemma outer_atomic {A} (f : SessionInner chan -> SessionInner chan * A) :
  (forall s, ndata (f s).1 = ndata s) -> outer (atomic f).
Proof. intros Hf s. simpl. specialize (Hf s). by destruct (f s). Qed.
Lemma outer_gets {A} (f : SessionInner chan -> A) : outer (gets f).
Proof. by apply outer_atomic. Qed.
Lemma outer_modify f : (forall s, ndata (f s) = ndata s) -> outer (modify f).
Proof. intros Hf. by apply outer_atomic. Qed.
Lemma outer_await {A} (f : SessionInner chan -> option (SessionInner chan * A)) :
  (forall s, match f s with Some (s', _) => ndata s' = ndata s | None => True end) -> outer (await f).
Proof. intros Hf s. simpl. specialize (Hf s). by destruct (f s) as [[s' a]|]. Qed.
Lemma outer_with_drop {A} d (p : nprog chan A) : outer p -> outer (with_drop d p).
Proof. intros Hp s. by rewrite run_with_drop. Qed.

(** Follow the structure of a program that stays outside. *)
Ltac ogo :=
  repeat first
    [ apply outer_ret | apply outer_gets | apply outer_with_drop
    | lazymatch goal with |- outer (pbind _ _) => apply outer_bind; [|intros ?] end
    | apply outer_modify; intros ?; repeat case_match; done
    | apply outer_atomic; intros ?; repeat case_match; simpl; done
    | apply outer_await; intros ?; repeat case_match; simplify_eq; done
    | case_match ].

Lemma outer_is_closed : outer is_closed.
Proof. unfold is_closed. ogo. Qed.
Lemma outer_shutdown : outer request_shutdown.
Proof. unfold request_shutdown. ogo. Qed.
Lemma outer_send f : outer (send_frame f).
Proof.
  unfold send_frame, is_closed, reserve. ogo.
  apply outer_atomic. intros s. unfold send_with_permit. by repeat case_match.
Qed.
Lemma outer_try_send f : outer (try_send_frame f).
Proof.
  unfold try_send_frame, is_closed. ogo.
  apply outer_atomic. intros s. unfold try_push_frame. by repeat case_match.
Qed.
Lemma outer_remove_flow i : outer (remove_send_flow i).
Proof. apply outer_atomic. intros s. unfold remove_send_flow_locked. by case_match. Qed.
Lemma outer_send_drop h : outer (SendStream_drop h).
Proof.
  unfold SendStream_drop, SendStream_finished.
  repeat first [apply outer_remove_flow | apply outer_try_send | apply outer_shutdown | ogo].
Qed.
Lemma outer_queue_credit i m : outer (queue_credit i m).
Proof.
  unfold queue_credit. apply outer_bind; [|intros []; [apply outer_shutdown|apply outer_ret]].
  apply outer_atomic. intros s. unfold queue_credit_locked. by repeat case_match.
Qed.

(** ** Our cell, other cells *)
Lemma nholds_cell_other x s B live n k f :
  k <> l -> nholds x s B live n -> nholds x (on_cell k f s) B live n.
Proof.
  intros Hk [(c & Hc & Hrest) He Ha Hu Hn]. constructor; simpl; try done.
  - exists c. rewrite list_lookup_alter_ne by done. done.
  - intros i rs Hi. rewrite length_alter. auto.
Qed.

(** Our sender is cloned or dropped. *)
Lemma nholds_clone x s B live n : nholds x s B live n -> nholds (x + 1) (sender_clone l s) B live n.
Proof.
  intros [(c & Hc & Hrx & Hsn & Hch) He Ha Hu Hn]. constructor; simpl; try done.
  - eexists. rewrite list_lookup_alter_eq, Hc. split; [done|]. simpl. rewrite tx_clone_view. simpl.
    split_and!; [done|lia|done].
  - intros i rs Hi. rewrite length_alter. auto.
Qed.
Lemma nholds_drop x s B live n : nholds (x + 1) s B live n -> nholds x (sender_drop l s) B live n.
Proof.
  intros [(c & Hc & Hrx & Hsn & Hch) He Ha Hu Hn]. constructor; simpl; try done.
  - eexists. rewrite list_lookup_alter_eq, Hc. split; [done|]. simpl. rewrite tx_drop_view. simpl.
    split_and!; [done|lia|done].
  - intros i rs Hi. rewrite length_alter. auto.
Qed.

Lemma nholds_remove x s B live n :
  nholds x s B live n -> nholds x (remove_recv_stream_locked id s).1 B false n.
Proof.
  intros Hs. unfold remove_recv_stream_locked. destruct Hs as [(c & Hc & Hcl & Hsn & Hch) He Ha Hu Hn].
  destruct live.
  - destruct He as [r He]. rewrite He. simpl. constructor; simpl; try done.
    + eexists. rewrite list_lookup_alter_eq, Hc. simpl. split; [done|]. simpl.
      rewrite tx_drop_view. simpl. rewrite Hsn. split_and!; [done|simpl; lia|by eapply cell_holds_dead].
    + apply lookup_delete_eq.
    + intros i rs [_ Hi]%lookup_delete_Some. rewrite length_alter. auto.
  - rewrite He. by constructor; [exists c|..].
Qed.

Lemma nholds_remove_other x s B live n i :
  i <> id -> nholds x s B live n -> nholds x (remove_recv_stream_locked i s).1 B live n.
Proof.
  intros Hi Hs. unfold remove_recv_stream_locked. destruct (streams s !! i) as [rs|] eqn:E; [|done]. simpl.
  apply nholds_cell_other.
  - intros Hl. destruct (nh_alone _ _ _ _ _ Hs i rs E). auto.
  - destruct Hs as [Hc He Ha Hu Hn]. constructor; simpl; try done.
    + destruct live; by rewrite lookup_delete_ne.
    + intros j rs' [_ Hj]%lookup_delete_Some. auto.
Qed.

Lemma nk_atomic {A} x s (f : SessionInner chan -> SessionInner chan * A)
    (Post : A -> SessionInner chan -> Prop) :
  (forall B live n, nholds x s B live n ->
     exists live', nholds x (f s).1 B live' n /\ (live' = true -> live = true)) ->
  Post (f s).2 (f s).1 -> nk x s (atomic f) Post.
Proof.
  intros Hf HP B live n Hs. destruct (Hf B live n Hs) as (live' & Hs' & Hl). simpl.
  destruct (f s) as [s' a]. simpl in *. exists live'. split_and!; [done..|]. by intros ? [= <-].
Qed.

Lemma nk_remove_stream x s i : nk x s (remove_recv_stream i) nany.
Proof.
  apply nk_atomic; [|done]. intros B live n Hs. destruct (decide (i = id)) as [->|Hi].
  - exists false. split; [by eapply nholds_remove|done].
  - exists live. split; [by apply nholds_remove_other|done].
Qed.

(** ** Closing the session *)
Definition ndrop_senders (rss : list RecvState) s : SessionInner chan :=
  foldr (fun rs => sender_drop (recv_cell rs)) s rss.

Lemma ndrop_other rss s :
  streams (ndrop_senders rss s) = streams s
  /\ length (recv_cells (ndrop_senders rss s)) = length (recv_cells s)
  /\ next_peer_uni (ndrop_senders rss s) = next_peer_uni s
  /\ next_peer_bi (ndrop_senders rss s) = next_peer_bi s
  /\ is_server (ndrop_senders rss s) = is_server s.
Proof.
  induction rss as [|rs rss (IH1 & IH2 & IH3 & IH4 & IH5)]; [done|]. simpl.
  split_and!; [done|by rewrite length_alter|done..].
Qed.

Lemma ndrop_cell rss s c :
  recv_cells s !! l = Some c ->
  exists c', recv_cells (ndrop_senders rss s) !! l = Some c'
    /\ rc_pending c' = rc_pending c /\ rc_finished c' = rc_finished c
    /\ cv c' = cv_set_senders (cv_senders (cv c) - Z.of_nat (length (drops l rss))) (cv c).
Proof.
  intros Hc. induction rss as [|rs rss (c' & Hc' & Hp & Hf & Hv)].
  { exists c. split_and!; [done..|]. simpl. rewrite Z.sub_0_r. by destruct (cv c). }
  unfold drops. rewrite filter_cons. simpl. case_decide as Hrs.
  - eexists. rewrite Hrs, list_lookup_alter_eq, Hc'. simpl.
    split_and!; [done..|]. simpl. rewrite tx_drop_view, Hv. unfold cv_set_senders. simpl. f_equal.
    unfold drops. lia.
  - exists c'. rewrite list_lookup_alter_ne by done. done.
Qed.

Lemma nholds_clear x s B live n : nholds x s B live n -> nholds x (clear_streams s) B false n.
Proof.
  intros Hs. assert (Ha' : forall i rs, streams s !! i = Some rs -> recv_cell rs = l -> i = id)
    by (intros i rs Hi; by destruct (nh_alone _ _ _ _ _ Hs i rs Hi)).
  pose proof (drops_entries _ _ _ _ (nh_entry _ _ _ _ _ Hs) Ha') as Hd. unfold clear_streams.
  fold (ndrop_senders (map_to_list (streams s)).*2 s). set (rss := (map_to_list (streams s)).*2) in *.
  destruct (ndrop_other rss s) as (E1 & E2 & E3 & E4 & E5).
  destruct Hs as [(c & Hc & Hcl & Hsn & Hch) He Ha Hu Hn].
  destruct (ndrop_cell rss s c Hc) as (c' & Hc' & Hp & Hf & Hv). constructor; simpl.
  - exists c'. rewrite Hp, Hf, Hv. simpl. split_and!; [done..|destruct live; simpl in *; lia|].
    by eapply cell_holds_dead.
  - apply lookup_empty.
  - intros i rs. by rewrite lookup_empty.
  - unfold npeer_next, peer_is_server in *. simpl. by rewrite E3, E4, E5.
  - by rewrite E3, E4.
Qed.

Lemma nk_close_all x s : nk x s close_all nany.
Proof.
  unfold close_all. eapply nk_seq; [apply nk_outer, outer_atomic; done|]. intros [] s1; [by apply nk_ret|].
  eapply nk_seq; [by apply nk_outer, outer_modify|]. intros _ s2.
  eapply nk_seq; [apply nk_outer; unfold take_accept_uni; ogo|]. intros _ s3.
  eapply nk_seq; [apply nk_outer; unfold take_accept_bi; ogo|]. intros _ s4.
  eapply nk_seq.
  - apply nk_atomic; [|done]. intros B live n Hs. exists false. split; [by eapply nholds_clear|done].
  - intros _ s5. apply nk_outer, outer_modify. intros s6. unfold clear_send_flows.
    set (ls := (map_to_list _).*2). clearbody ls.
    enough (E : ndata (foldr (fun k => on_flow k flow_close) s6 ls) = ndata s6) by exact E.
    induction ls as [|k ls IH]; [done|exact IH].
Qed.

Lemma nk_protocol_error x s code reason :
  nk x s (protocol_error code reason) (fun r _ => is_ok r = false).
Proof.
  eapply nk_seq; [apply nk_outer, outer_try_send|]. intros _ s1.
  eapply nk_seq; [apply nk_close_all|]. intros _ s2. by apply nk_ret.
Qed.
Lemma nk_error x s code reason : nk x s (protocol_error code reason) nany.
Proof. eapply nk_mono; [apply nk_protocol_error|done]. Qed.

(** ** Frames about other streams *)
Lemma nk_recv_drop x s h : rs_id h <> id -> rs_cell h <> l -> nk x s (RecvStream_drop h) nany.
Proof.
  intros Hid Hl. unfold RecvStream_drop, swap_stop_sent, with_cell.
  eapply nk_seq; [|intros needs s1].
  { apply nk_atomic; [|done]. intros B live n Hs. exists live. split; [|done]. unfold stop_recv_stream_locked.
    destruct (streams s !! rs_id h) as [rs|] eqn:E; [|done]. simpl. destruct Hs as [Hc He Ha Hu Hn].
    constructor; simpl; try done.
    - destruct live; by rewrite lookup_insert_ne.
    - intros j rs' [[<- <-]|[_ Hj]]%lookup_insert_Some; simpl; eauto. }
  assert (Hmod : forall s f, nk x s (modify (on_cell (rs_cell h) f)) nany).
  { intros s2 f. apply nk_atomic; [|done]. intros B live n Hs. exists live.
    split; [by apply nholds_cell_other|done]. }
  eapply nk_seq; [|intros _ s2; apply Hmod].
  destruct needs; [|by apply nk_ret]. eapply nk_seq; [apply nk_outer, outer_gets|]. intros [] s2; [by apply nk_ret|].
  eapply nk_seq; [|intros already s3].
  { apply nk_atomic; [|done]. intros B live n Hs. exists live. split; [by apply nholds_cell_other|done]. }
  destruct already; [by apply nk_ret|]. apply nk_outer.
  apply outer_bind; [apply outer_try_send|]. intros r. case_match; [apply outer_ret|apply outer_shutdown].
Qed.

Lemma nk_dropping {A} x s d (p : nprog chan A) :
  nk x s p nany -> (forall s, nk x s d nany) -> nk x s (dropping d p) nany.
Proof.
  intros Hp Hd. unfold dropping. eapply nk_seq; [by apply nk_with_drop|]. intros r s1.
  eapply nk_seq; [apply Hd|]. intros _ s2. by apply nk_ret.
Qed.

Lemma nk_validate x s i :
  initiator_is_server i = peer_is_server s ->
  nk x s (validate_peer_stream_id i) (fun valid _ => valid = true -> i <> id).
Proof.
  intros Hi B live n Hs. exists live. pose proof (nh_used _ _ _ _ _ Hs) as Hu.
  destruct (nh_next _ _ _ _ _ Hs). unfold validate_peer_stream_id, atomic, validate_peer_locked, npeer_next in *.
  simpl. destruct (StreamId_dir i) eqn:Ed; destruct (StreamId_counter i <? _) eqn:Elt; simpl;
    (split_and!; [|done|intros a [= <-] ? ->; rewrite ?Ed in *; by (specialize (Hu Hi); lia)]); try done.
  all: destruct Hs; constructor; simpl; try done; unfold npeer_next, saturating_add64 in *; simpl;
    [intros Hid; specialize (Hu Hid); case_match; lia|lia].
Qed.

Lemma nk_register x s i :
  i <> id ->
  nk x s (try_register_inbound_recv_stream i)
    (fun r _ => forall h, r = Ok h -> rs_id h <> id /\ rs_cell h <> l).
Proof.
  intros Hi. unfold try_register_inbound_recv_stream, bind_result.
  eapply (nk_bind _ _ _ _ (fun r _ => forall h, r = Ok h -> rs_id h <> id /\ rs_cell h <> l)).
  { intros B live n Hs. exists live. simpl. unfold register_inbound_locked.
    destruct (_ <=? _); [split_and!; [done..|by intros ? [= <-]]|].
    destruct (streams s !! i) eqn:E; [split_and!; [done..|by intros ? [= <-]]|].
    unfold insert_recv_state. rewrite E. simpl. destruct Hs as [(c & Hc & Hrest) He Ha Hu Hn].
    pose proof (lookup_lt_Some _ _ _ Hc).
    split_and!; [|done|intros a [= <-] h [= <-]; simpl; split; [done|lia]].
    constructor; simpl; try done.
    - exists c. by rewrite lookup_app_l.
    - destruct live; by rewrite lookup_insert_ne.
    - intros j rs. rewrite length_app. simpl.
      intros [[<- <-]|[_ Hj]]%lookup_insert_Some; simpl; [lia|]. destruct (Ha j rs Hj). split; [lia|done]. }
  intros [recv|e|] s1 Hr; [|by apply nk_ret..]. destruct (Hr recv eq_refl).
  eapply nk_seq; [apply nk_outer, outer_gets|]. intros w s2.
  eapply nk_seq; [apply nk_with_drop, nk_outer, outer_send|]. intros r s3.
  destruct (is_ok r); [by apply nk_ret; intros ? [= <-]|].
  eapply nk_seq; [by apply nk_recv_drop|]. intros _ s4. by apply nk_ret.
Qed.

Lemma nk_deliver_uni x s h : rs_id h <> id -> rs_cell h <> l -> nk x s (deliver_uni h) nany.
Proof.
  intros Hid Hl. unfold deliver_uni. pose proof (fun s => nk_recv_drop x s h Hid Hl) as Hdrop.
  eapply nk_seq; [apply nk_with_drop, nk_outer; unfold clone_accept_uni; ogo|].
  intros [] s1; [|eapply nk_seq; [apply Hdrop|]; intros _ s2; by apply nk_ret].
  eapply nk_seq; [apply nk_outer; ogo|]. intros r s2.
  apply nk_dropping; [|intros s3; apply nk_outer; unfold accept_uni_drop; ogo].
  destruct r; [by apply nk_ret|by apply nk_dropping; [apply nk_error|]|].
  eapply nk_seq; [apply Hdrop|]. intros _ s3. by apply nk_ret.
Qed.

Lemma nk_drop_pair x s p : rs_id p.2 <> id -> rs_cell p.2 <> l -> nk x s (drop_pair p) nany.
Proof.
  intros Hid Hl. eapply nk_seq; [apply nk_outer, outer_send_drop|]. intros _ s1. by apply nk_recv_drop.
Qed.

Lemma nk_deliver_bi x s p : rs_id p.2 <> id -> rs_cell p.2 <> l -> nk x s (deliver_bi p) nany.
Proof.
  intros Hid Hl. unfold deliver_bi. pose proof (fun s => nk_drop_pair x s p Hid Hl) as Hdrop.
  eapply nk_seq; [apply nk_with_drop, nk_outer; unfold clone_accept_bi; ogo|].
  intros [] s1; [|eapply nk_seq; [apply Hdrop|]; intros _ s2; by apply nk_ret].
  eapply nk_seq; [apply nk_outer; ogo|]. intros r s2.
  apply nk_dropping; [|intros s3; apply nk_outer; unfold accept_bi_drop; ogo].
  destruct r; [by apply nk_ret|by apply nk_dropping; [apply nk_error|]|].
  eapply nk_seq; [apply Hdrop|]. intros _ s3. by apply nk_ret.
Qed.

(** Only the initiator check of the opening handlers reads a flag that decides
    whose identifiers are accepted. *)
Lemma nk_gets {A} x s (f : SessionInner chan -> A) (Post : A -> SessionInner chan -> Prop) :
  Post (f s) s -> nk x s (gets f) Post.
Proof. intros HP. apply nk_atomic; [|done]. intros B live n Hs. by exists live. Qed.

Lemma nk_open_uni x s i : nk x s (handle_open_uni i) nany.
Proof.
  unfold handle_open_uni. eapply (nk_bind _ _ _ _ (fun peer s' => peer = peer_is_server s')); [by apply nk_gets|].
  intros peer s1 ->. case_match; [apply nk_error|].
  destruct (eqb (initiator_is_server i) (peer_is_server s1)) eqn:Ei; cbn [negb]; [|apply nk_error].
  apply eqb_prop in Ei. eapply nk_bind; [by apply nk_validate|]. intros [] s2 Hv; cbn [negb]; [|apply nk_error].
  eapply nk_bind; [by apply nk_register, Hv|]. intros [h|[code reason]|] s3 Hh;
    [|apply nk_error|by apply nk_ret]. destruct (Hh h eq_refl). by apply nk_deliver_uni.
Qed.

Lemma nk_open_bi x s i : nk x s (handle_open_bi i) nany.
Proof.
  unfold handle_open_bi. eapply (nk_bind _ _ _ _ (fun peer s' => peer = peer_is_server s')); [by apply nk_gets|].
  intros peer s1 ->. case_match; [apply nk_error|].
  destruct (eqb (initiator_is_server i) (peer_is_server s1)) eqn:Ei; cbn [negb]; [|apply nk_error].
  apply eqb_prop in Ei. eapply nk_bind; [by apply nk_validate|]. intros [] s2 Hv; cbn [negb]; [|apply nk_error].
  eapply nk_bind; [by apply nk_register, Hv|]. intros [h|[code reason]|] s3 Hh;
    [|apply nk_error|by apply nk_ret]. destruct (Hh h eq_refl).
  eapply nk_seq; [apply nk_outer, outer_atomic; intros s4; unfold register_send_flow_locked; by repeat case_match|].
  intros [fl|err|] s4; [| |by apply nk_ret].
  - eapply nk_seq; [apply nk_outer; unfold SendStream_new; ogo|]. intros h' s5. by apply nk_deliver_bi.
  - apply nk_dropping; [apply nk_error|]. intros s5. by apply nk_recv_drop.
Qed.

(** Data for another stream. *)
Lemma nk_stream_other x s i data fin : i <> id -> nk x s (handle_stream i data fin) nany.
Proof.
  intros Hi. unfold handle_stream. eapply nk_seq; [apply nk_outer, outer_gets|]. intros limit s1.
  case_match; [apply nk_error|].
  eapply (nk_bind _ _ _ _ (fun r _ => forall k b, r = Ok (k, b) -> k <> l)).
  { intros B live n Hs. exists live. simpl. unfold account_data.
    destruct (streams s1 !! i) as [rs|] eqn:E; [|simpl; split_and!; [done..|intros a [= <-] k b; done]].
    destruct (checked_add64 _ _) as [r|]; [|simpl; split_and!; [done..|intros a [= <-] k b; done]].
    destruct (rc_max_data _ <? r); [simpl; split_and!; [done..|intros a [= <-] k b; done]|]. simpl.
    assert (Hrs : recv_cell rs <> l) by (intros Hl; destruct (nh_alone _ _ _ _ _ Hs i rs E); auto).
    split_and!; [|done|by intros a [= <-] k b [= <- <-]]. apply nholds_cell_other; [done|].
    destruct Hs as [Hc He Ha Hu Hn]. constructor; simpl; try done.
    - destruct live; by rewrite lookup_insert_ne.
    - intros j rs' [[<- <-]|[_ Hj]]%lookup_insert_Some; simpl; eauto. }
  intros [[k b]|reason|] s2 Hk; [|apply nk_error|by apply nk_ret]. specialize (Hk k b eq_refl).
  assert (Hretire : forall s, nk x s (if fin then remove_recv_stream i else Ret true) nany)
    by (intros s3; destruct fin; [apply nk_remove_stream|by apply nk_ret]).
  assert (Hend : forall s (r : result unit),
    nk x s ((if fin then remove_recv_stream i else Ret true);;; Ret r) nany)
    by (intros s3 r; eapply nk_seq; [apply Hretire|intros; by apply nk_ret]).
  apply nk_dropping.
  - destruct b; [apply Hend|]. eapply nk_seq; [|intros [] s3; [apply Hend|apply nk_error|apply Hend]].
    apply nk_atomic; [|done]. intros B live n Hs. exists live. split; [|done]. unfold try_send_event.
    destruct (tx_try_send _ _). by apply nholds_cell_other.
  - intros s3. apply nk_atomic; [|done]. intros B live n Hs. exists live.
    split; [by apply nholds_cell_other|done].
Qed.

(** ** Our own data *)

(** The entry is accounted for and the sender cloned, or the frame is refused. *)
Lemma own_account x s B live n len :
  nholds x s B live n ->
  match account_data id len s with
  | (s', Ok (k, b)) => k = l /\ b = false /\ live = true /\ nholds (x + 1) s' B true n
  | (s', Err _) => s' = s
  | (_, Panic) => False
  end.
Proof.
  intros Hs. unfold account_data. pose proof (nh_entry _ _ _ _ _ Hs) as He.
  destruct live; [destruct He as [r0 He]|]; rewrite He; [|done].
  destruct (checked_add64 _ _) as [r|]; [|done]. simpl. destruct (_ <? r); [done|]. split_and!; [done..|].
  apply nholds_clone. destruct Hs as [Hc _ Ha Hu Hn]. constructor; simpl; try done.
  - eexists. apply lookup_insert_eq.
  - intros j rs [[<- <-]|[_ Hj]]%lookup_insert_Some; simpl; [|eauto]. by destruct (Ha id _ He).
Qed.

(** The event is queued, or refused without a trace. *)
Lemma n_own_event x s B n (e : RecvEvent) :
  nholds x s B true n ->
  let '(s2, res) := try_send_event l e s in
  match res with
  | SendOk => nholds x (if ev_fin e then (remove_recv_stream_locked id s2).1 else s2)
                (B ++ ev_data e) (negb (ev_fin e)) (n + 1)
  | SendFull => nholds x s2 B true n
  | SendClosed => False
  end.
Proof.
  intros [(c & Hc & Hrx & Hsn & Hch) [r He] Ha Hu Hn].
  unfold try_send_event, cell_of. simpl. rewrite Hc. simpl.
  pose proof (try_send_res_view _ e (rc_chan c)) as Hr. pose proof (try_send_view _ e (rc_chan c)) as Hv.
  unfold cv_try_send in Hr, Hv. rewrite Hrx in Hr, Hv. simpl in Hr, Hv.
  destruct (tx_try_send e (rc_chan c)) as [res ch]. simpl in Hr, Hv.
  destruct (cv_room (cv c)); simpl in Hr, Hv; subst res.
  - destruct (ch_open _ _ _ _ _ _ Hch eq_refl) as [Hf _]. rewrite Hf in Hch.
    pose proof (cell_holds_push _ _ _ _ e Hch) as Hpush. destruct (ev_fin e) eqn:Efin; simpl in *.
    + unfold remove_recv_stream_locked. simpl. rewrite He. simpl. constructor; simpl; try done.
      * eexists. rewrite !list_lookup_alter_eq, Hc. simpl. split; [done|]. simpl.
        rewrite tx_drop_view, Hv, Hf. simpl. split_and!; [done|lia|done].
      * apply lookup_delete_eq.
      * intros j rs [_ Hj]%lookup_delete_Some. rewrite !length_alter. auto.
    + constructor; simpl; try done.
      * eexists. rewrite list_lookup_alter_eq, Hc. split; [done|]. simpl. by rewrite Hv, Hf.
      * by eexists.
      * intros j rs. rewrite length_alter. auto.
  - constructor; simpl; try done.
    + eexists. rewrite list_lookup_alter_eq, Hc. split; [done|]. simpl. by rewrite Hv.
    + by eexists.
    + intros j rs. rewrite length_alter. auto.
Qed.

(** ** The law of frames *)
Definition nframe_law (f : Frame) s : Prop := forall B live n, nholds 0 s B live n ->
  let '(s', ok) := rs_frame (native_side (mkRecvStream id l)) f s in
  exists live' n', nholds 0 s' (B ++ if ok then payload_for id f else []) live' n'
    /\ (live' = true -> live = true) /\ (ok = true -> ends id f -> live' = false).

Lemma nframe_law_nk f s :
  payload_for id f = [] -> ~ ends id f -> nk 0 s (handle_frame f) nany -> nframe_law f s.
Proof.
  intros Hp He Hf B live n Hs. destruct (Hf B live n Hs) as (live' & Hs' & Hl & _). simpl.
  destruct (run (handle_frame f) s) as [s' [r|]]; exists live', n; rewrite ?Hp; [|by rewrite app_nil_r].
  replace (if is_ok r then [] else []) with (@nil byte) by (by destruct r). by rewrite app_nil_r.
Qed.

(** A program that ends in an error accepts nothing. *)
Lemma nk_fails s (p : nprog chan (result unit)) B live n :
  nk 0 s p (fun r _ => is_ok r = false) -> nholds 0 s B live n ->
  let '(s', ok) := accepted (run p s) in
  ok = false /\ exists live', nholds 0 s' B live' n /\ (live' = true -> live = true).
Proof.
  intros Hp Hs. destruct (Hp B live n Hs) as (live' & Hs' & Hl & HP).
  destruct (run p s) as [s' [r|]]; simpl in *; [split; [by apply HP|]|split; [done|]]; eauto.
Qed.

Lemma own_stream data fin s : nframe_law (Stream id data fin) s.
Proof.
  intros B live n Hs. cbn [rs_frame native_side payload_for handle_frame]. rewrite decide_True by done.
  unfold handle_stream. rewrite run_gets.
  destruct (max_stream_data_per_frame (limits s) <? blen data) eqn:El.
  { pose proof (nk_fails s _ B live n (nk_protocol_error 0 s 2 "stream data too large") Hs) as Hf.
    destruct (accepted _) as [s' ok]. destruct Hf as [-> (live' & ? & ?)].
    exists live', n. by rewrite app_nil_r. }
  rewrite run_atomic. pose proof (own_account 0 s B live n (blen data) Hs) as Hacc.
  destruct (account_data id (blen data) s) as [s1 [[k b]|reason|]]; [| |done].
  2:{ subst s1. pose proof (nk_fails s _ B live n (nk_protocol_error 0 s 2 reason) Hs) as Hf.
    destruct (accepted _) as [s' ok]. destruct Hf as [-> (live' & ? & ?)].
    exists live', n. by rewrite app_nil_r. }
  destruct Hacc as (-> & -> & -> & Hs1). unfold dropping. rewrite run_bind, run_with_drop, run_atomic.
  pose proof (n_own_event 1 s1 B n (mkRecvEvent data fin) Hs1) as Hev.
  destruct (try_send_event l (mkRecvEvent data fin) s1) as [s2 []]; [| |done]; simpl in Hev.
  - assert (Hrun : exists s3, run ((if fin then remove_recv_stream id else Ret true);;; Ret (Ok tt : result unit)) s2
      = (s3, Some (Ok tt)) /\ nholds 1 s3 (B ++ data) (negb fin) (n + 1)).
    { destruct fin; simpl in *; [|by eexists]. destruct (remove_recv_stream_locked id s2). by eexists. }
    destruct Hrun as (s3 & -> & Hs3). simpl. exists (negb fin), (n + 1)%nat.
    split_and!; [by apply nholds_drop|done|]. intros _ Hends. by destruct fin.
  - destruct (nk_protocol_error 1 s2 3 "receive queue full" B true n Hev) as (live' & Hs3 & Hl & Hr).
    destruct (returns_protocol_error 3 "receive queue full" s2) as [r Er].
    destruct (run (protocol_error 3 "receive queue full") s2) as [s3 o]. simpl in Er, Hs3, Hr. subst o.
    simpl. exists live', n. rewrite (Hr r eq_refl), app_nil_r.
    split_and!; [by apply nholds_drop|done..].
Qed.

Lemma native_frame_law f s : nframe_law f s.
Proof.
  destruct f as [i|i|i data fin|i code|i code|i max|code reason].
  - apply nframe_law_nk; [done|by intros []|apply nk_open_uni].
  - apply nframe_law_nk; [done|by intros []|apply nk_open_bi].
  - destruct (decide (i = id)) as [->|Hi]; [apply own_stream|].
    apply nframe_law_nk; [by simpl; rewrite decide_False|simpl; destruct fin; tauto|].
    by apply nk_stream_other.
  - destruct (decide (i = id)) as [->|Hi].
    + intros B live n Hs. cbn [rs_frame native_side payload_for handle_frame]. unfold handle_reset_stream.
      unfold remove_recv_stream. rewrite run_atomic. apply nholds_remove in Hs.
      destruct (remove_recv_stream_locked id s) as [s1 []]; simpl in Hs.
      { exists false, n. simpl. by rewrite app_nil_r. }
      unfold is_retired_direction. rewrite run_gets.
      match goal with |- context [run (if ?b then _ else _) _] => destruct b end.
      { exists false, n. simpl. by rewrite app_nil_r. }
      pose proof (nk_fails s1 _ B false n (nk_protocol_error 0 s1 1 "reset on unknown stream") Hs) as Hf.
      destruct (accepted _) as [s' ok]. destruct Hf as [-> (live' & ? & Hl)]. exists live', n.
      rewrite app_nil_r. by destruct live'; [specialize (Hl eq_refl)|].
    + apply nframe_law_nk; [done..|]. cbn [handle_frame]. unfold handle_reset_stream.
      eapply nk_seq; [apply nk_remove_stream|]. intros [] s1; [by apply nk_ret|].
      eapply nk_seq; [apply nk_outer, outer_gets|]. intros [] s2; [by apply nk_ret|apply nk_error].
  - apply nframe_law_nk; [done|by intros []|]. cbn [handle_frame]. unfold handle_stop_sending.
    eapply nk_seq; [apply nk_outer, outer_remove_flow|]. intros [] s1; [apply nk_outer, outer_send|].
    eapply nk_seq; [apply nk_outer, outer_gets|]. intros [] s2; [by apply nk_ret|apply nk_error].
  - apply nframe_law_nk; [done|by intros []|]. cbn [handle_frame]. unfold handle_max_stream_data.
    apply nk_outer. ogo.
  - apply nframe_law_nk; [done|by intros []|]. cbn [handle_frame].
    eapply nk_seq; [apply nk_close_all|]. intros _ s1. by apply nk_ret.
Qed.

(** ** The law of reads *)
Abbreviation h := (mkRecvStream id l).

Lemma nown_cell s B live n :
  nholds 0 s B live n -> recv_cells s !! l = Some (cell_of s h)
  /\ cv_rx (cv (cell_of s h)) = true /\ cv_senders (cv (cell_of s h)) = Z.b2z live
  /\ cell_holds (rc_pending (cell_of s h)) (rc_finished (cell_of s h))
       (cv_buf (cv (cell_of s h))) B live n.
Proof.
  intros [(c & Hc & ? & Hsn & ?) _ _ _ _]. unfold cell_of. simpl. rewrite Hc. simpl.
  split_and!; [done..|lia|done].
Qed.
Lemma nown_update s f : is_Some (recv_cells s !! l) -> cell_of (on_cell l f s) h = f (cell_of s h).
Proof. intros [c Hc]. unfold cell_of. simpl. by rewrite list_lookup_alter_eq, Hc. Qed.

Lemma nholds_own s B live n f B' n' :
  nholds 0 s B live n ->
  (let c := cell_of s h in
   cv_rx (cv (f c)) = cv_rx (cv c) /\ cv_senders (cv (f c)) = cv_senders (cv c)
   /\ cell_holds (rc_pending (f c)) (rc_finished (f c)) (cv_buf (cv (f c))) B' live n') ->
  nholds 0 (on_cell l f s) B' live n'.
Proof.
  intros Hs (Hcl & Hsn & Hch). destruct (nown_cell _ _ _ _ Hs) as (Hc & Hcl' & Hsn' & _).
  destruct Hs as [_ He Ha Hu Hn]. constructor; simpl; try done.
  - eexists. rewrite list_lookup_alter_eq, Hc. simpl. split; [done|]. rewrite Hcl, Hsn.
    split_and!; [done|lia|done].
  - intros j rs. rewrite length_alter. auto.
Qed.

Lemma nconsume_same n c :
  rc_pending (consume n c).1 = rc_pending c /\ rc_finished (consume n c).1 = rc_finished c
  /\ rc_chan (consume n c).1 = rc_chan c.
Proof. unfold consume. by repeat case_match. Qed.

(** Accounting for consumed bytes returns and keeps the contents. *)
Lemma nown_consumed s B live n k :
  nholds 0 s B live n ->
  exists s', run (on_bytes_consumed h k) s = (s', Some tt) /\ nholds 0 s' B live n.
Proof.
  intros Hs. unfold on_bytes_consumed. rewrite run_atomic. unfold with_cell. simpl.
  assert (Hs1 : nholds 0 (on_cell l (fun c => (consume k c).1) s) B live n).
  { eapply nholds_own; [done|]. simpl. destruct (nown_cell _ _ _ _ Hs) as (_ & _ & _ & Hch).
    destruct (nconsume_same k (cell_of s h)) as (-> & -> & ->). done. }
  destruct (consume k (cell_of s h)).2 as [target|]; [|by eexists].
  unfold queue_credit_opt. set (s1 := on_cell _ _ s) in *.
  pose proof (outer_queue_credit id target s1) as Ho.
  assert (Hret : is_Some (run (queue_credit id target) s1).2).
  { unfold queue_credit. rewrite run_atomic. destruct (queue_credit_locked id target s1) as [s2 []]; by eexists. }
  destruct (run (queue_credit id target) s1) as [s2 o]. simpl in *. destruct Hret as [[] ->].
  exists s2. split; [done|]. by eapply nholds_same.
Qed.

Lemma nown_set_pending s B live n p :
  nholds 0 s B live n -> rc_pending (cell_of s h) = [] ->
  nholds 0 (on_cell l (set_rc_pending p) s) (p ++ B) live n.
Proof.
  intros Hs Hp. eapply nholds_own; [done|]. destruct (nown_cell _ _ _ _ Hs) as (_ & _ & _ & [-> -> ? ? ?]).
  rewrite Hp in *. by split_and!; [..|constructor].
Qed.

(** Delivering pending bytes is a read of them. *)
Lemma nlaw_deliver s B live n room :
  nholds 0 s B live n -> 0 < room ->
  exists s' out B', run (deliver_pending h room) s = (s', Some out)
    /\ B = out ++ B' /\ nholds 0 s' B' live n /\ blen out <= room
    /\ (rc_pending (cell_of s h) <> [] -> out <> []).
Proof.
  intros Hs Hroom. unfold deliver_pending. rewrite run_atomic. unfold with_cell, take_pending. cbn [rs_cell fst snd].
  set (k := Z.to_nat _). destruct (nown_cell _ _ _ _ Hs) as (_ & _ & _ & Hch).
  destruct (cell_holds_take _ _ _ _ _ _ k Hch) as [HB Hch'].
  assert (Hs1 : nholds 0 (on_cell l (fun c =>
    set_rc_pending (drop (Z.to_nat (Z.min room (blen (rc_pending c)))) (rc_pending c)) c) s)
    (drop k (rc_pending (cell_of s h)) ++ evs_bytes (cv_buf (cv (cell_of s h)))) live n)
    by (eapply nholds_own; done).
  destruct (nown_consumed _ _ _ _ (blen (take k (rc_pending (cell_of s h)))) Hs1) as (s2 & Hrun & Hs2).
  rewrite run_bind, Hrun. simpl. eexists _, _, _. split_and!; [done|exact HB|done|..]; subst k.
  - apply blen_take_le; [lia|]. unfold blen. lia.
  - intros Hp. apply take_nonempty; [|done]. destruct (rc_pending _); [done|]. unfold blen. simpl. lia.
Qed.

Lemma nlaw_finished s B live n :
  nholds 0 s B live n -> rc_pending (cell_of s h) = [] -> rc_finished (cell_of s h) = true ->
  B = [] /\ live = false /\ exists n', nholds 0 s [] false n'.
Proof.
  intros Hs Hp Hf. destruct (nown_cell _ _ _ _ Hs) as (_ & _ & _ & [HB Hn Hopen Hdone _]).
  rewrite Hp, Hf in *. rewrite (Hdone eq_refl) in HB. simpl in HB. subst B.
  destruct live; [by destruct (Hopen eq_refl)|]. eauto.
Qed.

(** FIN is recorded with the event that carries it. *)
Definition on_fin (e : RecvEvent) s : SessionInner chan :=
  if ev_fin e then on_cell l (set_rc_finished true) s else s.

Lemma nown_next s B live n :
  nholds 0 s B live n -> rc_pending (cell_of s h) = [] -> rc_finished (cell_of s h) = false ->
  match rx_recv (rc_chan (cell_of s h)) with
  | (RecvItem e, ch) => let s1 := on_fin e (on_cell l (set_rc_chan ch) s) in
      exists B1, B = ev_data e ++ B1 /\ (0 < n)%nat
      /\ (ev_fin e = true -> B1 = [] /\ live = false) /\ nholds 0 s1 B1 live (n - 1)
      /\ rc_pending (cell_of s1 h) = [] /\ rc_finished (cell_of s1 h) = ev_fin e
  | (RecvEnd, ch) => B = [] /\ live = false
      /\ nholds 0 (on_cell l (set_rc_finished true) (on_cell l (set_rc_chan ch) s)) [] false 0
  | (RecvPending, _) => B = [] /\ live = true
  end.
Proof.
  intros Hs Hp Hf. destruct (nown_cell _ _ _ _ Hs) as (Hc & Hcl & Hsn & Hch). rewrite Hp, Hf in Hch.
  remember (cell_of s h) as c eqn:Ec.
  pose proof (recv_res_view _ (rc_chan c)) as Hr. pose proof (recv_view _ (rc_chan c)) as Hv.
  unfold cv_recv in Hr, Hv. destruct (rx_recv (rc_chan c)) as [r ch]. simpl in Hr, Hv.
  set (s1 := on_cell l (set_rc_chan ch) s).
  assert (Hc1 : cell_of s1 h = set_rc_chan ch c) by (subst c; apply nown_update; eauto).
  assert (Hc1' : is_Some (recv_cells s1 !! l)) by (simpl; rewrite list_lookup_alter_eq, Hc; eauto).
  destruct (cv_buf (cv c)) as [|e q] eqn:Eq; simpl in Hr, Hv.
  - assert (Hs1 : nholds 0 s1 [] live 0).
    { eapply nholds_own; [done|]. rewrite <- Ec. simpl. rewrite Hv, Eq, Hp, Hf.
      by destruct Hch; split_and!; [..|constructor]. }
    destruct Hch as [-> -> _ _ _]. rewrite Hsn in Hr. destruct live; simpl in Hr; subst r; [done|].
    split_and!; [done..|]. eapply nholds_own; [exact Hs1|]. rewrite Hc1. simpl. rewrite Hv, Eq, Hp.
    by split_and!; [..|constructor].
  - destruct r as [e'| |]; [injection Hr as ->|done..].
    destruct (cell_holds_pop _ _ _ _ _ _ (length (ev_data e)) Hch) as (-> & _ & Hfin & Hch').
    rewrite firstn_all, drop_all in *. simpl in *. destruct Hch as [_ -> _ _ _].
    replace (length (e :: q) - 1)%nat with (length q) in * by (simpl; lia).
    assert (Hs1 : nholds 0 s1 (evs_bytes q) live (length q)).
    { eapply nholds_own; [done|]. rewrite <- Ec. simpl. rewrite Hv, Hp, Hf. split_and!; [done..|].
      destruct Hch' as [? ? Hopen ? ?]. constructor; try done. intros Hl. by destruct (Hopen Hl). }
    assert (Hq : ev_fin e = true -> q = []) by (by destruct Hch').
    exists (evs_bytes q). split_and!; [done|simpl; lia|intros He; rewrite Hq by done; auto|..];
      unfold on_fin; destruct (ev_fin e) eqn:Efin; simpl; rewrite ?nown_update, ?Hc1, <- ?Ec; try done.
    eapply (nholds_own s1); [exact Hs1|]. rewrite Hc1. simpl. by rewrite Hv, Hp.
Qed.

(** The event of [read] and [read_chunk], FIN recorded. *)
Lemma run_on_fin {A} (e : RecvEvent) (k : nprog chan A) s :
  run ((if ev_fin e then modify (on_cell (rs_cell h) (set_rc_finished true)) else Ret tt);;; k) s
  = run k (on_fin e s).
Proof. unfold on_fin. by destruct (ev_fin e). Qed.

Lemma nread_law room s B live n :
  nholds 0 s B live n -> 0 < room ->
  call_law (nholds 0) room B live n (rs_call (native_side h) (CRead room) s).
Proof.
  intros Hs Hroom. cbn [rs_call native_side]. unfold read. rewrite (proj2 (Z.eqb_neq room 0)) by lia.
  rewrite run_gets. destruct (bool_decide_reflect (rc_pending (cell_of s h) = [])) as [Hp|Hp].
  - destruct (rc_finished (cell_of s h)) eqn:Hf; [by eapply nlaw_finished|].
    pose proof (nown_next s B live n Hs Hp Hf) as Hn. unfold bind_result.
    rewrite run_bind. unfold read_chunk_internal. rewrite run_bind.
    unfold recv_event, await. cbn [run rs_cell].
    destruct (rx_recv (rc_chan (cell_of s h))) as [[e| |] ch].
    + cbn [run]. rewrite run_on_fin. destruct Hn as (B1 & -> & Hpos & Hfin & Hs2 & Hp2 & _).
      set (s1 := on_fin e _) in *. destruct (bool_decide (ev_data e = []) && ev_fin e) eqn:Ee.
      * apply andb_true_iff in Ee as [->%bool_decide_eq_true Ef]. destruct (Hfin Ef) as [-> ->]. simpl. eauto.
      * cbn [run]. change (run (modify ?f;;; ?k) s1) with (run k (f s1)).
        apply (nown_set_pending _ _ _ _ (ev_data e)) in Hs2; [|done].
        destruct (nlaw_deliver _ _ _ _ room Hs2 Hroom) as (s3 & out & B' & Hrun & HB & Hs3 & Hlen & _).
        cbn [rs_cell]. rewrite run_bind, Hrun. simpl. exists B', (n - 1)%nat. split_and!; [done..|].
        rewrite HB, length_app. lia.
    + destruct Hn as (-> & -> & Hs2). simpl. eauto.
    + destruct Hn as (-> & ->). simpl. eauto.
  - destruct (nlaw_deliver _ _ _ _ room Hs Hroom) as (s3 & out & B' & Hrun & -> & Hs3 & Hlen & Hne).
    rewrite run_bind, Hrun. simpl. exists B', n. split_and!; [done..|]. rewrite length_app.
    destruct out; [by destruct (Hne Hp)|simpl; lia].
Qed.

Lemma nlaw_split s1 B1 live n (data : list byte) k kc :
  nholds 0 s1 B1 live (n - 1) -> rc_pending (cell_of s1 h) = [] -> (0 < n)%nat ->
  exists s2 B' n', run (on_bytes_consumed h kc) (on_cell l (set_rc_pending (drop k data)) s1) = (s2, Some tt)
    /\ data ++ B1 = take k data ++ B' /\ nholds 0 s2 B' live n'
    /\ (length B' + n' < length (data ++ B1) + n)%nat.
Proof.
  intros Hs Hp Hn. apply (nown_set_pending _ _ _ _ (drop k data)) in Hs; [|done].
  destruct (nown_consumed _ _ _ _ kc Hs) as (s2 & Hrun & Hs2).
  exists s2, (drop k data ++ B1), (n - 1)%nat. split_and!; [done|by rewrite app_assoc, take_drop|done|].
  rewrite !length_app, length_drop. lia.
Qed.
Lemma nlaw_whole s1 B1 live n (data : list byte) kc :
  nholds 0 s1 B1 live (n - 1) -> (0 < n)%nat ->
  exists s2 B' n', run (on_bytes_consumed h kc) s1 = (s2, Some tt)
    /\ data ++ B1 = data ++ B' /\ nholds 0 s2 B' live n' /\ (length B' + n' < length (data ++ B1) + n)%nat.
Proof.
  intros Hs Hn. destruct (nown_consumed _ _ _ _ kc Hs) as (s2 & Hrun & Hs2).
  exists s2, B1, (n - 1)%nat. split_and!; [done..|]. rewrite length_app. lia.
Qed.

Lemma nread_chunk_law max s B live n :
  nholds 0 s B live n -> 0 < max ->
  call_law (nholds 0) max B live n (rs_call (native_side h) (CReadChunk max) s).
Proof.
  intros Hs Hmax. cbn [rs_call native_side]. unfold read_chunk. rewrite (proj2 (Z.eqb_neq max 0)) by lia.
  rewrite run_gets. destruct (bool_decide_reflect (rc_pending (cell_of s h) = [])) as [Hp|Hp]; cbn [negb].
  - destruct (rc_finished (cell_of s h)) eqn:Hf; [by eapply nlaw_finished|].
    pose proof (nown_next s B live n Hs Hp Hf) as Hn. rewrite run_bind.
    unfold recv_event, await. cbn [run rs_cell].
    destruct (rx_recv (rc_chan (cell_of s h))) as [[e| |] ch].
    + cbn [run]. rewrite run_on_fin. destruct Hn as (B1 & -> & Hpos & Hfin & Hs2 & Hp2 & _).
      set (s1 := on_fin e _) in *. destruct (bool_decide (ev_data e = []) && ev_fin e) eqn:Ee.
      { apply andb_true_iff in Ee as [->%bool_decide_eq_true Ef]. destruct (Hfin Ef) as [-> ->]. simpl. eauto. }
      destruct (max <? blen (ev_data e)) eqn:Em.
      * destruct (nlaw_split s1 B1 live n (ev_data e) (Z.to_nat max)
          (blen (take (Z.to_nat max) (ev_data e))) Hs2 Hp2 Hpos) as (s3 & B' & n' & Hrun & HB & Hs3 & Hlt).
        change (run (modify ?f;;; ?k) s1) with (run k (f s1)). cbn [rs_cell].
        rewrite run_bind, Hrun. exists B', n'. split_and!; [done..|apply blen_take_le; lia|done].
      * destruct (nlaw_whole s1 B1 live n (ev_data e) (blen (ev_data e)) Hs2 Hpos)
          as (s3 & B' & n' & Hrun & HB & Hs3 & Hlt).
        rewrite run_bind, Hrun. exists B', n'. split_and!; [done..|lia|done].
    + destruct Hn as (-> & -> & Hs2). simpl. eauto.
    + destruct Hn as (-> & ->). simpl. eauto.
  - destruct (nlaw_deliver _ _ _ _ max Hs Hmax) as (s3 & out & B' & Hrun & -> & Hs3 & Hlen & Hne).
    rewrite run_bind, Hrun. simpl. exists B', n. split_and!; [done..|]. rewrite length_app.
    destruct out; [by destruct (Hne Hp)|simpl; lia].
Qed.

Lemma of_poll_bytes (b : list byte) : b <> [] -> of_poll (Some (Ready b)) = RBytes b.
Proof. by destruct b. Qed.

Lemma npoll_loop_law budget room s B live n :
  nholds 0 s B live n -> 0 < room -> (n < budget)%nat ->
  rc_pending (cell_of s h) = [] -> rc_finished (cell_of s h) = false ->
  call_law (nholds 0) room B live n
    (match run (poll_read_loop h budget room) s with (s', r) => (s', of_poll r) end).
Proof.
  intros Hs Hroom. revert s B live n Hs. induction budget as [|budget IH]; intros s B live n Hs Hf Hp Hfin; [lia|].
  cbn [poll_read_loop]. unfold poll_recv. rewrite run_atomic. pose proof (nown_next s B live n Hs Hp Hfin) as Hn.
  destruct (rx_recv (rc_chan (cell_of s h))) as [[e| |] ch].
  - rewrite run_on_fin. destruct Hn as (B1 & -> & Hpos & Hend & Hs2 & Hp2 & Hf2). cbn [rs_cell].
    set (s2 := on_fin e _) in *.
    destruct (bool_decide_reflect (ev_data e = [])) as [He|He]; [destruct (ev_fin e) eqn:Ef|].
    + rewrite He. destruct (Hend eq_refl) as [-> ->]. simpl. eauto.
    + rewrite He. simpl. specialize (IH s2 B1 live (n - 1)%nat Hs2 ltac:(lia) Hp2 Hf2).
      destruct (run (poll_read_loop h budget room) s2) as [s3 r]. eapply call_law_more; [|exact IH]. lia.
    + set (amt := Z.min (blen (ev_data e)) room).
      assert (Hamt : 0 < amt).
      { subst amt. destruct (ev_data e); [done|]. unfold blen. simpl. lia. }
      pose proof (take_nonempty amt (ev_data e) Hamt He) as Hne.
      destruct (amt <? blen (ev_data e)) eqn:Em.
      * destruct (nlaw_split s2 B1 live n (ev_data e) (Z.to_nat amt) amt Hs2 Hp2 Hpos)
          as (s3 & B' & n' & Hrun & HB & Hs3 & Hlt).
        change (run (modify ?f;;; ?k) s2) with (run k (f s2)). rewrite run_bind, Hrun. cbn [run].
        rewrite of_poll_bytes by done. exists B', n'. split_and!; [done..|apply blen_take_le; lia|done].
      * destruct (nlaw_whole s2 B1 live n (ev_data e) amt Hs2 Hpos) as (s3 & B' & n' & Hrun & HB & Hs3 & Hlt).
        change (run (Ret tt;;; ?k) s2) with (run k s2). rewrite run_bind, Hrun. cbn [run].
        rewrite of_poll_bytes by done. exists B', n'.
        rewrite (take_ge (ev_data e)) by (unfold blen in *; lia). split_and!; [done..|lia|done].
  - destruct Hn as (-> & -> & Hs2). simpl. eauto.
  - destruct Hn as (-> & ->). simpl. eauto.
Qed.

Lemma npoll_read_law room s B live n :
  nholds 0 s B live n -> 0 < room ->
  call_law (nholds 0) room B live n (rs_call (native_side h) (CPollRead room) s).
Proof.
  intros Hs Hroom. cbn [rs_call native_side]. unfold poll_read. rewrite (proj2 (Z.eqb_neq room 0)) by lia.
  rewrite run_gets. destruct (bool_decide_reflect (rc_pending (cell_of s h) = [])) as [Hp|Hp]; cbn [negb].
  - destruct (rc_finished (cell_of s h)) eqn:Hf; [by eapply nlaw_finished|].
    apply npoll_loop_law; try done. destruct (nown_cell _ _ _ _ Hs) as (_ & _ & _ & [_ -> _ _ _]). lia.
  - destruct (nlaw_deliver _ _ _ _ room Hs Hroom) as (s3 & out & B' & Hrun & -> & Hs3 & Hlen & Hne).
    rewrite run_bind, Hrun. cbn [run]. rewrite of_poll_bytes by auto. exists B', n. split_and!; [done..|].
    rewrite length_app. destruct out; [by destruct (Hne Hp)|simpl; lia].
Qed.

Lemma native_recv_laws : recv_laws (native_side h) id (nholds 0).
Proof.
  constructor.
  - intros s B live n f Hs. exact (native_frame_law f s B live n Hs).
  - intros s B live n [room|max|room] Hs Hc.
    + by apply nread_law.
    + by apply nread_chunk_law.
    + by apply npoll_read_law.
Qed.
End Stream.

(** ** Streams of a session *)
Definition nrecv_table_ok s : Prop :=
  (forall i rs, streams s !! i = Some rs -> (recv_cell rs < length (recv_cells s))%nat)
  /\ next_peer_uni s <= u64_max /\ next_peer_bi s <= u64_max.

Lemma nholds_register i s :
  nrecv_table_ok s ->
  (initiator_is_server i = peer_is_server s -> StreamId_counter i < npeer_next s i) ->
  let '(s1, h) := insert_recv_state i s in
  recv_laws (native_side h) i (nholds i (rs_cell h) 0) /\ nholds i (rs_cell h) 0 s1 [] true 0.
Proof.
  intros [Ht Hn] Hu. unfold insert_recv_state. simpl. split; [apply native_recv_laws|].
  set (s' := match streams s !! i with Some old => sender_drop (recv_cell old) s | None => s end).
  assert (length (recv_cells s') = length (recv_cells s)) as Hlen
    by (subst s'; case_match; simpl; rewrite ?length_alter; done).
  assert (streams s' = streams s /\ next_peer_uni s' = next_peer_uni s
    /\ next_peer_bi s' = next_peer_bi s /\ is_server s' = is_server s) as (E1 & E2 & E3 & E4)
    by (subst s'; by case_match).
  constructor; simpl.
  - eexists. rewrite <- Hlen, lookup_app_r, Nat.sub_diag by done. split; [done|]. simpl.
    rewrite view_channel. simpl. split_and!; [done..|]. by constructor.
  - eexists. apply lookup_insert_eq.
  - intros j rs. rewrite E1, length_app, Hlen. simpl.
    intros [[<- <-]|[_ Hj]]%lookup_insert_Some; simpl; [split; [lia|done]|].
    specialize (Ht j rs Hj). split; lia.
  - unfold npeer_next, peer_is_server in *. simpl. by rewrite E2, E3, E4.
  - by rewrite E2, E3.
Qed.

(** C10: on a native session whose frames and reads are handled one after the other,
    the bytes the reads of a stream return are always a prefix of the payload
    accepted for it; no read waits while accepted bytes are left; and once the
    stream has ended, repeating any read returns exactly the rest and then the end,
    after finitely many calls. *)
Theorem native_stream_delivery i s s1 h ops call :
  nrecv_table_ok s ->
  (initiator_is_server i = peer_is_server s -> StreamId_counter i < npeer_next s i) ->
  insert_recv_state i s = (s1, h) -> Forall rop_ok ops -> 0 < rcall_room call ->
  let '(s2, accepted, returned) := deliver (native_side h) i ops s1 in
  exists rest, accepted = returned ++ rest
    /\ (rest <> [] -> (rs_call (native_side h) call s2).2 <> RWait)
    /\ (streams s2 !! i = None ->
         exists calls, forall fuel, (calls <= fuel)%nat -> drain (native_side h) fuel call s2 = Some rest).
Proof.
  intros Ht Hu Hreg Hops Hc. pose proof (nholds_register i s Ht Hu) as Hr. rewrite Hreg in Hr.
  destruct Hr as [Hlaws Hs1].
  pose proof (deliver_exact (native_side h) i _ Hlaws ops s1 _ _ _ Hs1 Hops) as Hd.
  destruct (deliver (native_side h) i ops s1) as [[s2 inp] out].
  destruct Hd as (B & live & n & Hs2 & HB & _). exists B. split_and!; [done|..].
  - intros HneB. pose proof (law_call _ _ _ Hlaws s2 B live n call Hs2 Hc) as Hcall.
    destruct (rs_call (native_side h) call s2) as [s3 []]; [done..| |done]. by destruct Hcall.
  - intros Hend. destruct live; [destruct (nh_entry _ _ _ _ _ _ _ Hs2); congruence|].
    exists (S (length B + n)). intros fuel Hf. eapply drain_complete; [done..|]. lia.
Qed.
End NativeReads.

(** *** A concrete stream *)
Section Demo.
#[local] Existing Instance list_order.

Definition nreads_start : SessionInner cview :=
  SessionInner_new true Limits_default (channel 256) (channel 128) (channel 128).
Definition nreads_id : StreamId := mkStreamId 1.
Definition nreads_s1 : SessionInner cview := (insert_recv_state nreads_id nreads_start).1.
Definition nreads_h : RecvStream := mkRecvStream nreads_id 0.
Definition nreads_ops : list rop :=
  [Peer (Stream nreads_id (as_bytes "hello ") false); Call (CReadChunk 4);
   Peer (OpenUni (mkStreamId 2)); Peer (Stream (mkStreamId 2) (as_bytes "x") false);
   Peer (Stream nreads_id (as_bytes "world") true); Call (CPollRead 3)].

Lemma nreads_table : nrecv_table_ok nreads_start.
Proof.
  split; [|by vm_compute]. intros i rs Hi.
  change (streams nreads_start) with (∅ : gmap StreamId RecvState) in Hi. by rewrite lookup_empty in Hi.
Qed.

Lemma native_stream_delivery_witness :
  (deliver (native_side nreads_h) nreads_id nreads_ops nreads_s1).1.2 = as_bytes "hello world"
  /\ let '(s2, accepted, returned) := deliver (native_side nreads_h) nreads_id nreads_ops nreads_s1 in
     exists rest, accepted = returned ++ rest
       /\ (rest <> [] -> (rs_call (native_side nreads_h) (CRead 2) s2).2 <> RWait)
       /\ (streams s2 !! nreads_id = None ->
            exists calls, forall fuel, (calls <= fuel)%nat ->
              drain (native_side nreads_h) fuel (CRead 2) s2 = Some rest).
Proof.
  split; [vm_compute; reflexivity|].
  apply (native_stream_delivery nreads_id nreads_start nreads_s1 nreads_h nreads_ops (CRead 2)).
  - apply nreads_table.
  - discriminate.
  - vm_compute. reflexivity.
  - repeat constructor.
  - reflexivity.
Defined.
End Demo.
