(* ===== verification/WasmReads.v ===== *)
(** * The browser session: a receive stream is a byte queue

    The receive side of the browser session satisfies the laws of [ByteStream]:
    whatever frames the peer sends on whatever streams, the reads of a stream
    return its payload in order, once, and followed by the end. *)

From S2P Require Import Prelude Buf VarInt Frame Proto Limits SendFlow Channel Async NativeState.
From S2P Require Import NativeOps NativeStream NativeRecv FuturesChannel WasmState WasmOps.
From S2P Require Import WasmStreams WasmSession ByteStream.
Open Scope mux_scope.

Section WasmReads.
Context {fchan : Type -> Type} `{FMpscLaws fchan} `{!MapOrder}.
Implicit Types (s : WasmSession fchan) (i : StreamId) (c : RecvCell fchan).
Abbreviation st := (wst fchan).
Abbreviation cv c := (fview_of (rc_chan c)).

(** Reading runs undisturbed; [poll_read] is given a round per queued event. *)
Definition wasm_side (h : RecvStream) : recv_side (WasmSession fchan) := mkRecvSide
  (fun f s => match wasm_handle_frame f s with (s, r) => (s, is_ok r) end)
  (fun call s =>
     match call with
     | CRead room => match run (wasm_read h room) s with (s, r) => (s, of_read r) end
     | CReadChunk max => match run (wasm_read_chunk h max) s with (s, r) => (s, of_read r) end
     | CPollRead room =>
         match wasm_poll_read h (S (length (fv_buf (cv (w_cell_of s h))))) room s with
         | (s, r) => (s, of_poll (Some r))
         end
     end).

Section Stream.
Context (id : StreamId) (l : nat).

(** The counter above every identifier the peer has used in a direction. *)
Definition peer_next s i : Z :=
  match StreamId_dir i with Uni => w_next_peer_uni s | Bi => w_next_peer_bi s end.

Record wholds s (B : list byte) (live : bool) (n : nat) : Prop := {
  wh_cell : exists c, w_recv_cells s !! l = Some c /\ fv_closed (cv c) = false
    /\ fv_senders (cv c) = Z.b2z live
    /\ cell_holds (rc_pending c) (rc_finished c) (fv_buf (cv c)) B live n;
  wh_entry : if live then exists r, w_streams s !! id = Some (mkRecvState false l r)
             else w_streams s !! id = None;
  wh_alone : forall i rs, w_streams s !! i = Some rs ->
    (recv_cell rs < length (w_recv_cells s))%nat /\ (recv_cell rs = l -> i = id);
  wh_used : initiator_is_server id = true -> StreamId_counter id < peer_next s id;
  wh_next : w_next_peer_uni s <= u64_max /\ w_next_peer_bi s <= u64_max
}.

(** From [s], [m] leaves the bytes of the stream alone and ends with [Post]. *)
Definition rk {A} s (m : st A) (Post : A -> WasmSession fchan -> Prop) : Prop :=
  forall B live n, wholds s B live n ->
    exists live', wholds (m s).1 B live' n /\ (live' = true -> live = true) /\ Post (m s).2 (m s).1.
Definition rany {A} : A -> WasmSession fchan -> Prop := fun _ _ => True.

Lemma rk_bind {A B} s (m : st A) (k : A -> st B) P Q :
  rk s m P -> (forall a s1, P a s1 -> rk s1 (k a) Q) -> rk s (m ≫= k) Q.
Proof.
  intros Hm Hk C live n Hs. destruct (Hm C live n Hs) as (live1 & Hs1 & Hl1 & HP).
  unfold mbind, wst_bind in *. destruct (m s) as [s1 a]. simpl in *.
  destruct (Hk a s1 HP C live1 n Hs1) as (live2 & Hs2 & Hl2 & HQ). exists live2. auto.
Qed.
Lemma rk_ret {A} s (a : A) (Post : A -> WasmSession fchan -> Prop) : Post a s -> rk s (mret a) Post.
Proof. intros HP B live n Hs. by exists live. Qed.
Lemma rk_run {A} s (m : st A) P B live n :
  rk s m P -> wholds s B live n ->
  exists live', wholds (m s).1 B live' n /\ (live' = true -> live = true) /\ P (m s).2 (m s).1.
Proof. auto. Qed.
Lemma rk_mono {A} s (m : st A) (P Q : A -> WasmSession fchan -> Prop) :
  rk s m P -> (forall a s', P a s' -> Q a s') -> rk s m Q.
Proof. intros Hm HPQ B live n Hs. destruct (Hm B live n Hs) as (? & ? & ? & ?). eauto. Qed.

(** Steps outside the receive part. *)
Definition rdata s := (w_streams s, w_recv_cells s, w_next_peer_uni s, w_next_peer_bi s).
Lemma wholds_same s s' B live n : rdata s' = rdata s -> wholds s B live n -> wholds s' B live n.
Proof.
  intros [= E1 E2 E3 E4] []. constructor; unfold peer_next in *; by rewrite ?E1, ?E2, ?E3, ?E4.
Qed.
Lemma rk_outer {A} s (m : st A) : rdata (m s).1 = rdata s -> rk s m (fun _ s' => rdata s' = rdata s).
Proof. intros Hm B live n Hs. exists live. split_and!; [by eapply wholds_same|done..]. Qed.

(** The sender of another stream is dropped; our own entry is removed. *)
Lemma wholds_cell_other s B live n k f :
  k <> l -> wholds s B live n -> wholds (w_on_cell k f s) B live n.
Proof.
  intros Hk [(c & Hc & Hrest) He Ha Hu Hn]. constructor; simpl; try done.
  - exists c. rewrite list_lookup_alter_ne by done. done.
  - intros i rs Hi. rewrite length_alter. auto.
Qed.

Lemma wholds_remove s B live n :
  wholds s B live n -> wholds (wasm_remove_stream id s).1 B false n.
Proof.
  intros Hs. unfold wasm_remove_stream. destruct Hs as [(c & Hc & Hcl & Hsn & Hch) He Ha Hu Hn].
  destruct live.
  - destruct He as [r He]. rewrite He. simpl. constructor; simpl.
    + eexists. rewrite list_lookup_alter_eq, Hc. simpl. split; [done|]. simpl.
      rewrite fview_drop. simpl. rewrite Hsn. split_and!; [done..|by eapply cell_holds_dead].
    + apply lookup_delete_eq.
    + intros i rs [_ Hi]%lookup_delete_Some. rewrite length_alter. auto.
    + done.
    + done.
  - rewrite He. by constructor; [exists c|..].
Qed.

Lemma wholds_remove_other s B live n i :
  i <> id -> wholds s B live n -> wholds (wasm_remove_stream i s).1 B live n.
Proof.
  intros Hi Hs. unfold wasm_remove_stream. destruct (w_streams s !! i) as [rs|] eqn:E; [|done]. simpl.
  apply wholds_cell_other.
  - intros Hl. destruct (wh_alone _ _ _ _ Hs i rs E). auto.
  - destruct Hs as [Hc He Ha Hu Hn]. constructor; simpl; try done.
    + destruct live; by rewrite lookup_delete_ne.
    + intros j rs' [_ Hj]%lookup_delete_Some. auto.
Qed.

Lemma rk_remove_stream s i : rk s (wasm_remove_stream i) rany.
Proof.
  intros B live n Hs. destruct (decide (i = id)) as [->|Hi].
  - exists false. split_and!; [by eapply wholds_remove|done..].
  - exists live. split_and!; [by apply wholds_remove_other|done..].
Qed.

(** Closing the session drops every sender: ours once, if the entry is there. *)
Definition drop_senders (rss : list RecvState) s : WasmSession fchan :=
  foldr (fun rs => w_sender_drop (recv_cell rs)) s rss.

Lemma drop_senders_other rss s :
  w_streams (drop_senders rss s) = w_streams s
  /\ length (w_recv_cells (drop_senders rss s)) = length (w_recv_cells s)
  /\ w_next_peer_uni (drop_senders rss s) = w_next_peer_uni s
  /\ w_next_peer_bi (drop_senders rss s) = w_next_peer_bi s.
Proof.
  induction rss as [|rs rss (IH1 & IH2 & IH3 & IH4)]; [done|]. simpl.
  split_and!; [done|by rewrite length_alter|done..].
Qed.

Lemma drop_senders_cell rss s c :
  w_recv_cells s !! l = Some c ->
  exists c', w_recv_cells (drop_senders rss s) !! l = Some c'
    /\ rc_pending c' = rc_pending c /\ rc_finished c' = rc_finished c
    /\ cv c' = fv_set_senders (fv_senders (cv c) - Z.of_nat (length (drops l rss))) (cv c).
Proof.
  intros Hc. induction rss as [|rs rss (c' & Hc' & Hp & Hf & Hv)].
  { exists c. split_and!; [done..|]. simpl. rewrite Z.sub_0_r. by destruct (cv c). }
  unfold drops. rewrite filter_cons. simpl. case_decide as Hrs.
  - eexists. rewrite Hrs, list_lookup_alter_eq, Hc'. simpl.
    split_and!; [done..|]. simpl. rewrite fview_drop, Hv. unfold fv_set_senders. simpl. f_equal.
    unfold drops. lia.
  - exists c'. rewrite list_lookup_alter_ne by done. done.
Qed.

Lemma wh_alone' s B live n : wholds s B live n ->
  forall i rs, w_streams s !! i = Some rs -> recv_cell rs = l -> i = id.
Proof. intros Hs i rs Hi. by destruct (wh_alone _ _ _ _ Hs i rs Hi). Qed.

Lemma wholds_clear s B live n : wholds s B live n -> wholds (w_clear_streams s) B false n.
Proof.
  intros Hs. pose proof (drops_entries _ _ _ _ (wh_entry _ _ _ _ Hs) (wh_alone' _ _ _ _ Hs)) as Hd. unfold w_clear_streams.
  fold (drop_senders (map_to_list (w_streams s)).*2 s). set (rss := (map_to_list (w_streams s)).*2) in *.
  destruct (drop_senders_other rss s) as (E1 & E2 & E3 & E4). destruct Hs as [(c & Hc & Hcl & Hsn & Hch) He Ha Hu Hn].
  destruct (drop_senders_cell rss s c Hc) as (c' & Hc' & Hp & Hf & Hv). constructor; simpl.
  - exists c'. rewrite Hp, Hf, Hv. simpl. split_and!; [done..|destruct live; simpl in *; lia|].
    by eapply cell_holds_dead.
  - apply lookup_empty.
  - intros i rs. by rewrite lookup_empty.
  - unfold peer_next in *. simpl. by rewrite E3, E4.
  - by rewrite E3, E4.
Qed.
(** ** Frames about other streams *)
Lemma rdata_clear_flows s : rdata (w_clear_send_flows s) = rdata s.
Proof.
  unfold w_clear_send_flows. set (ls := (map_to_list _).*2). clearbody ls.
  enough (E : rdata (foldr (fun k => w_on_flow k wasm_flow_close) s ls) = rdata s) by exact E.
  induction ls as [|k ls IH]; [done|exact IH].
Qed.
Lemma rdata_take_accept s : rdata (w_take_accept_bi (w_take_accept_uni s)) = rdata s.
Proof. unfold w_take_accept_bi, w_take_accept_uni. by repeat case_match. Qed.

Lemma rk_close_all s : rk s wasm_close_all rany.
Proof.
  intros B live n Hs. unfold wasm_close_all, wmod. simpl. destruct (w_closed s).
  { by exists live. }
  exists false. split_and!; [|done..]. eapply wholds_same; [apply rdata_take_accept|].
  eapply wholds_same; [apply rdata_clear_flows|]. eapply wholds_clear. by eapply wholds_same; [|exact Hs].
Qed.

Lemma rdata_try_send f s : rdata (wasm_try_send_frame f s).1 = rdata s.
Proof. unfold wasm_try_send_frame. by destruct (f_try_send _ _ _) as [[] ?]. Qed.
Lemma rdata_shutdown s : rdata (wasm_request_shutdown s).1 = rdata s.
Proof. unfold wasm_request_shutdown, wmod. simpl. by case_match. Qed.
Lemma rdata_remove_flow i s : rdata (wasm_remove_send_flow i s).1 = rdata s.
Proof. unfold wasm_remove_send_flow. by case_match. Qed.
Lemma rdata_bind {A B} (m : st A) (k : A -> st B) s :
  (forall s, rdata (m s).1 = rdata s) -> (forall a s, rdata (k a s).1 = rdata s) ->
  rdata ((m ≫= k) s).1 = rdata s.
Proof.
  intros Hm Hk. unfold mbind, wst_bind. specialize (Hm s). destruct (m s) as [s1 a]. by rewrite Hk.
Qed.
Lemma rdata_send_drop h s : rdata (wasm_SendStream_drop h s).1 = rdata s.
Proof.
  unfold wasm_SendStream_drop. apply rdata_bind; [done|]. intros last s1.
  apply rdata_bind; [intros s2|intros _ s2; by repeat (apply rdata_bind; [done|intros])].
  destruct last; [|done]. apply rdata_bind; [apply rdata_remove_flow|]. intros _ s3.
  apply rdata_bind; [done|]. intros f s4. destruct f; [done|].
  apply rdata_bind; [apply rdata_try_send|]. intros r s5. destruct (is_ok r); [done|]. apply rdata_shutdown.
Qed.
Lemma rdata_new_send i fl s : rdata (wasm_SendStream_new i fl s).1 = rdata s.
Proof.
  unfold wasm_SendStream_new, w_outbound_clone, w_new_local, wop, mbind, wst_bind.
  by destruct (f_clone _) as [? ?].
Qed.

Lemma rk_protocol_error s code reason :
  rk s (wasm_protocol_error code reason) (fun r _ => is_ok r = false).
Proof.
  eapply rk_bind; [apply rk_outer, rdata_try_send|]. intros _ s1 _.
  eapply rk_bind; [apply rk_close_all|]. intros _ s2 _. by apply rk_ret.
Qed.

(** A receive handle of another stream is dropped. *)
Lemma rk_stop_other s i : i <> id -> rk s (wasm_stop_recv_stream i) rany.
Proof.
  intros Hi B live n Hs. exists live. split_and!; [|done..]. unfold wasm_stop_recv_stream.
  destruct (w_streams s !! i) as [rs|] eqn:E; [|done]. simpl. destruct Hs as [Hc He Ha Hu Hn].
  constructor; simpl; try done.
  - destruct live; by rewrite lookup_insert_ne.
  - intros j rs' [[<- <-]|[_ Hj]]%lookup_insert_Some; simpl; eauto.
Qed.

Lemma rk_mod_other s k f : k <> l -> rk s (wmod (w_on_cell k f)) rany.
Proof. intros Hk B live n Hs. exists live. split_and!; [by apply wholds_cell_other|done..]. Qed.
Lemma rk_with_other {A} s h (f : RecvCell fchan -> RecvCell fchan * A) :
  rs_cell h <> l -> rk s (w_with_cell h f) rany.
Proof. intros Hk B live n Hs. exists live. split_and!; [by apply wholds_cell_other|done..]. Qed.

Lemma rk_recv_drop s h : rs_id h <> id -> rs_cell h <> l -> rk s (wasm_RecvStream_drop h) rany.
Proof.
  intros Hid Hl. unfold wasm_RecvStream_drop.
  eapply rk_bind; [by apply rk_stop_other|]. intros needs s1 _.
  eapply rk_bind; [by apply rk_outer|]. intros f s2 _.
  eapply (rk_bind _ _ _ rany); [|intros _ s3 _; by apply rk_mod_other].
  destruct (needs && negb f); [|by apply rk_ret].
  eapply rk_bind; [by apply rk_with_other|].
  intros already s3 _. destruct already; [by apply rk_ret|].
  eapply rk_bind; [apply rk_outer, rdata_try_send|]. intros r s4 _.
  destruct (is_ok r); [by apply rk_ret|]. eapply rk_mono; [apply rk_outer, rdata_shutdown|done].
Qed.

(** The peer cannot open our stream again. *)
Lemma rk_validate s i :
  initiator_is_server i = true ->
  rk s (wasm_validate_peer_stream_id i) (fun valid _ => valid = true -> i <> id).
Proof.
  intros Hi B live n Hs. exists live. pose proof (wh_used _ _ _ _ Hs) as Hu.
  destruct (wh_next _ _ _ _ Hs). unfold wasm_validate_peer_stream_id, peer_next in *.
  destruct (StreamId_dir i) eqn:Ed; destruct (StreamId_counter i <? _) eqn:Elt; simpl;
    (split_and!; [|done|intros ? ->; rewrite ?Ed in *; by (specialize (Hu Hi); lia)]); try done.
  all: destruct Hs; constructor; simpl; try done; unfold peer_next, saturating_add64 in *; simpl;
    [intros Hid; specialize (Hu Hid); case_match; lia|lia].
Qed.

Lemma rk_register s i :
  i <> id ->
  rk s (w_register_inbound i) (fun r _ => forall h, r = Ok h -> rs_id h <> id /\ rs_cell h <> l).
Proof.
  intros Hi B live n Hs. exists live. unfold w_register_inbound.
  destruct (_ <=? _); [done|]. destruct (w_streams s !! i) eqn:E; [done|].
  unfold wasm_register_recv_stream. rewrite E. simpl. destruct Hs as [(c & Hc & Hrest) He Ha Hu Hn].
  pose proof (lookup_lt_Some _ _ _ Hc). split_and!; [|done|intros h [= <-]; simpl; split; [done|lia]].
  constructor; simpl; try done.
  - exists c. by rewrite lookup_app_l.
  - destruct live; by rewrite lookup_insert_ne.
  - intros j rs. rewrite length_app. simpl.
    intros [[<- <-]|[_ Hj]]%lookup_insert_Some; simpl; [lia|]. destruct (Ha j rs Hj). split; [lia|done].
Qed.

Lemma rk_deliver_uni s h : rs_id h <> id -> rs_cell h <> l -> rk s (w_deliver_uni h) rany.
Proof.
  intros Hid Hl B live n Hs. unfold w_deliver_uni.
  destruct (w_accept_uni_tx s) as [k|]; [destruct (f_try_send k h _) as [[] ch]|].
  - exists live. split_and!; [by eapply wholds_same; [|exact Hs]|done..].
  - eapply rk_run; [|by eapply wholds_same; [|exact Hs]].
    eapply rk_bind; [apply rk_protocol_error|]. intros r s1 _.
    eapply rk_bind; [by apply rk_recv_drop|]. intros _ s2 _. by apply rk_ret.
  - eapply rk_run; [|by eapply wholds_same; [|exact Hs]].
    eapply rk_bind; [by apply rk_recv_drop|]. intros _ s2 _. by apply rk_ret.
  - eapply rk_run; [|exact Hs].
    eapply rk_bind; [by apply rk_recv_drop|]. intros _ s2 _. by apply rk_ret.
Qed.

Lemma rk_drop_pair s p : rs_id p.2 <> id -> rs_cell p.2 <> l -> rk s (wasm_drop_pair p) rany.
Proof.
  intros Hid Hl. eapply rk_bind; [apply rk_outer, rdata_send_drop|]. intros _ s1 _. by apply rk_recv_drop.
Qed.

Lemma rk_deliver_bi s p : rs_id p.2 <> id -> rs_cell p.2 <> l -> rk s (w_deliver_bi p) rany.
Proof.
  intros Hid Hl B live n Hs. unfold w_deliver_bi.
  destruct (w_accept_bi_tx s) as [k|]; [destruct (f_try_send k p _) as [[] ch]|].
  - exists live. split_and!; [by eapply wholds_same; [|exact Hs]|done..].
  - eapply rk_run; [|by eapply wholds_same; [|exact Hs]].
    eapply rk_bind; [apply rk_protocol_error|]. intros r s1 _.
    eapply rk_bind; [by apply rk_drop_pair|]. intros _ s2 _. by apply rk_ret.
  - eapply rk_run; [|by eapply wholds_same; [|exact Hs]].
    eapply rk_bind; [by apply rk_drop_pair|]. intros _ s2 _. by apply rk_ret.
  - eapply rk_run; [|exact Hs].
    eapply rk_bind; [by apply rk_drop_pair|]. intros _ s2 _. by apply rk_ret.
Qed.

Lemma rk_error s code reason : rk s (wasm_protocol_error code reason) rany.
Proof. eapply rk_mono; [apply rk_protocol_error|done]. Qed.

Lemma rk_initial_credit s i : rk s (w_initial_credit i) rany.
Proof.
  eapply rk_mono; [apply rk_outer|done]. unfold w_initial_credit.
  pose proof (rdata_try_send (MaxStreamData i (initial_stream_window (w_limits s))) s).
  by destruct (wasm_try_send_frame _ s).
Qed.

Lemma rk_open_uni s i : rk s (wasm_handle_open_uni i) rany.
Proof.
  unfold wasm_handle_open_uni. case_match; [apply rk_error|].
  destruct (initiator_is_server i) eqn:Ei; simpl; [|apply rk_error].
  eapply rk_bind; [by apply rk_validate|]. intros [] s1 Hv; simpl; [|apply rk_error].
  eapply rk_bind; [by apply rk_register, Hv|]. intros [h|[code reason]|] s2 Hh;
    [|apply rk_error|by apply rk_ret]. destruct (Hh h eq_refl).
  eapply rk_bind; [apply rk_initial_credit|]. intros _ s3 _. by apply rk_deliver_uni.
Qed.

Lemma rk_open_bi s i : rk s (wasm_handle_open_bi i) rany.
Proof.
  unfold wasm_handle_open_bi. case_match; [apply rk_error|].
  destruct (initiator_is_server i) eqn:Ei; simpl; [|apply rk_error].
  eapply rk_bind; [by apply rk_validate|]. intros [] s1 Hv; simpl; [|apply rk_error].
  eapply rk_bind; [by apply rk_register, Hv|]. intros [h|[code reason]|] s2 Hh;
    [|apply rk_error|by apply rk_ret]. destruct (Hh h eq_refl).
  eapply rk_bind; [apply rk_initial_credit|]. intros _ s3 _.
  eapply rk_bind; [apply rk_outer; unfold wasm_register_send_flow; by repeat case_match|].
  intros [fl|err|] s4 _.
  - eapply rk_bind; [apply rk_outer, rdata_new_send|]. intros h' s5 _. by apply rk_deliver_bi.
  - eapply rk_bind; [apply rk_error|]. intros r s5 _.
    eapply rk_bind; [by apply rk_recv_drop|]. intros _ s6 _. by apply rk_ret.
  - by apply rk_ret.
Qed.

(** Data for another stream. *)
Lemma rk_stream_other s i data fin : i <> id -> rk s (w_stream_data i data fin) rany.
Proof.
  intros Hi B live n Hs. unfold w_stream_data. destruct (w_streams s !! i) as [rs|] eqn:E; [|by exists live].
  destruct (checked_add64 _ _) as [r|]; [|by exists live]. destruct (_ <? _); [by exists live|].
  assert (Hrs : recv_cell rs <> l) by (intros Hl; destruct (wh_alone _ _ _ _ Hs i rs E); auto).
  eapply rk_run; [|exact Hs].
  eapply (rk_bind _ _ _ rany).
  { intros B' live' n' Hs'. exists live'. split_and!; [|done..]. simpl. destruct Hs' as [Hc He Ha Hu Hn].
    constructor; simpl; try done.
    - destruct live'; by rewrite lookup_insert_ne.
    - intros j rs' [[<- <-]|[_ Hj]]%lookup_insert_Some; simpl; eauto. }
  intros _ s1 _. eapply (rk_bind _ _ _ rany).
  { destruct (stopped rs); [by apply rk_ret|]. eapply (rk_bind _ _ _ rany); [|by intros; apply rk_ret].
    intros B' live' n' Hs'. exists live'. split_and!; [|done..]. unfold w_try_send_event.
    destruct (f_try_send _ _ _). by apply wholds_cell_other. }
  intros overflow s2 _. eapply (rk_bind _ _ _ rany); [|by intros; apply rk_ret].
  destruct fin; [apply rk_remove_stream|by apply rk_ret].
Qed.

(** Our own data: queued, or refused without a trace. *)
Lemma w_own_event s B n r (e : RecvEvent) :
  wholds s B true n ->
  let s1 := set_w_streams (<[id := mkRecvState false l r]> (w_streams s)) s in
  let '(s2, res) := w_try_send_event l e s1 in
  match res with
  | SendOk => wholds (if ev_fin e then (wasm_remove_stream id s2).1 else s2)
                (B ++ ev_data e) (negb (ev_fin e)) (n + 1)
  | SendFull => wholds s2 B true n
  | SendClosed => False
  end.
Proof.
  intros [(c & Hc & Hcl & Hsn & Hch) [r0 He] Ha Hu Hn] s1.
  unfold w_try_send_event, w_cell_of. simpl. rewrite Hc. simpl.
  pose proof (fview_try_send _ 0%nat e (rc_chan c)) as Hv.
  pose proof (try_send_gone _ 0%nat e (rc_chan c)) as Hclosed.
  assert (Halone : forall j rs, <[id:=mkRecvState false l r]> (w_streams s) !! j = Some rs ->
    (recv_cell rs < length (w_recv_cells s))%nat /\ (recv_cell rs = l -> j = id)).
  { intros j rs [[<- <-]|[_ Hj]]%lookup_insert_Some; simpl; [|eauto]. by apply lookup_lt_Some in Hc. }
  destruct (f_try_send 0 e (rc_chan c)) as [[] ch] eqn:Et; simpl in *.
  - destruct (ch_open _ _ _ _ _ _ Hch eq_refl) as [Hf _]. rewrite Hf in Hch.
    pose proof (cell_holds_push _ _ _ _ e Hch) as Hpush. destruct (ev_fin e) eqn:Efin; simpl in *.
    + unfold wasm_remove_stream. simpl. rewrite lookup_insert_eq. simpl. constructor; simpl; try done.
      * eexists. rewrite !list_lookup_alter_eq, Hc. simpl. split; [done|]. simpl.
        rewrite fview_drop, Hv, Hf. simpl. rewrite Hsn. done.
      * apply lookup_delete_eq.
      * intros j rs [_ Hj]%lookup_delete_Some. rewrite !length_alter. auto.
    + constructor; simpl; try done.
      * eexists. rewrite list_lookup_alter_eq, Hc. split; [done|]. simpl. by rewrite Hv, Hf.
      * eexists. apply lookup_insert_eq.
      * intros j rs. rewrite length_alter. auto.
  - constructor; simpl; try done.
    + eexists. rewrite list_lookup_alter_eq, Hc. split; [done|]. simpl. by rewrite Hv.
    + eexists. apply lookup_insert_eq.
    + intros j rs. rewrite length_alter. auto.
  - rewrite Hclosed in Hcl by done. done.
Qed.

Lemma own_stream_data s B live n data fin :
  wholds s B live n ->
  match w_stream_data id data fin s with
  | (s', Ok overflow) =>
      if overflow : bool then exists live', wholds s' B live' n /\ (live' = true -> live = true)
      else live = true /\ wholds s' (B ++ data) (negb fin) (n + 1)
  | (s', Err _) => s' = s
  | (_, Panic) => False
  end.
Proof.
  intros Hs. unfold w_stream_data. pose proof (wh_entry _ _ _ _ Hs) as He.
  destruct live; [destruct He as [r0 He]|]; rewrite He; [|done].
  destruct (checked_add64 _ _) as [r|]; [|done]. simpl. destruct (_ <? _); [done|].
  pose proof (w_own_event s B n r (mkRecvEvent data fin) Hs) as Hev. cbv zeta in Hev.
  unfold mbind, wst_bind, mret, wst_ret, wmod.
  destruct (w_try_send_event l _ _) as [s2 []]; simpl in Hev; [| |done].
  - destruct fin; simpl; [|done]. by destruct (wasm_remove_stream id s2).
  - destruct fin; simpl; [|by exists true].
    pose proof (wholds_remove _ _ _ _ Hev). destruct (wasm_remove_stream id s2). by exists false.
Qed.

(** ** The law of frames *)
Definition frame_law (f : Frame) s : Prop := forall B live n, wholds s B live n ->
  let '(s', r) := wasm_handle_frame f s in
  exists live' n', wholds s' (B ++ if is_ok r then payload_for id f else []) live' n'
    /\ (live' = true -> live = true) /\ (is_ok r = true -> ends id f -> live' = false).

Lemma frame_law_rk f s :
  payload_for id f = [] -> ~ ends id f -> rk s (wasm_handle_frame f) rany -> frame_law f s.
Proof.
  intros Hp He Hf B live n Hs. destruct (Hf B live n Hs) as (live' & Hs' & Hl & _).
  destruct (wasm_handle_frame f s) as [s' r]. exists live', n. rewrite Hp.
  replace (if is_ok r then [] else []) with (@nil byte) by (by destruct r). by rewrite app_nil_r.
Qed.

Lemma frame_law_error f s code reason :
  wasm_handle_frame f s = wasm_protocol_error code reason s -> frame_law f s.
Proof.
  intros Hf B live n Hs. rewrite Hf. destruct (rk_protocol_error s code reason B live n Hs) as (live' & Hs' & Hl & Hr).
  destruct (wasm_protocol_error code reason s) as [s' r]. simpl in *. exists live', n.
  rewrite Hr, app_nil_r. done.
Qed.

Lemma frame_law_stream i data fin s : frame_law (Stream i data fin) s.
Proof.
  simpl. destruct (max_stream_data_per_frame (w_limits s) <? blen data) eqn:El.
  { eapply frame_law_error. simpl. unfold wasm_handle_stream. by rewrite El. }
  destruct (decide (i = id)) as [->|Hi].
  - intros B live n Hs. simpl. unfold wasm_handle_stream. rewrite El, decide_True by done.
    pose proof (own_stream_data s B live n data fin Hs) as Hd. unfold mbind, wst_bind.
    destruct (w_stream_data id data fin s) as [s1 [[]|reason|]]; [| | |done].
    + destruct Hd as (live1 & Hs1 & Hl1). destruct (rk_protocol_error s1 3 "receive queue full" B live1 n Hs1)
        as (live2 & Hs2 & Hl2 & Hr). destruct (wasm_protocol_error _ _ s1) as [s2 r]. simpl in *.
      exists live2, n. rewrite Hr, app_nil_r. split_and!; [done|auto|done].
    + destruct Hd as [-> Hs1]. exists (negb fin), (n + 1)%nat. simpl. split_and!; [done..|].
      intros _ Hends. by destruct fin.
    + subst s1. destruct (rk_protocol_error s 2 reason B live n Hs)
        as (live2 & Hs2 & Hl2 & Hr). destruct (wasm_protocol_error _ _ s) as [s2 r]. simpl in *.
      exists live2, n. rewrite Hr, app_nil_r. split_and!; [done|auto|done].
  - apply frame_law_rk; simpl; [by rewrite decide_False|destruct fin; tauto|].
    unfold wasm_handle_stream. intros B live n Hs. rewrite El. eapply rk_run; [|exact Hs].
    eapply rk_bind; [by apply rk_stream_other|]. intros [[]|reason|] s1 _;
      [apply rk_error|by apply rk_ret|apply rk_error|by apply rk_ret].
Qed.

Lemma frame_law_reset i code s : frame_law (ResetStream i code) s.
Proof.
  destruct (decide (i = id)) as [->|Hi].
  - intros B live n Hs. simpl. unfold wasm_handle_reset_stream, mbind, wst_bind, wget.
    apply wholds_remove in Hs. destruct (wasm_remove_stream id s) as [s1 removed]. simpl in Hs.
    destruct (removed || _); simpl.
    { exists false, n. by rewrite app_nil_r. }
    destruct (rk_error s1 1 "reset on unknown stream" B false n Hs) as (live' & Hs' & Hl & _).
    destruct (wasm_protocol_error _ _ s1) as [s2 r]. exists live', n.
    replace (if is_ok r then [] else []) with (@nil byte) by (by destruct r).
    rewrite app_nil_r. destruct live'; [by specialize (Hl eq_refl)|done].
  - apply frame_law_rk; [done..|]. simpl. unfold wasm_handle_reset_stream.
    eapply rk_bind; [apply rk_remove_stream|]. intros removed s1 _.
    eapply rk_bind; [by apply rk_outer|]. intros retired s2 _.
    destruct (removed || retired); [by apply rk_ret|apply rk_error].
Qed.

Lemma wasm_frame_law f s : frame_law f s.
Proof.
  destruct f as [i|i|i data fin|i code|i code|i max|code reason].
  - apply frame_law_rk; [done|by intros []|apply rk_open_uni].
  - apply frame_law_rk; [done|by intros []|apply rk_open_bi].
  - apply frame_law_stream.
  - apply frame_law_reset.
  - apply frame_law_rk; [done|by intros []|]. simpl. unfold wasm_handle_stop_sending.
    eapply rk_bind; [apply rk_outer, rdata_remove_flow|]. intros [] s1 _.
    + eapply rk_mono; [apply rk_outer, rdata_try_send|done].
    + eapply rk_bind; [by apply rk_outer|]. intros [] s2 _; [by apply rk_ret|apply rk_error].
  - apply frame_law_rk; [done|by intros []|]. simpl. unfold wasm_handle_max_stream_data.
    eapply rk_bind; [apply rk_outer; simpl; by case_match|]. intros _ s1 _. by apply rk_ret.
  - apply frame_law_rk; [done|by intros []|]. simpl.
    eapply rk_bind; [apply rk_close_all|]. intros _ s1 _. by apply rk_ret.
Qed.

(** ** The law of reads *)
Abbreviation h := (mkRecvStream id l).

Lemma own_cell s B live n :
  wholds s B live n -> w_recv_cells s !! l = Some (w_cell_of s h)
  /\ fv_closed (cv (w_cell_of s h)) = false /\ fv_senders (cv (w_cell_of s h)) = Z.b2z live
  /\ cell_holds (rc_pending (w_cell_of s h)) (rc_finished (w_cell_of s h))
       (fv_buf (cv (w_cell_of s h))) B live n.
Proof. intros [(c & Hc & ?) _ _ _ _]. unfold w_cell_of. simpl. by rewrite Hc. Qed.

Lemma own_update s f : is_Some (w_recv_cells s !! l) -> w_cell_of (w_on_cell l f s) h = f (w_cell_of s h).
Proof. intros [c Hc]. unfold w_cell_of. simpl. by rewrite list_lookup_alter_eq, Hc. Qed.

(** Our cell is updated within the contract. *)
Lemma wholds_own s B live n f B' n' :
  wholds s B live n ->
  (let c := w_cell_of s h in
   fv_closed (cv (f c)) = fv_closed (cv c) /\ fv_senders (cv (f c)) = fv_senders (cv c)
   /\ cell_holds (rc_pending (f c)) (rc_finished (f c)) (fv_buf (cv (f c))) B' live n') ->
  wholds (w_on_cell l f s) B' live n'.
Proof.
  intros Hs (Hcl & Hsn & Hch). destruct (own_cell _ _ _ _ Hs) as (Hc & Hcl' & Hsn' & _).
  destruct Hs as [_ He Ha Hu Hn]. constructor; simpl; try done.
  - eexists. rewrite list_lookup_alter_eq, Hc. simpl. split; [done|]. by rewrite Hcl, Hsn.
  - intros j rs. rewrite length_alter. auto.
Qed.

Lemma consume_same n c :
  rc_pending (consume n c).1 = rc_pending c /\ rc_finished (consume n c).1 = rc_finished c
  /\ rc_chan (consume n c).1 = rc_chan c.
Proof. unfold consume. by repeat case_match. Qed.

(** Accounting for consumed bytes keeps the contents. *)
Lemma own_consumed s B live n k :
  wholds s B live n -> wholds (wasm_on_bytes_consumed h k s).1 B live n.
Proof.
  intros Hs. unfold wasm_on_bytes_consumed, mbind, wst_bind, w_with_cell. simpl.
  assert (Hs1 : wholds (w_on_cell l (fun c => (consume k c).1) s) B live n).
  { eapply wholds_own; [done|]. simpl. destruct (own_cell _ _ _ _ Hs) as (_ & _ & _ & Hch).
    destruct (consume_same k (w_cell_of s h)) as (-> & -> & ->). done. }
  destruct (consume k (w_cell_of s h)).2 as [target|]; [|done].
  eapply wholds_same; [|exact Hs1]. unfold wasm_queue_credit. repeat case_match; try done.
  by rewrite rdata_shutdown.
Qed.

Lemma own_set_pending s B live n p :
  wholds s B live n -> rc_pending (w_cell_of s h) = [] ->
  wholds (w_on_cell l (set_rc_pending p) s) (p ++ B) live n.
Proof.
  intros Hs Hp. eapply wholds_own; [done|]. destruct (own_cell _ _ _ _ Hs) as (_ & _ & _ & [-> -> ? ? ?]).
  rewrite Hp in *. by split_and!; [..|constructor].
Qed.

(** Copy out of the pending bytes. *)
Lemma own_deliver s B live n room :
  wholds s B live n ->
  let '(s', out) := w_deliver_pending h room s in
  out = take (Z.to_nat (Z.min room (blen (rc_pending (w_cell_of s h))))) (rc_pending (w_cell_of s h))
  /\ exists B', B = out ++ B' /\ wholds s' B' live n.
Proof.
  intros Hs. unfold w_deliver_pending, mbind, wst_bind, w_with_cell, take_pending. simpl.
  set (k := Z.to_nat _). destruct (own_cell _ _ _ _ Hs) as (_ & _ & _ & Hch).
  destruct (cell_holds_take _ _ _ _ _ _ k Hch) as [HB Hch'].
  assert (Hs1 : wholds (w_on_cell l (fun c =>
    set_rc_pending (drop (Z.to_nat (Z.min room (blen (rc_pending c)))) (rc_pending c)) c) s)
    (drop k (rc_pending (w_cell_of s h)) ++ evs_bytes (fv_buf (cv (w_cell_of s h)))) live n)
    by (eapply wholds_own; done).
  apply (own_consumed _ _ _ _ (blen (take k (rc_pending (w_cell_of s h))))) in Hs1.
  destruct (wasm_on_bytes_consumed h _ _) as [s2 []]. split; [done|]. eexists. split; [exact HB|done].
Qed.

(** The next event, when nothing is pending and FIN was not read. *)
Lemma own_next s B live n :
  wholds s B live n -> rc_pending (w_cell_of s h) = [] -> rc_finished (w_cell_of s h) = false ->
  match w_poll_next h s with
  | (s1, Ready (Some e)) => exists B1, B = ev_data e ++ B1 /\ (0 < n)%nat
      /\ (ev_fin e = true -> B1 = [] /\ live = false)
      /\ wholds (w_on_fin h e s1).1 B1 live (n - 1)
      /\ rc_pending (w_cell_of (w_on_fin h e s1).1 h) = []
      /\ rc_finished (w_cell_of (w_on_fin h e s1).1 h) = ev_fin e
  | (s1, Ready None) => B = [] /\ live = false /\ wholds (w_set_finished h s1).1 [] false 0
  | (s1, Pending) => B = [] /\ live = true /\ wholds s1 [] true n
  end.
Proof.
  intros Hs Hp Hf. destruct (own_cell _ _ _ _ Hs) as (Hc & Hcl & Hsn & Hch). rewrite Hp, Hf in Hch.
  unfold w_poll_next. remember (w_cell_of s h) as c eqn:Ec.
  pose proof (f_next_res _ (rc_chan c)) as Hr. pose proof (fview_next _ (rc_chan c)) as Hv.
  unfold fv_next in Hr, Hv. destruct (f_next (rc_chan c)) as [r ch]. simpl in Hr, Hv.
  set (s1 := w_on_cell l (set_rc_chan ch) s).
  assert (Hc1 : w_cell_of s1 h = set_rc_chan ch c) by (subst c; apply own_update; eauto).
  assert (Hc1' : is_Some (w_recv_cells s1 !! l)) by (simpl; rewrite list_lookup_alter_eq, Hc; eauto).
  destruct (fv_buf (cv c)) as [|e q] eqn:Eq; simpl in Hr, Hv.
  - assert (Hs1 : wholds s1 [] live 0).
    { eapply wholds_own; [done|]. rewrite <- Ec. simpl. rewrite Hv, Eq, Hp, Hf.
      by destruct Hch; split_and!; [..|constructor]. }
    destruct Hch as [-> -> _ _ _]. rewrite Hcl, Hsn in Hr. destruct live; simpl in Hr; subst r; [done|].
    split_and!; [done..|]. change (wholds (w_on_cell l (set_rc_finished true) s1) [] false 0).
    eapply wholds_own; [exact Hs1|]. rewrite Hc1. simpl. rewrite Hv, Eq, Hp.
    by split_and!; [..|constructor].
  - destruct r as [e'| |]; [injection Hr as ->|done..].
    destruct (cell_holds_pop _ _ _ _ _ _ (length (ev_data e)) Hch) as (-> & _ & Hfin & Hch').
    rewrite firstn_all, drop_all in *. simpl in *. destruct Hch as [_ -> _ _ _].
    replace (length (e :: q) - 1)%nat with (length q) in * by (simpl; lia).
    assert (Hs1 : wholds s1 (evs_bytes q) live (length q)).
    { eapply wholds_own; [done|]. rewrite <- Ec. simpl. rewrite Hv, Hp, Hf. split_and!; [done..|].
      destruct Hch' as [? ? Hopen ? ?]. constructor; try done. intros Hl. by destruct (Hopen Hl). }
    assert (Hq : ev_fin e = true -> q = []) by (by destruct Hch').
    exists (evs_bytes q). split_and!; [done|simpl; lia|intros He; rewrite Hq by done; auto|..];
      unfold w_on_fin; destruct (ev_fin e) eqn:Efin; simpl; rewrite ?own_update, ?Hc1, <- ?Ec; try done.
    eapply (wholds_own s1); [exact Hs1|]. rewrite Hc1. simpl. by rewrite Hv, Hp.
Qed.

(** Delivering pending bytes is a read of them. *)
Lemma law_deliver s B live n room :
  wholds s B live n -> 0 < room ->
  let '(s', out) := w_deliver_pending h room s in
  exists B', B = out ++ B' /\ wholds s' B' live n /\ blen out <= room
    /\ (rc_pending (w_cell_of s h) <> [] -> out <> []).
Proof.
  intros Hs Hroom. pose proof (own_deliver s B live n room Hs) as Hd.
  destruct (w_deliver_pending h room s) as [s' out]. destruct Hd as [Hout (B' & -> & Hs')].
  exists B'. split_and!; [done..| |].
  - rewrite Hout. apply blen_take_le; [lia|]. unfold blen. lia.
  - intros Hp. rewrite Hout. apply take_nonempty; [|done]. destruct (rc_pending _); [done|].
    unfold blen. simpl. lia.
Qed.

(** Nothing pending and FIN read: the end. *)
Lemma law_finished s B live n :
  wholds s B live n -> rc_pending (w_cell_of s h) = [] -> rc_finished (w_cell_of s h) = true ->
  B = [] /\ live = false /\ exists n', wholds s [] false n'.
Proof.
  intros Hs Hp Hf. destruct (own_cell _ _ _ _ Hs) as (_ & _ & _ & [HB Hn Hopen Hdone _]).
  rewrite Hp, Hf in *. rewrite (Hdone eq_refl) in HB. simpl in HB. subst B.
  destruct live; [by destruct (Hopen eq_refl)|]. eauto.
Qed.

Lemma read_law room s B live n :
  wholds s B live n -> 0 < room -> call_law wholds room B live n (rs_call (wasm_side h) (CRead room) s).
Proof.
  intros Hs Hroom. simpl. unfold wasm_read. rewrite (proj2 (Z.eqb_neq room 0)) by lia. simpl.
  destruct (bool_decide_reflect (rc_pending (w_cell_of s h) = [])) as [Hp|Hp].
  - destruct (rc_finished (w_cell_of s h)) eqn:Hf; [by eapply law_finished|].
    pose proof (own_next s B live n Hs Hp Hf) as Hn. simpl.
    destruct (w_poll_next h s) as [s1 [[e|]|]]; simpl in *.
    + destruct Hn as (B1 & -> & Hpos & Hfin & Hs2 & Hp2 & _). unfold w_chunk_of_event, mbind, wst_bind.
      destruct (w_on_fin h e s1) as [s2 []]. simpl in *.
      destruct (bool_decide (ev_data e = []) && ev_fin e) eqn:Ee; simpl.
      * apply andb_true_iff in Ee as [->%bool_decide_eq_true Ef]. destruct (Hfin Ef) as [-> ->]. eauto.
      * apply (own_set_pending _ _ _ _ (ev_data e)) in Hs2; [|done].
        pose proof (law_deliver _ _ _ _ room Hs2 Hroom) as Hd.
        destruct (w_deliver_pending h room _) as [s3 out]. destruct Hd as (B' & HB & Hs3 & Hlen & _).
        simpl. exists B', (n - 1)%nat. split_and!; [done..|]. rewrite HB, length_app. lia.
    + destruct Hn as (-> & -> & Hs2). unfold w_chunk_of_event, mbind, wst_bind.
      destruct (w_set_finished h s1). simpl. eauto.
    + destruct Hn as (-> & -> & _). eauto.
  - pose proof (law_deliver _ _ _ _ room Hs Hroom) as Hd. simpl.
    destruct (w_deliver_pending h room s) as [s3 out]. destruct Hd as (B' & -> & Hs3 & Hlen & Hne).
    simpl. exists B', n. split_and!; [done..|]. rewrite length_app.
    destruct out; [by destruct (Hne Hp)|simpl; lia].
Qed.

(** The first [k] bytes of an event are returned and the rest kept. *)
Lemma law_split s1 B1 live n (data : list byte) k kc :
  wholds s1 B1 live (n - 1) -> rc_pending (w_cell_of s1 h) = [] -> (0 < n)%nat ->
  let s2 := (wasm_on_bytes_consumed h kc (w_on_cell l (set_rc_pending (drop k data)) s1)).1 in
  exists B' n', data ++ B1 = take k data ++ B' /\ wholds s2 B' live n'
    /\ (length B' + n' < length (data ++ B1) + n)%nat.
Proof.
  intros Hs Hp Hn s2. exists (drop k data ++ B1), (n - 1)%nat. split_and!.
  - by rewrite app_assoc, take_drop.
  - by apply own_consumed, own_set_pending.
  - rewrite !length_app, length_drop. lia.
Qed.
Lemma law_whole s1 B1 live n (data : list byte) kc :
  wholds s1 B1 live (n - 1) -> (0 < n)%nat ->
  exists B' n', data ++ B1 = data ++ B' /\ wholds (wasm_on_bytes_consumed h kc s1).1 B' live n'
    /\ (length B' + n' < length (data ++ B1) + n)%nat.
Proof.
  intros Hs Hn. exists B1, (n - 1)%nat. split_and!; [done|by apply own_consumed|]. rewrite length_app. lia.
Qed.

Lemma read_chunk_law max s B live n :
  wholds s B live n -> 0 < max -> call_law wholds max B live n (rs_call (wasm_side h) (CReadChunk max) s).
Proof.
  intros Hs Hmax. simpl. unfold wasm_read_chunk. rewrite (proj2 (Z.eqb_neq max 0)) by lia. simpl.
  destruct (bool_decide_reflect (rc_pending (w_cell_of s h) = [])) as [Hp|Hp]; simpl.
  - destruct (rc_finished (w_cell_of s h)) eqn:Hf; [by eapply law_finished|].
    pose proof (own_next s B live n Hs Hp Hf) as Hn. simpl.
    destruct (w_poll_next h s) as [s1 [[e|]|]]; simpl in *.
    + destruct Hn as (B1 & -> & Hpos & Hfin & Hs2 & Hp2 & _). unfold w_split_event, mbind, wst_bind.
      destruct (w_on_fin h e s1) as [s2 []]. simpl in *.
      destruct (bool_decide (ev_data e = []) && ev_fin e) eqn:Ee; simpl.
      { apply andb_true_iff in Ee as [->%bool_decide_eq_true Ef]. destruct (Hfin Ef) as [-> ->]. eauto. }
      destruct (max <? blen (ev_data e)) eqn:Em; simpl.
      * destruct (law_split s2 B1 live n (ev_data e) (Z.to_nat max)
          (blen (take (Z.to_nat max) (ev_data e))) Hs2 Hp2 Hpos) as (B' & n' & HB & Hs3 & Hlt).
        destruct (wasm_on_bytes_consumed h _ _) as [s3 []]. exists B', n'.
        split_and!; [done..|apply blen_take_le; lia|done].
      * destruct (law_whole s2 B1 live n (ev_data e) (blen (ev_data e)) Hs2 Hpos)
          as (B' & n' & HB & Hs3 & Hlt).
        destruct (wasm_on_bytes_consumed h _ _) as [s3 []]. exists B', n'. split_and!; [done..|lia|done].
    + destruct Hn as (-> & -> & Hs2). unfold w_split_event, mbind, wst_bind.
      destruct (w_set_finished h s1). simpl. eauto.
    + destruct Hn as (-> & -> & _). eauto.
  - pose proof (law_deliver _ _ _ _ max Hs Hmax) as Hd.
    destruct (w_deliver_pending h max s) as [s3 out]. destruct Hd as (B' & -> & Hs3 & Hlen & Hne).
    simpl. exists B', n. split_and!; [done..|]. rewrite length_app.
    destruct out; [by destruct (Hne Hp)|simpl; lia].
Qed.

Lemma poll_loop_law fuel room s B live n :
  wholds s B live n -> 0 < room -> (n < fuel)%nat ->
  rc_pending (w_cell_of s h) = [] -> rc_finished (w_cell_of s h) = false ->
  call_law wholds room B live n
    (match w_poll_read_loop h fuel room s with (s', r) => (s', of_poll (Some r)) end).
Proof.
  intros Hs Hroom. revert s B live n Hs. induction fuel as [|fuel IH]; intros s B live n Hs Hf Hp Hfin; [lia|].
  simpl. unfold mbind, wst_bind. pose proof (own_next s B live n Hs Hp Hfin) as Hn.
  destruct (w_poll_next h s) as [s1 [[e|]|]]; simpl in *.
  - destruct Hn as (B1 & -> & Hpos & Hend & Hs2 & Hp2 & Hf2).
    destruct (w_on_fin h e s1) as [s2 []]. simpl in *.
    destruct (bool_decide_reflect (ev_data e = [])) as [He|He]; [destruct (ev_fin e) eqn:Ef|]; simpl.
    + rewrite He. destruct (Hend eq_refl) as [-> ->]. eauto.
    + rewrite He. simpl. specialize (IH s2 B1 live (n - 1)%nat Hs2 ltac:(lia) Hp2 Hf2).
      destruct (w_poll_read_loop h fuel room s2) as [s3 r]. eapply call_law_more; [|exact IH]. lia.
    + set (amt := Z.min (blen (ev_data e)) room).
      assert (Hamt : 0 < amt).
      { subst amt. destruct (ev_data e); [done|]. unfold blen. simpl. lia. }
      pose proof (take_nonempty amt (ev_data e) Hamt He) as Hne.
      assert (Hpoll : forall s3, call_law wholds room (ev_data e ++ B1) live n
          (s3, RBytes (take (Z.to_nat amt) (ev_data e))) ->
        call_law wholds room (ev_data e ++ B1) live n
          (s3, of_poll (Some (Ready (take (Z.to_nat amt) (ev_data e)))))).
      { intros s3. by destruct (take (Z.to_nat amt) (ev_data e)). }
      destruct (amt <? blen (ev_data e)) eqn:Em; simpl.
      * destruct (law_split s2 B1 live n (ev_data e) (Z.to_nat amt) amt Hs2 Hp2 Hpos)
          as (B' & n' & HB & Hs3 & Hlt).
        destruct (wasm_on_bytes_consumed h _ _) as [s3 []]. apply Hpoll. exists B', n'.
        split_and!; [done..|apply blen_take_le; lia|done].
      * destruct (law_whole s2 B1 live n (ev_data e) amt Hs2 Hpos) as (B' & n' & HB & Hs3 & Hlt).
        destruct (wasm_on_bytes_consumed h _ _) as [s3 []]. apply Hpoll. exists B', n'.
        rewrite (take_ge (ev_data e)) by (unfold blen in *; lia). split_and!; [done..|lia|done].
  - destruct Hn as (-> & -> & Hs2). unfold mbind, wst_bind. destruct (w_set_finished h s1). simpl. eauto.
  - destruct Hn as (-> & -> & Hs2). simpl. eauto.
Qed.

Lemma poll_read_law room s B live n :
  wholds s B live n -> 0 < room -> call_law wholds room B live n (rs_call (wasm_side h) (CPollRead room) s).
Proof.
  intros Hs Hroom. simpl. unfold wasm_poll_read. rewrite (proj2 (Z.eqb_neq room 0)) by lia.
  destruct (bool_decide_reflect (rc_pending (w_cell_of s h) = [])) as [Hp|Hp]; simpl.
  - destruct (rc_finished (w_cell_of s h)) eqn:Hf; [by eapply law_finished|].
    apply (poll_loop_law (S _)); try done.
    destruct (own_cell _ _ _ _ Hs) as (_ & _ & _ & [_ -> _ _ _]). lia.
  - unfold mbind, wst_bind. pose proof (law_deliver _ _ _ _ room Hs Hroom) as Hd.
    destruct (w_deliver_pending h room s) as [s3 out]. destruct Hd as (B' & -> & Hs3 & Hlen & Hne).
    destruct out as [|b out]; [by destruct (Hne Hp)|]. simpl. exists B', n.
    split_and!; [done..|]. rewrite length_app. simpl. lia.
Qed.

Lemma wasm_recv_laws : recv_laws (wasm_side h) id wholds.
Proof.
  constructor.
  - intros s B live n f Hs. pose proof (wasm_frame_law f s B live n Hs) as Hf. simpl.
    destruct (wasm_handle_frame f s) as [s' r]. exact Hf.
  - intros s B live n [room|max|room] Hs Hc.
    + by apply read_law.
    + by apply read_chunk_law.
    + by apply poll_read_law.
Qed.
End Stream.

(** ** Streams of a session *)

(** Every receive state has its cell, and the counters of the peer fit 64 bits. *)
Definition recv_table_ok s : Prop :=
  (forall i rs, w_streams s !! i = Some rs -> (recv_cell rs < length (w_recv_cells s))%nat)
  /\ w_next_peer_uni s <= u64_max /\ w_next_peer_bi s <= u64_max.

(** A registered stream starts empty. *)
Lemma wholds_register i s :
  recv_table_ok s -> (initiator_is_server i = true -> StreamId_counter i < peer_next s i) ->
  let '(s1, h) := wasm_register_recv_stream i s in
  recv_laws (wasm_side h) i (wholds i (rs_cell h)) /\ wholds i (rs_cell h) s1 [] true 0.
Proof.
  intros [Ht Hn] Hu. unfold wasm_register_recv_stream. simpl. split; [apply wasm_recv_laws|].
  set (s' := match w_streams s !! i with Some old => w_sender_drop (recv_cell old) s | None => s end).
  assert (length (w_recv_cells s') = length (w_recv_cells s)) as Hlen
    by (subst s'; case_match; simpl; rewrite ?length_alter; done).
  assert (w_streams s' = w_streams s /\ w_next_peer_uni s' = w_next_peer_uni s
    /\ w_next_peer_bi s' = w_next_peer_bi s) as (E1 & E2 & E3) by (subst s'; by case_match).
  constructor; simpl.
  - eexists. rewrite <- Hlen, lookup_app_r, Nat.sub_diag by done. split; [done|]. simpl.
    rewrite fview_channel. simpl. split_and!; [done..|]. by constructor.
  - eexists. apply lookup_insert_eq.
  - intros j rs. rewrite E1, length_app, Hlen. simpl.
    intros [[<- <-]|[_ Hj]]%lookup_insert_Some; simpl; [split; [lia|done]|].
    specialize (Ht j rs Hj). split; lia.
  - unfold peer_next in *. simpl. by rewrite E2, E3.
  - by rewrite E2, E3.
Qed.

(** C11: from the registration of a receive stream on, and whatever frames the peer
    sends (on this stream and on others, valid or not) and whichever reads the
    application makes in between, the bytes returned by the reads are a prefix of the
    payload the session accepted for the stream.  No read waits while the stream holds
    accepted bytes that were not returned.  Once the peer has ended the stream, or the
    session has closed, repeating any read returns exactly the rest of the accepted
    payload and then the end of the stream, after finitely many calls. *)
Theorem wasm_stream_drains i s s1 h ops call :
  recv_table_ok s -> (initiator_is_server i = true -> StreamId_counter i < peer_next s i) ->
  wasm_register_recv_stream i s = (s1, h) -> Forall rop_ok ops -> 0 < rcall_room call ->
  let '(s2, accepted, returned) := deliver (wasm_side h) i ops s1 in
  exists rest, accepted = returned ++ rest
    /\ (rest <> [] -> (rs_call (wasm_side h) call s2).2 <> RWait)
    /\ (w_streams s2 !! i = None ->
         exists calls, forall fuel, (calls <= fuel)%nat -> drain (wasm_side h) fuel call s2 = Some rest).
Proof.
  intros Ht Hu Hreg Hops Hc. pose proof (wholds_register i s Ht Hu) as Hr. rewrite Hreg in Hr.
  destruct Hr as [Hlaws Hs1].
  pose proof (deliver_exact (wasm_side h) i _ Hlaws ops s1 _ _ _ Hs1 Hops) as Hd.
  destruct (deliver (wasm_side h) i ops s1) as [[s2 inp] out].
  destruct Hd as (B & live & n & Hs2 & HB & _). exists B. split_and!; [done|..].
  - intros HneB. pose proof (law_call _ _ _ Hlaws s2 B live n call Hs2 Hc) as Hcall.
    destruct (rs_call (wasm_side h) call s2) as [s3 []]; [done..| |done]. by destruct Hcall.
  - intros Hend. destruct live; [destruct (wh_entry _ _ _ _ _ _ Hs2); congruence|].
    exists (S (length B + n)). intros fuel Hf. eapply drain_complete; [done..|]. lia.
Qed.
End WasmReads.

(** *** Concrete streams *)
Section Demo.
#[local] Existing Instance list_order.

Definition reads_start : WasmSession fview :=
  wasm_SessionInner_new Limits_default (f_channel 256) (f_channel 128) (f_channel 128).
Definition reads_id : StreamId := mkStreamId 0.
Definition reads_s1 : WasmSession fview := (wasm_register_recv_stream reads_id reads_start).1.
Definition reads_h : RecvStream := mkRecvStream reads_id 0.
Definition reads_ops : list rop :=
  [Peer (Stream reads_id (as_bytes "hello ") false); Call (CRead 4);
   Peer (OpenUni (mkStreamId 3)); Peer (Stream (mkStreamId 3) (as_bytes "x") false);
   Peer (Stream reads_id (as_bytes "world") true); Call (CPollRead 3)].

Lemma reads_table : recv_table_ok reads_start.
Proof.
  split; [|by vm_compute]. intros i rs Hi. change (w_streams reads_start) with (∅ : gmap StreamId RecvState) in Hi.
  by rewrite lookup_empty in Hi.
Qed.

Lemma wasm_stream_drains_witness :
  drain (wasm_side reads_h) 10 (CRead 2) (deliver (wasm_side reads_h) reads_id reads_ops reads_s1).1.1
    = Some (as_bytes "world")
  /\ let '(s2, accepted, returned) := deliver (wasm_side reads_h) reads_id reads_ops reads_s1 in
     exists rest, accepted = returned ++ rest
       /\ (rest <> [] -> (rs_call (wasm_side reads_h) (CRead 2) s2).2 <> RWait)
       /\ (w_streams s2 !! reads_id = None ->
            exists calls, forall fuel, (calls <= fuel)%nat ->
              drain (wasm_side reads_h) fuel (CRead 2) s2 = Some rest).
Proof.
  split; [vm_compute; reflexivity|].
  apply (wasm_stream_drains reads_id reads_start reads_s1 reads_h reads_ops (CRead 2)).
  - apply reads_table.
  - discriminate.
  - vm_compute. reflexivity.
  - repeat constructor.
  - reflexivity.
Defined.
End Demo.
