(* ===== verification/WasmRefine.v ===== *)
(** * The browser session refines the protocol

    [wabs] forgets the cells, channels and handles of a session; under the sanity
    conditions [wsane] the handling of a frame is a step of the abstract endpoint,
    refuses exactly the frames the protocol forbids (or that exceed a local queue),
    offers the outbound queue exactly the frames the protocol asks for, and tears the
    session down when it refuses. *)

From S2P Require Import Prelude Buf VarInt Frame Proto Limits SendFlow Channel Async NativeState.
From S2P Require Import NativeOps NativeStream NativeRecv FuturesChannel WasmState WasmOps.
From S2P Require Import WasmStreams WasmSession NativeSession NativeTasks NativeInv Credit Keep WasmInv.
From S2P Require Import WasmSteps WasmSpecs WasmSendSpecs WasmSessionSpecs WasmPool WasmProps Protocol.
Open Scope mux_scope.

Section WasmRefine.
Context {fchan : Type -> Type} `{FMpscLaws fchan} `{!MapOrder}.
Implicit Types (s : WasmSession fchan) (id : StreamId) (e : endpoint).
Abbreviation st := (wst fchan).

Definition wdir s (rs : RecvState) : recv_dir :=
  mkRecvDir (received rs) (rc_max_data (default w_no_cell (w_recv_cells s !! recv_cell rs))) (stopped rs).
Definition wabs s : endpoint :=
  mkEndpoint false (wdir s <$> w_streams s) ((fun k => flow_max (w_flow_at s k)) <$> w_send_flows s)
    (w_next_uni s) (w_next_bi s) (w_next_peer_uni s) (w_next_peer_bi s).

Record wsane s : Prop := {
  sane_cells : forall id rs, w_streams s !! id = Some rs -> (recv_cell rs < length (w_recv_cells s))%nat;
  sane_flows : forall id k, w_send_flows s !! id = Some k ->
    exists fl, w_flows s !! k = Some fl /\ flow_closed fl = false;
  sane_inj : forall i j k, w_send_flows s !! i = Some k -> w_send_flows s !! j = Some k -> i = j;
  sane_received : forall id rs, w_streams s !! id = Some rs -> 0 <= received rs
}.

(** Nothing is left of the streams, and every writer was released. *)
Record torn s0 s : Prop := {
  torn_closed : w_closed s = true;
  torn_streams : w_streams s = ∅;
  torn_flows : w_send_flows s = ∅;
  torn_credit : w_pending_credit s = ∅;
  torn_accept : w_accept_uni_tx s = None /\ w_accept_bi_tx s = None;
  torn_writers : forall id k, w_send_flows s0 !! id = Some k -> is_Some (w_flows s0 !! k) ->
    flow_closed (w_flow_at s k) = true
}.

(** ** Steps that change nothing the abstraction sees *)
Definition wdata s := (w_streams s, w_recv_cells s, w_send_flows s, w_flows s,
  (w_next_uni s, w_next_bi s, w_next_peer_uni s, w_next_peer_bi s), w_limits s).
Definition tdata s := (w_closed s, w_streams s, w_send_flows s, w_pending_credit s,
  (w_accept_uni_tx s, w_accept_bi_tx s), w_flows s).

Lemma wabs_same s s' : wdata s' = wdata s -> wabs s' = wabs s.
Proof.
  intros [= E1 E2 E3 E4 E5 E6 E7 E8 E9]. unfold wabs, wdir, w_flow_at.
  by rewrite E1, E2, E3, E4, E5, E6, E7, E8.
Qed.
Lemma wsane_same s s' : wdata s' = wdata s -> wsane s -> wsane s'.
Proof.
  intros [= E1 E2 E3 E4 E5 E6 E7 E8 E9] []. constructor; rewrite ?E1, ?E2, ?E3, ?E4; done.
Qed.
Lemma torn_same s0 s s' : tdata s' = tdata s -> torn s0 s -> torn s0 s'.
Proof.
  intros [= E1 E2 E3 E4 E5 E6 E7] []. constructor; unfold w_flow_at in *; by rewrite ?E1, ?E2, ?E3, ?E4, ?E5, ?E6, ?E7.
Qed.
Lemma torn_mono s0 s1 s :
  w_send_flows s0 ⊆ w_send_flows s1 -> (forall k, is_Some (w_flows s0 !! k) -> is_Some (w_flows s1 !! k)) ->
  torn s1 s -> torn s0 s.
Proof.
  intros Hsub Hfl []. constructor; try done. intros id k Hk Hs. eapply torn_writers0; [|auto].
  by eapply lookup_weaken.
Qed.

(** ** The queues *)
Definition no_slot {A} (c : fchan A) : bool := fv_closed (fview_of c) || fv_full (fview_of c).
Definition wslots s : nat :=
  let v := fview_of (w_outbound s) in
  if fv_closed v then 0 else Z.to_nat (fv_buffer v - Z.of_nat (length (fv_buf v))).
Definition w_gone {A} (tx : option nat) (c : fchan A) : bool :=
  match tx with Some _ => fv_closed (fview_of c) | None => true end.
Definition wqueues s : queues := mkQueues (wslots s)
  (fun dir => match dir with Uni => no_slot (w_accept_uni_chan s) | Bi => no_slot (w_accept_bi_chan s) end)
  (fun dir => match dir with
              | Uni => w_gone (w_accept_uni_tx s) (w_accept_uni_chan s)
              | Bi => w_gone (w_accept_bi_tx s) (w_accept_bi_chan s)
              end)
  (fun id => match w_streams s !! id with
             | Some rs => no_slot (rc_chan (w_cell_of s (mkRecvStream id (recv_cell rs))))
             | None => false
             end).

(** From [s] to [s'] the frames [wanted] were offered to the outbound queue. *)
Definition wsent s (wanted : list Frame) s' : Prop :=
  exists out, w_out_log s' = w_out_log s ++ out /\ offered (wslots s) wanted out
    /\ (wslots s - length wanted <= wslots s')%nat.
(** What the frames queued so far and the free slots depend on, and the accept queues. *)
Definition wout_data s := (w_out_log s, wslots s).
Definition wacc_data s := (w_accept_uni_tx s, w_accept_uni_chan s, w_accept_bi_tx s, w_accept_bi_chan s).

Lemma wsent_nil s s' : wout_data s' = wout_data s -> wsent s [] s'.
Proof.
  intros [= E1 E2]. exists []. rewrite app_nil_r. split_and!; [done|apply offered_nil|simpl; lia].
Qed.
Lemma wsent_app s w1 s1 w2 s2 : wsent s w1 s1 -> wsent s1 w2 s2 -> wsent s (w1 ++ w2) s2.
Proof.
  intros (o1 & E1 & Ho1 & S1) (o2 & E2 & Ho2 & S2). exists (o1 ++ o2). split_and!.
  - by rewrite E2, E1, app_assoc.
  - by eapply offered_app.
  - rewrite length_app. lia.
Qed.
Lemma wsent_then s w s1 s2 : wsent s w s1 -> wout_data s2 = wout_data s1 -> wsent s w s2.
Proof. intros Hw Ho. rewrite <- (app_nil_r w). eapply wsent_app; [done|by apply wsent_nil]. Qed.
Lemma wsent_after s s1 w s2 : wout_data s1 = wout_data s -> wsent s1 w s2 -> wsent s w s2.
Proof. intros Ho Hw. change w with ([] ++ w). eapply wsent_app; [by apply wsent_nil|done]. Qed.

Lemma refused_full {A} i (a : A) c : (f_try_send i a c).1 <> SendOk -> no_slot c = true.
Proof.
  intros Hr. unfold no_slot. destruct (fv_closed (fview_of c)) eqn:Ec; [done|]. unfold fv_full. simpl.
  apply Z.leb_le. destruct (decide (Z.of_nat (length (fv_buf (fview_of c))) < fv_buffer (fview_of c))); [|lia].
  by destruct Hr; apply try_send_room.
Qed.
Lemma no_slot_slots s : no_slot (w_outbound s) = true -> wslots s = 0%nat.
Proof. unfold no_slot, wslots, fv_full. destruct (fv_closed _); [done|]. simpl. intros ?%Z.leb_le. lia. Qed.

(** A frame that is offered is queued, or there was no free slot. *)
Lemma try_send_spec f s :
  let '(s', r) := wasm_try_send_frame f s in
  wsent s [f] s' /\ (r = Ok tt \/ r = Err Closed)
  /\ if is_ok r then w_out_log s' = w_out_log s ++ [f]
     else wslots s = 0%nat /\ wout_data s' = wout_data s.
Proof.
  unfold wasm_try_send_frame. pose proof (refused_full (w_outbound_tx s) (WFrame f) (w_outbound s)) as Hfull.
  pose proof (fview_try_send _ (w_outbound_tx s) (WFrame f) (w_outbound s)) as Hv.
  pose proof (try_send_closed _ (w_outbound_tx s) (WFrame f) (w_outbound s)) as Hcl.
  destruct (f_try_send _ _ _) as [[] c]; cbn [fst snd is_ok] in *.
  - split_and!; [|by left|done]. exists [f]. split_and!; [done|apply (offered_one _ _ true); done|]. simpl.
    unfold wslots. simpl. rewrite Hv. simpl. rewrite length_app. simpl. destruct (fv_closed _); [done|]. lia.
  - assert (wout_data (set_w_outbound c s) = wout_data s) as Ho by (unfold wout_data, wslots; simpl; by rewrite Hv).
    pose proof (no_slot_slots s (Hfull ltac:(done))) as Hz. split_and!; [|by right|done..].
    exists []. rewrite app_nil_r. split_and!; [done|apply (offered_one _ _ false); done|lia].
  - assert (wout_data (set_w_outbound c s) = wout_data s) as Ho by (unfold wout_data, wslots; simpl; by rewrite Hv).
    pose proof (no_slot_slots s (Hfull ltac:(done))) as Hz. split_and!; [|by right|done..].
    exists []. rewrite app_nil_r. split_and!; [done|apply (offered_one _ _ false); done|lia].
Qed.

(** ** Closing *)
Definition close_flows (ks : list nat) s : WasmSession fchan :=
  foldr (fun k => w_on_flow k wasm_flow_close) s ks.

Lemma close_flows_other ks s :
  let s' := close_flows ks s in
  w_closed s' = w_closed s /\ w_streams s' = w_streams s /\ w_pending_credit s' = w_pending_credit s
  /\ w_accept_uni_tx s' = w_accept_uni_tx s /\ w_accept_bi_tx s' = w_accept_bi_tx s
  /\ length (w_flows s') = length (w_flows s).
Proof.
  induction ks as [|k ks (IH1 & IH2 & IH3 & IH4 & IH5 & IH6)]; [done|]. simpl.
  split_and!; [done..|by rewrite length_alter].
Qed.

Lemma close_flows_closed ks s k :
  is_Some (w_flows s !! k) -> k ∈ ks -> flow_closed (w_flow_at (close_flows ks s) k) = true.
Proof.
  intros Hk. induction ks as [|j ks IH]; [by intros ?%elem_of_nil|]. intros Hin. simpl.
  assert (is_Some (w_flows (close_flows ks s) !! k)) as [fl Hfl].
  { apply lookup_lt_is_Some. destruct (close_flows_other ks s) as (_ & _ & _ & _ & _ & ->).
    by apply lookup_lt_is_Some. }
  unfold w_flow_at in *. simpl. destruct (decide (j = k)) as [->|Hne].
  - by rewrite list_lookup_alter_eq, Hfl.
  - rewrite list_lookup_alter_ne by done. apply IH. by apply elem_of_cons in Hin as [->|].
Qed.

Lemma drop_senders_torn (rss : list RecvState) s :
  let s' := foldr (fun rs => w_sender_drop (recv_cell rs)) s rss in
  w_closed s' = w_closed s /\ w_send_flows s' = w_send_flows s /\ w_flows s' = w_flows s
  /\ w_pending_credit s' = w_pending_credit s
  /\ w_accept_uni_tx s' = w_accept_uni_tx s /\ w_accept_bi_tx s' = w_accept_bi_tx s.
Proof. induction rss as [|rs rss (IH1 & IH2 & IH3 & IH4 & IH5 & IH6)]; done. Qed.

Lemma take_accept_torn s :
  let s' := w_take_accept_bi (w_take_accept_uni s) in
  w_closed s' = w_closed s /\ w_streams s' = w_streams s /\ w_send_flows s' = w_send_flows s
  /\ w_pending_credit s' = w_pending_credit s /\ w_flows s' = w_flows s
  /\ w_accept_uni_tx s' = None /\ w_accept_bi_tx s' = None.
Proof. unfold w_take_accept_bi, w_take_accept_uni. repeat case_match; simplify_eq/=; done. Qed.

Lemma close_all_torn s : w_closed s = false -> torn s (wasm_close_all s).1.
Proof.
  intros Hc. unfold wasm_close_all, wmod. simpl. rewrite Hc.
  set (s1 := set_w_pending_credit ∅ (set_w_closed true s)).
  unfold w_clear_streams. set (rss := (map_to_list (w_streams s1)).*2).
  destruct (drop_senders_torn rss s1) as (A1 & A2 & A3 & A4 & A5 & A6). set (s2 := foldr _ s1 rss) in *.
  unfold w_clear_send_flows. simpl. fold (close_flows (map_to_list (w_send_flows s2)).*2 (set_w_streams ∅ s2)).
  set (ks := (map_to_list (w_send_flows s2)).*2).
  pose proof (close_flows_closed ks (set_w_streams ∅ s2)) as Hcl.
  destruct (close_flows_other ks (set_w_streams ∅ s2)) as (B1 & B2 & B3 & B4 & B5 & B6).
  set (s3 := close_flows ks _) in *.
  destruct (take_accept_torn (set_w_send_flows ∅ s3)) as (C1 & C2 & C3 & C4 & C5 & C6 & C7).
  set (s4 := w_take_accept_bi _) in *. simpl in *. constructor; try congruence.
  - split; congruence.
  - intros id k Hk Hfl. unfold w_flow_at in *. rewrite C5. apply Hcl.
    + by rewrite A3.
    + subst ks. rewrite A2. simpl. apply list_elem_of_fmap. exists (id, k). split; [done|].
      by apply elem_of_map_to_list.
Qed.

Lemma tdata_try_send f s :
  tdata (wasm_try_send_frame f s).1 = tdata s /\ wdata (wasm_try_send_frame f s).1 = wdata s.
Proof. unfold wasm_try_send_frame. by destruct (f_try_send _ _ _) as [[] ?]. Qed.

Lemma close_all_odata s : wout_data (wasm_close_all s).1 = wout_data s.
Proof.
  unfold wasm_close_all, wmod. simpl. destruct (w_closed s); [done|].
  assert (Haccept : forall s, wout_data (w_take_accept_bi (w_take_accept_uni s)) = wout_data s).
  { intros x. unfold w_take_accept_bi, w_take_accept_uni. by repeat (case_match; simplify_eq/=). }
  rewrite Haccept. unfold w_clear_send_flows, w_clear_streams.
  assert (Hflows : forall ks x, wout_data (foldr (fun k => w_on_flow k wasm_flow_close) x ks) = wout_data x)
    by (intros ks x; by induction ks).
  assert (Hrecv : forall (rss : list RecvState) x,
    wout_data (foldr (fun rs => w_sender_drop (recv_cell rs)) x rss) = wout_data x) by (intros rss x; by induction rss).
  etrans; [apply Hflows|]. etrans; [apply Hrecv|]. done.
Qed.

Lemma protocol_error_torn code reason s :
  w_closed s = false ->
  let '(s', r) := wasm_protocol_error code reason s in
  r = Err (Protocol reason) /\ torn s s' /\ wsent s [ConnectionClose code reason] s'.
Proof.
  intros Hc. unfold wasm_protocol_error, mbind, wst_bind.
  destruct (tdata_try_send (ConnectionClose code reason) s) as [Ht _].
  pose proof (try_send_spec (ConnectionClose code reason) s) as Hs.
  destruct (wasm_try_send_frame _ s) as [s1 r]. simpl in Ht. injection Ht as E1 E2 E3 E4 E5 E6 E7.
  pose proof (close_all_torn s1 ltac:(congruence)) as Htorn. pose proof (close_all_odata s1) as Ho.
  destruct (wasm_close_all s1) as [s2 []]. simpl in *. split_and!; [done| |].
  - eapply torn_mono; [..|exact Htorn]; [by rewrite E3|by rewrite E7].
  - eapply wsent_then; [apply Hs|done].
Qed.

(** ** One frame *)
Definition wconf f s s' (r : result unit) : Prop :=
  exists out, w_out_log s' = w_out_log s ++ out
    /\ conforms false (w_limits s) (wqueues s) (wabs s) f r (fun e => wabs s' = e /\ wsane s') (torn s s') out.
Definition wframe_ok f s : Prop := wsane s -> w_closed s = false ->
  let '(s', r) := wasm_handle_frame f s in wconf f s s' r.

(** A reason to end the session with an error. *)
Definition blamed f s code reason : Prop :=
  ep_check (w_limits s) (wabs s) f = Some (code, reason)
  \/ (local_refusal (w_limits s) (wabs s) f code reason /\ q_refuses (wqueues s) f reason).
(** The parts of the state that hold the writers are still there. *)
Definition wkept s s1 : Prop :=
  w_send_flows s ⊆ w_send_flows s1 /\ (forall k, is_Some (w_flows s !! k) -> is_Some (w_flows s1 !! k))
  /\ w_closed s1 = w_closed s.

Lemma wkept_refl s : wkept s s.
Proof. by split_and!. Qed.

(** The session ends with an error; destructors may run after it. *)
Lemma error_spec f s s1 code reason :
  w_closed s = false -> wkept s s1 -> blamed f s code reason ->
  wsent s (ep_before (w_limits s) (wabs s) f) s1 ->
  let '(s2, r) := wasm_protocol_error code reason s1 in
  r = Err (Protocol reason) /\ torn s s2
  /\ forall s3 o, torn s s3 -> w_out_log s3 = w_out_log s2 ++ o -> o `sublist_of` drop_frames f -> wconf f s s3 r.
Proof.
  intros Hc (Hsub & Hfl & Hcl) Hb Hsent. pose proof (protocol_error_torn code reason s1 ltac:(congruence)) as Hp.
  destruct (wasm_protocol_error code reason s1) as [s2 r]. destruct Hp as (-> & Ht & Hs2).
  split_and!; [done|by eapply torn_mono|]. intros s3 o Ht3 Hlog Ho.
  destruct (wsent_app _ _ _ _ _ Hsent Hs2) as (out1 & E1 & Hoff & _). exists (out1 ++ o).
  split; [by rewrite Hlog, E1, app_assoc|]. split; [done|]. by exists code, out1, o.
Qed.

Lemma conforms_error f s s1 code reason :
  w_closed s = false -> wkept s s1 -> blamed f s code reason ->
  wsent s (ep_before (w_limits s) (wabs s) f) s1 ->
  let '(s2, r) := wasm_protocol_error code reason s1 in wconf f s s2 r.
Proof.
  intros Hc Hk Hb Hs. pose proof (error_spec f s s1 code reason Hc Hk Hb Hs) as He.
  destruct (wasm_protocol_error code reason s1) as [s2 r]. destruct He as (-> & Ht & Hconf).
  apply (Hconf s2 []); [done|by rewrite app_nil_r|apply sublist_nil_l].
Qed.

Lemma conforms_violation f s s1 code reason :
  w_closed s = false -> wkept s s1 -> wout_data s1 = wout_data s ->
  ep_check (w_limits s) (wabs s) f = Some (code, reason) -> ep_before (w_limits s) (wabs s) f = [] ->
  let '(s2, r) := wasm_protocol_error code reason s1 in wconf f s s2 r.
Proof.
  intros Hc Hk Ho Hv Hb. apply conforms_error; [done..|by left|]. rewrite Hb. by apply wsent_nil.
Qed.

(** ** Updates of the receive part *)
Definition sdata s := (w_closed s, w_send_flows s, w_flows s, w_limits s, wout_data s, wacc_data s).

Lemma sdata_kept s s1 : sdata s1 = sdata s -> wkept s s1 /\ wout_data s1 = wout_data s.
Proof. intros [= E1 E2 E3 E4 E5 E6 E7]. unfold wkept, wout_data. rewrite E2, E3. by split_and!; [..|congruence]. Qed.

Lemma wdir_on_cell k f s rs :
  (forall c, rc_max_data (f c) = rc_max_data c) -> wdir (w_on_cell k f s) rs = wdir s rs.
Proof.
  intros Hf. unfold wdir. simpl. f_equal. destruct (decide (recv_cell rs = k)) as [->|Hne].
  - rewrite list_lookup_alter_eq. by destruct (w_recv_cells s !! k); simpl.
  - by rewrite list_lookup_alter_ne.
Qed.
Lemma wabs_on_cell k f s :
  (forall c, rc_max_data (f c) = rc_max_data c) -> wabs (w_on_cell k f s) = wabs s.
Proof.
  intros Hf. unfold wabs. simpl. f_equal. apply map_fmap_ext. intros i rs _. by apply wdir_on_cell.
Qed.
Lemma wsane_on_cell k f s : wsane s -> wsane (w_on_cell k f s).
Proof. intros []. constructor; simpl; try done. intros i rs Hi. rewrite length_alter. eauto. Qed.

Lemma wabs_insert s id rs :
  wabs (set_w_streams (<[id := rs]> (w_streams s)) s)
  = ep_set_recv (<[id := wdir s rs]> (ep_recv (wabs s))) (wabs s).
Proof. unfold wabs, ep_set_recv. simpl. f_equal. by rewrite fmap_insert. Qed.

Lemma wabs_remove s id :
  wabs (wasm_remove_stream id s).1 = ep_set_recv (delete id (ep_recv (wabs s))) (wabs s)
  /\ (wsane s -> wsane (wasm_remove_stream id s).1) /\ sdata (wasm_remove_stream id s).1 = sdata s
  /\ (wasm_remove_stream id s).2 = bool_decide (is_Some (ep_recv (wabs s) !! id)).
Proof.
  unfold wasm_remove_stream. simpl. rewrite lookup_fmap. destruct (w_streams s !! id) as [rs|] eqn:E; simpl.
  - split_and!; try done.
    + unfold w_sender_drop. rewrite wabs_on_cell by done. unfold wabs, ep_set_recv. simpl. f_equal.
      by rewrite fmap_delete.
    + intros Hs. apply wsane_on_cell. destruct Hs. constructor; simpl; try done.
      * intros i rs' [_ Hi]%lookup_delete_Some. eauto.
      * intros i rs' [_ Hi]%lookup_delete_Some. eauto.
  - split_and!; try done. unfold wabs, ep_set_recv. simpl. f_equal. rewrite delete_id; [done|].
    by rewrite lookup_fmap, E.
Qed.

(** ** Stream data *)
Lemma event_step s k ev :
  wsane s -> let '(s', r) := w_try_send_event k ev s in
  wabs s' = wabs s /\ wsane s' /\ sdata s' = sdata s
  /\ (r <> SendOk -> no_slot (rc_chan (w_cell_of s (mkRecvStream (mkStreamId 0) k))) = true).
Proof.
  intros Hs. unfold w_try_send_event.
  pose proof (refused_full 0 ev (rc_chan (w_cell_of s (mkRecvStream (mkStreamId 0) k)))) as Hfull.
  destruct (f_try_send _ _ _) as [r c].
  split_and!; [by apply wabs_on_cell|by apply wsane_on_cell|done..].
Qed.

Lemma stream_data_spec s id data fin :
  wsane s -> (max_stream_data_per_frame (w_limits s) <? blen data) = false ->
  match w_stream_data id data fin s with
  | (s', Ok overflow) => ep_check (w_limits s) (wabs s) (Stream id data fin) = None
      /\ wabs s' = ep_apply (w_limits s) (wabs s) (Stream id data fin) /\ wsane s' /\ sdata s' = sdata s
      /\ ((overflow : bool) = true -> q_event_full (wqueues s) id = true)
  | (s', Err reason) => s' = s
      /\ ep_check (w_limits s) (wabs s) (Stream id data fin) = Some (2, reason)
  | (_, Panic) => False
  end.
Proof.
  intros Hs Hlen. unfold w_stream_data, ep_check, ep_apply. rewrite Hlen. simpl. rewrite lookup_fmap.
  destruct (w_streams s !! id) as [rs|] eqn:E; simpl; [|done]. unfold checked_add64, w_cell_of. simpl.
  destruct (Z.leb_spec (received rs + blen data) u64_max);
    destruct (Z.ltb_spec u64_max (received rs + blen data)); try lia; [|done].
  destruct (rc_max_data _ <? received rs + blen data) eqn:E2; [done|].
  set (s1 := set_w_streams (<[id := mkRecvState (stopped rs) (recv_cell rs) (received rs + blen data)]>
    (w_streams s)) s).
  assert (Hs1 : wsane s1).
  { destruct Hs. constructor; simpl; try done.
    - intros i rs' [[<- <-]|[_ Hi]]%lookup_insert_Some; simpl; eauto.
    - intros i rs' [[<- <-]|[_ Hi]]%lookup_insert_Some; simpl; [|eauto].
      specialize (sane_received0 _ _ E). unfold blen. lia. }
  pose proof (wabs_insert s id (mkRecvState (stopped rs) (recv_cell rs) (received rs + blen data))) as Ha1.
  fold s1 in Ha1.
  assert (Hend : forall s2 (o : bool), wabs s2 = wabs s1 -> wsane s2 -> sdata s2 = sdata s1 ->
    (o = true -> no_slot (rc_chan (w_cell_of s (mkRecvStream id (recv_cell rs)))) = true) ->
    match ((if fin then wasm_remove_stream id else mret true);; mret (Ok o)) s2 : _ * outcome string bool with
    | (s', Ok o') => None = @None (Z * string) /\ wabs s'
        = (if fin then ep_set_recv (delete id (ep_recv (wabs s))) (wabs s)
           else ep_set_recv (<[id := wdir s (mkRecvState (stopped rs) (recv_cell rs) (received rs + blen data))]>
                  (ep_recv (wabs s))) (wabs s)) /\ wsane s' /\ sdata s' = sdata s
        /\ (o' = true -> no_slot (rc_chan (w_cell_of s (mkRecvStream id (recv_cell rs)))) = true)
    | (s', Err reason) => s' = s /\ None = Some (2, reason)
    | (_, Panic) => False
    end).
  { intros s2 o Ha2 Hs2 Hd2 Ho. unfold mbind, wst_bind, mret, wst_ret. destruct fin.
    - destruct (wabs_remove s2 id) as (Ha3 & Hs3 & Hd3 & _). destruct (wasm_remove_stream id s2) as [s3 b].
      cbn [fst snd] in *. split_and!; [done| |auto|by rewrite Hd3|done].
      rewrite Ha3, Ha2, Ha1. unfold ep_set_recv. cbn [ep_recv]. by rewrite delete_insert_eq.
    - split_and!; [done| |done..]. by rewrite Ha2, Ha1. }
  destruct (stopped rs) eqn:Est; [apply (Hend s1 false); done|].
  pose proof (event_step s1 (recv_cell rs) (mkRecvEvent data fin) Hs1) as Hev.
  unfold mbind, wst_bind, mret, wst_ret, wmod in Hend |- *. fold s1.
  destruct (w_try_send_event _ _ s1) as [s2 r]. destruct Hev as (Ha2 & Hs2 & Hd2 & Hfull).
  apply Hend; [done..|]. intros Ho. apply Hfull. by destruct r.
Qed.

(** ** Frames about one direction *)
Lemma step_violation f s code reason :
  wasm_handle_frame f s = wasm_protocol_error code reason s ->
  ep_check (w_limits s) (wabs s) f = Some (code, reason) -> ep_before (w_limits s) (wabs s) f = [] -> wframe_ok f s.
Proof.
  intros Hf Hv Hb Hs Hc. rewrite Hf. by apply conforms_violation; [|apply wkept_refl|..].
Qed.

Lemma step_stream id data fin s : wframe_ok (Stream id data fin) s.
Proof.
  destruct (max_stream_data_per_frame (w_limits s) <? blen data) eqn:El.
  { apply (step_violation _ _ 2 "stream data too large"); simpl; [|by rewrite El|done].
    unfold wasm_handle_stream. by rewrite El. }
  intros Hs Hc. cbn [wasm_handle_frame]. unfold wasm_handle_stream. rewrite El.
  pose proof (stream_data_spec s id data fin Hs El) as Hd. unfold mbind, wst_bind.
  destruct (w_stream_data id data fin s) as [s1 [overflow|reason|]]; [| |done].
  - destruct Hd as (Hchk & Ha & Hs1 & Hd & Hfull). destruct (sdata_kept _ _ Hd) as [Hk Ho]. destruct overflow.
    + apply conforms_error; [done..| |by apply wsent_nil]. right. split; [done|]. by apply Hfull.
    + exists []. injection Ho as Ho _. split; [by rewrite app_nil_r|]. by split_and!.
  - destruct Hd as [-> Hchk]. apply conforms_violation; [done|apply wkept_refl|done..].
Qed.

Lemma retired_abs s id receiving :
  wasm_is_retired_direction id receiving s = ep_retired (wabs s) id receiving.
Proof.
  unfold wasm_is_retired_direction, ep_retired, ep_is_local, ep_frontier, ep_is_local, w_frontier. simpl.
  by destruct (initiator_is_server id), receiving, (StreamId_dir id).
Qed.

Lemma step_reset id code s : wframe_ok (ResetStream id code) s.
Proof.
  intros Hs Hc. cbn [wasm_handle_frame]. unfold wasm_handle_reset_stream, mbind, wst_bind, wget.
  destruct (wabs_remove s id) as (Ha & Hs1 & Hd & Hr). destruct (sdata_kept _ _ Hd) as [Hk Ho].
  destruct (wasm_remove_stream id s) as [s1 removed] eqn:Erem. cbn [fst snd] in *.
  rewrite retired_abs, Ha.
  assert (Hret : ep_retired (ep_set_recv (delete id (ep_recv (wabs s))) (wabs s)) id true
    = ep_retired (wabs s) id true) by done.
  rewrite Hret. destruct (removed || ep_retired (wabs s) id true) eqn:Eok.
  - exists []. injection Ho as Ho _. split; [by rewrite app_nil_r|]. split_and!; [|done|auto|done].
    unfold ep_check. by rewrite <- Hr, Eok.
  - apply conforms_violation; [done..| |done]. unfold ep_check. by rewrite <- Hr, Eok.
Qed.

(** Closing a flow does not change its limit. *)
Lemma flow_at_update k f s j :
  w_flow_at (w_on_flow k f s) j =
    if decide (j = k) then match w_flows s !! k with Some fl => f fl | None => w_flow_at s k end
    else w_flow_at s j.
Proof.
  unfold w_flow_at. simpl. case_decide as Hj; [subst|by rewrite list_lookup_alter_ne].
  rewrite list_lookup_alter_eq. by destruct (w_flows s !! k).
Qed.

Lemma remove_flow_spec s id :
  wsane s ->
  let '(s', removed) := wasm_remove_send_flow id s in
  removed = bool_decide (is_Some (ep_send (wabs s) !! id))
  /\ wabs s' = ep_set_send (delete id (ep_send (wabs s))) (wabs s) /\ wsane s'
  /\ (removed = false -> s' = s) /\ wout_data s' = wout_data s.
Proof.
  intros Hs. unfold wasm_remove_send_flow. simpl. rewrite lookup_fmap.
  destruct (w_send_flows s !! id) as [k|] eqn:E; simpl.
  - split_and!; [done| | |done..].
    + unfold wabs, ep_set_send. simpl. f_equal. rewrite <- fmap_delete. apply map_fmap_ext. intros i j _.
      rewrite flow_at_update. simpl. case_decide as Hj; [subst|done]. unfold w_flow_at. simpl.
      by destruct (w_flows s !! k).
    + destruct Hs. constructor; simpl; try done.
      * intros i j [Hne Hi]%lookup_delete_Some. destruct (sane_flows0 i j Hi) as (fl & Hfl & Hcl).
        exists fl. rewrite list_lookup_alter_ne; [done|]. intros <-. by apply Hne, (sane_inj0 _ _ k).
      * intros i j k' [_ Hi]%lookup_delete_Some [_ Hj]%lookup_delete_Some. eauto.
  - split_and!; try done. unfold wabs, ep_set_send. simpl. f_equal. rewrite delete_id; [done|].
    by rewrite lookup_fmap, E.
Qed.

Lemma step_stop id code s : wframe_ok (StopSending id code) s.
Proof.
  intros Hs Hc. cbn [wasm_handle_frame]. unfold wasm_handle_stop_sending, mbind, wst_bind, wget.
  pose proof (remove_flow_spec s id Hs) as Hr. destruct (wasm_remove_send_flow id s) as [s1 removed].
  destruct Hr as (Hrem & Ha & Hs1 & Hsame & [= Hl1 Ho1]). destruct removed.
  - assert (Hchk : ep_check (w_limits s) (wabs s) (StopSending id code) = None)
      by (unfold ep_check; by rewrite <- Hrem).
    unfold wasm_send_frame. destruct (tdata_try_send (ResetStream id code) s1) as [_ Hw].
    pose proof (try_send_spec (ResetStream id code) s1) as Ht.
    destruct (wasm_try_send_frame (ResetStream id code) s1) as [s2 r]. cbn [fst] in Hw.
    destruct Ht as (_ & Hr & Hlog).
    assert (Hend : wabs s2 = ep_apply (w_limits s) (wabs s) (StopSending id code) /\ wsane s2)
      by (split; [by rewrite (wabs_same _ _ Hw)|by eapply wsane_same]).
    destruct Hr as [-> | ->]; cbn [is_ok] in Hlog.
    + exists [ResetStream id code]. split; [congruence|]. split; [done|]. split; [done|].
      cbv beta iota. unfold ep_answer. by rewrite <- Hrem.
    + destruct Hlog as [Hz [= Hl2 _]]. exists []. split; [rewrite app_nil_r; congruence|].
      split; [done|]. symmetry in Hrem. apply bool_decide_eq_true in Hrem.
      split; [exact Hrem|]. split; [exact Hend|]. split; [|done]. cbn [q_slots wqueues]. congruence.
  - rewrite (Hsame eq_refl) in *. rewrite retired_abs. destruct (ep_retired (wabs s) id false) eqn:Er.
    + exists []. split; [by rewrite app_nil_r|]. split; [unfold ep_check; by rewrite <- Hrem, Er|].
      split; [by split|]. cbv beta iota. unfold ep_answer. by rewrite <- Hrem.
    + apply conforms_violation; [done|apply wkept_refl|done| |done]. unfold ep_check. by rewrite <- Hrem, Er.
Qed.

Lemma step_max id max s : wframe_ok (MaxStreamData id max) s.
Proof.
  intros Hs Hc. cbn [wasm_handle_frame]. unfold wasm_handle_max_stream_data, mbind, wst_bind, wmod, mret, wst_ret.
  exists []. split; [rewrite app_nil_r; by case_match|]. split; [done|]. split; [|done].
  cbn [ep_apply]. destruct (w_send_flows s !! id) as [k|] eqn:E.
  - destruct (sane_flows s Hs id k E) as (fl & Hfl & Hcl). split.
    + unfold wabs, ep_set_send. simpl. f_equal. apply map_eq. intros i.
      rewrite lookup_fmap, lookup_alter. simpl. destruct (w_send_flows s !! i) as [j|] eqn:Ei; simpl.
      2:{ case_decide; [|by rewrite lookup_fmap, Ei]. subst. by rewrite lookup_fmap, Ei. }
      rewrite flow_at_update. repeat case_decide; subst; rewrite lookup_fmap, ?E, ?Ei; simpl; try done.
      * rewrite Hfl. unfold w_flow_at, wasm_update_max, update_max. simplify_eq. rewrite Hfl, Hcl. simpl.
        f_equal. destruct (_ <? _) eqn:Elt; simpl; lia.
      * by destruct (sane_inj s Hs id i k).
      * simplify_eq.
    + destruct Hs. constructor; simpl; try done. intros i j Hi.
      destruct (sane_flows0 i j Hi) as (fl' & Hfl' & Hcl'). destruct (decide (j = k)) as [->|Hne].
      * exists (update_max max fl'). rewrite list_lookup_alter_eq, Hfl'. split; [done|].
        unfold update_max. by repeat case_match.
      * exists fl'. by rewrite list_lookup_alter_ne.
  - split; [|done]. unfold wabs, ep_set_send. simpl. f_equal. apply map_eq. intros i. rewrite lookup_alter.
    case_decide; [subst|done]. by rewrite lookup_fmap, E.
Qed.

(** ** Opening streams *)

(** Dropping handles after the session was torn down changes nothing of it; the browser
    still offers the reset of a send direction. *)
Definition torn_drops s0 (d : st unit) (fs : list Frame) : Prop := forall s, torn s0 s ->
  torn s0 (d s).1 /\ exists o, w_out_log (d s).1 = w_out_log s ++ o /\ o `sublist_of` fs.

Lemma torn_recv_drop s0 h : torn_drops s0 (wasm_RecvStream_drop h) [].
Proof.
  intros s Ht. unfold wasm_RecvStream_drop, mbind, wst_bind, wasm_stop_recv_stream.
  rewrite (torn_streams _ _ Ht), lookup_empty. split; [by eapply torn_same; [|exact Ht]|].
  exists []. by rewrite app_nil_r.
Qed.
Lemma torn_send_drop s0 h : torn_drops s0 (wasm_SendStream_drop h) [ResetStream (ws_id h) 0].
Proof.
  intros s Ht. unfold wasm_SendStream_drop, mbind, wst_bind, mret, wst_ret, wget, w_outbound_drop, wmod.
  assert (Hrem : wasm_remove_send_flow (ws_id h) s = (s, false))
    by (unfold wasm_remove_send_flow; by rewrite (torn_flows _ _ Ht), lookup_empty).
  destruct (strong_count _ =? 1).
  2:{ split; [by eapply torn_same; [|exact Ht]|]. exists []. rewrite app_nil_r. split; [done|apply sublist_nil_l]. }
  rewrite Hrem. destruct (finished _).
  { split; [by eapply torn_same; [|exact Ht]|]. exists []. rewrite app_nil_r. split; [done|apply sublist_nil_l]. }
  destruct (tdata_try_send (ResetStream (ws_id h) 0) s) as [E _].
  pose proof (try_send_spec (ResetStream (ws_id h) 0) s) as Hsent.
  destruct (wasm_try_send_frame _ s) as [s1 r]. cbn [fst snd] in *. apply (torn_same _ _ _ E) in Ht.
  destruct Hsent as ((o & Ho & [_ Hsub] & _) & _). destruct (is_ok r).
  - split; [by eapply torn_same; [|exact Ht]|]. by exists o.
  - unfold wasm_request_shutdown, wmod. simpl. split; [eapply torn_same; [|exact Ht]; by case_match|].
    exists o. split; [by case_match|done].
Qed.
Lemma torn_drop_pair s0 p : torn_drops s0 (wasm_drop_pair p) [ResetStream (ws_id p.1) 0].
Proof.
  intros s Ht. unfold wasm_drop_pair, mbind, wst_bind. destruct (torn_send_drop s0 p.1 s Ht) as (Ht1 & o & Ho & Hsub).
  destruct (wasm_SendStream_drop p.1 s) as [s1 []]. destruct (torn_recv_drop s0 p.2 s1 Ht1) as (Ht2 & o2 & Ho2 & Hsub2).
  cbn [fst] in *. split; [done|]. exists (o ++ o2). rewrite app_assoc, Ho2, Ho. split; [done|].
  rewrite <- (app_nil_r [ResetStream _ _]). by apply sublist_app.
Qed.

(** Dropping a handle of a stream that was just opened ends its direction. *)
Definition fresh_recv s (h : RecvStream) : Prop :=
  is_Some (w_streams s !! rs_id h)
  /\ exists c, w_recv_cells s !! rs_cell h = Some c /\ rc_finished c = false /\ rc_stop_sent c = false.
Definition fresh_send s (h : wasm_SendStream) : Prop :=
  exists c, w_send_cells s !! ws_shared h = Some c /\ finished c = false /\ strong_count c = 1.

(** A frame that is offered or else shuts the session down. *)
Lemma offer_or_shutdown f s :
  let s' := (r ← wasm_try_send_frame f; if is_ok r then mret tt else wasm_request_shutdown) s in
  wdata s'.1 = wdata s /\ wsent s [f] s'.1 /\ w_send_cells s'.1 = w_send_cells s.
Proof.
  unfold mbind, wst_bind, mret, wst_ret. destruct (tdata_try_send f s) as [_ Hw]. pose proof (try_send_spec f s) as Hs.
  assert (w_send_cells (wasm_try_send_frame f s).1 = w_send_cells s) as Hcells
    by (unfold wasm_try_send_frame; by destruct (f_try_send _ _ _) as [[] ?]).
  destruct (wasm_try_send_frame f s) as [s1 r]. cbn [fst] in *. destruct Hs as (Hs & _ & Hlog).
  destruct (is_ok r); [done|]. destruct Hlog as [Hz [= Hl Ho]]. unfold wasm_request_shutdown, wmod. simpl. split_and!.
  - rewrite <- Hw. by case_match.
  - destruct Hs as (o & E & Hoff & _). exists o. split_and!; [rewrite <- E; by case_match|done|simpl; lia].
  - rewrite <- Hcells. by case_match.
Qed.

Lemma recv_drop_spec s h :
  wsane s -> fresh_recv s h ->
  let s' := (wasm_RecvStream_drop h s).1 in
  wabs s' = ep_stop (rs_id h) (wabs s) /\ wsane s' /\ wsent s [StopSending (rs_id h) 0] s'.
Proof.
  intros Hs ([rs Hrs] & c & Hc & Hfin & Hsent). unfold wasm_RecvStream_drop, wasm_stop_recv_stream.
  unfold mbind, wst_bind, wget. rewrite Hrs. cbn beta iota.
  set (s1 := set_w_pending_credit _ _).
  assert (Ha1 : wabs s1 = ep_stop (rs_id h) (wabs s)).
  { unfold wabs, ep_stop, ep_set_recv. simpl. f_equal. apply map_eq. intros i. rewrite lookup_fmap, lookup_alter.
    rewrite lookup_insert. repeat case_decide; subst; rewrite lookup_fmap, ?Hrs; done. }
  assert (Hs1 : wsane s1).
  { destruct Hs. constructor; simpl; try done.
    - intros i x [[<- <-]|[_ Hi]]%lookup_insert_Some; simpl; eauto.
    - intros i x [[<- <-]|[_ Hi]]%lookup_insert_Some; simpl; eauto. }
  assert (Hcell : w_cell_of s1 h = c) by (unfold w_cell_of; simpl; by rewrite Hc).
  unfold w_swap_stop_sent, w_with_cell. rewrite Hcell, Hfin. cbn [negb andb]. rewrite Hcell. cbn [fst snd]. rewrite Hsent.
  set (s2 := w_on_cell (rs_cell h) _ s1).
  pose proof (offer_or_shutdown (StopSending (rs_id h) 0) s2) as Ho. unfold mbind, wst_bind in Ho.
  destruct (let '(s', a) := wasm_try_send_frame _ s2 in _) as [s3 []]. destruct Ho as (Hw & Hsent3 & _).
  cbn [fst] in *. unfold wmod. cbn [fst].
  assert (Hs2 : wsane s2) by (by apply wsane_on_cell).
  split_and!.
  - rewrite wabs_on_cell by done. rewrite (wabs_same _ _ Hw). unfold s2. by rewrite wabs_on_cell.
  - apply wsane_on_cell. by eapply wsane_same.
  - eapply wsent_after; [|eapply wsent_then; [exact Hsent3|]]; done.
Qed.

Lemma odata_outbound c s : fview_of c = fview_of (w_outbound s) \/ (exists n, fview_of c = fv_set_senders n (fview_of (w_outbound s))) ->
  wout_data (set_w_outbound c s) = wout_data s.
Proof. unfold wout_data, wslots. simpl. by intros [-> | [n ->]]. Qed.

Lemma send_drop_spec s h :
  wsane s -> fresh_send s h ->
  let s' := (wasm_SendStream_drop h s).1 in
  wabs s' = ep_set_send (delete (ws_id h) (ep_send (wabs s))) (wabs s) /\ wsane s'
  /\ wsent s [ResetStream (ws_id h) 0] s' /\ w_streams s' = w_streams s /\ w_recv_cells s' = w_recv_cells s.
Proof.
  intros Hs (c & Hc & Hfin & Hcount). unfold wasm_SendStream_drop, mbind, wst_bind, wget, wmod.
  assert (Hcell : forall x : WasmSession fchan, w_send_cells x = w_send_cells s -> w_shared_of x h = c)
    by (intros x Hx; unfold w_shared_of; by rewrite Hx, Hc).
  rewrite (Hcell s), Hcount by done. cbn [Z.eqb Pos.eqb].
  pose proof (remove_flow_spec s (ws_id h) Hs) as Hr.
  assert (Hkeep : w_send_cells (wasm_remove_send_flow (ws_id h) s).1 = w_send_cells s
    /\ w_streams (wasm_remove_send_flow (ws_id h) s).1 = w_streams s
    /\ w_recv_cells (wasm_remove_send_flow (ws_id h) s).1 = w_recv_cells s)
    by (unfold wasm_remove_send_flow; by destruct (w_send_flows s !! ws_id h)).
  destruct (wasm_remove_send_flow (ws_id h) s) as [s1 removed]. destruct Hr as (_ & Ha1 & Hs1 & _ & Ho1).
  destruct Hkeep as (K1 & K2 & K3). cbn [fst] in *. rewrite (Hcell s1 K1), Hfin.
  pose proof (offer_or_shutdown (ResetStream (ws_id h) 0) s1) as Ho. unfold mbind, wst_bind in Ho.
  destruct (let '(s', a) := wasm_try_send_frame _ s1 in _) as [s2 []]. destruct Ho as (Hw & Hsent & _).
  cbn [fst] in *. pose proof Hw as [= W1 W2 _ _ _ _ _ _ _]. unfold w_outbound_drop, wmod. cbn [fst].
  split_and!; [| | |simpl; congruence..].
  - erewrite wabs_same; [rewrite <- Ha1; by apply wabs_same|done].
  - eapply wsane_same; [|eapply wsane_same; [exact Hw|done]]. done.
  - eapply wsent_after; [exact Ho1|]. eapply wsent_then; [exact Hsent|]. etrans; [apply odata_outbound|done].
    right. eexists. apply fview_drop.
Qed.

(** The identifier is checked and the frontier moved. *)
Lemma validate_spec s id dir :
  StreamId_dir id = dir ->
  let '(s', valid) := wasm_validate_peer_stream_id id s in
  valid = negb (StreamId_counter id <? ep_peer_next (wabs s) dir)
  /\ sdata s' = sdata s /\ (wsane s -> wsane s') /\ (valid = false -> s' = s)
  /\ (valid = true -> wabs s' = ep_set_peer dir (saturating_add64 (StreamId_counter id) 1) (wabs s)).
Proof.
  intros <-. unfold wasm_validate_peer_stream_id. destruct (StreamId_dir id); simpl; destruct (_ <? _); simpl;
    by (split_and!; try done; intros Hs; destruct Hs; constructor).
Qed.

(** The receive side is registered, or the reason of the violation is returned. *)
Lemma register_spec s id :
  wsane s ->
  let '(s', r) := w_register_inbound id s in
  match r with
  | Ok h => open_limits (w_limits s) (wabs s) id = None /\ sdata s' = sdata s /\ wsane s'
      /\ rs_id h = id /\ fresh_recv s' h /\ wabs s' = ep_set_recv (<[id := mkRecvDir 0 (initial_stream_window (w_limits s)) false]>
                      (ep_recv (wabs s))) (wabs s)
  | Err v => s' = s /\ open_limits (w_limits s) (wabs s) id = Some v
  | Panic => False
  end.
Proof.
  intros Hs. unfold w_register_inbound, open_limits. simpl. rewrite map_size_fmap, lookup_fmap.
  destruct (_ <=? _); [done|]. destruct (w_streams s !! id) eqn:E; [done|]. simpl.
  split_and!; try done.
  - destruct Hs. constructor; simpl; try done.
    + intros i rs. rewrite length_app. simpl. intros [[<- <-]|[_ Hi]]%lookup_insert_Some; simpl; [lia|].
      specialize (sane_cells0 i rs Hi). lia.
    + intros i rs [[<- <-]|[_ Hi]]%lookup_insert_Some; simpl; [lia|eauto].
  - split; simpl; [rewrite lookup_insert_eq; by eexists|].
    eexists. rewrite lookup_app_r, Nat.sub_diag by done. by split_and!.
  - unfold wabs, ep_set_recv. simpl. f_equal. apply map_eq. intros i.
    rewrite lookup_fmap. destruct (decide (i = id)) as [->|Hi].
    + rewrite !lookup_insert_eq. simpl. unfold wdir. simpl. by rewrite lookup_app_r, Nat.sub_diag.
    + rewrite !lookup_insert_ne, lookup_fmap by done. destruct (w_streams s !! i) as [rs|] eqn:Ei; [|done].
      simpl. unfold wdir. simpl. by rewrite lookup_app_l by (by eapply sane_cells).
Qed.

(** *** Handing a stream to the accept queue *)

(** The state in which the handles of the new stream are passed on. *)
Record opening f s s3 : Prop := {
  op_frame : match f with OpenUni _ | OpenBi _ => True | _ => False end;
  op_check : ep_check (w_limits s) (wabs s) f = None;
  op_kept : wkept s s3;
  op_sane : wsane s3;
  op_abs : wabs s3 = ep_apply (w_limits s) (wabs s) f;
  op_sent : wsent s (ep_answer (w_limits s) (wabs s) f) s3
}.

Lemma opening_same f s s3 s4 :
  wdata s4 = wdata s3 -> wout_data s4 = wout_data s3 -> w_closed s4 = w_closed s3 -> opening f s s3 -> opening f s s4.
Proof.
  intros Hw Ho Hc [Hf Hchk (K1 & K2 & K3) Hs Ha Hsent]. pose proof Hw as [= _ _ E3 E4 _ _ _ _ _]. constructor; try done.
  - unfold wkept. rewrite E3, E4. split_and!; [done..|congruence].
  - by eapply wsane_same.
  - by rewrite (wabs_same _ _ Hw).
  - by eapply wsent_then.
Qed.

Lemma before_answer f s :
  match f with OpenUni _ | OpenBi _ => True | _ => False end -> ep_check (w_limits s) (wabs s) f = None ->
  ep_before (w_limits s) (wabs s) f = ep_answer (w_limits s) (wabs s) f.
Proof.
  intros Hf Hc. destruct f as [id|id|id data fin|id code|id code|id max|code reason]; try done; unfold ep_before.
  - change (ep_check_open (w_limits s) (wabs s) id Uni "OpenUni" = None) in Hc. by rewrite Hc.
  - unfold ep_check in Hc. by destruct (ep_check_open _ _ _ _ _).
Qed.

Lemma deliver_ok f s s4 : opening f s s4 -> wconf f s s4 (Ok tt).
Proof.
  intros [Hf Hchk Hk Hs Ha (out & E & Hoff & _)]. exists out. split; [done|]. split; [done|]. split; [done|].
  by destruct f.
Qed.
Lemma deliver_full f s s4 (d : st unit) :
  opening f s s4 -> w_closed s = false -> q_full (wqueues s) (accept_dir f) = true ->
  torn_drops s d (drop_frames f) ->
  let '(s', r) := (r ← wasm_protocol_error 3 "accept queue full"; d;; mret r) s4 in wconf f s s' r.
Proof.
  intros Hop Hc Hfull Hd. pose proof Hop as [Hf Hchk Hk Hs Ha Hsent].
  assert (Hb : blamed f s 3 "accept queue full").
  { right. destruct f; try done; (split; [simpl; auto|exact Hfull]). }
  pose proof (error_spec f s s4 3 "accept queue full" Hc Hk Hb) as He.
  unfold mbind, wst_bind, mret, wst_ret. rewrite before_answer in He by done.
  destruct (wasm_protocol_error _ _ s4) as [s5 r]. destruct (He Hsent) as (-> & Ht & Hconf).
  destruct (Hd s5 Ht) as (Ht6 & o & Ho & Hsub). destruct (d s5) as [s6 []]. by eapply Hconf.
Qed.
Lemma deliver_gone f s s4 (d : st unit) :
  opening f s s4 -> q_gone (wqueues s) (accept_dir f) = true ->
  (let s' := (d s4).1 in wabs s' = ep_abandon f (wabs s4) /\ wsane s' /\ wsent s4 (drop_frames f) s') ->
  let '(s', r) := (d;; mret (Err Closed)) s4 in wconf f s s' r.
Proof.
  intros [Hf Hchk Hk Hs Ha Hsent] Hgone Hd. unfold mbind, wst_bind, mret, wst_ret. destruct (d s4) as [s5 []].
  cbn [fst] in Hd. destruct Hd as (Ha5 & Hs5 & Hsent5). rewrite Ha in Ha5.
  destruct (wsent_app _ _ _ _ _ Hsent Hsent5) as (out & E & Hoff & _).
  exists out. split; [done|]. split; [done|]. by destruct f.
Qed.

Lemma deliver_uni_spec f s s3 recv :
  opening f s s3 -> f = OpenUni (rs_id recv) -> wacc_data s3 = wacc_data s -> w_closed s = false -> fresh_recv s3 recv ->
  let '(s', r) := w_deliver_uni recv s3 in wconf f s s' r.
Proof.
  intros Hop -> [= E1 E2 _ _] Hc Hfr. unfold w_deliver_uni.
  assert (Hq : q_full (wqueues s) Uni = no_slot (w_accept_uni_chan s3)
    /\ q_gone (wqueues s) Uni = w_gone (w_accept_uni_tx s3) (w_accept_uni_chan s3)) by (simpl; by rewrite E1, E2).
  destruct Hq as [Hfull Hgone].
  assert (Hdrop : forall c, let s' := (wasm_RecvStream_drop recv (set_w_accept_uni_chan c s3)).1 in
    wabs s' = ep_abandon (OpenUni (rs_id recv)) (wabs (set_w_accept_uni_chan c s3)) /\ wsane s'
    /\ wsent (set_w_accept_uni_chan c s3) (drop_frames (OpenUni (rs_id recv))) s').
  { intros c. apply recv_drop_spec; [|exact Hfr]. eapply wsane_same; [|apply (op_sane _ _ _ Hop)]. done. }
  destruct (w_accept_uni_tx s3) as [i|] eqn:Etx.
  - pose proof (refused_full i recv (w_accept_uni_chan s3)) as Hslot.
    pose proof (try_send_gone _ i recv (w_accept_uni_chan s3)) as Hcl.
    destruct (f_try_send i recv (w_accept_uni_chan s3)) as [[] c]; cbn [fst] in *;
      (assert (Hop4 : opening (OpenUni (rs_id recv)) s (set_w_accept_uni_chan c s3)) by (by apply (opening_same _ _ s3))).
    + by apply deliver_ok.
    + apply deliver_full; [done..|cbn [accept_dir]; rewrite Hfull; by apply Hslot|].
      intros s4 Ht. destruct (torn_recv_drop s recv s4 Ht) as (Ht4 & o & Ho & ->%sublist_nil_r). split; [done|].
      exists []. split; [done|apply sublist_nil_l].
    + apply deliver_gone; [done|cbn [accept_dir]; rewrite Hgone; by apply Hcl|apply Hdrop].
  - apply deliver_gone; [done|cbn [accept_dir]; by rewrite Hgone|].
    apply recv_drop_spec; [apply (op_sane _ _ _ Hop)|exact Hfr].
Qed.

Lemma drop_pair_spec s (p : wasm_SendStream * RecvStream) id :
  wsane s -> fresh_send s p.1 -> fresh_recv s p.2 -> ws_id p.1 = id -> rs_id p.2 = id ->
  let s' := (wasm_drop_pair p s).1 in
  wabs s' = ep_abandon (OpenBi id) (wabs s) /\ wsane s' /\ wsent s (drop_frames (OpenBi id)) s'.
Proof.
  intros Hs Hfs Hfr <- Hid. unfold wasm_drop_pair, mbind, wst_bind.
  pose proof (send_drop_spec s p.1 Hs Hfs) as Hd. destruct (wasm_SendStream_drop p.1 s) as [s1 []]. cbn [fst] in Hd.
  destruct Hd as (Ha1 & Hs1 & Hsent1 & E1 & E2).
  destruct (recv_drop_spec s1 p.2 Hs1) as (Ha2 & Hs2 & Hsent2).
  { destruct Hfr as [Hrs Hc]. split; [by rewrite E1|by rewrite E2]. }
  rewrite Hid in *. split_and!; [by rewrite Ha2, Ha1|done|].
  exact (wsent_app _ [ResetStream (ws_id p.1) 0] _ _ _ Hsent1 Hsent2).
Qed.

Lemma deliver_bi_spec f s s3 p :
  opening f s s3 -> f = OpenBi (rs_id p.2) -> ws_id p.1 = rs_id p.2 -> wacc_data s3 = wacc_data s -> w_closed s = false ->
  fresh_send s3 p.1 -> fresh_recv s3 p.2 ->
  let '(s', r) := w_deliver_bi p s3 in wconf f s s' r.
Proof.
  intros Hop -> Hid [= _ _ E1 E2] Hc Hfs Hfr. unfold w_deliver_bi.
  assert (Hq : q_full (wqueues s) Bi = no_slot (w_accept_bi_chan s3)
    /\ q_gone (wqueues s) Bi = w_gone (w_accept_bi_tx s3) (w_accept_bi_chan s3)) by (simpl; by rewrite E1, E2).
  destruct Hq as [Hfull Hgone].
  destruct (w_accept_bi_tx s3) as [i|] eqn:Etx.
  - pose proof (refused_full i p (w_accept_bi_chan s3)) as Hslot.
    pose proof (try_send_gone _ i p (w_accept_bi_chan s3)) as Hcl.
    destruct (f_try_send i p (w_accept_bi_chan s3)) as [[] c]; cbn [fst] in *;
      (assert (Hop4 : opening (OpenBi (rs_id p.2)) s (set_w_accept_bi_chan c s3)) by (by apply (opening_same _ _ s3))).
    + by apply deliver_ok.
    + apply deliver_full; [done..|cbn [accept_dir]; rewrite Hfull; by apply Hslot|].
      intros s4 Ht. destruct (torn_drop_pair s p s4 Ht) as (Ht4 & o & Ho & Hsub). split; [done|].
      exists o. split; [done|]. etrans; [exact Hsub|]. rewrite Hid. apply sublist_skip, sublist_nil_l.
    + apply deliver_gone; [done|cbn [accept_dir]; rewrite Hgone; by apply Hcl|].
      apply drop_pair_spec; try done. eapply wsane_same; [|apply (op_sane _ _ _ Hop)]. done.
  - apply deliver_gone; [done|cbn [accept_dir]; by rewrite Hgone|].
    apply drop_pair_spec; try done. apply (op_sane _ _ _ Hop).
Qed.

Lemma initial_credit_spec s id :
  let s' := (w_initial_credit id s).1 in
  wdata s' = wdata s /\ w_closed s' = w_closed s /\ wacc_data s' = wacc_data s
  /\ w_send_cells s' = w_send_cells s /\ wsent s [MaxStreamData id (initial_stream_window (w_limits s))] s'.
Proof.
  unfold w_initial_credit.
  destruct (tdata_try_send (MaxStreamData id (initial_stream_window (w_limits s))) s) as [[= E _ _ _ _ _ _] Hw].
  pose proof (try_send_spec (MaxStreamData id (initial_stream_window (w_limits s))) s) as Hs.
  assert (wacc_data (wasm_try_send_frame (MaxStreamData id (initial_stream_window (w_limits s))) s).1 = wacc_data s
    /\ w_send_cells (wasm_try_send_frame (MaxStreamData id (initial_stream_window (w_limits s))) s).1 = w_send_cells s)
    as [Ha Hc] by (unfold wasm_try_send_frame; by destruct (f_try_send _ _ _) as [[] ?]).
  destruct (wasm_try_send_frame _ s) as [s1 r]. destruct Hs as [Hs _]. by split_and!.
Qed.
Lemma fresh_recv_same s s' h : wdata s' = wdata s -> fresh_recv s h -> fresh_recv s' h.
Proof. intros [= E1 E2 _ _ _ _ _ _ _]. unfold fresh_recv. by rewrite E1, E2. Qed.

(** The common part of both OPEN frames. *)
Definition open_with (dir : StreamDir) (name : string) (k : RecvStream -> st (result unit)) id :
  st (result unit) :=
  if negb (bool_decide (StreamId_dir id = dir)) then
    wasm_protocol_error 1
      (name +:+ " with non-" +:+ (match dir with Uni => "uni" | Bi => "bi" end) +:+ " StreamId")
  else if negb (initiator_is_server id) then wasm_protocol_error 1 (name +:+ " with wrong initiator")
  else
    valid ← wasm_validate_peer_stream_id id;
    if negb valid then wasm_protocol_error 1 (name +:+ " with non-monotonic StreamId")
    else
      r ← w_register_inbound id;
      match r with
      | Err (code, reason) => wasm_protocol_error code reason
      | Ok recv => k recv
      | Panic => mret Panic
      end.

(** The receive direction is registered. *)
Record registered s id (dir : StreamDir) s2 (recv : RecvStream) : Prop := {
  rg_sane : wsane s2;
  rg_data : sdata s2 = sdata s;
  rg_id : rs_id recv = id;
  rg_fresh : fresh_recv s2 recv;
  rg_abs : wabs s2 = ep_open (w_limits s) (wabs s) id dir
}.

Lemma open_with_spec f dir name k id s :
  wasm_handle_frame f = open_with dir name k id ->
  (forall v, ep_check_open (w_limits s) (wabs s) id dir name = Some v ->
     ep_check (w_limits s) (wabs s) f = Some v /\ ep_before (w_limits s) (wabs s) f = []) ->
  (forall s2 recv, ep_check_open (w_limits s) (wabs s) id dir name = None -> registered s id dir s2 recv ->
     let '(s', r) := k recv s2 in wconf f s s' r) ->
  w_closed s = false -> wframe_ok f s.
Proof.
  intros Hf Hchk Hk Hc. unfold ep_check_open in Hchk, Hk. unfold open_with in Hf.
  destruct (bool_decide (StreamId_dir id = dir)) eqn:Hdir; cbn [negb] in *.
  2:{ destruct (Hchk _ eq_refl). by eapply step_violation; [rewrite Hf|..]. }
  apply bool_decide_eq_true in Hdir. cbn [ep_server wabs] in Hchk, Hk.
  destruct (initiator_is_server id) eqn:Hinit; cbn [negb eqb] in *.
  2:{ destruct (Hchk _ eq_refl). by eapply step_violation; [rewrite Hf|..]. }
  intros Hs _. rewrite Hf. unfold mbind, wst_bind.
  pose proof (validate_spec s id dir Hdir) as Hv. destruct (wasm_validate_peer_stream_id id s) as [s1 valid].
  destruct Hv as (-> & Hd1 & Hs1 & Hsame & Ha1). pose proof Hd1 as [= E1 E2 E3 E4 E5 E6 E7].
  destruct (StreamId_counter id <? ep_peer_next (wabs s) dir) eqn:Ectr; cbn [negb] in *.
  { rewrite (Hsame eq_refl). destruct (Hchk _ eq_refl). by apply conforms_violation; [|apply wkept_refl|..]. }
  specialize (Ha1 eq_refl). specialize (Hs1 Hs).
  pose proof (register_spec s1 id Hs1) as Hr. destruct (w_register_inbound id s1) as [s2 [h|[code reason]|]]; [..|done].
  - destruct Hr as (Hlim & Hd2 & Hs2 & Hid & Hfr & Ha2). rewrite Ha1, E4 in Hlim. apply Hk; [exact Hlim|].
    constructor; [done|by rewrite Hd2|done..|]. rewrite Ha2, Ha1, E4. by destruct dir.
  - destruct Hr as [-> Hr]. rewrite Ha1, E4 in Hr. destruct (Hchk _ Hr). destruct (sdata_kept _ _ Hd1).
    by apply conforms_violation.
Qed.

Lemma step_open_uni id s : w_closed s = false -> wframe_ok (OpenUni id) s.
Proof.
  intros Hc. apply (open_with_spec _ Uni "OpenUni" (fun recv => w_initial_credit id;; w_deliver_uni recv) id);
    [done| | |done].
  { intros v E. split; [done|]. unfold ep_before. by rewrite E. }
  intros s2 recv Hchk [Hs2 Hd2 Hid Hfr Ha2]. unfold mbind, wst_bind. destruct (sdata_kept _ _ Hd2) as [Hk Ho].
  destruct (initial_credit_spec s2 id) as (Hw & Hcl & Had & _ & Hsent). destruct (w_initial_credit id s2) as [s3 []].
  cbn [fst] in *. pose proof Hd2 as [= E1 E2 E3 E4 E5 E6 E7 E8 E9 E10]. pose proof Hw as [= _ _ F3 F4 _ _ _ _ F9].
  apply deliver_uni_spec; [|by rewrite Hid| |done|by eapply fresh_recv_same].
  - rewrite E4 in Hsent. constructor; [done..| |by eapply wsane_same| |].
    + destruct Hk as (K1 & K2 & K3). unfold wkept. rewrite F3, F4. split_and!; [done..|congruence].
    + by rewrite (wabs_same _ _ Hw).
    + eapply wsent_after; [exact Ho|exact Hsent].
  - rewrite Had. unfold wacc_data. congruence.
Qed.

Lemma register_flow_spec s id :
  wsane s ->
  let '(s', r) := wasm_register_send_flow id 0 s in
  match r with
  | Ok _ => Z.of_nat (size (ep_send (wabs s))) < max_open_streams (w_limits s) /\ ep_send (wabs s) !! id = None
      /\ wsane s' /\ wabs s' = ep_set_send (<[id := 0]> (ep_send (wabs s))) (wabs s)
      /\ wkept s s' /\ wout_data s' = wout_data s /\ wacc_data s' = wacc_data s /\ w_streams s' = w_streams s
      /\ w_recv_cells s' = w_recv_cells s
  | Err err => s' = s /\
      ((max_open_streams (w_limits s) <= Z.of_nat (size (ep_send (wabs s)))
        /\ Error_to_string err = "protocol error: too many open send streams")
       \/ (Z.of_nat (size (ep_send (wabs s))) < max_open_streams (w_limits s)
        /\ is_Some (ep_send (wabs s) !! id)
        /\ Error_to_string err = "protocol error: duplicate send stream"))
  | Panic => False
  end.
Proof.
  intros Hs. unfold wasm_register_send_flow. simpl. rewrite map_size_fmap, lookup_fmap.
  destruct (Z.leb_spec (max_open_streams (w_limits s)) (Z.of_nat (size (w_send_flows s)))); [auto|].
  destruct (w_send_flows s !! id) eqn:E; simpl; [naive_solver|]. split_and!; try done.
  - destruct Hs. constructor; simpl; try done.
    + intros i k [[<- <-]|[_ Hi]]%lookup_insert_Some.
      * rewrite lookup_app_r, Nat.sub_diag by done. by eexists.
      * destruct (sane_flows0 i k Hi) as (fl & Hfl & ?). exists fl. split; [|done]. by apply lookup_app_l_Some.
    + intros i j k [[<- <-]|[_ Hi]]%lookup_insert_Some [[<- Hk]|[_ Hj]]%lookup_insert_Some; try done.
      * destruct (sane_flows0 _ _ Hj) as (fl & ?%lookup_lt_Some & _). lia.
      * subst k. destruct (sane_flows0 _ _ Hi) as (fl & ?%lookup_lt_Some & _). lia.
      * eauto.
  - unfold wabs, ep_set_send. simpl. f_equal. apply map_eq. intros i. rewrite lookup_fmap.
    destruct (decide (i = id)) as [->|Hi].
    + rewrite !lookup_insert_eq. simpl. unfold w_flow_at. simpl. by rewrite lookup_app_r, Nat.sub_diag.
    + rewrite !lookup_insert_ne, lookup_fmap by done. destruct (w_send_flows s !! i) as [k|] eqn:Ei; [|done].
      simpl. destruct (sane_flows s Hs i k Ei) as (fl & Hfl & _). unfold w_flow_at. simpl.
      by rewrite (lookup_app_l_Some _ _ _ _ Hfl), Hfl.
  - split_and!; [by apply insert_subseteq| |done].
    intros k Hk. simpl. rewrite lookup_app_l; [done|]. by apply lookup_lt_is_Some.
Qed.

(** The bidirectional part: credit, the send flow, and the pair of handles. *)
Definition bi_rest id (recv : RecvStream) : st (result unit) :=
  w_initial_credit id;;
  fl ← wasm_register_send_flow id 0;
  match fl with
  | Ok flow => send ← wasm_SendStream_new id flow; w_deliver_bi (send, recv)
  | Err err => r ← wasm_protocol_error 3 (Error_to_string err); wasm_RecvStream_drop recv;; mret r
  | Panic => mret Panic
  end.

Lemma send_new_spec s id flow :
  let '(s', h) := wasm_SendStream_new id flow s in
  wdata s' = wdata s /\ w_closed s' = w_closed s /\ wacc_data s' = wacc_data s /\ wout_data s' = wout_data s
  /\ ws_id h = id /\ fresh_send s' h.
Proof.
  unfold wasm_SendStream_new, mbind, wst_bind, w_outbound_clone. pose proof (fview_clone _ (w_outbound s)) as Hv.
  destruct (f_clone (w_outbound s)) as [i c]. cbn [snd] in Hv. simpl. split_and!; try done.
  - change (wout_data (set_w_outbound c s) = wout_data s). apply odata_outbound. right. by eexists.
  - eexists. simpl. rewrite lookup_app_r, Nat.sub_diag by done. by split_and!.
Qed.

Lemma wkept_trans s1 s2 s3 : wkept s1 s2 -> wkept s2 s3 -> wkept s1 s3.
Proof. intros (A1 & A2 & A3) (B1 & B2 & B3). split_and!; [by etrans|auto|congruence]. Qed.
Lemma wkept_data s s' : wdata s' = wdata s -> w_closed s' = w_closed s -> wkept s s'.
Proof. intros [= _ _ E3 E4 _ _ _ _ _] E. unfold wkept. rewrite E3, E4. by split_and!. Qed.

Lemma bi_rest_spec s s2 id recv :
  ep_check_open (w_limits s) (wabs s) id Bi "OpenBi" = None -> w_closed s = false -> registered s id Bi s2 recv ->
  let '(s', r) := bi_rest id recv s2 in wconf (OpenBi id) s s' r.
Proof.
  intros Hchk Hc [Hs2 Hd2 Hid Hfr Ha2]. unfold bi_rest, mbind, wst_bind. destruct (sdata_kept _ _ Hd2) as [Hk2 Ho2].
  destruct (initial_credit_spec s2 id) as (Hw & Hcl & Had & _ & Hsent). destruct (w_initial_credit id s2) as [s3 []].
  cbn [fst] in *. pose proof Hd2 as [= E1 E2 E3 E4 E5 E6 E7 E8 E9 E10]. pose proof Hw as [= W1 W2 _ _ _ _ _ _ W9].
  rewrite E4 in Hsent. pose proof (wsent_after _ _ _ _ Ho2 Hsent) as Hsent3.
  pose proof (wkept_trans _ _ _ Hk2 (wkept_data _ _ Hw Hcl)) as Hk3.
  pose proof (wsane_same _ _ Hw Hs2) as Hs3.
  pose proof (register_flow_spec s3 id Hs3) as Hr. rewrite (wabs_same _ _ Hw), Ha2, W9, E4 in Hr.
  change (ep_send (ep_open (w_limits s) (wabs s) id Bi)) with (ep_send (wabs s)) in Hr.
  destruct (wasm_register_send_flow id 0 s3) as [s4 [flow|err|]]; [..|done].
  - destruct Hr as (Hsize & Hnone & Hs4 & Ha4 & Hk4 & Ho4 & Had4 & R1 & R2).
    pose proof (send_new_spec s4 id flow) as Hn. destruct (wasm_SendStream_new id flow s4) as [s5 h].
    destruct Hn as (Hw5 & Hc5 & Had5 & Ho5 & Hhid & Hfs). pose proof Hw5 as [= V1 V2 _ _ _ _ _ _ _].
    apply deliver_bi_spec; cbn [fst snd]; [|by rewrite Hid|congruence| |done..|].
    + constructor; [done| | |by eapply wsane_same|by rewrite (wabs_same _ _ Hw5), Ha4|].
      * unfold ep_check. rewrite Hchk, Hnone. by rewrite (proj2 (Z.leb_gt _ _) Hsize).
      * eapply wkept_trans; [exact Hk3|]. eapply wkept_trans; [exact Hk4|by apply wkept_data].
      * eapply wsent_then; [exact Hsent3|]. by rewrite Ho5.
    + rewrite Had5, Had4, Had. unfold wacc_data. congruence.
    + unfold fresh_recv in *. by rewrite V1, V2, R1, R2, W1, W2.
  - destruct Hr as [-> Hr].
    assert (Hv : ep_check (w_limits s) (wabs s) (OpenBi id) = Some (3, Error_to_string err)).
    { unfold ep_check. rewrite Hchk. destruct Hr as [[Hsize ->]|(Hsize & [x Hx] & ->)].
      - by rewrite (proj2 (Z.leb_le _ _) Hsize).
      - by rewrite (proj2 (Z.leb_gt _ _) Hsize), Hx. }
    pose proof (error_spec (OpenBi id) s s3 3 (Error_to_string err) Hc Hk3 ltac:(by left)) as Hp.
    unfold ep_before in Hp. rewrite Hchk in Hp.
    destruct (wasm_protocol_error _ _ s3) as [s5 r]. destruct (Hp Hsent3) as (-> & Ht & Hconf).
    destruct (torn_recv_drop s recv s5 Ht) as (Ht6 & o & Ho & ->%sublist_nil_r).
    destruct (wasm_RecvStream_drop recv s5) as [s6 []]. apply (Hconf s6 []); [done..|apply sublist_nil_l].
Qed.

Lemma step_open_bi id s : w_closed s = false -> wframe_ok (OpenBi id) s.
Proof.
  intros Hc. apply (open_with_spec _ Bi "OpenBi" (bi_rest id) id); [done| | |done].
  - intros v E. unfold ep_check, ep_before. by rewrite E.
  - intros s2 recv ??. by apply bi_rest_spec.
Qed.

Lemma step_close code reason s : wframe_ok (ConnectionClose code reason) s.
Proof.
  intros Hs Hc. cbn [wasm_handle_frame]. unfold mbind, wst_bind, mret, wst_ret.
  pose proof (close_all_torn s Hc) as Ht. pose proof (close_all_odata s) as Ho.
  destruct (wasm_close_all s) as [s1 []]. injection Ho as Ho _. exists []. by rewrite app_nil_r.
Qed.

Lemma step_frame f s : wframe_ok f s.
Proof.
  destruct f as [id|id|id data fin|id code|id code|id max|code reason].
  - intros Hs Hc. by apply step_open_uni.
  - intros Hs Hc. by apply step_open_bi.
  - apply step_stream.
  - apply step_reset.
  - apply step_stop.
  - apply step_max.
  - apply step_close.
Qed.

Lemma winv_wsane s T : winv s T -> wsane s.
Proof.
  intros HI. destruct HI as [HS HR]. constructor.
  - intros id rs Hrs. destruct (ri_streams _ _ _ _ HR id rs Hrs) as (_ & c & Hc & _). by eapply lookup_lt_Some.
  - intros id k Hk. pose proof (lookup_weaken _ _ _ _ Hk (si_map _ _ HS)) as Hof.
    destruct (si_accounts _ _ HS id k Hof) as (fl & Hfl & _). exists fl. split; [done|].
    by eapply (si_open _ _ HS).
  - intros i j k Hi Hj. eapply (si_inj _ _ HS); by eapply lookup_weaken; [|apply (si_map _ _ HS)].
  - intros id rs Hrs. destruct (ri_streams _ _ _ _ HR id rs Hrs) as (_ & c & Hc & ?). lia.
Qed.
End WasmRefine.

Section WasmProtocol.
Context {fchan : Type -> Type} `{FMpscLaws fchan} `{!MapOrder} `{!MapOrderLaws} `{!UsizeWidth}.
Context (l : Limits) (s0 : WasmSession fchan).
Context (Hwidth : 0 <= usize_bits) (Husize : limits_usize l).
Context (Hframe : max_stream_data_per_frame l + 33 <= usize_max).
Context (Hnew : wasm_Session_new l = Ok s0).

(** C3: the browser session implements the protocol's endpoint.  A new session is a
    fresh endpoint.  In every state clients, peer and scheduler can lead an open
    session to, the handling of a frame conforms to the specification, in its result,
    the new state and the frames it offers the outbound queue: a violation ends the
    session, leaves nothing of any stream and releases every blocked writer, and the
    peer is told exactly the specified code and reason; every other frame makes exactly
    the specified change and is answered with exactly the specified frame, or is refused
    because a local queue is full; a close of the peer tears the session down; and a
    stream nobody accepts is stopped and reset.  (A frame that is offered to a queue
    without a free slot may be lost.) *)
Theorem wasm_refines_protocol :
  wabs s0 = ep_new false
  /\ forall s ths f, pool_reach wasm_api w_no_wrap s0 (s, ths) -> w_closed s = false ->
     let '(s', r) := wasm_handle_frame f s in
     exists out, w_out_log s' = w_out_log s ++ out
       /\ conforms false l (wqueues s) (wabs s) f r (fun e => wabs s' = e) (torn s s') out.
Proof.
  split.
  - unfold wasm_Session_new in Hnew. destruct (wasm_Limits_validate l) as [[]| |]; [|done..].
    simpl in Hnew. simplify_eq. unfold wabs. simpl. by rewrite !fmap_empty.
  - intros s ths f Hr Hc. destruct (wasm_inv l s0 Hwidth Husize Hframe Hnew s ths Hr) as (<- & T & HI).
    pose proof (step_frame f s (winv_wsane s T HI) Hc) as Hstep.
    destruct (wasm_handle_frame f s) as [s' r]. destruct Hstep as (out & E & Hconf). exists out. split; [done|].
    eapply conforms_mono; [|exact Hconf]. by intros e [? _].
Qed.
End WasmProtocol.

(** *** A concrete session *)
Section Demo.
#[local] Existing Instance list_order.
#[local] Existing Instance usize32.

(** The peer sends data for a stream that is not there, and is told so. *)
Lemma wasm_refines_protocol_witness :
  wabs wdemo_end.1 = mkEndpoint false {[mkStreamId 1 := mkRecvDir 3 (512 * 1024) false]} {[mkStreamId 1 := 0]} 1 0 0 1
  /\ ep_check Limits_default (wabs wdemo_end.1) (Stream (mkStreamId 9) [] false)
     = Some (2, "Stream data on unknown stream")
  /\ w_out_log (wasm_handle_frame (Stream (mkStreamId 9) [] false) wdemo_end.1).1
     = w_out_log wdemo_end.1 ++ [ConnectionClose 2 "Stream data on unknown stream"]
  /\ let '(s', r) := wasm_handle_frame (Stream (mkStreamId 9) [] false) wdemo_end.1 in
     exists out, w_out_log s' = w_out_log wdemo_end.1 ++ out
       /\ conforms false Limits_default (wqueues wdemo_end.1) (wabs wdemo_end.1) (Stream (mkStreamId 9) [] false) r
            (fun e => wabs s' = e) (torn wdemo_end.1 s') out.
Proof.
  split; [vm_compute; reflexivity|]. split; [vm_compute; reflexivity|]. split; [vm_compute; reflexivity|].
  apply (wasm_refines_protocol Limits_default wdemo_start) with (ths := wdemo_end.2).
  - vm_compute. discriminate.
  - apply wdemo_usize.
  - vm_compute. discriminate.
  - exact wdemo_new.
  - exact wdemo_reach.
  - vm_compute. reflexivity.
Defined.
End Demo.
