(* ===== verification/NativeRefine.v ===== *)
(** * The native session refines the protocol

    The counterpart of [WasmRefine] for the session of the native crates: run alone,
    the handler of a frame takes the step of the abstract endpoint [Protocol] and queues
    the frames it asks for, or waits for room in the outbound queue. *)

From S2P Require Import Prelude Buf VarInt Frame Proto Limits SendFlow Channel Async NativeState.
From S2P Require Import NativeOps NativeStream NativeRecv NativeSession NativeTasks Credit NativeInv.
From S2P Require Import NativeSteps Keep NativeSafe NativeSpecs NativeStreamSpecs NativeSendSpecs.
From S2P Require Import NativeSessionSpecs NativePool NativeProps Protocol ByteStream NativeReads.
Open Scope mux_scope.

Section NativeRefine.
Context {chan : Type -> Type} `{MpscLaws chan} `{!MapOrder}.
Implicit Types (s : SessionInner chan) (id : StreamId) (e : endpoint).

Definition ndir s (rs : RecvState) : recv_dir :=
  mkRecvDir (received rs) (rc_max_data (cell_of s (mkRecvStream (mkStreamId 0) (recv_cell rs)))) (stopped rs).
Definition nabs s : endpoint :=
  mkEndpoint (is_server s) (ndir s <$> streams s) ((fun k => flow_max (flow_at s k)) <$> send_flows s)
    (next_uni s) (next_bi s) (next_peer_uni s) (next_peer_bi s).

Record nsane s : Prop := {
  nsane_cells : forall id rs, streams s !! id = Some rs -> (recv_cell rs < length (recv_cells s))%nat;
  nsane_flows : forall id k, send_flows s !! id = Some k ->
    exists fl, flows s !! k = Some fl /\ flow_closed fl = false;
  nsane_inj : forall i j k, send_flows s !! i = Some k -> send_flows s !! j = Some k -> i = j;
  nsane_received : forall id rs, streams s !! id = Some rs -> 0 <= received rs;
  nsane_grants : Forall (fun c => rc_granted c = rc_max_data c) (recv_cells s)
}.

(** Nothing is left of the streams, and every writer was released. *)
Record ntorn s0 s : Prop := {
  ntorn_closed : closed s = true;
  ntorn_streams : streams s = ∅;
  ntorn_flows : send_flows s = ∅;
  ntorn_credit : pending_credit s = ∅;
  ntorn_accept : accept_uni_tx s = false /\ accept_bi_tx s = false;
  ntorn_writers : forall id k, send_flows s0 !! id = Some k -> is_Some (flows s0 !! k) ->
    flow_closed (flow_at s k) = true
}.

(** ** Running a handler alone

    [runs w s p Q]: [p] ends in a result that satisfies [Q], or, where [w] allows it,
    waits for a slot of the outbound queue. *)
Definition runs {A} (w : Prop) s (p : nprog chan A) (Q : A -> SessionInner chan -> Prop) : Prop :=
  match run p s with
  | (s', Some a) => Q a s'
  | (s', None) => w /\ (tx_reserve (outbound s')).1 = ReservePending
  end.

Lemma runs_ret {A} w s (a : A) (Q : A -> SessionInner chan -> Prop) : Q a s -> runs w s (Ret a) Q.
Proof. done. Qed.
Lemma runs_bind {A B} w s (p : nprog chan A) (k : A -> nprog chan B) P Q :
  runs w s p P -> (forall a s1, P a s1 -> runs w s1 (k a) Q) -> runs w s (pbind p k) Q.
Proof.
  unfold runs. intros Hp Hk. rewrite run_bind. destruct (run p s) as [s1 [a|]]; [|done]. by apply Hk.
Qed.
Lemma runs_mono {A} w s (p : nprog chan A) (P Q : A -> SessionInner chan -> Prop) :
  runs w s p P -> (forall a s', P a s' -> Q a s') -> runs w s p Q.
Proof. unfold runs. intros Hp HPQ. destruct (run p s) as [s1 [a|]]; [by apply HPQ|done]. Qed.
Lemma runs_and {A} w s (p : nprog chan A) (P Q : A -> SessionInner chan -> Prop) :
  runs w s p P -> runs w s p Q -> runs w s p (fun a s' => P a s' /\ Q a s').
Proof. unfold runs. by destruct (run p s) as [s1 [a|]]. Qed.
Lemma runs_atomic {A} w s (f : SessionInner chan -> SessionInner chan * A) (Q : A -> SessionInner chan -> Prop) :
  Q (f s).2 (f s).1 -> runs w s (atomic f) Q.
Proof. unfold runs. simpl. by destruct (f s). Qed.
Lemma runs_gets {A B} w s (f : SessionInner chan -> A) (k : A -> nprog chan B) Q :
  runs w s (k (f s)) Q -> runs w s (pbind (gets f) k) Q.
Proof. done. Qed.
Lemma runs_with_drop {A} w s d (p : nprog chan A) Q : runs w s p Q -> runs w s (with_drop d p) Q.
Proof. unfold runs. by rewrite run_with_drop. Qed.
Lemma runs_dropping {A} w s d (p : nprog chan A) Q :
  runs w s p (fun a s1 => runs w s1 d (fun _ s2 => Q a s2)) -> runs w s (dropping d p) Q.
Proof.
  intros Hp. eapply runs_bind; [by apply runs_with_drop|]. intros a s1 Hd.
  eapply runs_bind; [exact Hd|]. intros u s2 HQ. by apply runs_ret.
Qed.

(** Programs that never wait and leave a part of the state alone. *)
Definition keeps {A X} (D : SessionInner chan -> X) (p : nprog chan A) : Prop :=
  forall s, D (run p s).1 = D s /\ is_Some (run p s).2.
Lemma keeps_runs {A X} (D : SessionInner chan -> X) w s (p : nprog chan A) :
  keeps D p -> runs w s p (fun _ s' => D s' = D s).
Proof. intros Hp. unfold runs. destruct (Hp s) as [Hd [a Ha]]. by destruct (run p s) as [s' []]. Qed.
Lemma keeps_ret {A X} (D : SessionInner chan -> X) (a : A) : keeps D (Ret a).
Proof. intros s. split; [done|]. by eexists. Qed.
Lemma keeps_bind {A B X} (D : SessionInner chan -> X) (p : nprog chan A) (k : A -> nprog chan B) :
  keeps D p -> (forall a, keeps D (k a)) -> keeps D (pbind p k).
Proof.
  intros Hp Hk s. rewrite run_bind. destruct (Hp s) as [Hd [a Ha]]. destruct (run p s) as [s1 r].
  simpl in *. subst r. destruct (Hk a s1) as [Hd2 ?]. split; [by rewrite Hd2|done].
Qed.
Lemma keeps_atomic {A X} (D : SessionInner chan -> X) (f : SessionInner chan -> SessionInner chan * A) :
  (forall s, D (f s).1 = D s) -> keeps D (atomic f).
Proof. intros Hf s. specialize (Hf s). simpl. destruct (f s). split; [done|]. by eexists. Qed.
Lemma keeps_modify {X} (D : SessionInner chan -> X) f : (forall s, D (f s) = D s) -> keeps D (modify f).
Proof. intros Hf. by apply keeps_atomic. Qed.
Lemma keeps_gets {A X} (D : SessionInner chan -> X) (f : SessionInner chan -> A) : keeps D (gets f).
Proof. by apply keeps_atomic. Qed.

Ltac kp :=
  repeat first
    [ apply keeps_ret | apply keeps_gets
    | lazymatch goal with |- keeps _ (pbind _ _) => apply keeps_bind; [|intros ?] end
    | apply keeps_modify; intros ?; repeat case_match; done
    | apply keeps_atomic; intros ?; repeat case_match; simpl; done
    | case_match ].

(** What the abstraction reads, and what tearing down changes. *)
Definition adata s := (streams s, recv_cells s, send_flows s, flows s,
  (next_uni s, next_bi s, next_peer_uni s, next_peer_bi s), (limits s, is_server s, closed s)).
Definition bdata s := (closed s, streams s, send_flows s, pending_credit s,
  (accept_uni_tx s, accept_bi_tx s), flows s).
(** The free slots of the outbound queue, what was queued, and the accept queues. *)
Definition nslots s : nat :=
  let v := view (outbound s) in
  if shutdown_started s || negb (cv_rx v) then 0
  else Z.to_nat (cv_cap v - (Z.of_nat (length (cv_buf v)) + cv_permits v)).
Definition odata s := (out_log s, nslots s).
Definition acc_data s := (accept_uni_tx s, accept_uni_chan s, accept_bi_tx s, accept_bi_chan s).
(** What the handling of the receive side leaves alone. *)
Definition edata s := (closed s, send_flows s, flows s, limits s).
Definition ddata s := (closed s, send_flows s, flows s, limits s, odata s, acc_data s).

Lemma nabs_same s s' : adata s' = adata s -> nabs s' = nabs s.
Proof.
  intros [= E1 E2 E3 E4 E5 E6 E7 E8 E9 E10 E11]. unfold nabs, ndir, flow_at, cell_of.
  by rewrite E1, E2, E3, E4, E5, E6, E7, E8, E10.
Qed.
Lemma nsane_same s s' : adata s' = adata s -> nsane s -> nsane s'.
Proof.
  intros [= E1 E2 E3 E4 E5 E6 E7 E8 E9 E10 E11] []. constructor; rewrite ?E1, ?E2, ?E3, ?E4; done.
Qed.
Lemma ntorn_same s0 s s' : bdata s' = bdata s -> ntorn s0 s -> ntorn s0 s'.
Proof.
  intros [= E1 E2 E3 E4 E5 E6 E7] []. constructor; unfold flow_at in *; by rewrite ?E1, ?E2, ?E3, ?E4, ?E5, ?E6, ?E7.
Qed.
Lemma ntorn_mono s0 s1 s :
  send_flows s0 ⊆ send_flows s1 -> (forall k, is_Some (flows s0 !! k) -> is_Some (flows s1 !! k)) ->
  ntorn s1 s -> ntorn s0 s.
Proof.
  intros Hsub Hfl []. constructor; try done. intros id k Hk Hs. eapply ntorn_writers0; [|auto].
  by eapply lookup_weaken.
Qed.
Lemma ntorn_ddata s0 s1 s : ddata s1 = ddata s0 -> ntorn s1 s -> ntorn s0 s.
Proof. intros [= E1 E2 E3 E4 _ _ _ _ _ _]. by apply ntorn_mono; [rewrite E2|rewrite E3]. Qed.

Lemma keeps_try_send {X} (D : SessionInner chan -> X) f :
  (forall c s, D (set_outbound c s) = D s) -> (forall l s, D (set_out_log l s) = D s) ->
  keeps D (try_send_frame f).
Proof.
  intros Ho Hl. unfold try_send_frame, is_closed. kp. apply keeps_atomic. intros s. unfold try_push_frame.
  destruct (tx_try_send _ _) as [[] c]; simpl; rewrite ?Hl; apply Ho.
Qed.
Lemma keeps_shutdown {X} (D : SessionInner chan -> X) :
  (forall b s, D (set_shutdown_started b s) = D s) -> (forall b s, D (set_cancel b s) = D s) ->
  keeps D request_shutdown.
Proof. intros Hs Hc. unfold request_shutdown. apply keeps_bind; [|intros ?]; by apply keeps_modify. Qed.

(** ** The queues *)
Definition n_gone {A} (tx : bool) (c : chan A) : bool := negb (tx && cv_rx (view c)).
Definition nqueues s : queues := mkQueues (nslots s)
  (fun dir => match dir with
              | Uni => negb (cv_room (view (accept_uni_chan s)))
              | Bi => negb (cv_room (view (accept_bi_chan s)))
              end)
  (fun dir => match dir with
              | Uni => n_gone (accept_uni_tx s) (accept_uni_chan s)
              | Bi => n_gone (accept_bi_tx s) (accept_bi_chan s)
              end)
  (fun id => match streams s !! id with
             | Some rs => negb (cv_room (view (rc_chan (cell_of s (mkRecvStream id (recv_cell rs))))))
             | None => false
             end).

(** From [s] to [s'] the frames [wanted] were offered to the outbound queue, which took as
    many as it had free slots. *)
Definition nsent s (wanted : list Frame) s' : Prop :=
  out_log s' = out_log s ++ take (nslots s) wanted /\ nslots s' = (nslots s - length wanted)%nat.

Lemma nsent_nil s s' : odata s' = odata s -> nsent s [] s'.
Proof. intros [= E1 E2]. split; [by rewrite take_nil, app_nil_r|simpl; lia]. Qed.
Lemma nsent_app s w1 s1 w2 s2 : nsent s w1 s1 -> nsent s1 w2 s2 -> nsent s (w1 ++ w2) s2.
Proof.
  intros [E1 S1] [E2 S2]. split; [by rewrite E2, E1, take_app, app_assoc, S1|].
  rewrite S2, S1, length_app. lia.
Qed.
Lemma nsent_then s w s1 s2 : nsent s w s1 -> odata s2 = odata s1 -> nsent s w s2.
Proof. intros Hw Ho. rewrite <- (app_nil_r w). eapply nsent_app; [done|by apply nsent_nil]. Qed.
Lemma nsent_after s s1 w s2 : odata s1 = odata s -> nsent s1 w s2 -> nsent s w s2.
Proof. intros Ho Hw. change w with ([] ++ w). eapply nsent_app; [by apply nsent_nil|done]. Qed.
Lemma nsent_refused s f s' : nslots s = 0%nat -> odata s' = odata s -> nsent s [f] s'.
Proof. intros Hz [= E1 E2]. split; [by rewrite Hz, app_nil_r|]. rewrite Hz in *. done. Qed.
Lemma nsent_queued s f s' : (0 < nslots s)%nat -> out_log s' = out_log s ++ [f] -> nslots s' = (nslots s - 1)%nat -> nsent s [f] s'.
Proof. intros Hz E1 E2. split; [|done]. by rewrite take_ge by (simpl; lia). Qed.
Lemma nsent_offered s w s' : nsent s w s' -> exists out, out_log s' = out_log s ++ out /\ offered (nslots s) w out.
Proof. intros [E _]. eexists. split; [exact E|]. split; [done|apply sublist_take]. Qed.
Lemma nsent_none s w s' : nslots s = 0%nat -> nsent s w s' -> odata s' = odata s.
Proof. intros Hz [E S]. rewrite Hz in *. unfold odata. rewrite E, S, Hz, app_nil_r. done. Qed.

(** Views that differ in the number of senders have the same free slots. *)
Lemma nslots_view s s' :
  shutdown_started s' = shutdown_started s ->
  (exists n, view (outbound s') = cv_set_senders n (view (outbound s))) -> nslots s' = nslots s.
Proof. intros E1 [n E2]. unfold nslots. rewrite E1, E2. done. Qed.

(** A frame that is offered is queued, or there was no free slot. *)
Lemma runs_try_send w s f :
  closed s = false ->
  runs w s (try_send_frame f) (fun r s' => adata s' = adata s /\ send_cells s' = send_cells s
    /\ acc_data s' = acc_data s /\ nsent s [f] s' /\ if is_ok r then True else nslots s = 0%nat /\ odata s' = odata s).
Proof.
  intros Hc. unfold try_send_frame, is_closed, runs. rewrite run_bind. simpl. rewrite Hc. simpl. destruct (shutdown_started s) eqn:Esh; simpl.
  { assert (nslots s = 0%nat) as Hz by (unfold nslots; by rewrite Esh). split_and!; try done. by apply nsent_refused. }
  unfold try_push_frame. pose proof (try_send_res_view _ (CmdFrame f) (outbound s)) as Hr.
  pose proof (try_send_view _ (CmdFrame f) (outbound s)) as Hv.
  destruct (tx_try_send (CmdFrame f) (outbound s)) as [r c]. cbn [fst snd] in *. unfold cv_try_send in *.
  assert (Hz : r <> SendOk -> nslots s = 0%nat /\ nslots (set_outbound c s) = nslots s).
  { intros Hne. assert (Hview : view c = view (outbound s)) by (revert Hv Hr; repeat case_match; simpl; congruence).
    split; [|unfold nslots; simpl; by rewrite Hview]. unfold nslots. rewrite Esh. simpl.
    destruct (cv_rx (view (outbound s))) eqn:Erx; simpl in *; [|done].
    destruct (cv_room (view (outbound s))) eqn:Eroom; simpl in *; [congruence|].
    unfold cv_room in Eroom. apply Z.ltb_ge in Eroom. lia. }
  assert (Hno : r <> SendOk -> nsent s [f] (set_outbound c s) /\ nslots s = 0%nat
    /\ odata (set_outbound c s) = odata s).
  { intros Hne. destruct (Hz Hne) as [Hz0 Hs]. assert (odata (set_outbound c s) = odata s)
      by (unfold odata; by rewrite Hs). split_and!; [by apply nsent_refused|done..]. }
  destruct r; simpl.
  - split_and!; try done. destruct (cv_rx (view (outbound s))) eqn:Erx; [|simpl in Hr; congruence].
    destruct (cv_room (view (outbound s))) eqn:Eroom; [|simpl in Hr; congruence].
    simpl in Hv. unfold cv_room in Eroom. apply Z.ltb_lt in Eroom.
    apply nsent_queued; [|done|]; unfold nslots; simpl; rewrite ?Hv; simpl; rewrite Erx, ?length_app, Esh; simpl; lia.
  - destruct (Hno ltac:(done)) as (? & ? & ?). by split_and!.
  - destruct (Hno ltac:(done)) as (? & ? & ?). by split_and!.
Qed.

(** ** Closing *)
Definition nclose_flows (ks : list nat) s : SessionInner chan :=
  foldr (fun k => on_flow k flow_close) s ks.

Lemma nclose_flows_other ks s :
  let s' := nclose_flows ks s in
  closed s' = closed s /\ streams s' = streams s /\ pending_credit s' = pending_credit s
  /\ accept_uni_tx s' = accept_uni_tx s /\ accept_bi_tx s' = accept_bi_tx s
  /\ length (flows s') = length (flows s).
Proof.
  induction ks as [|k ks (IH1 & IH2 & IH3 & IH4 & IH5 & IH6)]; [done|]. simpl.
  split_and!; [done..|by rewrite length_alter].
Qed.

Lemma nclose_flows_closed ks s k :
  is_Some (flows s !! k) -> k ∈ ks -> flow_closed (flow_at (nclose_flows ks s) k) = true.
Proof.
  intros Hk. induction ks as [|j ks IH]; [by intros ?%elem_of_nil|]. intros Hin. simpl.
  assert (is_Some (flows (nclose_flows ks s) !! k)) as [fl Hfl].
  { apply lookup_lt_is_Some. destruct (nclose_flows_other ks s) as (_ & _ & _ & _ & _ & ->).
    by apply lookup_lt_is_Some. }
  unfold flow_at in *. simpl. destruct (decide (j = k)) as [->|Hne].
  - by rewrite list_lookup_alter_eq, Hfl.
  - rewrite list_lookup_alter_ne by done. apply IH. by apply elem_of_cons in Hin as [->|].
Qed.

Lemma clear_streams_other s :
  let s' := clear_streams s in
  streams s' = ∅ /\ closed s' = closed s /\ send_flows s' = send_flows s /\ flows s' = flows s
  /\ pending_credit s' = pending_credit s
  /\ accept_uni_tx s' = accept_uni_tx s /\ accept_bi_tx s' = accept_bi_tx s.
Proof.
  unfold clear_streams. simpl. generalize ((map_to_list (streams s)).*2). intros rss.
  split; [done|]. induction rss as [|rs rss IH]; [done|exact IH].
Qed.

Lemma clear_send_flows_torn s0 s :
  closed s = true -> streams s = ∅ -> pending_credit s = ∅ -> accept_uni_tx s = false ->
  accept_bi_tx s = false -> send_flows s = send_flows s0 -> flows s = flows s0 ->
  ntorn s0 (clear_send_flows s).
Proof.
  intros E1 E2 E3 E4 E5 E6 E7. unfold clear_send_flows. set (ks := (map_to_list (send_flows s)).*2).
  fold (nclose_flows ks s). destruct (nclose_flows_other ks s) as (B1 & B2 & B3 & B4 & B5 & _).
  pose proof (nclose_flows_closed ks s) as Hcl. set (s1 := nclose_flows ks s) in *.
  constructor; simpl; [congruence|congruence|done|congruence|split; congruence|].
  intros id k Hk Hfl. apply Hcl; [by rewrite E7|]. subst ks. rewrite E6.
  apply list_elem_of_fmap. exists (id, k). split; [done|]. by apply elem_of_map_to_list.
Qed.

Lemma runs_close_all w s : closed s = false -> runs w s close_all (fun _ s' => ntorn s s').
Proof.
  intros Hc. unfold close_all.
  eapply runs_bind; [apply (runs_atomic w s _ (fun a s1 => a = false /\ s1 = set_closed true s)); by simpl|].
  intros a s1 [-> ->].
  set (s2 := set_pending_credit ∅ (set_closed true s)).
  eapply (runs_bind _ _ _ _ (fun _ x => x = s2)); [by apply runs_atomic|]. intros _ ? ->.
  set (s3 := if accept_uni_tx s2 then set_accept_uni_tx false
               (set_accept_uni_chan (tx_drop (accept_uni_chan s2)) s2) else s2).
  eapply (runs_bind _ _ _ _ (fun _ x => x = s3)); [done|]. intros _ ? ->.
  set (s4 := if accept_bi_tx s3 then set_accept_bi_tx false
               (set_accept_bi_chan (tx_drop (accept_bi_chan s3)) s3) else s3).
  eapply (runs_bind _ _ _ _ (fun _ x => x = s4)); [done|]. intros _ ? ->.
  eapply (runs_bind _ _ _ _ (fun _ x => x = clear_streams s4)); [by apply runs_atomic|]. intros _ ? ->.
  apply runs_atomic. simpl.
  assert (Hs4 : closed s4 = true /\ pending_credit s4 = ∅ /\ accept_uni_tx s4 = false
    /\ accept_bi_tx s4 = false /\ send_flows s4 = send_flows s /\ flows s4 = flows s).
  { subst s4 s3 s2. simpl. by repeat (case_match; simplify_eq/=). }
  destruct Hs4 as (C1 & C2 & C3 & C4 & C5 & C6).
  destruct (clear_streams_other s4) as (D1 & D2 & D3 & D4 & D5 & D6 & D7).
  apply clear_send_flows_torn; congruence.
Qed.

Lemma keeps_close_all : keeps odata close_all.
Proof.
  unfold close_all, take_accept_uni, take_accept_bi. kp.
  - apply keeps_modify. intros x. unfold clear_streams. generalize ((map_to_list (streams x)).*2). intros rss.
    by induction rss.
  - apply keeps_modify. intros x. unfold clear_send_flows. generalize ((map_to_list (send_flows x)).*2). intros ks.
    by induction ks.
Qed.

Lemma runs_error w s code reason :
  closed s = false ->
  runs w s (protocol_error code reason) (fun r s' => r = Err (Protocol reason) /\ ntorn s s'
    /\ nsent s [ConnectionClose code reason] s').
Proof.
  intros Hc. unfold protocol_error. eapply runs_bind; [by apply runs_try_send|].
  intros u1 s1 (Hd & _ & _ & Hs1 & _). pose proof Hd as [= E1 E2 E3 E4 E5 E6 E7 E8 E9 E10 E11].
  eapply runs_bind; [apply runs_and; [apply runs_close_all; congruence|apply (keeps_runs odata), keeps_close_all]|].
  intros u2 s2 [Ht Ho]. apply runs_ret. split_and!; [done| |by eapply nsent_then].
  eapply ntorn_mono; [..|exact Ht]; [by rewrite E3|by rewrite E4].
Qed.

(** ** One frame *)
Definition nconf f s (r : result unit) s' : Prop :=
  exists out, out_log s' = out_log s ++ out
    /\ conforms true (limits s) (nqueues s) (nabs s) f r (fun e => nabs s' = e /\ nsane s') (ntorn s s') out.
Definition nframe_ok f s : Prop := nsane s -> closed s = false ->
  runs (may_wait f) s (handle_frame f) (nconf f s).

(** A reason to end the session with an error. *)
Definition nblamed f s code reason : Prop :=
  ep_check (limits s) (nabs s) f = Some (code, reason)
  \/ (local_refusal (limits s) (nabs s) f code reason /\ q_refuses (nqueues s) f reason).
(** The parts of the state that hold the writers are still there. *)
Definition nkept s s1 : Prop :=
  send_flows s ⊆ send_flows s1 /\ (forall k, is_Some (flows s !! k) -> is_Some (flows s1 !! k))
  /\ closed s1 = closed s /\ limits s1 = limits s.

Lemma nkept_refl s : nkept s s.
Proof. by split_and!. Qed.
Lemma nkept_trans s1 s2 s3 : nkept s1 s2 -> nkept s2 s3 -> nkept s1 s3.
Proof. intros (A1 & A2 & A3 & A4) (B1 & B2 & B3 & B4). split_and!; [by etrans|auto|congruence..]. Qed.
Lemma nkept_ddata s s1 : ddata s1 = ddata s -> nkept s s1 /\ odata s1 = odata s /\ acc_data s1 = acc_data s.
Proof.
  intros [= E1 E2 E3 E4 E5 E6 E7 E8 E9 E10]. unfold nkept, odata, acc_data. rewrite E2, E3.
  by split_and!; [..|congruence|congruence].
Qed.
Lemma nkept_adata s s1 : adata s1 = adata s -> nkept s s1.
Proof. intros [= E1 E2 E3 E4 E5 E6 E7 E8 E9 E10 E11]. unfold nkept. rewrite E3, E4. by split_and!. Qed.

(** The session ends with an error; nothing is queued after it. *)
Lemma nerror w f s s1 code reason :
  closed s = false -> nkept s s1 -> nblamed f s code reason -> nsent s (ep_before (limits s) (nabs s) f) s1 ->
  runs w s1 (protocol_error code reason) (fun r s2 => r = Err (Protocol reason) /\ ntorn s s2
    /\ forall s3, ntorn s s3 -> out_log s3 = out_log s2 -> nconf f s r s3).
Proof.
  intros Hc (Hsub & Hfl & Hcl & _) Hb Hsent. eapply runs_mono; [apply runs_error; congruence|].
  intros r s2 (-> & Ht & Hs2). split_and!; [done|by eapply ntorn_mono|]. intros s3 Ht3 Hlog.
  destruct (nsent_offered _ _ _ (nsent_app _ _ _ _ _ Hsent Hs2)) as (out & E & Hoff). exists out.
  split; [congruence|]. split; [done|].
  exists code, out, []. rewrite app_nil_r. split_and!; [done..|apply sublist_nil_l].
Qed.
Lemma nrefused w f s s1 code reason :
  closed s = false -> nkept s s1 -> nblamed f s code reason -> nsent s (ep_before (limits s) (nabs s) f) s1 ->
  runs w s1 (protocol_error code reason) (nconf f s).
Proof.
  intros Hc Hk Hb Hs. eapply runs_mono; [by eapply nerror|]. intros r s2 (-> & Ht & Hconf). by apply Hconf.
Qed.
Lemma nviolation w f s s1 code reason :
  ddata s1 = ddata s -> closed s = false -> ep_check (limits s) (nabs s) f = Some (code, reason) ->
  ep_before (limits s) (nabs s) f = [] ->
  runs w s1 (protocol_error code reason) (nconf f s).
Proof.
  intros Hd Hc Hv Hb. destruct (nkept_ddata _ _ Hd) as (Hk & Ho & _). apply nrefused; [done..|by left|].
  rewrite Hb. by apply nsent_nil.
Qed.

(** ** Updates of the receive part *)
Lemma nabs_on_cell k f s :
  (forall c, rc_max_data (f c) = rc_max_data c) -> nabs (on_cell k f s) = nabs s.
Proof.
  intros Hf. unfold nabs. simpl. f_equal. apply map_fmap_ext. intros i rs _. unfold ndir, cell_of. simpl. f_equal.
  destruct (decide (recv_cell rs = k)) as [->|Hne].
  - rewrite list_lookup_alter_eq. by destruct (recv_cells s !! k); simpl.
  - by rewrite list_lookup_alter_ne.
Qed.
Lemma nsane_on_cell k f s :
  (forall c, rc_granted c = rc_max_data c -> rc_granted (f c) = rc_max_data (f c)) -> nsane s -> nsane (on_cell k f s).
Proof.
  intros Hf []. constructor; simpl; try done.
  - intros i rs Hi. rewrite length_alter. eauto.
  - apply Forall_alter; [done|]. intros c _. apply Hf.
Qed.

Lemma nabs_insert s id rs :
  nabs (set_streams (<[id := rs]> (streams s)) s)
  = ep_set_recv (<[id := ndir s rs]> (ep_recv (nabs s))) (nabs s).
Proof. unfold nabs, ep_set_recv. simpl. f_equal. by rewrite fmap_insert. Qed.

Lemma nabs_remove s id :
  let '(s', removed) := remove_recv_stream_locked id s in
  nabs s' = ep_set_recv (delete id (ep_recv (nabs s))) (nabs s) /\ (nsane s -> nsane s')
  /\ ddata s' = ddata s /\ removed = bool_decide (is_Some (ep_recv (nabs s) !! id)).
Proof.
  unfold remove_recv_stream_locked. simpl. rewrite lookup_fmap. destruct (streams s !! id) as [rs|] eqn:E; simpl.
  - split_and!; try done.
    + unfold sender_drop. rewrite nabs_on_cell by done. unfold nabs, ep_set_recv. simpl. f_equal.
      by rewrite fmap_delete.
    + intros Hs. apply nsane_on_cell; [done|]. destruct Hs. constructor; simpl; try done.
      * intros i rs' [_ Hi]%lookup_delete_Some. eauto.
      * intros i rs' [_ Hi]%lookup_delete_Some. eauto.
  - split_and!; try done. unfold nabs, ep_set_recv. simpl. f_equal. rewrite delete_id; [done|].
    by rewrite lookup_fmap, E.
Qed.

(** ** Stream data *)
Lemma account_spec s id data fin :
  nsane s -> (max_stream_data_per_frame (limits s) <? blen data) = false ->
  match account_data id (blen data) s with
  | (s1, Ok (k, st)) => ep_check (limits s) (nabs s) (Stream id data fin) = None
      /\ nsane s1 /\ ddata s1 = ddata s /\ exists d, ep_recv (nabs s) !! id = Some d
         /\ nabs s1 = ep_set_recv (<[id := mkRecvDir (rd_received d + blen data) (rd_limit d) (rd_stopped d)]>
                                    (ep_recv (nabs s))) (nabs s)
         /\ ep_apply (limits s) (nabs s) (Stream id data fin)
            = if fin then ep_set_recv (delete id (ep_recv (nabs s))) (nabs s) else nabs s1
  | (s1, Err reason) => s1 = s /\ ep_check (limits s) (nabs s) (Stream id data fin) = Some (2, reason)
  | (_, Panic) => False
  end.
Proof.
  intros Hs Hlen. unfold account_data, ep_check, ep_apply. rewrite Hlen. simpl. rewrite lookup_fmap.
  destruct (streams s !! id) as [rs|] eqn:E; simpl; [|done]. unfold checked_add64.
  destruct (Z.leb_spec (received rs + blen data) u64_max);
    destruct (Z.ltb_spec u64_max (received rs + blen data)); try lia; [|done].
  unfold cell_of. simpl. destruct (rc_max_data _ <? received rs + blen data) eqn:E2; [done|].
  unfold sender_clone. rewrite nabs_on_cell by done. rewrite nabs_insert. split_and!; [done| |done|].
  - apply nsane_on_cell; [done|]. destruct Hs. constructor; simpl; try done.
    + intros i rs' [[<- <-]|[_ Hi]]%lookup_insert_Some; simpl; eauto.
    + intros i rs' [[<- <-]|[_ Hi]]%lookup_insert_Some; simpl; [|eauto].
      specialize (nsane_received0 _ _ E). unfold blen. lia.
  - eexists. split_and!; [done..|by destruct fin].
Qed.

(** Dropping the cloned sender afterwards is invisible. *)
Lemma sender_dropped f s s1 l r : nconf f s r s1 -> nconf f s r (sender_drop l s1).
Proof.
  intros (out & E & Hconf). exists out. split; [done|]. revert Hconf.
  assert (Ha : nabs (sender_drop l s1) = nabs s1) by (by apply nabs_on_cell). rewrite Ha.
  assert (Hs : nsane s1 -> nsane (sender_drop l s1)) by (by apply nsane_on_cell).
  assert (Ht : ntorn s s1 -> ntorn s (sender_drop l s1)) by (by apply ntorn_same).
  destruct r as [[]|[]|], f; simpl; naive_solver.
Qed.

(** The receive queue is looked at after the sender was cloned. *)
Lemma event_slot s s1 id len k b (ev : RecvEvent) :
  account_data id len s = (s1, Ok (k, b)) -> (try_send_event k ev s1).2 = SendFull ->
  q_event_full (nqueues s) id = true.
Proof.
  unfold account_data. simpl. destruct (streams s !! id) as [rs|]; [|done]. repeat (case_match; try done).
  intros [= <- <- <-]. unfold try_send_event.
  set (x := cell_of (sender_clone _ _) _).
  assert (Hx : cv_room (view (rc_chan x)) = cv_room (view (rc_chan (cell_of s (mkRecvStream id (recv_cell rs)))))).
  { subst x. unfold cell_of, sender_clone. simpl. rewrite list_lookup_alter_eq.
    destruct (recv_cells s !! recv_cell rs); simpl; [|done]. by rewrite tx_clone_view. }
  pose proof (try_send_res_view _ ev (rc_chan x)) as Hr. destruct (tx_try_send ev (rc_chan x)) as [r c]. cbn [fst snd] in *.
  intros ->. unfold cv_try_send in Hr. rewrite <- Hx. revert Hr. by repeat case_match.
Qed.

Lemma nstep_stream id data fin s : nframe_ok (Stream id data fin) s.
Proof.
  intros Hs Hc. cbn [handle_frame]. unfold handle_stream. apply runs_gets.
  destruct (max_stream_data_per_frame (limits s) <? blen data) eqn:El.
  { apply nviolation; [done..| |done]. simpl. by rewrite El. }
  pose proof (account_spec s id data fin Hs El) as Ha.
  eapply (runs_bind _ _ _ _ (fun a s1 => account_data id (blen data) s = (s1, a))).
  { apply runs_atomic. by destruct (account_data _ _ _). }
  intros a s1 Hacc. rewrite Hacc in Ha. destruct a as [[k st]|reason|]; [| |done].
  2:{ destruct Ha as [-> Hv]. by apply nviolation. }
  destruct Ha as (Hchk & Hs1 & Hd1 & d & _ & Ha1 & Happ). apply runs_dropping.
  assert (Hdrop : forall w s2 r, nconf (Stream id data fin) s r s2 ->
    runs w s2 (modify (sender_drop k)) (fun _ s3 => nconf (Stream id data fin) s r s3)).
  { intros w s2 r Hr. by apply runs_atomic, sender_dropped. }
  assert (Hretire : forall w s2, nabs s2 = nabs s1 -> nsane s2 -> out_log s2 = out_log s -> runs w s2
    ((if fin then remove_recv_stream id else Ret true);;; Ret (Ok tt))
    (nconf (Stream id data fin) s)).
  { intros w s2 Ha2 Hs2 Hl2. eapply (runs_bind _ _ _ _ (fun _ s3 => nabs s3
      = ep_apply (limits s) (nabs s) (Stream id data fin) /\ nsane s3 /\ out_log s3 = out_log s)).
    - rewrite Happ. destruct fin; [|by apply runs_ret]. apply runs_atomic.
      pose proof (nabs_remove s2 id) as Hr. destruct (remove_recv_stream_locked id s2) as [s3 b].
      destruct Hr as (Ha3 & Hs3 & [= _ _ _ _ Hl3 _ _ _ _ _] & _). simpl. split_and!; [|auto|congruence].
      rewrite Ha3, Ha2, Ha1. unfold ep_set_recv. cbn [ep_recv]. by rewrite delete_insert_eq.
    - intros u s3 (Ha3 & Hs3 & Hl3). apply runs_ret. exists []. rewrite app_nil_r. by split_and!. }
  assert (Hl1 : out_log s1 = out_log s) by (by injection Hd1).
  destruct st.
  { eapply runs_mono; [by apply Hretire|]. intros r s2. apply Hdrop. }
  eapply (runs_bind _ _ _ _ (fun r s2 => nabs s2 = nabs s1 /\ nsane s2 /\ ddata s2 = ddata s
    /\ (r = SendFull -> q_event_full (nqueues s) id = true))).
  { apply runs_atomic. pose proof (event_slot s s1 id (blen data) k false (mkRecvEvent data fin) Hacc) as Hfull.
    unfold try_send_event in *. destruct (tx_try_send _ _) as [r c]. cbn [fst snd] in *.
    split_and!; [by apply nabs_on_cell|by apply nsane_on_cell|done..]. }
  intros r s2 (Ha2 & Hs2 & Hd2 & Hfull). eapply runs_mono; [|intros ? ?; apply Hdrop].
  assert (Hl2 : out_log s2 = out_log s) by (by injection Hd2).
  destruct r; [by apply Hretire| |by apply Hretire]. destruct (nkept_ddata _ _ Hd2) as (Hk & Ho & _).
  apply nrefused; [done..| |by apply nsent_nil]. right. split; [done|]. by apply Hfull.
Qed.

(** ** Frames about one direction *)
Lemma nretired s id receiving w (k : bool -> nprog chan (result unit)) Q :
  runs w s (k (ep_retired (nabs s) id receiving)) Q -> runs w s (pbind (is_retired_direction id receiving) k) Q.
Proof.
  intros Hk. unfold is_retired_direction. apply runs_gets.
  by destruct (bool_decide (StreamId_dir id = Uni) && eqb (eqb (initiator_is_server id) (is_server s)) receiving)
    eqn:E; unfold ep_retired, ep_is_local in Hk; cbn [ep_server nabs] in Hk; rewrite E in Hk.
Qed.

Lemma nstep_reset id code s : nframe_ok (ResetStream id code) s.
Proof.
  intros Hs Hc. cbn [handle_frame]. unfold handle_reset_stream.
  pose proof (nabs_remove s id) as Hr.
  eapply (runs_bind _ _ _ _ (fun a s1 => remove_recv_stream_locked id s = (s1, a))).
  { apply runs_atomic. by destruct (remove_recv_stream_locked id s). }
  intros removed s1 E. rewrite E in Hr. destruct Hr as (Ha & Hs1 & Hd & Hrem).
  assert (Hl : out_log s1 = out_log s) by (by injection Hd).
  assert (Hok : removed || ep_retired (nabs s) id true = true -> nconf (ResetStream id code) s (Ok tt) s1).
  { intros Ho. exists []. rewrite app_nil_r. split; [done|]. split; [unfold ep_check; by rewrite <- Hrem, Ho|].
    split; [split; [exact Ha|auto]|done]. }
  destruct removed; [by apply Hok|]. apply nretired. rewrite Ha.
  change (ep_retired (ep_set_recv _ (nabs s)) id true) with (ep_retired (nabs s) id true).
  destruct (ep_retired (nabs s) id true) eqn:Er; [by apply Hok|].
  apply nviolation; [done..| |done]. unfold ep_check. by rewrite <- Hrem, Er.
Qed.

Lemma nflow_at_update s k f j :
  flow_at (on_flow k f s) j = if decide (j = k) then match flows s !! k with
    | Some fl => f fl | None => SendFlowState_new 0 end else flow_at s j.
Proof.
  unfold flow_at. simpl. case_decide as Hj; [subst|by rewrite list_lookup_alter_ne].
  rewrite list_lookup_alter_eq. by destruct (flows s !! k).
Qed.

Lemma nremove_flow_spec s id :
  nsane s ->
  let '(s', removed) := remove_send_flow_locked id s in
  removed = bool_decide (is_Some (ep_send (nabs s) !! id))
  /\ nabs s' = ep_set_send (delete id (ep_send (nabs s))) (nabs s) /\ nsane s'
  /\ (removed = false -> s' = s) /\ odata s' = odata s.
Proof.
  intros Hs. unfold remove_send_flow_locked. simpl. rewrite lookup_fmap.
  destruct (send_flows s !! id) as [k|] eqn:E; simpl.
  - split_and!; try done.
    + unfold nabs, ep_set_send. simpl. f_equal. rewrite <- fmap_delete. apply map_fmap_ext. intros i j Hi.
      apply lookup_delete_Some in Hi as [Hne Hi]. rewrite nflow_at_update. case_decide; [|done]. subst j.
      by destruct (nsane_inj s Hs id i k).
    + destruct Hs. constructor; simpl; try done.
      * intros i j [Hne Hi]%lookup_delete_Some. destruct (nsane_flows0 i j Hi) as (fl & Hfl & ?). exists fl.
        rewrite list_lookup_alter_ne; [done|]. intros ->. by apply Hne, (nsane_inj0 id i j).
      * intros i j x [_ Hi]%lookup_delete_Some [_ Hj]%lookup_delete_Some. eauto.
  - split_and!; try done. unfold nabs, ep_set_send. simpl. f_equal. rewrite delete_id; [done|].
    by rewrite lookup_fmap, E.
Qed.

(** Queueing an answer may wait, and changes nothing the abstraction reads. *)
Lemma runs_send (w : Prop) s f :
  w -> closed s = false -> match f with Stream _ _ _ => False | _ => True end ->
  runs w s (send_frame f) (fun r s' => adata s' = adata s /\ send_cells s' = send_cells s /\ acc_data s' = acc_data s
    /\ nsent s [f] s' /\ ((r = Ok tt /\ out_log s' = out_log s ++ [f])
        \/ (r = Err Closed /\ nslots s = 0%nat))).
Proof.
  intros Hw Hc Hf. unfold send_frame, is_closed, runs. rewrite run_bind. simpl. rewrite Hc. simpl.
  destruct (shutdown_started s) eqn:Esh; simpl.
  { assert (nslots s = 0%nat) by (unfold nslots; by rewrite Esh). split_and!; [done..|by apply nsent_refused|by right]. }
  pose proof (reserve_res_view _ (outbound s)) as Hr. pose proof (reserve_view _ (outbound s)) as Hv.
  destruct (tx_reserve (outbound s)) as [r c] eqn:E. cbn [fst snd] in *. unfold cv_reserve in *.
  destruct r; simpl; [..|split; [done|by rewrite E]].
  - assert (cv_rx (view (outbound s)) = true /\ cv_room (view (outbound s)) = true) as [Erx Eroom]
      by (revert Hr; destruct (cv_rx _); simpl; [|done]; by destruct (cv_room _)).
    rewrite Erx, Eroom in Hv. simpl in Hv.
    assert (Hpush : send_with_permit f (set_outbound c s) = (push_frame f (set_outbound c s), Ok tt)) by (by destruct f).
    rewrite Hpush. split_and!; [done..| |by left]. unfold cv_room in Eroom. apply Z.ltb_lt in Eroom.
    apply nsent_queued; [|done|]; unfold nslots, push_frame; simpl; rewrite ?permit_send_view, ?Hv; simpl;
      rewrite Erx, Esh, ?length_app; simpl; lia.
  - assert (cv_rx (view (outbound s)) = false) as Erx
      by (revert Hr; destruct (cv_rx _); simpl; [|done]; by destruct (cv_room _)).
    rewrite Erx in Hv. simpl in Hv. assert (nslots s = 0%nat) by (unfold nslots; by rewrite Erx, orb_true_r).
    split_and!; [done..| |by right]. apply nsent_refused; [done|]. unfold odata, nslots. simpl. by rewrite Hv.
Qed.

Lemma nstep_stop id code s : nframe_ok (StopSending id code) s.
Proof.
  intros Hs Hc. cbn [handle_frame]. unfold handle_stop_sending.
  pose proof (nremove_flow_spec s id Hs) as Hr.
  eapply (runs_bind _ _ _ _ (fun a s1 => remove_send_flow_locked id s = (s1, a))).
  { apply runs_atomic. by destruct (remove_send_flow_locked id s). }
  intros removed s1 E. rewrite E in Hr. destruct Hr as (Hrem & Ha & Hs1 & Hsame & [= Hl1 Ho1]).
  assert (Hc1 : closed s1 = false).
  { rewrite <- Hc. replace s1 with (remove_send_flow_locked id s).1 by (by rewrite E).
    unfold remove_send_flow_locked. by case_match. }
  assert (Hchk : removed || ep_retired (nabs s) id false = true ->
    ep_check (limits s) (nabs s) (StopSending id code) = None).
  { intros Ho. unfold ep_check. by rewrite <- Hrem, Ho. }
  destruct removed.
  - eapply runs_mono; [by apply runs_send|]. intros r s2 (Hd & _ & _ & Hsent & Hr).
    assert (Hend : nabs s2 = ep_apply (limits s) (nabs s) (StopSending id code) /\ nsane s2)
      by (split; [by rewrite (nabs_same _ _ Hd)|by eapply nsane_same]).
    destruct Hr as [[-> Hl2]|[-> Hz]]; [|pose proof (nsent_none _ _ _ Hz Hsent) as [= Hl2 _]].
    + exists [ResetStream id code]. split; [congruence|]. split; [by apply Hchk|]. split; [done|].
      cbv beta iota. unfold ep_answer. by rewrite <- Hrem.
    + exists []. rewrite app_nil_r. split; [congruence|]. split; [by apply Hchk|].
      symmetry in Hrem. apply bool_decide_eq_true in Hrem.
      split; [exact Hrem|]. split; [exact Hend|]. split; [|done]. cbn [q_slots nqueues]. congruence.
  - rewrite (Hsame eq_refl) in *. apply nretired. destruct (ep_retired (nabs s) id false) eqn:Er.
    + apply runs_ret. exists []. rewrite app_nil_r. split; [done|]. split; [by apply Hchk|]. split; [by split|].
      cbv beta iota. unfold ep_answer. by rewrite <- Hrem.
    + apply nviolation; [done..| |done]. unfold ep_check. by rewrite <- Hrem, Er.
Qed.

Lemma nmax_spec s id max :
  nsane s ->
  let s1 := match send_flows s !! id with Some l => on_flow l (update_max max) s | None => s end in
  nabs s1 = ep_apply (limits s) (nabs s) (MaxStreamData id max) /\ nsane s1 /\ closed s1 = closed s /\ limits s1 = limits s.
Proof.
  intros Hs. cbn [ep_apply]. destruct (send_flows s !! id) as [k|] eqn:E.
  - destruct (nsane_flows s Hs id k E) as (fl & Hfl & Hcl). split_and!; [| |done..].
    + unfold nabs, ep_set_send. simpl. f_equal. apply map_eq. intros i.
      rewrite lookup_fmap, lookup_alter. simpl. destruct (send_flows s !! i) as [j|] eqn:Ei; simpl.
      2:{ case_decide; [|by rewrite lookup_fmap, Ei]. subst. by rewrite lookup_fmap, Ei. }
      rewrite nflow_at_update. repeat case_decide; subst; rewrite lookup_fmap, ?E, ?Ei; simpl; try done.
      * rewrite Hfl. unfold flow_at, update_max. simplify_eq. rewrite Hfl, Hcl. simpl.
        f_equal. destruct (_ <? _) eqn:Elt; simpl; lia.
      * by destruct (nsane_inj s Hs id i k).
      * simplify_eq.
    + destruct Hs. constructor; simpl; try done. intros i j Hi.
      destruct (nsane_flows0 i j Hi) as (fl' & Hfl' & Hcl'). destruct (decide (j = k)) as [->|Hne].
      * exists (update_max max fl'). rewrite list_lookup_alter_eq, Hfl'. split; [done|].
        unfold update_max. by repeat case_match.
      * exists fl'. by rewrite list_lookup_alter_ne.
  - split_and!; [|done..]. unfold nabs, ep_set_send. simpl. f_equal. apply map_eq. intros i. rewrite lookup_alter.
    case_decide; [subst|done]. by rewrite lookup_fmap, E.
Qed.

Lemma nstep_max id max s : nframe_ok (MaxStreamData id max) s.
Proof.
  intros Hs Hc. cbn [handle_frame]. unfold handle_max_stream_data.
  eapply (runs_bind _ _ _ _ (fun _ s1 => nabs s1 = ep_apply (limits s) (nabs s) (MaxStreamData id max)
    /\ nsane s1 /\ out_log s1 = out_log s)).
  - apply runs_atomic. cbn [fst]. destruct (nmax_spec s id max Hs) as (? & ? & _). split_and!; [done..|]. by case_match.
  - intros u s1 (Ha & Hs1 & Hl). apply runs_ret. exists []. rewrite app_nil_r. by split_and!.
Qed.

Lemma nstep_close code reason s : nframe_ok (ConnectionClose code reason) s.
Proof.
  intros Hs Hc. cbn [handle_frame].
  eapply runs_bind; [apply runs_and; [by apply runs_close_all|apply (keeps_runs odata), keeps_close_all]|].
  intros u s1 [Ht [= Hl _]]. apply runs_ret. exists []. by rewrite app_nil_r.
Qed.

(** ** Opening streams *)

(** Dropping handles after the session was torn down changes nothing and queues nothing. *)
Definition ntorn_drops (w : Prop) s0 (d : nprog chan unit) : Prop := forall s, ntorn s0 s ->
  runs w s d (fun _ s' => ntorn s0 s' /\ out_log s' = out_log s).

Lemma ntorn_recv_drop w s0 h : ntorn_drops w s0 (RecvStream_drop h).
Proof.
  intros s Ht. unfold RecvStream_drop.
  eapply (runs_bind _ _ _ _ (fun a s1 => a = false /\ s1 = s)).
  { apply runs_atomic. unfold stop_recv_stream_locked. by rewrite (ntorn_streams _ _ Ht), lookup_empty. }
  intros ? ? [-> ->]. eapply runs_bind; [by apply (runs_ret _ _ _ (fun _ s1 => s1 = s))|].
  intros u ? ->. apply runs_atomic. split; [by eapply ntorn_same; [|exact Ht]|done].
Qed.
(** A closed session takes no frames. *)
Lemma runs_closed_send w s f :
  closed s = true -> runs w s (try_send_frame f) (fun r s' => s' = s /\ r = Err Closed).
Proof. intros Hc. unfold try_send_frame, is_closed, runs. rewrite run_bind. simpl. by rewrite Hc. Qed.
Lemma keeps_shutdown_log : keeps out_log request_shutdown.
Proof. by apply keeps_shutdown. Qed.
Lemma ntorn_send_drop w s0 h : ntorn_drops w s0 (SendStream_drop h).
Proof.
  intros s Ht. unfold SendStream_drop. apply runs_gets.
  eapply (runs_bind _ _ _ _ (fun _ s1 => ntorn s0 s1 /\ out_log s1 = out_log s)).
  2:{ intros u s1 [Ht1 Hl]. apply runs_atomic. split; [by eapply ntorn_same; [|exact Ht1]|done]. }
  destruct (negb _); [by apply runs_ret|].
  eapply (runs_bind _ _ _ _ (fun _ s1 => s1 = s)).
  { apply runs_atomic. unfold remove_send_flow_locked. by rewrite (ntorn_flows _ _ Ht), lookup_empty. }
  intros u ? ->. unfold SendStream_finished. apply runs_gets. case_match; [by apply runs_ret|].
  eapply runs_bind; [apply runs_closed_send, (ntorn_closed _ _ Ht)|]. intros r s2 [-> ->]. cbn [is_ok].
  eapply runs_mono; [apply runs_and; [by apply (keeps_runs bdata), keeps_shutdown|apply (keeps_runs out_log), keeps_shutdown_log]|].
  intros v s3 [Hd3 Hl]. split; [by apply (ntorn_same _ _ _ Hd3)|done].
Qed.
Lemma ntorn_drop_pair w s0 p : ntorn_drops w s0 (drop_pair p).
Proof.
  intros s Ht. eapply runs_bind; [by apply ntorn_send_drop|]. intros u s1 [Ht1 Hl1].
  eapply runs_mono; [by apply ntorn_recv_drop|]. intros v s2 [Ht2 Hl2]. split; [done|congruence].
Qed.

(** Dropping a handle of a stream that was just opened ends its direction. *)
Definition nfresh_recv s (h : RecvStream) : Prop :=
  is_Some (streams s !! rs_id h)
  /\ exists c, recv_cells s !! rs_cell h = Some c /\ rc_finished c = false /\ rc_stop_sent c = false.
Definition nfresh_send s (h : SendStream) : Prop :=
  exists c, send_cells s !! ss_shared h = Some c /\ finished c = false /\ strong_count c = 1.

Lemma runs_shutdown_flag w s : runs w s request_shutdown (fun _ x => shutdown_started x = true).
Proof. done. Qed.
(** A frame that is offered or else shuts the session down. *)
Lemma runs_offer w s f :
  closed s = false ->
  runs w s (let* r := try_send_frame f in if is_ok r then Ret tt else request_shutdown)
    (fun _ s' => adata s' = adata s /\ send_cells s' = send_cells s /\ acc_data s' = acc_data s /\ nsent s [f] s').
Proof.
  intros Hc. eapply runs_bind; [by apply runs_try_send|]. intros r s1 (Hd & Hcells & Hacc & Hsent & Hr).
  destruct (is_ok r); [by apply runs_ret|]. destruct Hr as [Hz [= Hl _]].
  eapply runs_mono; [apply runs_and; [apply runs_and; [by apply (keeps_runs (fun s => (adata s, send_cells s, acc_data s))), keeps_shutdown
    |apply (keeps_runs out_log), keeps_shutdown_log]
    |by apply runs_shutdown_flag]|].
  intros u s2 [[E1 E2] E3]. cbv beta in E1. pose proof (f_equal (fun x => x.1.1) E1) as Ea.
  pose proof (f_equal (fun x => x.1.2) E1) as Ec. pose proof (f_equal snd E1) as Eq. cbn [fst snd] in *.
  split_and!; [by etrans..|].
  destruct Hsent as [Ho _]. split; [congruence|]. rewrite Hz. simpl. unfold nslots. by rewrite E3.
Qed.

Lemma runs_recv_drop w s h :
  nsane s -> closed s = false -> nfresh_recv s h ->
  runs w s (RecvStream_drop h) (fun _ s' => nabs s' = ep_stop (rs_id h) (nabs s) /\ nsane s' /\ edata s' = edata s
    /\ acc_data s' = acc_data s /\ nsent s [StopSending (rs_id h) 0] s').
Proof.
  intros Hs Hc ([rs Hrs] & c & Hcell & Hfin & Hst). unfold RecvStream_drop.
  set (s1 := set_pending_credit (delete (rs_id h) (pending_credit s))
         (set_streams (<[rs_id h := mkRecvState true (recv_cell rs) (received rs)]> (streams s)) s)).
  eapply (runs_bind _ _ _ _ (fun a x => a = true /\ x = s1)).
  { apply runs_atomic. unfold stop_recv_stream_locked. by rewrite Hrs. }
  intros ? ? [-> ->].
  assert (Ha1 : nabs s1 = ep_stop (rs_id h) (nabs s)).
  { unfold nabs, ep_stop, ep_set_recv. simpl. f_equal. apply map_eq. intros i. rewrite lookup_fmap, lookup_alter.
    rewrite lookup_insert. repeat case_decide; subst; rewrite lookup_fmap, ?Hrs; done. }
  assert (Hs1 : nsane s1).
  { destruct Hs. constructor; simpl; try done.
    - intros i x [[<- <-]|[_ Hi]]%lookup_insert_Some; simpl; eauto.
    - intros i x [[<- <-]|[_ Hi]]%lookup_insert_Some; simpl; eauto. }
  assert (Hcell1 : cell_of s1 h = c) by (unfold cell_of; simpl; by rewrite Hcell).
  set (s2 := on_cell (rs_cell h) (fun c => set_rc_stop_sent true c) s1).
  eapply (runs_bind _ _ _ _ (fun _ s3 => adata s3 = adata s2 /\ acc_data s3 = acc_data s2
    /\ nsent s2 [StopSending (rs_id h) 0] s3)).
  - apply runs_gets. rewrite Hcell1, Hfin.
    eapply (runs_bind _ _ _ _ (fun a x => a = false /\ x = s2)).
    { apply runs_atomic. unfold with_cell. rewrite Hcell1. by split. }
    intros ? ? [-> ->]. eapply runs_mono; [by apply runs_offer|]. by intros u s3 (? & _ & ? & ?).
  - intros u s3 (Hd & Hacc & Hsent). apply runs_atomic. cbn [fst].
    assert (Hs2 : nsane s2) by (by apply nsane_on_cell).
    pose proof Hd as [= D1 D2 D3 D4 D5 D6 D7 D8 D9 D10 D11]. split_and!.
    + rewrite nabs_on_cell by done. rewrite (nabs_same _ _ Hd). unfold s2. by rewrite nabs_on_cell.
    + apply nsane_on_cell; [done|]. by eapply nsane_same.
    + unfold edata. simpl. by rewrite D3, D4, D9, D11.
    + etrans; [|exact Hacc]. done.
    + eapply nsent_after; [|eapply nsent_then; [exact Hsent|]]; done.
Qed.

Lemma runs_send_drop w s h :
  nsane s -> closed s = false -> nfresh_send s h ->
  runs w s (SendStream_drop h) (fun _ s' => nabs s' = ep_set_send (delete (ss_id h) (ep_send (nabs s))) (nabs s)
    /\ nsane s' /\ closed s' = false /\ streams s' = streams s /\ recv_cells s' = recv_cells s
    /\ acc_data s' = acc_data s /\ nsent s [ResetStream (ss_id h) 0] s').
Proof.
  intros Hs Hc (c & Hcell & Hfin & Hcount). unfold SendStream_drop. apply runs_gets.
  assert (Hsh : forall x : SessionInner chan, send_cells x = send_cells s -> shared_of x h = c)
    by (intros x Hx; unfold shared_of; by rewrite Hx, Hcell).
  rewrite (Hsh s), Hcount by done. cbn [Z.eqb Pos.eqb negb].
  pose proof (nremove_flow_spec s (ss_id h) Hs) as Hr.
  set (s1 := (remove_send_flow_locked (ss_id h) s).1).
  assert (Hk : send_cells s1 = send_cells s /\ closed s1 = closed s /\ streams s1 = streams s
    /\ recv_cells s1 = recv_cells s /\ acc_data s1 = acc_data s)
    by (subst s1; unfold remove_send_flow_locked; by destruct (send_flows s !! ss_id h)).
  destruct Hk as (K1 & K2 & K3 & K4 & K5).
  eapply (runs_bind _ _ _ _ (fun _ s2 => adata s2 = adata s1 /\ acc_data s2 = acc_data s1
    /\ nsent s1 [ResetStream (ss_id h) 0] s2)).
  { eapply (runs_bind _ _ _ _ (fun _ x => x = s1)); [by apply runs_atomic|]. intros u ? ->.
    unfold SendStream_finished. apply runs_gets. rewrite (Hsh s1 K1), Hfin.
    eapply runs_mono; [apply runs_offer; congruence|]. by intros v s2 (? & _ & ? & ?). }
  intros u s2 (Hd & Hacc & Hsent). apply runs_atomic. cbn [fst].
  subst s1. destruct (remove_send_flow_locked (ss_id h) s) as [s1 removed]. destruct Hr as (_ & Ha1 & Hs1 & _ & Ho1).
  cbn [fst] in *. pose proof Hd as [= D1 D2 D3 D4 D5 D6 D7 D8 D9 D10 D11].
  split_and!; [| |simpl; congruence..| |].
  - erewrite nabs_same; [rewrite <- Ha1; by apply nabs_same|done].
  - eapply nsane_same; [|eapply nsane_same; [exact Hd|done]]. done.
  - etrans; [|exact K5]. etrans; [|exact Hacc]. done.
  - eapply nsent_after; [exact Ho1|]. eapply nsent_then; [exact Hsent|].
    unfold odata. rewrite (nslots_view s2); [done..|]. simpl. rewrite !tx_drop_view. by eexists.
Qed.

Lemma runs_drop_pair w s (p : SendStream * RecvStream) id :
  nsane s -> closed s = false -> nfresh_send s p.1 -> nfresh_recv s p.2 -> ss_id p.1 = id -> rs_id p.2 = id ->
  runs w s (drop_pair p) (fun _ s' => nabs s' = ep_abandon (OpenBi id) (nabs s) /\ nsane s'
    /\ nsent s (drop_frames (OpenBi id)) s').
Proof.
  intros Hs Hc Hfs Hfr <- Hid. eapply runs_bind; [by apply runs_send_drop|].
  intros u s1 (Ha1 & Hs1 & Hc1 & E1 & E2 & _ & Hsent1). eapply runs_mono; [apply runs_recv_drop; [done..|]|].
  { destruct Hfr as [Hrs Hcell]. split; [by rewrite E1|by rewrite E2]. }
  intros v s2 (Ha2 & Hs2 & _ & _ & Hsent2). rewrite Hid in *. split_and!; [by rewrite Ha2, Ha1|done|].
  exact (nsent_app _ [ResetStream (ss_id p.1) 0] _ _ _ Hsent1 Hsent2).
Qed.

Lemma nvalidate_spec s id dir :
  StreamId_dir id = dir ->
  let '(s', valid) := validate_peer_locked id s in
  valid = negb (StreamId_counter id <? ep_peer_next (nabs s) dir)
  /\ ddata s' = ddata s /\ (nsane s -> nsane s')
  /\ (valid = true -> nabs s' = ep_set_peer dir (saturating_add64 (StreamId_counter id) 1) (nabs s)).
Proof.
  intros <-. unfold validate_peer_locked. destruct (StreamId_dir id); simpl; destruct (_ <? _); simpl;
    by (split_and!; try done; intros Hs; destruct Hs; constructor).
Qed.

Lemma ninsert_spec s id :
  nsane s -> nsane (insert_recv_state id s).1
  /\ nabs (insert_recv_state id s).1
     = ep_set_recv (<[id := mkRecvDir 0 (initial_stream_window (limits s)) false]> (ep_recv (nabs s))) (nabs s).
Proof.
  intros Hs. unfold insert_recv_state.
  set (cell := RecvStream_new _ _ _). set (s1 := match streams s !! id with Some old => _ | None => s end).
  assert (Hs1 : nsane s1 /\ nabs s1 = nabs s /\ length (recv_cells s1) = length (recv_cells s)).
  { subst s1. destruct (streams s !! id); [|done]. unfold sender_drop.
    split_and!; [by apply nsane_on_cell|by apply nabs_on_cell|simpl; by rewrite length_alter]. }
  destruct Hs1 as (Hs1 & <- & Hlen). rewrite <- Hlen. clearbody s1. simpl. split.
  - destruct Hs1. constructor; simpl; try done.
    + intros i rs. rewrite length_app. simpl. intros [[<- <-]|[_ Hi]]%lookup_insert_Some; simpl; [lia|].
      specialize (nsane_cells0 i rs Hi). lia.
    + intros i rs [[<- <-]|[_ Hi]]%lookup_insert_Some; simpl; [lia|eauto].
    + apply Forall_app. split; [done|]. by constructor.
  - unfold nabs, ep_set_recv. simpl. f_equal. apply map_eq. intros i.
    rewrite lookup_fmap. destruct (decide (i = id)) as [->|Hi].
    + rewrite !lookup_insert_eq. simpl. unfold ndir, cell_of. simpl. by rewrite lookup_app_r, Nat.sub_diag.
    + rewrite !lookup_insert_ne, lookup_fmap by done. destruct (streams s1 !! i) as [rs|] eqn:Ei; [|done].
      simpl. unfold ndir, cell_of. simpl. by rewrite lookup_app_l by (by eapply nsane_cells).
Qed.

Lemma nregister_spec s id :
  nsane s ->
  let '(s', r) := register_inbound_locked id s in
  match r with
  | Ok h => open_limits (limits s) (nabs s) id = None /\ ddata s' = ddata s /\ nsane s'
      /\ nabs s' = ep_set_recv (<[id := mkRecvDir 0 (initial_stream_window (limits s)) false]>
                      (ep_recv (nabs s))) (nabs s)
      /\ rs_id h = id /\ nfresh_recv s' h
  | Err v => s' = s /\ open_limits (limits s) (nabs s) id = Some v
  | Panic => False
  end.
Proof.
  intros Hs. unfold register_inbound_locked, open_limits. simpl. rewrite map_size_fmap, lookup_fmap.
  destruct (_ <=? _); [done|]. destruct (streams s !! id) eqn:E; [done|].
  destruct (ninsert_spec s id Hs) as [Hs' Ha]. unfold insert_recv_state in *. rewrite E in *. split_and!; try done.
  split; simpl; [rewrite lookup_insert_eq; by eexists|].
  eexists. rewrite lookup_app_r, Nat.sub_diag by done. by split_and!.
Qed.

Lemma nfresh_same s s' h : adata s' = adata s -> nfresh_recv s h -> nfresh_recv s' h.
Proof. intros [= E1 E2 _ _ _ _ _ _ _ _ _]. unfold nfresh_recv. by rewrite E1, E2. Qed.

(** Registration and the first credit. *)
Lemma runs_try_register s id :
  nsane s -> closed s = false ->
  runs True s (try_register_inbound_recv_stream id) (fun r s' => nkept s s' /\
    match r with
    | Ok h => open_limits (limits s) (nabs s) id = None /\ nsane s'
        /\ nabs s' = ep_set_recv (<[id := mkRecvDir 0 (initial_stream_window (limits s)) false]>
                       (ep_recv (nabs s))) (nabs s)
        /\ rs_id h = id /\ nfresh_recv s' h /\ acc_data s' = acc_data s
        /\ nsent s [MaxStreamData id (initial_stream_window (limits s))] s'
        /\ out_log s' = out_log s ++ [MaxStreamData id (initial_stream_window (limits s))]
    | Err v => odata s' = odata s /\ (open_limits (limits s) (nabs s) id = Some v
        \/ (open_limits (limits s) (nabs s) id = None /\ v = (2, "failed to send initial stream credit")
            /\ nslots s = 0%nat))
    | Panic => False
    end).
Proof.
  intros Hs Hc. unfold try_register_inbound_recv_stream, bind_result.
  pose proof (nregister_spec s id Hs) as Hr.
  eapply (runs_bind _ _ _ _ (fun a s1 => register_inbound_locked id s = (s1, a))).
  { apply runs_atomic. by destruct (register_inbound_locked id s). }
  intros a s1 E. rewrite E in Hr.
  destruct a as [h|v|]; [|destruct Hr as [-> Hr]; apply runs_ret; split; [apply nkept_refl|by auto]|done].
  destruct Hr as (Hlim & Hd & Hs1 & Ha & Hid & Hfr). destruct (nkept_ddata _ _ Hd) as (Hk & Ho & Hacc). apply runs_gets.
  pose proof Hk as (_ & _ & Kc & Kl).
  eapply runs_bind; [apply runs_with_drop, runs_send; [done|congruence|done]|].
  intros r s2 (Hd2 & _ & Hacc2 & Hsent & Hr). rewrite Kl in *.
  pose proof (nsent_after _ _ _ _ Ho Hsent) as Hsent2.
  pose proof (nkept_trans _ _ _ Hk (nkept_adata _ _ Hd2)) as Hk2.
  destruct Hr as [[-> Hl2]|[-> Hz]]; cbn [is_ok].
  - apply runs_ret. injection Ho as Hl1 _.
    split_and!; [done|done|by eapply nsane_same|by rewrite (nabs_same _ _ Hd2)|done|by eapply nfresh_same|congruence|done|congruence].
  - assert (Hc2 : closed s2 = false) by (destruct Hk2 as (_ & _ & -> & _); done).
    eapply runs_bind; [apply runs_recv_drop; [by eapply nsane_same|done|by eapply nfresh_same]|].
    intros u s3 (_ & _ & [= D1 D2 D3 D4] & _ & Hsent3). apply runs_ret.
    assert (Hz0 : nslots s = 0%nat) by (injection Ho as _ Ho; congruence).
    pose proof (nsent_none _ _ _ Hz0 (nsent_app _ _ _ _ _ Hsent2 Hsent3)) as Ho3.
    split_and!; [|done|by right; split_and!].
    eapply nkept_trans; [exact Hk2|]. unfold nkept. rewrite D2, D3. by split_and!.
Qed.

(** *** Handing a stream to the accept queue *)

(** The state in which the handles of the new stream are passed on. *)
Record nopening f s s3 : Prop := {
  nop_frame : match f with OpenUni _ | OpenBi _ => True | _ => False end;
  nop_check : ep_check (limits s) (nabs s) f = None;
  nop_kept : nkept s s3;
  nop_sane : nsane s3;
  nop_abs : nabs s3 = ep_apply (limits s) (nabs s) f;
  nop_sent : nsent s (ep_answer (limits s) (nabs s) f) s3;
  nop_log : out_log s3 = out_log s ++ ep_answer (limits s) (nabs s) f
}.

Lemma nopening_same f s s3 s4 : adata s4 = adata s3 -> odata s4 = odata s3 -> nopening f s s3 -> nopening f s s4.
Proof.
  intros Hd Ho [Hf Hchk Hk Hs Ha Hsent Hlog]. constructor; try done.
  - by eapply nkept_trans; [|apply nkept_adata].
  - by eapply nsane_same.
  - by rewrite (nabs_same _ _ Hd).
  - by eapply nsent_then.
  - injection Ho as Ho _. congruence.
Qed.

Lemma nbefore_answer f s :
  match f with OpenUni _ | OpenBi _ => True | _ => False end -> ep_check (limits s) (nabs s) f = None ->
  ep_before (limits s) (nabs s) f = ep_answer (limits s) (nabs s) f.
Proof.
  intros Hf Hc. destruct f as [id|id|id data fin|id code|id code|id max|code reason]; try done; unfold ep_before.
  - change (ep_check_open (limits s) (nabs s) id Uni "OpenUni" = None) in Hc. by rewrite Hc.
  - unfold ep_check in Hc. by destruct (ep_check_open _ _ _ _ _).
Qed.

(** The last steps of a delivery: a queue that refuses the handles drops them. *)
Definition ngives_up w f s s4 (d : nprog chan unit) : Prop :=
  runs w s4 d (fun _ s' => nabs s' = ep_abandon f (nabs s4) /\ nsane s' /\ nsent s4 (drop_frames f) s').

Lemma runs_gone w f s s4 d :
  nopening f s s4 -> q_gone (nqueues s) (accept_dir f) = true -> ngives_up w f s s4 d ->
  runs w s4 (d;;; Ret (Err Closed)) (nconf f s).
Proof.
  intros [Hf Hchk Hk Hs Ha Hsent _] Hgone Hd. eapply runs_bind; [exact Hd|]. intros u s5 (Ha5 & Hs5 & Hsent5).
  apply runs_ret. rewrite Ha in Ha5. destruct (nsent_offered _ _ _ (nsent_app _ _ _ _ _ Hsent Hsent5)) as (out & E & Hoff).
  exists out. split; [done|]. split; [done|]. by destruct f.
Qed.

(** Dropping a clone of the sender afterwards is invisible. *)
Lemma nconf_quiet f s r s1 s2 :
  adata s2 = adata s1 -> bdata s2 = bdata s1 -> odata s2 = odata s1 -> nconf f s r s1 -> nconf f s r s2.
Proof.
  intros Ha Hb Ho (out & E & Hconf). exists out. split; [injection Ho as Ho _; congruence|].
  revert Hconf. rewrite (nabs_same _ _ Ha). pose proof (nsane_same _ _ Ha) as Hs. pose proof (ntorn_same s _ _ Hb) as Ht.
  destruct r as [[]|[]|], f; simpl; naive_solver.
Qed.

Lemma runs_rejected w f s s4 (d u : nprog chan unit) (r : try_send_res) :
  closed s = false -> nopening f s s4 ->
  (r = SendFull -> q_full (nqueues s) (accept_dir f) = true) ->
  (r = SendClosed -> q_gone (nqueues s) (accept_dir f) = true) ->
  ntorn_drops w s d -> ngives_up w f s s4 d ->
  (forall s5, runs w s5 u (fun _ s6 => adata s6 = adata s5 /\ bdata s6 = bdata s5 /\ odata s6 = odata s5)) ->
  runs w s4 (dropping u match r with
    | SendOk => Ret (Ok tt)
    | SendFull => dropping d (protocol_error 3 "accept queue full")
    | SendClosed => d;;; Ret (Err Closed)
    end) (nconf f s).
Proof.
  intros Hc Hop Hfull Hgone Htorn Hend Hu.
  assert (Hlast : forall r s5, nconf f s r s5 -> runs w s5 u (fun _ s6 => nconf f s r s6)).
  { intros x s5 Hx. eapply runs_mono; [apply Hu|]. intros v s6 (? & ? & ?). by eapply nconf_quiet. }
  apply runs_dropping. destruct r.
  - apply runs_ret, Hlast. destruct Hop as [Hf Hchk Hk Hs Ha Hsent Hlog]. eexists. split; [exact Hlog|].
    split; [done|]. split; [done|]. by destruct f.
  - apply runs_dropping. pose proof Hop as [Hf Hchk Hk Hs Ha Hsent Hlog].
    assert (Hb : nblamed f s 3 "accept queue full").
    { right. destruct f; try done; (split; [simpl; auto|by apply Hfull]). }
    eapply runs_mono; [apply (nerror _ f s); [done..|by rewrite nbefore_answer]|]. intros r s5 (-> & Ht & Hconf).
    eapply runs_mono; [by apply Htorn|]. intros v s6 [Ht6 Hl6]. by apply Hlast, Hconf.
  - eapply runs_mono; [apply runs_gone; [done|by apply Hgone|done]|]. intros r s5 Hr. by apply Hlast.
Qed.

Lemma accept_result {A} (a : A) (c c' : chan A) tx :
  cv_room (view c') = cv_room (view c) -> cv_rx (view c') = cv_rx (view c) ->
  ((tx_try_send a c').1 = SendFull -> negb (cv_room (view c)) = true)
  /\ ((tx_try_send a c').1 = SendClosed -> n_gone tx c = true).
Proof.
  intros E1 E2. rewrite try_send_res_view. unfold cv_try_send, n_gone. rewrite E1, E2.
  destruct (cv_rx (view c)), (cv_room (view c)); simpl; rewrite ?andb_false_r; done.
Qed.

Lemma runs_deliver_uni w f s s3 recv :
  nopening f s s3 -> f = OpenUni (rs_id recv) -> acc_data s3 = acc_data s -> closed s = false -> nfresh_recv s3 recv ->
  runs w s3 (deliver_uni recv) (nconf f s).
Proof.
  intros Hop -> [= E1 E2 _ _] Hc Hfr. unfold deliver_uni.
  assert (Hgive : forall s4, adata s4 = adata s3 -> ngives_up w (OpenUni (rs_id recv)) s s4 (RecvStream_drop recv)).
  { intros s4 Hd. pose proof Hop as [_ _ (_ & _ & Kc & _) Hs _ _ _]. pose proof Hd as [= _ _ _ _ _ _ _ _ _ _ Dc].
    eapply runs_mono; [apply runs_recv_drop; [by eapply nsane_same|congruence|by eapply nfresh_same]|].
    by intros u s5 (? & ? & _ & _ & ?). }
  set (s4 := if accept_uni_tx s3 then set_accept_uni_chan (tx_clone (accept_uni_chan s3)) s3 else s3).
  assert (Hsame : adata s4 = adata s3 /\ odata s4 = odata s3) by (subst s4; by case_match).
  destruct Hsame as [Hd4 Ho4].
  eapply (runs_bind _ _ _ _ (fun tx x => tx = accept_uni_tx s3 /\ x = s4)); [by apply runs_with_drop|].
  intros ? ? [-> ->]. destruct (accept_uni_tx s3) eqn:Etx.
  2:{ apply runs_gone; [by eapply nopening_same|simpl; unfold n_gone; by rewrite <- E1|by apply Hgive]. }
  destruct (accept_result recv (accept_uni_chan s) (accept_uni_chan s4) (accept_uni_tx s)) as [Hfull Hgone].
  { subst s4. simpl. by rewrite tx_clone_view, E2. }
  { subst s4. simpl. by rewrite tx_clone_view, E2. }
  destruct (tx_try_send recv (accept_uni_chan s4)) as [r c] eqn:Et. cbn [fst] in *.
  set (s5 := set_accept_uni_chan c s4).
  eapply (runs_bind _ _ _ _ (fun x s' => x = r /\ s' = s5)); [apply runs_atomic; by rewrite Et|].
  intros ? ? [-> ->]. apply runs_rejected; try done.
  - by eapply nopening_same; [..|by eapply nopening_same].
  - apply ntorn_recv_drop.
  - by apply Hgive.
Qed.

Lemma runs_deliver_bi w f s s3 p :
  nopening f s s3 -> f = OpenBi (rs_id p.2) -> ss_id p.1 = rs_id p.2 -> acc_data s3 = acc_data s -> closed s = false ->
  nfresh_send s3 p.1 -> nfresh_recv s3 p.2 ->
  runs w s3 (deliver_bi p) (nconf f s).
Proof.
  intros Hop -> Hid [= _ _ E1 E2] Hc Hfs Hfr. unfold deliver_bi.
  assert (Hgive : forall s4, adata s4 = adata s3 -> send_cells s4 = send_cells s3 ->
    ngives_up w (OpenBi (rs_id p.2)) s s4 (drop_pair p)).
  { intros s4 Hd Hcells. pose proof Hop as [_ _ (_ & _ & Kc & _) Hs _ _ _]. pose proof Hd as [= _ _ _ _ _ _ _ _ _ _ Dc].
    apply runs_drop_pair; [by eapply nsane_same|congruence|unfold nfresh_send; by rewrite Hcells|by eapply nfresh_same|done..]. }
  set (s4 := if accept_bi_tx s3 then set_accept_bi_chan (tx_clone (accept_bi_chan s3)) s3 else s3).
  assert (Hsame : adata s4 = adata s3 /\ odata s4 = odata s3 /\ send_cells s4 = send_cells s3)
    by (subst s4; by case_match).
  destruct Hsame as (Hd4 & Ho4 & Hc4).
  eapply (runs_bind _ _ _ _ (fun tx x => tx = accept_bi_tx s3 /\ x = s4)); [by apply runs_with_drop|].
  intros ? ? [-> ->]. destruct (accept_bi_tx s3) eqn:Etx.
  2:{ apply runs_gone; [by eapply nopening_same|simpl; unfold n_gone; by rewrite <- E1|by apply Hgive]. }
  destruct (accept_result p (accept_bi_chan s) (accept_bi_chan s4) (accept_bi_tx s)) as [Hfull Hgone].
  { subst s4. simpl. by rewrite tx_clone_view, E2. }
  { subst s4. simpl. by rewrite tx_clone_view, E2. }
  destruct (tx_try_send p (accept_bi_chan s4)) as [r c] eqn:Et. cbn [fst] in *.
  set (s5 := set_accept_bi_chan c s4).
  eapply (runs_bind _ _ _ _ (fun x s' => x = r /\ s' = s5)); [apply runs_atomic; by rewrite Et|].
  intros ? ? [-> ->]. apply runs_rejected; try done.
  - by eapply nopening_same; [..|by eapply nopening_same].
  - apply ntorn_drop_pair.
  - by apply Hgive.
Qed.

(** The common part of both OPEN frames. *)
Definition nopen_with (dir : StreamDir) (name : string) (k : RecvStream -> nprog chan (result unit)) id :
  nprog chan (result unit) :=
  let* peer := gets peer_is_server in
  if negb (bool_decide (StreamId_dir id = dir)) then
    protocol_error 1 (name +:+ " with non-" +:+ (match dir with Uni => "uni" | Bi => "bi" end) +:+ " StreamId")
  else if negb (eqb (initiator_is_server id) peer) then protocol_error 1 (name +:+ " with wrong initiator")
  else
    let* valid := validate_peer_stream_id id in
    if negb valid then protocol_error 1 (name +:+ " with non-monotonic StreamId")
    else
      let* r := try_register_inbound_recv_stream id in
      match r with
      | Ok recv => k recv
      | Err (code, reason) => protocol_error code reason
      | Panic => Ret Panic
      end.

(** The receive direction is registered and its first credit queued. *)
Record nregistered s id (dir : StreamDir) s2 (recv : RecvStream) : Prop := {
  nrg_sane : nsane s2;
  nrg_kept : nkept s s2;
  nrg_id : rs_id recv = id;
  nrg_fresh : nfresh_recv s2 recv;
  nrg_accept : acc_data s2 = acc_data s;
  nrg_sent : nsent s [MaxStreamData id (initial_stream_window (limits s))] s2;
  nrg_log : out_log s2 = out_log s ++ [MaxStreamData id (initial_stream_window (limits s))];
  nrg_abs : nabs s2 = ep_open (limits s) (nabs s) id dir
}.

Lemma nopen_with_spec f dir name k id s :
  handle_frame f = nopen_with dir name k id -> may_wait f ->
  (forall v, ep_check_open (limits s) (nabs s) id dir name = Some v ->
     ep_check (limits s) (nabs s) f = Some v /\ ep_before (limits s) (nabs s) f = []) ->
  (ep_check_open (limits s) (nabs s) id dir name = None ->
     local_refusal (limits s) (nabs s) f 2 "failed to send initial stream credit"
     /\ (nslots s = 0%nat -> q_refuses (nqueues s) f "failed to send initial stream credit")) ->
  (forall s2 recv, ep_check_open (limits s) (nabs s) id dir name = None -> nregistered s id dir s2 recv ->
     runs (may_wait f) s2 (k recv) (nconf f s)) ->
  nframe_ok f s.
Proof.
  intros Hf Hw Hchk Hloc Hk Hs Hc. rewrite Hf. unfold nopen_with. apply runs_gets.
  assert (Hviol : forall w s1 code reason, nkept s s1 -> odata s1 = odata s ->
    ep_check_open (limits s) (nabs s) id dir name = Some (code, reason) ->
    runs w s1 (protocol_error code reason) (nconf f s)).
  { intros w s1 code reason Hk1 Ho Hv. destruct (Hchk _ Hv) as [Hv' Hb]. apply nrefused; [done..|by left|].
    rewrite Hb. by apply nsent_nil. }
  unfold ep_check_open in Hviol, Hloc, Hk. cbn [ep_server nabs] in Hviol, Hloc, Hk. unfold peer_is_server.
  destruct (bool_decide (StreamId_dir id = dir)) eqn:Hdir; cbn [negb] in *; [|by apply Hviol; [apply nkept_refl|..]].
  apply bool_decide_eq_true in Hdir.
  destruct (eqb (initiator_is_server id) (negb (is_server s))) eqn:Hinit; cbn [negb] in *; [|by apply Hviol; [apply nkept_refl|..]].
  pose proof (nvalidate_spec s id dir Hdir) as Hv.
  eapply (runs_bind _ _ _ _ (fun a s1 => validate_peer_locked id s = (s1, a))).
  { apply runs_atomic. by destruct (validate_peer_locked id s). }
  intros valid s1 E. rewrite E in Hv. destruct Hv as (-> & Hd1 & Hs1 & Ha1).
  destruct (nkept_ddata _ _ Hd1) as (Hk1 & Ho1 & Hacc1).
  destruct (StreamId_counter id <? ep_peer_next (nabs s) dir); cbn [negb] in *; [by apply Hviol|].
  specialize (Ha1 eq_refl). specialize (Hs1 Hs).
  pose proof Hk1 as (_ & _ & Kc & Kl). pose proof Ho1 as [= Hl1 Hz1].
  eapply runs_bind; [eapply runs_mono; [|intros ? ? Hx; exact Hx]|].
  { pose proof (runs_try_register s1 id Hs1 ltac:(congruence)) as Hr. unfold runs in *.
    destruct (run _ s1) as [s2 [r|]]; [exact Hr|by destruct Hr]. }
  intros r s2 [Hk2 Hr]. rewrite Ha1, Kl in Hr. pose proof (nkept_trans _ _ _ Hk1 Hk2) as Hk12.
  destruct r as [h|[code reason]|]; [| |done].
  - destruct Hr as (Hlim & Hs2 & Ha2 & Hid & Hfr & Hacc2 & Hsent & Hlog). apply Hk; [exact Hlim|].
    constructor; [done..|congruence|by eapply nsent_after|congruence|]. rewrite Ha2. by destruct dir.
  - destruct Hr as [Ho2 Hr]. assert (Ho : odata s2 = odata s) by congruence.
    destruct Hr as [Hr|(Hr & [= -> ->] & Hz)].
    + by apply Hviol.
    + destruct (Hloc Hr) as [Hl Hq]. apply nrefused; [done..| |].
      * right. split; [done|]. apply Hq. congruence.
      * eapply nsent_then; [|exact Ho]. rewrite Hz1 in Hz. split; [by rewrite Hz, app_nil_r|lia].
Qed.

Lemma nstep_open_uni id s : nframe_ok (OpenUni id) s.
Proof.
  intros Hs Hc. eapply (nopen_with_spec _ Uni "OpenUni" deliver_uni id); try done.
  - intros v E. split; [done|]. unfold ep_before. by rewrite E.
  - intros E. split; [split; [exact E|auto]|done].
  - intros s2 recv Hchk [Hs2 Hk Hid Hfr Hacc Hsent Hlog Ha2]. apply runs_deliver_uni; [by constructor|by rewrite Hid|done..].
Qed.

Lemma nregister_flow_spec s id :
  nsane s ->
  let '(s', r) := register_send_flow_locked id 0 s in
  match r with
  | Ok _ => Z.of_nat (size (ep_send (nabs s))) < max_open_streams (limits s) /\ ep_send (nabs s) !! id = None
      /\ nsane s' /\ nabs s' = ep_set_send (<[id := 0]> (ep_send (nabs s))) (nabs s)
      /\ nkept s s' /\ odata s' = odata s /\ acc_data s' = acc_data s /\ streams s' = streams s
      /\ recv_cells s' = recv_cells s
  | Err err => s' = s /\
      ((max_open_streams (limits s) <= Z.of_nat (size (ep_send (nabs s)))
        /\ Error_to_string err = "protocol error: too many open send streams")
       \/ (Z.of_nat (size (ep_send (nabs s))) < max_open_streams (limits s)
        /\ is_Some (ep_send (nabs s) !! id)
        /\ Error_to_string err = "protocol error: duplicate send stream"))
  | Panic => False
  end.
Proof.
  intros Hs. unfold register_send_flow_locked. simpl. rewrite map_size_fmap, lookup_fmap.
  destruct (Z.leb_spec (max_open_streams (limits s)) (Z.of_nat (size (send_flows s)))); [auto|].
  destruct (send_flows s !! id) eqn:E; simpl; [naive_solver|]. split_and!; try done.
  - destruct Hs. constructor; simpl; try done.
    + intros i k [[<- <-]|[_ Hi]]%lookup_insert_Some.
      * rewrite lookup_app_r, Nat.sub_diag by done. by eexists.
      * destruct (nsane_flows0 i k Hi) as (fl & Hfl & ?). exists fl. split; [|done]. by apply lookup_app_l_Some.
    + intros i j k [[<- <-]|[_ Hi]]%lookup_insert_Some [[<- Hk]|[_ Hj]]%lookup_insert_Some; try done.
      * destruct (nsane_flows0 _ _ Hj) as (fl & ?%lookup_lt_Some & _). lia.
      * subst k. destruct (nsane_flows0 _ _ Hi) as (fl & ?%lookup_lt_Some & _). lia.
      * eauto.
  - unfold nabs, ep_set_send. simpl. f_equal. apply map_eq. intros i. rewrite lookup_fmap.
    destruct (decide (i = id)) as [->|Hi].
    + rewrite !lookup_insert_eq. simpl. unfold flow_at. simpl. by rewrite lookup_app_r, Nat.sub_diag.
    + rewrite !lookup_insert_ne, lookup_fmap by done. destruct (send_flows s !! i) as [k|] eqn:Ei; [|done].
      simpl. destruct (nsane_flows s Hs i k Ei) as (fl & Hfl & _). unfold flow_at. simpl.
      by rewrite (lookup_app_l_Some _ _ _ _ Hfl), Hfl.
  - split_and!; [by apply insert_subseteq| |done..].
    intros k Hk. simpl. rewrite lookup_app_l; [done|]. by apply lookup_lt_is_Some.
Qed.

(** The bidirectional part: the send flow, and the pair of handles. *)
Definition nbi_rest id (recv : RecvStream) : nprog chan (result unit) :=
  let* fl := register_send_flow id 0 in
  match fl with
  | Ok flow => let* send := SendStream_new id flow in deliver_bi (send, recv)
  | Err err => dropping (RecvStream_drop recv) (protocol_error 3 (Error_to_string err))
  | Panic => Ret Panic
  end.

Lemma nsend_new_spec w s id flow :
  runs w s (SendStream_new id flow) (fun h s' => adata s' = adata s /\ odata s' = odata s /\ acc_data s' = acc_data s
    /\ ss_id h = id /\ nfresh_send s' h).
Proof.
  apply runs_atomic. cbn [fst snd]. split_and!; try done.
  - unfold odata. rewrite (nslots_view s); [done..|]. simpl. rewrite !tx_clone_view. by eexists.
  - eexists. simpl. rewrite lookup_app_r, Nat.sub_diag by done. by split_and!.
Qed.

Lemma nbi_rest_spec w s s2 id recv :
  ep_check_open (limits s) (nabs s) id Bi "OpenBi" = None -> closed s = false -> nregistered s id Bi s2 recv ->
  runs w s2 (nbi_rest id recv) (nconf (OpenBi id) s).
Proof.
  intros Hchk Hc [Hs2 Hk Hid Hfr Hacc Hsent Hlog Ha2]. pose proof Hk as (_ & _ & Kc & Kl). unfold nbi_rest.
  pose proof (nregister_flow_spec s2 id Hs2) as Hr. rewrite Ha2, Kl in Hr.
  change (ep_send (ep_open (limits s) (nabs s) id Bi)) with (ep_send (nabs s)) in Hr.
  eapply (runs_bind _ _ _ _ (fun a s3 => register_send_flow_locked id 0 s2 = (s3, a))).
  { apply runs_atomic. by destruct (register_send_flow_locked id 0 s2). }
  intros a s3 E. rewrite E in Hr. destruct a as [flow|err|]; [| |done].
  - destruct Hr as (Hsize & Hnone & Hs4 & Ha4 & Hk4 & Ho4 & Hacc4 & R1 & R2).
    eapply runs_bind; [apply nsend_new_spec|]. intros h s4 (Hd5 & Ho5 & Hacc5 & Hhid & Hfs).
    pose proof Hd5 as [= V1 V2 _ _ _ _ _ _ _ _ _]. pose proof Ho4 as [= Hl4 _]. pose proof Ho5 as [= Hl5 _].
    apply runs_deliver_bi; cbn [fst snd]; [|by rewrite Hid|congruence|congruence|done..|].
    + constructor; [done| | |by eapply nsane_same|by rewrite (nabs_same _ _ Hd5), Ha4| |].
      * unfold ep_check. rewrite Hchk, Hnone. by rewrite (proj2 (Z.leb_gt _ _) Hsize).
      * eapply nkept_trans; [exact Hk|]. eapply nkept_trans; [exact Hk4|by apply nkept_adata].
      * eapply nsent_then; [exact Hsent|]. by rewrite Ho5.
      * rewrite Hl5, Hl4. exact Hlog.
    + unfold nfresh_recv in *. by rewrite V1, V2, R1, R2.
  - destruct Hr as [-> Hr]. apply runs_dropping.
    assert (Hv : ep_check (limits s) (nabs s) (OpenBi id) = Some (3, Error_to_string err)).
    { unfold ep_check. rewrite Hchk. destruct Hr as [[Hsize ->]|(Hsize & [x Hx] & ->)].
      - by rewrite (proj2 (Z.leb_le _ _) Hsize).
      - by rewrite (proj2 (Z.leb_gt _ _) Hsize), Hx. }
    eapply runs_mono; [apply (nerror _ (OpenBi id) s); [done..|by left|unfold ep_before; by rewrite Hchk]|].
    intros r s4 (-> & Ht & Hconf). eapply runs_mono; [by apply ntorn_recv_drop|]. intros v s5 [Ht5 Hl5]. by apply Hconf.
Qed.

Lemma nstep_open_bi id s : nframe_ok (OpenBi id) s.
Proof.
  intros Hs Hc. eapply (nopen_with_spec _ Bi "OpenBi" (nbi_rest id) id); try done.
  - intros v E. unfold ep_check, ep_before. by rewrite E.
  - intros E. split; [by right|done].
  - intros s2 recv ??. by apply nbi_rest_spec.
Qed.

Lemma nstep_frame f s : nframe_ok f s.
Proof.
  destruct f; [apply nstep_open_uni|apply nstep_open_bi|apply nstep_stream|apply nstep_reset
    |apply nstep_stop|apply nstep_max|apply nstep_close].
Qed.

Lemma inv_nsane s T : inv s T -> nsane s.
Proof.
  intros HI. constructor.
  - intros id rs Hrs. destruct (inv_streams _ _ HI id rs Hrs) as (_ & c & Hc & _). by eapply lookup_lt_Some.
  - intros id k Hk. destruct (inv_accounts _ _ HI id k (inv_flow_map _ _ HI _ _ Hk)) as (fl & Hfl & _).
    exists fl. split; [done|]. by eapply (inv_flow_live _ _ HI).
  - intros i j k Hi Hj. eapply (inv_flow_inj _ _ HI); by apply (inv_flow_map _ _ HI).
  - intros id rs Hrs. destruct (inv_streams _ _ HI id rs Hrs) as (_ & c & Hc & ?). lia.
  - eapply Forall_impl; [apply (inv_cells _ _ HI)|]. intros c Hc. apply Hc.
Qed.
End NativeRefine.

Section NativeProtocol.
Context {chan : Type -> Type} `{MpscLaws chan} `{!MapOrder} `{!MapOrderLaws} `{!UsizeWidth}.
Context (server : bool) (l : Limits) (s0 : SessionInner chan).
Context (Hwidth : 62 < usize_bits) (Husize : limits_usize l).
Context (Hnew : Session_new server l = Ok s0).

(** C1: the native session implements the protocol's endpoint.  A new session is a
    fresh endpoint.  In every state clients, peer and scheduler can lead an open
    session to, the handler of a frame, run on its own, conforms to the specification
    in its result, the new state and the frames it queues: a violation ends the
    session, leaves nothing of any stream and releases every blocked writer, and the
    peer is told exactly the specified code and reason, if the queue has a free slot;
    every other frame makes exactly the specified change and is answered with exactly
    the specified frame, or is refused because a local queue is full; a close of the
    peer tears the session down; and a stream nobody accepts is stopped and reset.
    Only the frames that are answered with a frame can wait, for a slot of the queue. *)
Theorem native_refines_protocol :
  nabs s0 = ep_new server
  /\ forall s ths f, pool_reach native_api no_wrap s0 (s, ths) -> closed s = false ->
     match run (handle_frame f) s with
     | (s', Some r) => exists out, out_log s' = out_log s ++ out
         /\ conforms true l (nqueues s) (nabs s) f r (fun e => nabs s' = e) (ntorn s s') out
     | (s', None) => may_wait f /\ (tx_reserve (outbound s')).1 = ReservePending
     end.
Proof.
  split.
  - unfold Session_new in Hnew. destruct (Limits_validate l) as [[]| |]; [|done..].
    simpl in Hnew. simplify_eq. unfold nabs. simpl. by rewrite !fmap_empty.
  - intros s ths f Hr Hc. destruct (native_reach_inv server l s0 _ Hwidth Husize Hnew Hr) as (<- & _ & _ & T & HI).
    pose proof (nstep_frame f s (inv_nsane s T HI) Hc) as Hstep. unfold runs in Hstep.
    destruct (run (handle_frame f) s) as [s' [r|]]; [|done]. destruct Hstep as (out & E & Hconf).
    exists out. split; [done|]. eapply conforms_mono; [|exact Hconf]. by intros e [? _].
Qed.
End NativeProtocol.

(** *** A concrete session *)
Section Demo.
#[local] Existing Instance list_order.
#[local] Existing Instance usize64.

(** The peer opens a stream with an identifier of the wrong kind, and is told so. *)
Lemma native_refines_protocol_witness :
  ep_check Limits_default (nabs demo_end.1) (OpenUni (mkStreamId 5)) = Some (1, "OpenUni with non-uni StreamId")
  /\ out_log (run (handle_frame (OpenUni (mkStreamId 5))) demo_end.1).1
     = out_log demo_end.1 ++ [ConnectionClose 1 "OpenUni with non-uni StreamId"]
  /\ match run (handle_frame (OpenUni (mkStreamId 5))) demo_end.1 with
     | (s', Some r) => exists out, out_log s' = out_log demo_end.1 ++ out
         /\ conforms true Limits_default (nqueues demo_end.1) (nabs demo_end.1) (OpenUni (mkStreamId 5)) r
              (fun e => nabs s' = e) (ntorn demo_end.1 s') out
     | (s', None) => may_wait (OpenUni (mkStreamId 5)) /\ (tx_reserve (outbound s')).1 = ReservePending
     end.
Proof.
  split; [vm_compute; reflexivity|]. split; [vm_compute; reflexivity|].
  apply (native_refines_protocol false Limits_default demo_start) with (ths := demo_end.2).
  - reflexivity.
  - apply limits_usize_default.
  - exact demo_new.
  - exact demo_reach.
  - vm_compute. reflexivity.
Defined.
End Demo.
