(* ===== verification/PeerRun.v ===== *)
(** * An endpoint among its own tasks

    [peer_run] lets an abstract endpoint ([Protocol]) take frames in order, interleaved
    with whatever the tasks of its side do meanwhile: they grant credit, stop streams,
    open streams, close send directions.  A server that takes the frames of a client
    which keeps the order and the credit of [well_sent] has no reason to reject a frame
    on a stream the client opened but a lack of resources. *)

From S2P Require Import Prelude Buf VarInt Frame Proto Limits SendFlow Channel Async NativeState.
From S2P Require Import NativeOps NativeStream NativeRecv NativeSession NativeTasks Credit NativeInv.
From S2P Require Import FuturesChannel WasmState WasmOps WasmStreams WasmSession WasmInv Protocol.
Open Scope mux_scope.

(** What an endpoint may change on its own, about the streams its peer opened: raise
    a limit, stop a receive direction, close a send direction. *)
Definition extends (d d' : recv_dir) : Prop :=
  rd_received d' = rd_received d /\ rd_limit d <= rd_limit d'.

Record ep_own_step (e e' : endpoint) : Prop := {
  os_server : ep_server e' = ep_server e;
  os_local : ep_local_uni e <= ep_local_uni e' /\ ep_local_bi e <= ep_local_bi e';
  os_next : forall dir, ep_peer_next e' dir = ep_peer_next e dir;
  os_recv : forall id, is_local (negb (ep_server e)) id ->
      option_Forall2 extends (ep_recv e !! id) (ep_recv e' !! id);
  os_send : forall id, is_local (negb (ep_server e)) id ->
      ep_send e !! id = None -> ep_send e' !! id = None
}.

#[global] Instance extends_preorder : PreOrder extends.
Proof. unfold extends. split; [intros d; lia|intros d1 d2 d3 [??] [??]; lia]. Qed.

#[global] Instance ep_own_preorder : PreOrder ep_own_step.
Proof.
  split.
  - intros e. by constructor.
  - intros e1 e2 e3 [S1 L1 N1 R1 D1] [S2 L2 N2 R2 D2]. rewrite S1 in *. constructor.
    + congruence.
    + lia.
    + intros dir. by rewrite N2.
    + intros id Hid. specialize (R1 id Hid). specialize (R2 id Hid).
      destruct R1 as [d1 d2 H1|]; inversion R2; subst; constructor. by etrans.
    + auto.
Qed.

(** The check of the send direction an [OpenBi] opens. *)
Definition ep_send_check (l : Limits) (e : endpoint) (id : StreamId) : option (Z * string) :=
  if max_open_streams l <=? Z.of_nat (size (ep_send e)) then Some (3, "protocol error: too many open send streams")
  else match ep_send e !! id with
  | Some _ => Some (3, "protocol error: duplicate send stream")
  | None => None
  end.
Lemma ep_check_bi l e id :
  ep_check l e (OpenBi id) = match ep_check_open l e id Bi "OpenBi" with
                             | Some v => Some v
                             | None => ep_send_check l e id
                             end.
Proof. done. Qed.

(** A frame about a direction of a stream that the endpoint opens itself, and that was
    not there when the frame was looked up but is allocated by now: nothing is done. *)
Definition ep_late (e : endpoint) (f : Frame) : Prop :=
  match f with
  | ResetStream id _ => ep_is_local e id = true /\ ep_retired e id true = true
  | StopSending id _ => ep_is_local e id = true /\ ep_retired e id false = true
  | _ => False
  end.

Section PeerRun.
Context (lp : Limits).
Implicit Types (e : endpoint) (f : Frame) (id : StreamId).

(** The endpoint has taken the frames [fs]; [fs] grows at its end.  Between the two
    directions of a bidirectional stream its tasks may get a turn. *)
Inductive peer_run (e0 : endpoint) : list Frame -> endpoint -> Prop :=
  | peer_start : peer_run e0 [] e0
  | peer_own fs e e' : peer_run e0 fs e -> ep_own_step e e' -> peer_run e0 fs e'
  | peer_frame fs e f : peer_run e0 fs e -> ep_check lp e f = None ->
      peer_run e0 (fs ++ [f]) (ep_apply lp e f)
  | peer_open_bi fs e id e1 : peer_run e0 fs e ->
      ep_check_open lp e id Bi "OpenBi" = None -> ep_own_step (ep_open lp e id Bi) e1 ->
      ep_send_check lp e1 id = None ->
      peer_run e0 (fs ++ [OpenBi id]) (ep_set_send (<[id := 0]> (ep_send e1)) e1)
  | peer_late fs e f : peer_run e0 fs e -> ep_late e f -> peer_run e0 (fs ++ [f]) e.

(** The endpoint has taken [fs] and rejects [f]; the two directions of a bidirectional
    stream are opened one after the other. *)
Definition rejects (e0 : endpoint) (fs : list Frame) (f : Frame) (e : endpoint) (v : Z * string) : Prop :=
  (peer_run e0 fs e /\ ep_check lp e f = Some v)
  \/ exists id e1, f = OpenBi id /\ peer_run e0 fs e1 /\ ep_check_open lp e1 id Bi "OpenBi" = None
       /\ ep_own_step (ep_open lp e1 id Bi) e /\ ep_send_check lp e id = Some v.

Definition opened (fs : list Frame) id : Prop := exists f, f ∈ fs /\ open_id f = Some id.
Definition ended (fs : list Frame) id : Prop := exists f, f ∈ fs /\ terminal id f.

(** What a server knows of the client's streams after the frames [fs]. *)
Record knows (fs : list Frame) e : Prop := {
  kn_server : ep_server e = true;
  kn_recv : forall id d, is_local false id -> ep_recv e !! id = Some d ->
      opened fs id /\ rd_received d = logged id fs /\ 0 <= rd_limit d;
  kn_live : forall id, is_local false id -> opened fs id -> ~ ended fs id -> is_Some (ep_recv e !! id);
  kn_above : forall id, opened fs id -> StreamId_counter id < ep_peer_next e (StreamId_dir id);
  kn_next : forall dir c, 0 <= c ->
      (forall id, opened fs id -> StreamId_dir id = dir -> StreamId_counter id < c) ->
      ep_peer_next e dir <= c;
  kn_send : forall id, is_local false id -> is_Some (ep_send e !! id) -> opened fs id
}.

Lemma opened_snoc fs f id : opened (fs ++ [f]) id <-> opened fs id \/ open_id f = Some id.
Proof. unfold opened. set_solver. Qed.

Lemma ended_snoc fs f id : ended (fs ++ [f]) id <-> ended fs id \/ terminal id f.
Proof. unfold ended. set_solver. Qed.

Lemma logged_snoc id fs f : logged id (fs ++ [f]) = logged id fs + frame_amount id f.
Proof. rewrite logged_app. simpl. lia. Qed.

Lemma knows_new : knows [] (ep_new true).
Proof.
  assert (Hno : forall id, ~ opened [] id) by (intros id (? & ?%elem_of_nil & _); done).
  constructor; simpl; try done.
  - intros id _ Ho. by destruct (Hno id).
  - intros id Ho. by destruct (Hno id).
  - by intros [] c ? _.
  - intros id _ [x Hx]. by rewrite lookup_empty in Hx.
Qed.

Lemma knows_own fs e e' : knows fs e -> ep_own_step e e' -> knows fs e'.
Proof.
  intros [] []. rewrite kn_server0 in *. constructor.
  - congruence.
  - intros id d' Hl Hd'. pose proof (os_recv0 id Hl) as Hr. rewrite Hd' in Hr.
    inversion Hr as [d ? [Hrec Hlim] Hd|]; subst. symmetry in Hd.
    destruct (kn_recv0 id d Hl Hd) as (? & ? & ?). split_and!; [done|congruence|lia].
  - intros id Hl Ho He. destruct (kn_live0 id Hl Ho He) as [d Hd].
    pose proof (os_recv0 id Hl) as Hr. rewrite Hd in Hr. inversion Hr. by eexists.
  - intros id. rewrite os_next0. apply kn_above0.
  - intros dir. rewrite os_next0. apply kn_next0.
  - intros id Hl Hs. apply kn_send0; [done|]. destruct (ep_send e !! id) eqn:E; [done|].
    rewrite (os_send0 id Hl E) in Hs. by destruct Hs.
Qed.

(** Frames a session may have queued: encodable, data after its OPEN. *)
Definition in_order (fs : list Frame) : Prop := opened_first false fs /\ Forall frame_ok fs.

Lemma opened_first_prefix server fs fs' : opened_first server (fs ++ fs') -> opened_first server fs.
Proof.
  intros Ho j id data fin Hj Hl.
  destruct (Ho j id data fin ltac:(by apply lookup_app_l_Some) Hl) as (i & g & Hi & Hg & ?).
  exists i, g. split_and!; [done| |done]. rewrite lookup_app_l in Hg; [done|]. apply lookup_lt_Some in Hj. lia.
Qed.

Lemma in_order_prefix fs fs' : in_order (fs ++ fs') -> in_order fs.
Proof. intros [Ho [Hok _]%Forall_app]. split; [by eapply opened_first_prefix|done]. Qed.

Lemma unopened_silent fs id :
  opened_first false fs -> is_local false id -> ~ opened fs id -> logged id fs = 0.
Proof.
  intros Ho Hl Hno.
  assert (Hall : forall f, f ∈ fs -> frame_amount id f = 0).
  { intros f [j Hj]%list_elem_of_lookup_1. destruct f; simpl; try done. case_decide as Hid; [|done]. subst.
    destruct (Ho _ _ _ _ Hj Hl) as (i & g & _ & Hi & Hg). destruct Hno. exists g.
    split; [by eapply list_elem_of_lookup_2|]. by destruct Hg; subst. }
  clear -Hall. induction fs as [|f fs IH]; simpl; [done|]. rewrite Hall by left.
  rewrite IH; [done|]. intros g Hg. apply Hall. by right.
Qed.

Lemma counter_small id : sid_ok id -> 0 <= StreamId_counter id < u64_max.
Proof.
  unfold sid_ok, varint_ok. intros Hid. destruct (sid_decompose id) as [Hv Hc]; [lia|].
  assert (VarInt_MAX < u64_max) by (vm_compute; reflexivity).
  assert (0 <= dir_bit (StreamId_dir id)) by (by destruct (StreamId_dir id)).
  destruct (initiator_is_server id); simpl in Hv; lia.
Qed.

Lemma check_open_none e id dir name :
  ep_server e = true -> ep_check_open lp e id dir name = None ->
  StreamId_dir id = dir /\ is_local false id /\ ep_peer_next e dir <= StreamId_counter id.
Proof.
  unfold ep_check_open, is_local. intros ->. case_bool_decide as Hd; simpl; [|done].
  destruct (initiator_is_server id); simpl; [done|]. destruct (_ <? _) eqn:E; [done|]. intros _. split_and!; [done..|lia].
Qed.

(** An OPEN that is taken. *)
Lemma knows_open fs e e' id f dir name :
  knows fs e -> in_order (fs ++ [f]) -> open_id f = Some id -> ep_check_open lp e id dir name = None ->
  0 <= initial_stream_window lp -> ep_server e' = true ->
  ep_recv e' = ep_recv (ep_open lp e id dir) ->
  (forall d, ep_peer_next e' d = ep_peer_next (ep_open lp e id dir) d) ->
  (forall i, i <> id -> is_Some (ep_send e' !! i) -> is_Some (ep_send e !! i)) ->
  knows (fs ++ [f]) e'.
Proof.
  intros HK [Hof Hok] Hf Hc Hw Hsrv Hrecv Hnext Hsend.
  destruct (check_open_none e id dir name (kn_server _ _ HK) Hc) as (Hdir & Hloc & Hle).
  assert (Hnew : ~ opened fs id) by (intros Ho; apply (kn_above _ _ HK) in Ho; rewrite Hdir in Ho; lia).
  assert (Hamt : forall i, frame_amount i f = 0) by (intros i; destruct f; simplify_eq/=; tauto).
  assert (Hterm : forall i, ~ terminal i f) by (intros i; destruct f; simplify_eq/=; tauto).
  assert (Hid : sid_ok id).
  { apply Forall_app in Hok as [_ Hok]. rewrite Forall_singleton in Hok. destruct f; simplify_eq/=; done. }
  pose proof (counter_small id Hid) as Hsmall.
  pose proof (unopened_silent fs id (opened_first_prefix false fs [f] Hof) Hloc Hnew) as Hsilent.
  assert (Hnext' : forall d, ep_peer_next e' d = if decide (d = dir) then StreamId_counter id + 1 else ep_peer_next e d).
  { intros d. rewrite Hnext. unfold ep_open, saturating_add64. rewrite Z.min_l by lia. by destruct d, dir. }
  constructor; try done.
  - intros i d Hl. rewrite Hrecv, logged_snoc, Hamt, opened_snoc. simpl.
    rewrite lookup_insert_Some. intros [[<- <-]|[_ Hd]]; simpl; [split_and!; [by right|lia|done]|].
    destruct (kn_recv _ _ HK i d Hl Hd) as (? & ? & ?). split_and!; [by left|lia|done].
  - intros i Hl. rewrite opened_snoc, ended_snoc, Hrecv. simpl. intros Ho Hne.
    rewrite lookup_insert_is_Some. destruct (decide (id = i)) as [->|Hi]; [by left|]. right. split; [done|].
    apply (kn_live _ _ HK); [done| |tauto]. destruct Ho; [done|]. congruence.
  - intros i. rewrite opened_snoc, Hnext'. intros [Ho|Hi].
    + pose proof (kn_above _ _ HK i Ho). case_decide as Hd; [rewrite Hd in *|]; lia.
    + assert (i = id) as -> by congruence. rewrite decide_True by done. lia.
  - intros d c Hc0 Hall. rewrite Hnext'. case_decide as Hd.
    + specialize (Hall id). rewrite opened_snoc in Hall. specialize (Hall ltac:(by right) ltac:(congruence)). lia.
    + apply (kn_next _ _ HK); [done|]. intros i Ho. apply Hall. rewrite opened_snoc. by left.
  - intros i Hl Hs. rewrite opened_snoc. destruct (decide (i = id)) as [->|Hi]; [by right|left].
    by apply (kn_send _ _ HK); [|apply Hsend].
Qed.

(** A frame that opens nothing: the entry of its stream changes, or none. *)
Lemma knows_other fs e e' f :
  knows fs e -> open_id f = None -> ep_server e' = ep_server e ->
  (forall dir, ep_peer_next e' dir = ep_peer_next e dir) ->
  (forall id, is_local false id -> is_Some (ep_send e' !! id) -> is_Some (ep_send e !! id)) ->
  (forall id d', is_local false id -> ep_recv e' !! id = Some d' -> exists d,
     ep_recv e !! id = Some d /\ rd_received d' = rd_received d + frame_amount id f /\ rd_limit d' = rd_limit d) ->
  (forall id, ~ terminal id f -> is_Some (ep_recv e !! id) -> is_Some (ep_recv e' !! id)) ->
  knows (fs ++ [f]) e'.
Proof.
  intros [] Hf Hsrv Hnext Hsend Hrecv Hlive.
  assert (Ho : forall id, opened (fs ++ [f]) id <-> opened fs id).
  { intros id. rewrite opened_snoc, Hf. naive_solver. }
  constructor.
  - congruence.
  - intros id d' Hl Hd'. destruct (Hrecv id d' Hl Hd') as (d & Hd & Hr & Hlim).
    destruct (kn_recv0 id d Hl Hd) as (? & ? & ?). rewrite Ho, logged_snoc. split_and!; [done|lia..].
  - intros id Hl. rewrite Ho, ended_snoc. intros Hop He. apply Hlive; [tauto|]. apply kn_live0; tauto.
  - intros id. rewrite Ho, Hnext. apply kn_above0.
  - intros dir c Hc. rewrite Hnext. setoid_rewrite Ho. by apply kn_next0.
  - intros id Hl Hs. rewrite Ho. by apply kn_send0; [|apply Hsend].
Qed.

Lemma knows_frame fs e f :
  0 <= initial_stream_window lp -> knows fs e -> in_order (fs ++ [f]) -> ep_check lp e f = None ->
  knows (fs ++ [f]) (ep_apply lp e f).
Proof.
  intros Hw HK Hord Hc. pose proof (kn_server _ _ HK) as Hsrv.
  destruct f as [id|id|id data fin|id code|id code|id max|code reason]; simpl in Hc.
  - by apply (knows_open fs e _ id (OpenUni id) Uni "OpenUni").
  - destruct (ep_check_open _ _ _ _ _) eqn:E; [done|].
    apply (knows_open fs e _ id (OpenBi id) Bi "OpenBi"); try done.
    intros i Hi. cbn [ep_apply ep_set_send ep_send]. by rewrite lookup_insert_ne.
  - case_match; [done|]. destruct (ep_recv e !! id) as [d|] eqn:Ed; [|done]. simpl. rewrite Ed.
    destruct fin; (apply (knows_other fs e); [done..| |]); simpl.
    + intros i d' _ [Hne Hd']%lookup_delete_Some. exists d'. rewrite decide_False by done. split_and!; [done|lia|done].
    + intros i Hi. by rewrite lookup_delete_ne.
    + intros i d' _. rewrite lookup_insert_Some. intros [[<- <-]|[Hne Hd']]; simpl.
      * exists d. by rewrite decide_True.
      * exists d'. rewrite decide_False by done. split_and!; [done|lia|done].
    + intros i _ Hi. rewrite lookup_insert_is_Some'. auto.
  - apply (knows_other fs e); try done; simpl.
    + intros i d' _ [Hne Hd']%lookup_delete_Some. exists d'. split_and!; [done|lia|done].
    + intros i Hi. by rewrite lookup_delete_ne.
  - apply (knows_other fs e); try done; simpl.
    + intros i _ [x [_ Hx]%lookup_delete_Some]. by eexists.
    + intros i d Hl Hd. exists d. split_and!; [done|lia|done].
  - apply (knows_other fs e); try done; simpl.
    + intros i _. by rewrite lookup_alter_is_Some.
    + intros i d Hl Hd. exists d. split_and!; [done|lia|done].
  - apply (knows_other fs e); try done; simpl.
    intros i d Hl Hd. exists d. split_and!; [done|lia|done].
Qed.

(** The receive direction of a bidirectional stream is open, the other one is not yet. *)
Lemma knows_half_open fs e id e1 :
  0 <= initial_stream_window lp -> knows fs e -> in_order (fs ++ [OpenBi id]) ->
  ep_check_open lp e id Bi "OpenBi" = None -> ep_own_step (ep_open lp e id Bi) e1 ->
  knows (fs ++ [OpenBi id]) e1.
Proof.
  intros Hw HK Hord Hc Hown. eapply knows_own; [|exact Hown].
  by apply (knows_open fs e _ id (OpenBi id) Bi "OpenBi"); try apply (kn_server _ _ HK).
Qed.

Lemma knows_add_send fs e id n :
  knows fs e -> opened fs id -> knows fs (ep_set_send (<[id := n]> (ep_send e)) e).
Proof.
  intros [] Ho. constructor; try done. intros i Hi. simpl. rewrite lookup_insert_is_Some.
  intros [<-|[_ Hs]]; [done|auto].
Qed.

Lemma knows_late fs e f : knows fs e -> ep_late e f -> knows (fs ++ [f]) e.
Proof.
  intros HK Hl. apply (knows_other fs e); try done; [by destruct f|].
  intros id d _ Hd. exists d. split_and!; [done| |done]. destruct f; try done; simpl; lia.
Qed.

Lemma knows_run fs e :
  0 <= initial_stream_window lp -> peer_run (ep_new true) fs e -> in_order fs -> knows fs e.
Proof.
  intros Hw. induction 1 as [|fs e e' Hr IH Hs|fs e f Hr IH Hc|fs e id e1 Hr IH Hc Hs Hsc|fs e f Hr IH Hl]; intros Ho.
  - apply knows_new.
  - by eapply knows_own; [apply IH|].
  - apply knows_frame; try done. apply IH. by eapply in_order_prefix.
  - apply knows_add_send.
    + eapply knows_half_open; [done|apply IH; by eapply in_order_prefix|done..].
    + apply opened_snoc. by right.
  - apply knows_late; [|done]. apply IH. by eapply in_order_prefix.
Qed.
End PeerRun.

(** ** The verdict on a queued frame *)

(** Frames about the streams a client opened, after the frames [fs]. *)
Definition about_own (fs : list Frame) (f : Frame) : Prop :=
  match f with
  | OpenUni _ | OpenBi _ | MaxStreamData _ _ => True
  | Stream id _ _ => is_local false id
  | ResetStream id _ => is_local false id /\ opened fs id
  | StopSending id _ => is_local false id /\ OpenBi id ∈ fs
  | ConnectionClose _ _ => True
  end.

(** The only verdicts left, for a frame queued when the session had been told that it
    may send up to [told id] bytes on stream [id]: a table is full, or the peer does
    not stand by its grant. *)
Definition exhausted (lp : Limits) (told : StreamId -> option Z) (e : endpoint) (f : Frame)
    (v : Z * string) : Prop :=
  match f with
  | OpenUni _ => v = (3, "too many open streams") /\ max_open_streams lp <= Z.of_nat (size (ep_recv e))
  | OpenBi _ =>
      (v = (3, "too many open streams") /\ max_open_streams lp <= Z.of_nat (size (ep_recv e)))
      \/ (v = (3, "protocol error: too many open send streams")
          /\ max_open_streams lp <= Z.of_nat (size (ep_send e)))
  | Stream id _ _ => v = (2, "stream flow-control limit exceeded")
      /\ exists d m, ep_recv e !! id = Some d /\ told id = Some m /\ rd_limit d < m
  | _ => False
  end.

(** What a session guarantees about a history of frames, given the limits it was told. *)
Record well_sent (l : Limits) (told : StreamId -> option Z) (fs : list Frame) : Prop := {
  wf_order : in_order fs;
  wf_final : terminal_final fs;
  wf_opens : opens_ordered fs;
  wf_open : forall f id, f ∈ fs -> open_id f = Some id -> is_local false id /\ StreamId_dir id = open_dir f;
  wf_size : forall id data fin, Stream id data fin ∈ fs -> blen data <= max_stream_data_per_frame l;
  wf_credit : forall id, 0 < logged id fs -> exists m, told id = Some m /\ logged id fs <= m < u64_mod
}.

Section Verdict.
Context (l lp : Limits) (told : StreamId -> option Z).
Context (Hwindow : 0 <= initial_stream_window lp).
Context (Hsize : max_stream_data_per_frame l <= max_stream_data_per_frame lp).
Implicit Types (e : endpoint) (id : StreamId).

Lemma ep_open_verdict pre f post e id name :
  well_sent l told (pre ++ f :: post) -> knows pre e -> open_id f = Some id ->
  forall v, ep_check_open lp e id (open_dir f) name = Some v ->
    v = (3, "too many open streams") /\ max_open_streams lp <= Z.of_nat (size (ep_recv e)).
Proof.
  intros HW HK Hf v. destruct (wf_open _ _ _ HW f id ltac:(set_solver) Hf) as [Hloc Hdir].
  assert (Hlt : forall i, opened pre i -> StreamId_dir i = StreamId_dir id ->
    StreamId_counter i < StreamId_counter id).
  { intros i (g & [k Hk]%list_elem_of_lookup_1 & Hg) Hd. pose proof (lookup_lt_Some _ _ _ Hk).
    eapply (wf_opens _ _ _ HW k (length pre) g f); [done| | |done..].
    - by rewrite lookup_app_l. - by rewrite list_lookup_middle. }
  assert (Hok : sid_ok id).
  { destruct (wf_order _ _ _ HW) as [_ Hall]. apply Forall_app in Hall as [_ Hall].
    apply Forall_cons in Hall as [Hall _]. destruct f; simplify_eq/=; done. }
  destruct (counter_small id Hok) as [Hpos _].
  pose proof (kn_next _ _ HK (open_dir f) (StreamId_counter id) Hpos
    ltac:(rewrite <- Hdir; intros; by apply Hlt)) as Hnext.
  unfold ep_check_open, open_limits. rewrite (kn_server _ _ HK), bool_decide_true by done. simpl.
  unfold is_local in Hloc. rewrite Hloc. simpl. rewrite (proj2 (Z.ltb_ge _ _) Hnext).
  destruct (_ <=? _) eqn:E; [intros [= <-]; split; [done|lia]|].
  destruct (ep_recv e !! id) eqn:Er; [|done].
  destruct (kn_recv _ _ HK id _ Hloc Er) as [Ho _]. specialize (Hlt id Ho eq_refl). lia.
Qed.

Lemma stream_verdict pre id data fin post e :
  well_sent l told (pre ++ Stream id data fin :: post) -> knows pre e -> is_local false id ->
  forall v, ep_check lp e (Stream id data fin) = Some v -> exhausted lp told e (Stream id data fin) v.
Proof.
  intros HW HK Hloc v. set (f := Stream id data fin) in *.
  assert (Hf : (pre ++ f :: post) !! length pre = Some f) by (by rewrite list_lookup_middle).
  assert (Ho : opened pre id).
  { destruct (proj1 (wf_order _ _ _ HW) _ _ _ _ Hf Hloc) as (i & g & Hi & Hg & Hog). exists g.
    rewrite lookup_app_l in Hg by done. split; [by eapply list_elem_of_lookup_2|].
    by destruct Hog; subst. }
  assert (He : ~ ended pre id).
  { intros (g & [k Hk]%list_elem_of_lookup_1 & Hg). pose proof (lookup_lt_Some _ _ _ Hk).
    pose proof (wf_final _ _ _ HW k (length pre) id g data fin ltac:(by rewrite lookup_app_l) Hg Hf). lia. }
  destruct (kn_live _ _ HK id Hloc Ho He) as [d Hd].
  destruct (kn_recv _ _ HK id d Hloc Hd) as (_ & Hrec & Hlim).
  assert (Hlog : rd_received d + blen data <= logged id (pre ++ f :: post)).
  { rewrite logged_app. simpl. rewrite decide_True by done. pose proof (logged_nonneg id post). lia. }
  pose proof (wf_size _ _ _ HW id data fin ltac:(set_solver)) as Hlen.
  cbn [ep_check f]. rewrite Hd, (proj2 (Z.ltb_ge _ _)) by lia.
  destruct (decide (0 < logged id (pre ++ f :: post))) as [Hp|Hz].
  - destruct (wf_credit _ _ _ HW id Hp) as (m & Hm & Hle & Hmax).
    rewrite (proj2 (Z.ltb_ge _ _)) by (unfold u64_max, u64_mod in *; lia).
    destruct (_ <? _) eqn:E; [|done]. intros [= <-]. simpl. split; [done|]. exists d, m. split_and!; [done..|lia].
  - rewrite !(proj2 (Z.ltb_ge _ _)); [done|lia|unfold u64_max; lia].
Qed.

(** A frame that was well sent is rejected for a lack of resources only. *)
Lemma well_sent_verdict pre f post e v :
  well_sent l told (pre ++ f :: post) -> peer_run lp (ep_new true) pre e -> about_own pre f ->
  ep_check lp e f = Some v -> exhausted lp told e f v.
Proof.
  intros HW Hrun Hown. pose proof (knows_run lp pre e Hwindow Hrun (in_order_prefix _ _ (wf_order _ _ _ HW))) as HK.
  assert (Hret : forall id b, opened pre id -> is_local false id -> (StreamId_dir id = Uni -> b = true) ->
    ep_retired e id b = true).
  { intros id b Ho Hl Hb. pose proof (kn_above _ _ HK id Ho). unfold ep_retired, ep_frontier, ep_is_local.
    unfold is_local in Hl. rewrite Hl, (kn_server _ _ HK). simpl. unfold ep_peer_next in *.
    destruct (StreamId_dir id) eqn:Ed; [|rewrite Hb by done]; simpl; lia. }
  destruct f as [id|id|id data fin|id code|id code|id max|code reason]; try done.
  - apply (ep_open_verdict pre (OpenUni id) post e id "OpenUni" HW HK eq_refl).
  - cbn [ep_check]. pose proof (ep_open_verdict pre (OpenBi id) post e id "OpenBi" HW HK eq_refl) as Hv.
    simpl in Hv. destruct (ep_check_open _ _ _ _ _) eqn:E; [left; naive_solver|].
    destruct (_ <=? _) eqn:Es; [intros [= <-]; right; split; [done|lia]|].
    destruct (ep_send e !! id) eqn:Ex; [|done].
    destruct (check_open_none lp e id Bi "OpenBi" (kn_server _ _ HK) E) as (Hd & Hl & Hle).
    pose proof (kn_above _ _ HK id (kn_send _ _ HK id Hl ltac:(by eexists))). rewrite Hd in *. lia.
  - by apply (stream_verdict pre id data fin post e).
  - destruct Hown as [Hl Ho]. simpl. rewrite (Hret id true Ho Hl) by done. by rewrite orb_true_r.
  - destruct Hown as [Hl Ho]. simpl. rewrite (Hret id false); [by rewrite orb_true_r|by exists (OpenBi id)|done|].
    intros Hu. destruct (wf_open _ _ _ HW (OpenBi id) id ltac:(set_solver) eq_refl). simpl in *. congruence.
Qed.

Lemma well_sent_rejected pre f post e v :
  well_sent l told (pre ++ f :: post) -> rejects lp (ep_new true) pre f e v -> about_own pre f ->
  exhausted lp told e f v.
Proof.
  intros HW [[Hr Hc]|(id & e1 & -> & Hr & Hc & Ho & Hs)] Hown; [by eapply well_sent_verdict|].
  pose proof (knows_run lp pre e1 Hwindow Hr (in_order_prefix _ _ (wf_order _ _ _ HW))) as HK.
  destruct (check_open_none lp e1 id Bi "OpenBi" (kn_server _ _ HK) Hc) as (Hdir & Hloc & Hle).
  assert (Hnone : ep_send e1 !! id = None).
  { destruct (ep_send e1 !! id) eqn:E; [|done]. exfalso.
    pose proof (kn_above _ _ HK id (kn_send _ _ HK id Hloc ltac:(by eexists))). rewrite Hdir in *. lia. }
  assert (ep_send e !! id = None) as Hn.
  { apply (os_send _ _ Ho id); [|exact Hnone]. simpl. by rewrite (kn_server _ _ HK). }
  unfold ep_send_check in Hs. rewrite Hn in Hs. destruct (_ <=? _) eqn:E; [|done]. injection Hs as <-.
  right. split; [done|lia].
Qed.
End Verdict.

