(* ===== verification/NativeOwn.v ===== *)
(** * Steps beside the handler of a frame

    [nown] bounds what the other tasks of a native session may do to its state while a
    frame is handled: they open and drop streams, grant credit, stop and finish, and
    queue frames, but do not close the session, queue no [ConnectionClose] and do not
    touch what the peer opened ([ep_own_step]).  [polite] programs take such steps only:
    the single accesses of the tables, queueing a frame, and the destructors of the
    stream handles. *)

From S2P Require Import Prelude Buf VarInt Frame Proto Limits SendFlow Channel Async NativeState.
From S2P Require Import NativeOps NativeStream NativeRecv NativeSession NativeTasks Credit NativeInv.
From S2P Require Import NativePool NativeProps Protocol Rely NativeRefine PeerRun.
Open Scope mux_scope.

(** A step about the endpoint's own streams is an own step of every endpoint that
    differs in the peer's counters or in the entry of a stream of the peer. *)
Lemma own_set_peer dir n e e' : ep_own_step e e' -> ep_own_step (ep_set_peer dir n e) (ep_set_peer dir n e').
Proof.
  intros []. constructor; try done. intros d. specialize (os_next Uni) as HU. specialize (os_next Bi) as HB.
  destruct dir, d; simpl in *; done.
Qed.

Lemma own_recv_maps e m m' :
  (forall id, is_local (negb (ep_server e)) id -> m' !! id = m !! id) ->
  ep_own_step (ep_set_recv m e) (ep_set_recv m' e).
Proof. intros Hm. constructor; try done. intros id Hid. simpl. by rewrite (Hm id Hid). Qed.
Lemma own_recv_local e m :
  (forall id, is_local (negb (ep_server e)) id -> m !! id = ep_recv e !! id) -> ep_own_step e (ep_set_recv m e).
Proof. intros Hm. replace e with (ep_set_recv (ep_recv e) e) at 1 by (by destruct e). by apply own_recv_maps. Qed.

Lemma own_retired e e' id b :
  ep_own_step e e' -> (ep_retired e id b = true -> ep_retired e' id b = true)
  /\ (ep_is_local e id = false -> ep_retired e' id b = ep_retired e id b).
Proof.
  intros [Hs [Hu Hb] Hn _ _]. specialize (Hn Uni) as HU. specialize (Hn Bi) as HB. simpl in *.
  unfold ep_retired, ep_frontier, ep_is_local. rewrite Hs, HU, HB. split.
  - case_match; [done|]. destruct (eqb (initiator_is_server id) _), (StreamId_dir id); lia.
  - intros ->. by destruct (StreamId_dir id).
Qed.

Lemma peer_id e id : ep_is_local e id = false -> is_local (negb (ep_server e)) id.
Proof. unfold ep_is_local, is_local. by destruct (initiator_is_server id), (ep_server e). Qed.

Lemma not_own e id i : ep_is_local e id = true -> is_local (negb (ep_server e)) i -> i <> id.
Proof. unfold ep_is_local, is_local. intros Hl Hi ->. rewrite Hi in Hl. by destruct (ep_server e). Qed.

Definition not_close (f : Frame) : Prop := match f with ConnectionClose _ _ => False | _ => True end.

Section Own.
Context {chan : Type -> Type} `{MpscLaws chan} `{!MapOrder}.
Implicit Types (s : SessionInner chan) (id : StreamId) (e : endpoint).

(** Frames were queued, none of them a [ConnectionClose]. *)
Definition log_grows s s' : Prop := exists new, out_log s' = out_log s ++ new /\ Forall not_close new.

(** What the other tasks of a session may do to its state. *)
Record nown s s' : Prop := {
  no_closed : closed s' = closed s;
  no_limits : limits s' = limits s;
  no_server : is_server s' = is_server s;
  no_next : next_uni s <= next_uni s' /\ next_bi s <= next_bi s';
  no_log : log_grows s s';
  no_own : nsane s -> nsane s' /\ ep_own_step (nabs s) (nabs s')
}.

Lemma log_same s s' : out_log s' = out_log s -> log_grows s s'.
Proof. intros E. exists []. by rewrite app_nil_r. Qed.

#[global] Instance nown_preorder : PreOrder nown.
Proof.
  split.
  - intros s. constructor; try done. by apply log_same.
  - intros s1 s2 s3 [C1 L1 S1 N1 (n1 & G1 & F1) O1] [C2 L2 S2 N2 (n2 & G2 & F2) O2]. constructor; [congruence..|lia| |].
    + exists (n1 ++ n2). split; [by rewrite G2, G1, app_assoc|by apply Forall_app].
    + intros Hs. destruct (O1 Hs) as [Hs2 H12]. destruct (O2 Hs2) as [Hs3 H23]. split; [done|by etrans].
Qed.

(** ** Single accesses *)
Lemma nown_queue s s' : adata s' = adata s -> log_grows s s' -> nown s s'.
Proof.
  intros Hd Hlog. pose proof Hd as [= E1 E2 E3 E4 E5 E6 E7 E8 E9 E10 E11]. constructor; [done..|lia|done|].
  intros Hs. split; [by eapply nsane_same|]. by rewrite (nabs_same _ _ Hd).
Qed.
Lemma nown_same s s' : adata s' = adata s /\ out_log s' = out_log s -> nown s s'.
Proof. intros [Hd Hl]. apply nown_queue; [done|by apply log_same]. Qed.

Definition ctrl s := (closed s, limits s, is_server s, (next_uni s, next_bi s), out_log s).
Lemma nown_ctrl s s' :
  ctrl s' = ctrl s -> (nsane s -> nsane s' /\ ep_own_step (nabs s) (nabs s')) -> nown s s'.
Proof. intros [= E1 E2 E3 E4 E5 E6] Ho. constructor; [done..|lia|by apply log_same|done]. Qed.

Lemma nown_on_cell k f s :
  (forall c, rc_granted c = rc_max_data c -> rc_granted (f c) = rc_max_data (f c) /\ rc_max_data c <= rc_max_data (f c)) ->
  nown s (on_cell k f s).
Proof.
  intros Hf. apply nown_ctrl; [done|]. intros Hs. split; [apply nsane_on_cell; [naive_solver|done]|].
  constructor; try done. simpl. intros id _. rewrite !lookup_fmap. destruct (streams s !! id) as [rs|]; simpl; [|constructor].
  constructor. split; [done|]. unfold ndir, cell_of. simpl. destruct (decide (recv_cell rs = k)) as [->|Hne].
  - rewrite list_lookup_alter_eq. destruct (recv_cells s !! k) as [c|] eqn:E; simpl; [|lia].
    apply Hf. by apply (Forall_lookup_1 _ _ k c (nsane_grants s Hs)).
  - rewrite list_lookup_alter_ne by done. lia.
Qed.

Lemma nown_on_flow k f s :
  (forall fl, flows s !! k = Some fl -> flow_closed (f fl) = flow_closed fl) -> nown s (on_flow k f s).
Proof.
  intros Hf. apply nown_ctrl; [done|]. intros Hs. split.
  - destruct Hs. constructor; simpl; try done. intros id j Hj. destruct (nsane_flows id j Hj) as (fl & Hfl & Hc).
    destruct (decide (j = k)) as [->|Hne].
    + exists (f fl). rewrite list_lookup_alter_eq, Hfl. split; [done|]. by rewrite Hf.
    + exists fl. by rewrite list_lookup_alter_ne.
  - constructor; try done. simpl. intros id _. rewrite !lookup_fmap. by destruct (send_flows s !! id).
Qed.

Lemma nown_remove_flow id s : nown s (remove_send_flow_locked id s).1.
Proof.
  apply nown_ctrl; [unfold remove_send_flow_locked; by case_match|]. intros Hs. pose proof (nremove_flow_spec s id Hs) as Hr.
  destruct (remove_send_flow_locked id s) as [s' b]. destruct Hr as (_ & Ha & Hs' & _). split; [done|]. simpl. rewrite Ha.
  constructor; try done. simpl. intros i _ Hi. apply lookup_delete_None. by right.
Qed.

Lemma nown_stop id s : nown s (stop_recv_stream_locked id s).1.
Proof.
  unfold stop_recv_stream_locked. destruct (streams s !! id) as [rs|] eqn:E; [|reflexivity]. simpl.
  apply nown_ctrl; [done|]. intros Hs. split.
  - destruct Hs. constructor; simpl; try done.
    + intros i rs' [[<- <-]|[_ Hi]]%lookup_insert_Some; simpl; eauto.
    + intros i rs' [[<- <-]|[_ Hi]]%lookup_insert_Some; simpl; eauto.
  - constructor; try done. simpl. intros i _. rewrite !lookup_fmap. destruct (decide (i = id)) as [->|Hne].
    + rewrite lookup_insert_eq, E. constructor. by split.
    + by rewrite lookup_insert_ne.
Qed.

(** ** Programs

    Every access of a polite program, from a state in [I], is such a step. *)
Definition polite (I : SessionInner chan -> Prop) {A} (p : nprog chan A) : Prop := steps I nown p (fun _ => True).

Section Rules.
Context (I : SessionInner chan -> Prop).

Lemma polite_ret {A} (a : A) : polite I (Ret a).
Proof. done. Qed.
Lemma polite_bind {A B} (p : nprog chan A) (k : A -> nprog chan B) :
  polite I p -> (forall a, polite I (k a)) -> polite I (pbind p k).
Proof. intros Hp Hk. eapply steps_bind; [exact Hp|]. intros a _. apply Hk. Qed.
Lemma polite_atomic {A} (f : SessionInner chan -> SessionInner chan * A) :
  (forall s, I s -> nown s (f s).1) -> polite I (atomic f).
Proof. intros Hf. apply steps_atomic. auto. Qed.
Lemma polite_await {A} (f : SessionInner chan -> option (SessionInner chan * A)) :
  (forall s s' a, f s = Some (s', a) -> nown s s') -> polite I (await f).
Proof. intros Hf. apply steps_await. intros s s' a _ E. eauto. Qed.
Lemma polite_with_drop {A} d (p : nprog chan A) : polite I d -> polite I p -> polite I (with_drop d p).
Proof. apply steps_with_drop. Qed.
Lemma polite_timeout {A} late (p : nprog chan A) : polite I p -> polite I (timeout late p).
Proof. intros Hp. apply steps_timeout; [reflexivity|exact Hp|done]. Qed.

(** Accesses outside the tables that queue nothing. *)
Lemma polite_quiet {A} (f : SessionInner chan -> SessionInner chan * A) :
  (forall s, adata (f s).1 = adata s /\ out_log (f s).1 = out_log s) -> polite I (atomic f).
Proof. intros Hf. apply polite_atomic. intros s _. by apply nown_same. Qed.
Lemma polite_quiet_await {A} (f : SessionInner chan -> option (SessionInner chan * A)) :
  (forall s s' a, f s = Some (s', a) -> adata s' = adata s /\ out_log s' = out_log s) -> polite I (await f).
Proof. intros Hf. apply polite_await. intros s s' a E. eapply nown_same, Hf, E. Qed.
End Rules.
End Own.

Ltac quietly := simplify_eq/=; repeat (case_match; simplify_eq/=); done.
Create HintDb polite.
Ltac pol :=
  repeat first
    [ apply polite_ret
    | solve [auto with polite]
    | lazymatch goal with
      | |- polite _ (pbind _ _) => apply polite_bind; [|intros ?]
      | |- polite _ (with_drop _ _) => apply polite_with_drop
      | |- polite _ (complete_or_abort _) => apply polite_with_drop
      | |- polite _ (bind_result _ _) => unfold bind_result
      | |- polite _ (gets _) => by apply polite_quiet
      | |- polite _ (modify _) => apply polite_quiet; intros ?; quietly
      | |- polite _ (atomic _) => apply polite_quiet; intros ?; quietly
      | |- polite _ (await _) => apply polite_quiet_await; intros ? ? ? ?; quietly
      | |- polite _ (if ?b then _ else _) => destruct b
      | |- polite _ (match ?x with _ => _ end) => destruct x
      end ].

Section Destructors.
Context {chan : Type -> Type} `{MpscLaws chan} `{!MapOrder} (I : SessionInner chan -> Prop).
Implicit Types (s : SessionInner chan) (id : StreamId).

Lemma polite_is_closed : polite I is_closed.
Proof. unfold is_closed. pol. Qed.
Lemma polite_request_shutdown : polite I request_shutdown.
Proof. unfold request_shutdown. pol. Qed.
#[local] Hint Resolve polite_is_closed polite_request_shutdown : polite.

(** Queueing a frame. *)
Lemma nown_push s f s' : not_close f -> adata s' = adata s -> out_log s' = out_log s ++ [f] -> nown s s'.
Proof. intros Hf Hd Hl. apply nown_queue; [done|]. exists [f]. by rewrite Forall_singleton. Qed.
Lemma polite_send_frame f : not_close f -> polite I (send_frame f).
Proof.
  intros Hf. unfold send_frame, reserve. pol. apply polite_atomic. intros s _. unfold send_with_permit, push_frame.
  destruct f; try done; try (by eapply nown_push). case_match; [by eapply nown_push|by apply nown_same].
Qed.
Lemma polite_try_send f : not_close f -> polite I (try_send_frame f).
Proof.
  intros Hf. unfold try_send_frame. pol. apply polite_atomic. intros s _. unfold try_push_frame.
  case_match. case_match; [by eapply nown_push|by apply nown_same..].
Qed.
Lemma polite_remove_flow id : polite I (remove_send_flow id).
Proof. apply polite_atomic. intros s _. apply nown_remove_flow. Qed.
Lemma polite_stop_recv id : polite I (stop_recv_stream id).
Proof. apply polite_atomic. intros s _. apply nown_stop. Qed.
Lemma polite_cell k f :
  (forall c, rc_granted c = rc_max_data c -> rc_granted (f c) = rc_max_data (f c) /\ rc_max_data c <= rc_max_data (f c)) ->
  polite I (modify (on_cell k f)).
Proof. intros Hf. apply polite_atomic. intros s _. by apply nown_on_cell. Qed.
Lemma polite_with_cell {A} h (f : RecvCell chan -> RecvCell chan * A) :
  (forall c, rc_granted c = rc_max_data c ->
     rc_granted (f c).1 = rc_max_data (f c).1 /\ rc_max_data c <= rc_max_data (f c).1) ->
  polite I (atomic (with_cell h f)).
Proof. intros Hf. apply polite_atomic. intros s _. by apply nown_on_cell. Qed.
Lemma polite_swap_stop h : polite I (swap_stop_sent h).
Proof. apply polite_with_cell. intros c Hc. split; [exact Hc|reflexivity]. Qed.
Lemma polite_finished h : polite I (SendStream_finished h).
Proof. unfold SendStream_finished. pol. Qed.
#[local] Hint Extern 1 (not_close _) => exact Logic.I : polite.
#[local] Hint Resolve polite_try_send polite_remove_flow polite_stop_recv polite_swap_stop polite_finished : polite.
#[local] Hint Extern 2 (polite _ (modify (on_cell _ _))) =>
  (apply polite_cell; intros c Hc; split; [exact Hc|reflexivity]) : polite.

Lemma polite_recv_drop h : polite I (RecvStream_drop h).
Proof. unfold RecvStream_drop. pol. Qed.
Lemma polite_send_drop h : polite I (SendStream_drop h).
Proof. unfold SendStream_drop. pol. Qed.
#[local] Hint Resolve polite_recv_drop polite_send_drop : polite.
Lemma polite_drop_pair p : polite I (drop_pair p).
Proof. unfold drop_pair. pol. Qed.
End Destructors.
#[export] Hint Extern 1 (not_close _) => exact Logic.I : polite.
#[export] Hint Resolve polite_is_closed polite_request_shutdown polite_send_frame polite_try_send polite_remove_flow
  polite_stop_recv polite_swap_stop polite_finished polite_recv_drop polite_send_drop polite_drop_pair : polite.
#[export] Hint Extern 2 (polite _ (modify (on_cell _ _))) =>
  (apply polite_cell; intros ? ?; split; [assumption|reflexivity]) : polite.

(** ** The handler of a frame

    It leaves the counters of this side alone, only adds to what was queued, and does not
    reopen the session. *)
Section Handler.
Context {chan : Type -> Type} `{MpscLaws chan} `{!MapOrder}.
Implicit Types (s : SessionInner chan) (id : StreamId).

Definition ldata s := (is_server s, next_uni s, next_bi s).
Definition tame s s' : Prop :=
  ldata s' = ldata s /\ out_log s `prefix_of` out_log s' /\ (closed s = true -> closed s' = true).
Definition calm {A} (p : nprog chan A) : Prop := steps (fun _ => True) tame p (fun _ => True).

Lemma tame_log s s' : ldata s' = ldata s -> out_log s' = out_log s -> closed s' = closed s -> tame s s'.
Proof. intros E1 E2 E4. unfold tame. by rewrite E2, E4. Qed.

Lemma calm_bind {A B} (p : nprog chan A) (k : A -> nprog chan B) :
  calm p -> (forall a, calm (k a)) -> calm (pbind p k).
Proof. intros Hp Hk. eapply steps_bind; [exact Hp|]. intros a _. apply Hk. Qed.
Lemma calm_atomic {A} (f : SessionInner chan -> SessionInner chan * A) :
  (forall s, tame s (f s).1) -> calm (atomic f).
Proof. intros Hf. apply steps_atomic. auto. Qed.
Lemma calm_await {A} (f : SessionInner chan -> option (SessionInner chan * A)) :
  (forall s s' a, f s = Some (s', a) -> tame s s') -> calm (await f).
Proof. intros Hf. apply steps_await. intros s s' a _ E. eauto. Qed.
Lemma calm_with_drop {A} d (p : nprog chan A) : calm d -> calm p -> calm (with_drop d p).
Proof. apply steps_with_drop. Qed.

Create HintDb calm.
Ltac calmly :=
  simplify_eq/=; repeat (case_match; simplify_eq/=); first [by apply tame_log
    | split_and!; simpl; [done|by apply prefix_app_r|done] | by split_and!].
Ltac clm :=
  repeat first
    [ done
    | solve [auto with calm]
    | lazymatch goal with
      | |- calm (pbind _ _) => apply calm_bind; [|intros ?]
      | |- calm (with_drop _ _) => apply calm_with_drop
      | |- calm (dropping _ _) => unfold dropping
      | |- calm (bind_result _ _) => unfold bind_result
      | |- calm (gets _) => apply calm_atomic; intros ?; calmly
      | |- calm (modify _) => apply calm_atomic; intros ?; calmly
      | |- calm (atomic _) => apply calm_atomic; intros ?; calmly
      | |- calm (await _) => apply calm_await; intros ? ? ? ?; calmly
      | |- calm (if ?b then _ else _) => destruct b
      | |- calm (match ?x with _ => _ end) => destruct x
      end ].

Lemma calm_try_send f : calm (try_send_frame f).
Proof. unfold try_send_frame, is_closed. clm. apply calm_atomic. intros s. unfold try_push_frame. calmly. Qed.
Lemma calm_send f : calm (send_frame f).
Proof.
  unfold send_frame, is_closed, reserve. clm. apply calm_atomic. intros s. unfold send_with_permit, push_frame. calmly.
Qed.
Lemma nclear_streams_same s : let s' := clear_streams s in
  ldata s' = ldata s /\ out_log s' = out_log s /\ closed s' = closed s.
Proof.
  unfold clear_streams. generalize ((map_to_list (streams s)).*2). intros l. by induction l as [|rs l (? & ? & ?)].
Qed.
Lemma nclear_flows_same s : let s' := clear_send_flows s in
  ldata s' = ldata s /\ out_log s' = out_log s /\ closed s' = closed s.
Proof.
  unfold clear_send_flows. generalize ((map_to_list (send_flows s)).*2). intros l. by induction l as [|k l (? & ? & ?)].
Qed.
Lemma calm_close_all : calm close_all.
Proof.
  unfold close_all, take_accept_uni, take_accept_bi. clm; apply calm_atomic; intros s; simpl.
  - destruct (nclear_streams_same s) as (? & ? & ?). by apply tame_log.
  - destruct (nclear_flows_same s) as (? & ? & ?). by apply tame_log.
Qed.
#[local] Hint Resolve calm_try_send calm_send calm_close_all : calm.
Lemma calm_error code reason : calm (protocol_error code reason).
Proof. unfold protocol_error. clm. Qed.
Lemma calm_remove_flow id : calm (remove_send_flow id).
Proof. apply calm_atomic. intros s. unfold remove_send_flow_locked. calmly. Qed.
Lemma calm_remove_recv id : calm (remove_recv_stream id).
Proof. apply calm_atomic. intros s. unfold remove_recv_stream_locked. calmly. Qed.
Lemma calm_recv_drop h : calm (RecvStream_drop h).
Proof.
  unfold RecvStream_drop, stop_recv_stream, swap_stop_sent, request_shutdown. clm.
  apply calm_atomic. intros s. unfold stop_recv_stream_locked. calmly.
Qed.
#[local] Hint Resolve calm_error calm_remove_flow calm_remove_recv calm_recv_drop : calm.
Lemma calm_drop_pair p : calm (drop_pair p).
Proof. unfold drop_pair, SendStream_drop, SendStream_finished, request_shutdown. clm. Qed.
#[local] Hint Resolve calm_drop_pair : calm.
Lemma calm_register id : calm (try_register_inbound_recv_stream id).
Proof.
  unfold try_register_inbound_recv_stream. clm. apply calm_atomic. intros s.
  unfold register_inbound_locked, insert_recv_state. calmly.
Qed.
Lemma calm_validate id : calm (validate_peer_stream_id id).
Proof. apply calm_atomic. intros s. unfold validate_peer_locked. calmly. Qed.
Lemma calm_register_flow id n : calm (register_send_flow id n).
Proof. apply calm_atomic. intros s. unfold register_send_flow_locked. calmly. Qed.
Lemma calm_new id k : calm (SendStream_new id k).
Proof. unfold SendStream_new. clm. Qed.
#[local] Hint Resolve calm_register calm_validate calm_register_flow calm_new : calm.
Lemma calm_deliver_uni h : calm (deliver_uni h).
Proof. unfold deliver_uni, clone_accept_uni, accept_uni_drop. clm. Qed.
Lemma calm_deliver_bi p : calm (deliver_bi p).
Proof. unfold deliver_bi, clone_accept_bi, accept_bi_drop. clm. Qed.
#[local] Hint Resolve calm_deliver_uni calm_deliver_bi : calm.
Lemma calm_frame f : calm (handle_frame f).
Proof.
  destruct f; cbn [handle_frame].
  - unfold handle_open_uni. clm.
  - unfold handle_open_bi. clm.
  - unfold handle_stream. clm; apply calm_atomic; intros s; unfold account_data, try_send_event; calmly.
  - unfold handle_reset_stream, is_retired_direction. clm.
  - unfold handle_stop_sending, is_retired_direction. clm.
  - unfold handle_max_stream_data. clm.
  - clm.
Qed.
End Handler.
