(* ===== verification/NativeConc.v ===== *)
(** * The native session among its clients

    [NativeRefine] runs the handler of a frame alone.  Here other tasks move the state
    between any two accesses of the handler, along [nown] ([NativeOwn]).  A session that
    served frames in this way has taken them as the abstract endpoint may take them
    among its own steps ([PeerRun]); a handler that ends the session with an error tells
    the peer nothing but the code and the reason of this error. *)

From S2P Require Import Prelude Buf VarInt Frame Proto Limits SendFlow Channel Async NativeState.
From S2P Require Import NativeOps NativeStream NativeRecv NativeSession NativeTasks Credit NativeInv.
From S2P Require Import NativePool NativeProps Protocol Rely NativeRefine PeerRun NativeOwn.
Open Scope mux_scope.

Section Conc.
Context {chan : Type -> Type} `{MpscLaws chan} `{!MapOrder}.
Implicit Types (s : SessionInner chan) (id : StreamId) (e : endpoint).
Abbreviation conc := (triple nown).

(** No [ConnectionClose] was queued; or only the one with this code and reason. *)
Definition silent s : Prop := Forall not_close (out_log s).
Definition told code reason s : Prop :=
  Forall (fun g => match g with ConnectionClose c r => c = code /\ r = reason | _ => True end) (out_log s).
Definition open_now s : Prop := closed s = false /\ silent s.
Definition ended_with code reason s : Prop := closed s = true /\ told code reason s.

Lemma silent_told code reason s : silent s -> told code reason s.
Proof. intros Hs. eapply Forall_impl; [exact Hs|]. by intros []. Qed.
Lemma told_stable code reason : stable nown (told code reason).
Proof.
  intros s s' Hs Ho. destruct (no_log _ _ Ho) as (new & E & Hnew). unfold told. rewrite E. apply Forall_app.
  split; [done|]. eapply Forall_impl; [exact Hnew|]. by intros [].
Qed.
Lemma silent_stable : stable nown silent.
Proof.
  intros s s' Hs Ho. destruct (no_log _ _ Ho) as (new & E & Hnew). unfold silent. rewrite E. by apply Forall_app.
Qed.
Lemma open_stable : stable nown open_now.
Proof. intros s s' [Hc Hs] Ho. split; [by rewrite (no_closed _ _ Ho)|by eapply silent_stable]. Qed.
Lemma ended_stable code reason : stable nown (ended_with code reason).
Proof. intros s s' [Hc Hs] Ho. split; [by rewrite (no_closed _ _ Ho)|by eapply told_stable]. Qed.
Lemma closed_stable b : stable nown (fun s => closed s = b).
Proof. intros s s' Hc Ho. by rewrite (no_closed _ _ Ho). Qed.
Lemma logged_stable f : stable nown (fun s => f ∈ out_log s).
Proof. intros s s' Hf Ho. destruct (no_log _ _ Ho) as (new & -> & _). set_solver. Qed.

Lemma open_same s s' : closed s' = closed s -> out_log s' = out_log s -> open_now s -> open_now s'.
Proof. intros E1 E2 []. unfold open_now, silent. by rewrite E1, E2. Qed.
Lemma open_ddata s s' : ddata s' = ddata s -> open_now s -> open_now s'.
Proof. intros [= E1 _ _ _ E2 _ _ _ _ _]. by apply open_same. Qed.
Lemma ended_same code reason s s' :
  closed s' = closed s -> out_log s' = out_log s -> ended_with code reason s -> ended_with code reason s'.
Proof. intros E1 E2 []. unfold ended_with, told. by rewrite E1, E2. Qed.

(** ** Rules *)
Lemma conc_pure {A} P (p : nprog chan A) Q (F : Prop) :
  (forall s, P s -> F) -> (F -> conc P p Q) -> conc P p Q.
Proof. intros HF Hp s a s' HP. by apply Hp; [eapply HF|]. Qed.
Lemma conc_and {A} P P' (p : nprog chan A) Q Q' :
  conc P p Q -> conc P' p Q' -> conc (fun s => P s /\ P' s) p (fun a s => Q a s /\ Q' a s).
Proof. intros Hp Hp' s a s' [HP HP'] He. split; [by eapply Hp|by eapply Hp']. Qed.
Lemma conc_dropping {A} P d (p : nprog chan A) M Q :
  conc P p M -> (forall r, conc (M r) d (fun _ => Q r)) -> conc P (dropping d p) Q.
Proof.
  intros Hp Hd. eapply triple_bind; [by apply triple_with_drop|]. intros r.
  eapply triple_bind; [apply Hd|]. intros []. by apply triple_ret.
Qed.
(** A polite program keeps what the others keep. *)
Lemma conc_polite {A} P (p : nprog chan A) :
  stable nown P -> polite (fun _ => True) p -> conc P p (fun _ => P).
Proof.
  intros HP Hp. eapply triple_weaken; [by apply (triple_steps _ _ _ P p _ HP (fun _ _ => I) HP Hp)|]. by intros a s [? _].
Qed.
(** What was queued stays queued. *)
Lemma conc_logged {A} f (p : nprog chan A) : calm p -> conc (fun s => f ∈ out_log s) p (fun _ s => f ∈ out_log s).
Proof.
  intros Hp. eapply triple_weaken; [apply (triple_steps _ tame _ _ p (fun _ => True) (logged_stable f) (fun _ _ => I)); [|exact Hp]|].
  - intros s s' Hf (_ & [k ->] & _). set_solver.
  - by intros a s [? _].
Qed.

(** ** Ending the session *)
Lemma conc_close_log (L : list Frame -> Prop) :
  stable nown (fun s => L (out_log s)) ->
  conc (fun s => L (out_log s)) close_all (fun _ s => closed s = true /\ L (out_log s)).
Proof.
  intros HL. set (E s := closed s = true /\ L (out_log s)).
  assert (HE : stable nown E) by (intros s s' [Hc Hs] Ho; split; [by rewrite (no_closed _ _ Ho)|by eapply HL]).
  assert (Hsame : forall s s', closed s' = closed s -> out_log s' = out_log s -> E s -> E s').
  { intros s s' E1 E2 []. unfold E. by rewrite E1, E2. }
  unfold close_all. apply (triple_bind _ _ (fun _ => E)).
  { apply triple_atomic; [done|]. by intros s s' a Hs [= <- <-]. }
  intros [|]; [by apply triple_ret|].
  apply (triple_bind _ _ (fun _ => E)).
  { apply triple_atomic; [done|]. intros s s' a Hs [= <- <-]. by eapply Hsame. }
  intros _. apply (triple_bind _ _ (fun _ => E)).
  { apply triple_await; [done|]. intros s s' a Hs [= <- <-]. eapply Hsame; [..|exact Hs]; by case_match. }
  intros _. apply (triple_bind _ _ (fun _ => E)).
  { apply triple_await; [done|]. intros s s' a Hs [= <- <-]. eapply Hsame; [..|exact Hs]; by case_match. }
  intros _. apply (triple_bind _ _ (fun _ => E)).
  { apply triple_atomic; [done|]. intros s s' a Hs [= <- <-]. destruct (nclear_streams_same s) as (_ & ? & ?).
    by eapply Hsame. }
  intros _. apply triple_atomic; [done|]. intros s s' a Hs [= <- <-].
  destruct (nclear_flows_same s) as (_ & ? & ?). by eapply Hsame.
Qed.
Lemma conc_close_all code reason : conc (told code reason) close_all (fun _ => ended_with code reason).
Proof. apply (conc_close_log (Forall _)), told_stable. Qed.

Lemma conc_error code reason :
  conc silent (protocol_error code reason) (fun r s => r = Err (Protocol reason) /\ ended_with code reason s).
Proof.
  unfold protocol_error. apply (triple_bind _ _ (fun _ => told code reason)).
  - unfold try_send_frame, is_closed. apply (triple_bind _ _ (fun _ => silent)).
    { apply conc_polite; [apply silent_stable|]. apply polite_is_closed. }
    intros [|]; [apply triple_ret; intros s; apply silent_told|].
    apply triple_atomic; [apply silent_stable|]. intros s s' a Hs E. unfold try_push_frame in E.
    destruct (tx_try_send _ _) as [[] c]; injection E as <- <-; try (by apply silent_told).
    unfold told. simpl. apply Forall_app. split; [by apply silent_told|]. by apply Forall_singleton.
  - intros _. apply (triple_bind _ _ (fun _ => ended_with code reason)); [apply conc_close_all|]. intros _. by apply triple_ret.
Qed.

Section Frames.
Context (l : Limits) (e0 : endpoint).
Abbreviation taken := (peer_run l e0).

(** The session is open, has queued no [ConnectionClose], and its endpoint satisfies [A]. *)
Definition holds (A : endpoint -> Prop) s : Prop := nsane s /\ open_now s /\ limits s = l /\ A (nabs s).
Definition own_stable (A : endpoint -> Prop) : Prop := forall e e', A e -> ep_own_step e e' -> A e'.

Lemma holds_stable A : own_stable A -> stable nown (holds A).
Proof.
  intros HA s s' (Hs & Hc & Hl & Ha) Ho. destruct (no_own _ _ Ho Hs).
  split_and!; [done|by eapply open_stable|by rewrite (no_limits _ _ Ho)|by eapply HA].
Qed.
Lemma holds_same A s s' : adata s' = adata s -> out_log s' = out_log s -> holds A s -> holds A s'.
Proof.
  intros Hd Hlog (Hs & Hc & Hl & Ha). pose proof Hd as [= E1 E2 E3 E4 E5 E6 E7 E8 E9 E10 E11].
  split_and!; [by eapply nsane_same|by eapply open_same|congruence|by rewrite (nabs_same _ _ Hd)].
Qed.
Lemma holds_silent A s : holds A s -> silent s.
Proof. by intros (_ & [_ ?] & _). Qed.

Lemma taken_stable fs : own_stable (taken fs).
Proof. intros e e'. apply peer_own. Qed.
Lemma taken_server fs e : taken fs e -> ep_server e = ep_server e0.
Proof.
  induction 1 as [|fs e e' _ IH Hs|fs e f _ IH _|fs e id e1 _ IH _ Hs _|fs e f _ IH _]; [done|..].
  - rewrite (os_server _ _ Hs). done.
  - destruct f; simpl; try done. by repeat case_match.
  - simpl. rewrite (os_server _ _ Hs). done.
  - done.
Qed.

(** Accesses outside the tables. *)
Lemma conc_quiet {A} (B : endpoint -> Prop) (f : SessionInner chan -> SessionInner chan * A) :
  own_stable B -> (forall s, adata (f s).1 = adata s /\ out_log (f s).1 = out_log s) ->
  conc (holds B) (atomic f) (fun _ => holds B).
Proof. intros HB Hf. apply conc_polite; [by apply holds_stable|by apply polite_quiet]. Qed.
Lemma conc_quiet_await {A} (B : endpoint -> Prop) (f : SessionInner chan -> option (SessionInner chan * A)) :
  own_stable B -> (forall s s' a, f s = Some (s', a) -> adata s' = adata s /\ out_log s' = out_log s) ->
  conc (holds B) (await f) (fun _ => holds B).
Proof. intros HB Hf. apply conc_polite; [by apply holds_stable|by apply polite_quiet_await]. Qed.

Lemma conc_send B f : own_stable B -> match f with Stream _ _ _ | ConnectionClose _ _ => False | _ => True end ->
  conc (holds B) (send_frame f) (fun r s => holds B s /\ ((r = Ok tt /\ f ∈ out_log s) \/ r = Err Closed)).
Proof.
  intros HB Hf. unfold send_frame.
  apply (triple_bind _ _ (fun _ => holds B)); [apply conc_polite; [by apply holds_stable|apply polite_is_closed]|].
  intros [|]; [apply triple_ret; auto|]. apply (triple_bind _ _ (fun _ => holds B)).
  { apply conc_quiet_await; [done|]. intros s s' a. by destruct (tx_reserve (outbound s)) as [[] c]; intros [= <- <-]. }
  intros [|]; [|apply triple_ret; auto].
  apply triple_atomic; [by apply holds_stable|]. intros s s' a (Hs & [Hc Hq] & Hl & Ha) E.
  assert (adata s' = adata s /\ out_log s' = out_log s ++ [f] /\ a = Ok tt) as (Hd & Hlog & ->)
    by (destruct f; try done; by injection E as <- <-).
  split; [|left; split; [done|rewrite Hlog; set_solver]]. pose proof Hd as [= E1 E2 E3 E4 E5 E6 E7 E8 E9 E10 E11].
  split_and!; [by eapply nsane_same| |congruence|by rewrite (nabs_same _ _ Hd)]. split; [congruence|].
  unfold silent. rewrite Hlog. apply Forall_app. split; [done|]. apply Forall_singleton. by destruct f.
Qed.

(** ** The verdict on a frame *)

(** A frame that is no violation but exceeds a local limit. *)
Definition refuses (fs : list Frame) (f : Frame) (code : Z) (reason : string) : Prop :=
  (exists e, taken fs e /\ local_refusal l e f code reason)
  \/ exists id e, f = OpenBi id /\ (code, reason) = (3, "accept queue full") /\ taken (fs ++ [f]) e.

(** The answer to an accepted frame was queued. *)
Definition paid (fs : list Frame) (f : Frame) s : Prop :=
  match f with
  | OpenUni id | OpenBi id => MaxStreamData id (initial_stream_window l) ∈ out_log s
  | StopSending id code => ResetStream id code ∈ out_log s \/ exists e, taken fs e /\ ep_send e !! id = None
  | _ => True
  end.

(** What the result of a handler says, when the frames [fs] were taken before. *)
Definition verdict (fs : list Frame) (f : Frame) (r : result unit) s : Prop :=
  match r with
  | Ok _ => holds (taken (fs ++ [f])) s /\ paid fs f s
  | Err (Protocol reason) => exists code, ended_with code reason s
      /\ ((exists e, rejects l e0 fs f e (code, reason)) \/ refuses fs f code reason)
  | Err Closed =>
      match f with
      | ConnectionClose _ _ => closed s = true /\ silent s
      | OpenUni _ | OpenBi _ | StopSending _ _ => holds (taken (fs ++ [f])) s
      | _ => False
      end
  | _ => False
  end.
Definition serves (f : Frame) : Prop := forall fs, conc (holds (taken fs)) (handle_frame f) (verdict fs f).

Lemma paid_stable fs f : stable nown (paid fs f).
Proof.
  destruct f; try (by intros s s' Hp _); try apply logged_stable.
  intros s s' [Hp|Hp] Ho; [left; by eapply (logged_stable _ _ _ Hp)|by right].
Qed.
Lemma verdict_stable fs f r : stable nown (verdict fs f r).
Proof.
  pose proof (holds_stable _ (taken_stable (fs ++ [f]))) as Hh.
  destruct r as [[]|[]|]; simpl; try (by intros ? ? []).
  - intros s s' [? ?] Ho. split; [by eapply Hh|by eapply paid_stable].
  - destruct f; [done|done|by intros s s' []|by intros s s' []|done|by intros s s' []|].
    intros s s' [? ?] Ho. split; [by eapply closed_stable|by eapply silent_stable].
  - intros s1 s2 (code & ? & ?) Ho. exists code. split; [by eapply ended_stable|done].
Qed.

Lemma conc_blame fs f code reason :
  (exists e, rejects l e0 fs f e (code, reason)) \/ refuses fs f code reason ->
  conc silent (protocol_error code reason) (verdict fs f).
Proof. intros Hb. eapply triple_weaken; [apply conc_error|]. intros r s [-> He]. by exists code. Qed.
Lemma conc_violation fs f e code reason :
  taken fs e -> ep_check l e f = Some (code, reason) -> conc silent (protocol_error code reason) (verdict fs f).
Proof. intros He Hv. apply conc_blame. left. exists e. by left. Qed.

(** ** Credit, closing, stopping and resetting *)
Lemma serves_max id max : serves (MaxStreamData id max).
Proof.
  intros fs. cbn [handle_frame]. unfold handle_max_stream_data.
  apply (triple_bind _ _ (fun _ => holds (taken (fs ++ [MaxStreamData id max])))); [|by intros u; apply triple_ret].
  apply triple_atomic; [apply holds_stable, taken_stable|]. intros s s' a (Hs & Hc & Hl & Ht) [= <- <-].
  destruct (nmax_spec s id max Hs) as (Ha & Hs1 & Hc1 & Hl1). unfold holds.
  split_and!; [exact Hs1|eapply open_same; [exact Hc1| |exact Hc]; by case_match|congruence|].
  rewrite Ha, Hl. by apply peer_frame.
Qed.

Lemma serves_close code reason : serves (ConnectionClose code reason).
Proof.
  intros fs. cbn [handle_frame]. apply (triple_bind _ _ (fun _ s => closed s = true /\ silent s)).
  - eapply triple_strengthen; [intros s; apply holds_silent|]. apply (conc_close_log (Forall _)), silent_stable.
  - intros _. by apply triple_ret.
Qed.

(** The direction of [id] was gone when the frame was looked up. *)
Definition missed (fs : list Frame) (gone : endpoint -> Prop) e : Prop :=
  taken fs e /\ exists e1, taken fs e1 /\ gone e1 /\ ep_own_step e1 e.
Lemma missed_stable fs gone : own_stable (missed fs gone).
Proof.
  intros e e' (He & e1 & He1 & Hg & Ho) Hs. split; [by apply (peer_own _ _ _ e)|]. exists e1. split_and!; [done..|by etrans].
Qed.

(** A frame about a direction that was gone: late if the direction has been open. *)
Lemma conc_retired fs f id b (gone : endpoint -> Prop) code reason :
  (forall e, gone e -> ep_retired e id b = false -> ep_check l e f = Some (code, reason)) ->
  (forall e, gone e -> ep_retired e id b = true -> ep_check l e f = None /\ ep_apply l e f = e) ->
  (forall e, ep_is_local e id = true -> ep_retired e id b = true -> ep_late e f) ->
  (forall e e', ep_is_local e id = false -> gone e -> ep_own_step e e' -> gone e') ->
  (forall e s, taken fs e -> gone e -> paid fs f s) ->
  conc (holds (missed fs gone))
    (let* retired := is_retired_direction id b in
     if retired then Ret (Ok tt) else protocol_error code reason) (verdict fs f).
Proof.
  intros Hviol Hlate Hown Hgone Hpaid.
  apply (triple_bind _ _ (fun retired s => if (retired : bool) then verdict fs f (Ok tt) s
    else silent s /\ exists e, taken fs e /\ ep_check l e f = Some (code, reason))).
  - apply triple_atomic; [apply holds_stable, missed_stable|].
    intros s s' r (Hs & Hc & Hl & He & e1 & He1 & Hg & Ho) [= <- <-].
    change (if bool_decide (StreamId_dir id = Uni) && eqb (eqb (initiator_is_server id) (is_server s)) b
            then false else StreamId_counter id <? frontier s id) with (ep_retired (nabs s) id b).
    destruct (own_retired e1 (nabs s) id b Ho) as [Hmono Hsame].
    assert (Hloc : ep_is_local (nabs s) id = ep_is_local e1 id)
      by (unfold ep_is_local; by rewrite (os_server _ _ Ho)).
    destruct (ep_retired (nabs s) id b) eqn:Er.
    + split; [|by eapply Hpaid]. split_and!; [done..|]. destruct (ep_is_local e1 id) eqn:El.
      * apply peer_late; [done|]. by apply Hown.
      * destruct (Hlate (nabs s) (Hgone _ _ El Hg Ho) Er) as [Hchk Happ]. rewrite <- Happ. by apply peer_frame.
    + split; [apply Hc|]. exists e1. split; [done|]. apply Hviol; [done|]. destruct (ep_retired e1 id b) eqn:E1; [|done].
      specialize (Hmono eq_refl). congruence.
  - intros [|]; [by apply triple_ret|]. eapply conc_pure; [by intros s [_ Hs]; exact Hs|]. intros (e & He & Hv).
    eapply triple_strengthen; [|by eapply conc_violation]. by intros s [? _].
Qed.

Lemma serves_reset id code : serves (ResetStream id code).
Proof.
  intros fs. cbn [handle_frame]. unfold handle_reset_stream.
  set (gone e := ep_recv e !! id = None).
  apply (triple_bind _ _ (fun removed s => if (removed : bool) then holds (taken (fs ++ [ResetStream id code])) s
    else holds (missed fs gone) s)).
  - apply triple_atomic; [apply holds_stable, taken_stable|]. intros s s' r (Hs & Hc & Hl & Ht) E.
    pose proof (nabs_remove s id) as Hr. rewrite E in Hr. destruct Hr as (Ha & Hs1 & Hd & ->).
    assert (Hl' : limits s' = l) by (injection Hd; congruence). case_bool_decide as Hsome.
    + split_and!; [auto|by eapply open_ddata|done|]. rewrite Ha. apply (peer_frame _ _ _ _ (ResetStream id code)); [done|].
      simpl. by rewrite bool_decide_true.
    + rewrite <- eq_None_not_Some in Hsome. rewrite delete_id in Ha by done.
      assert (nabs s' = nabs s) as E' by (by rewrite Ha). split_and!; [auto|by eapply open_ddata|done|].
      rewrite E'. split; [done|]. exists (nabs s). by split_and!.
  - intros [|]; [by apply triple_ret|]. apply (conc_retired fs (ResetStream id code) id true gone); unfold gone; try done.
    + intros e Hg Hr. simpl. by rewrite Hg, Hr.
    + intros e Hg Hr. simpl. rewrite Hg, Hr. split; [done|]. rewrite delete_id by done. by destruct e.
    + intros e e' Hl Hg Ho. pose proof (os_recv _ _ Ho id (peer_id e id Hl)) as Hr. rewrite Hg in Hr. by inversion Hr.
Qed.

Lemma serves_stop id code : serves (StopSending id code).
Proof.
  intros fs. cbn [handle_frame]. unfold handle_stop_sending.
  set (gone e := ep_send e !! id = None).
  apply (triple_bind _ _ (fun removed s => if (removed : bool) then holds (taken (fs ++ [StopSending id code])) s
    else holds (missed fs gone) s)).
  - apply triple_atomic; [apply holds_stable, taken_stable|]. intros s s' r (Hs & Hc & Hl & Ht) E.
    pose proof (nremove_flow_spec s id Hs) as Hr. rewrite E in Hr. destruct Hr as (-> & Ha & Hs1 & Hsame & Ho).
    case_bool_decide as Hsome.
    + assert (closed s' = closed s /\ limits s' = limits s) as [E1 E2].
      { replace s' with (remove_send_flow_locked id s).1 by (by rewrite E). unfold remove_send_flow_locked. by case_match. }
      split_and!; [done|injection Ho as Ho _; by eapply open_same|congruence|]. rewrite Ha.
      apply (peer_frame _ _ _ _ (StopSending id code)); [done|]. simpl. by rewrite bool_decide_true.
    + rewrite <- eq_None_not_Some in Hsome. rewrite (Hsame eq_refl). split_and!; [done..|].
      split; [done|]. exists (nabs s). by split_and!.
  - intros [|].
    + eapply triple_weaken; [apply conc_send; [apply taken_stable|done]|].
      intros r s [Hh [[-> Hlog] | ->]]; [|exact Hh]. split; [done|]. by left.
    + apply (conc_retired fs (StopSending id code) id false gone); unfold gone; try done.
      * intros e Hg Hr. simpl. by rewrite Hg, Hr.
      * intros e Hg Hr. simpl. rewrite Hg, Hr. split; [done|]. rewrite delete_id by done. by destruct e.
      * intros e e' Hl Hg Ho. by apply (os_send _ _ Ho id (peer_id e id Hl)).
      * intros e s He Hg. right. by exists e.
Qed.

(** ** Stream data *)

(** The entry of a stream of the peer has [n] bytes of the frame accounted. *)
Definition counted (fs : list Frame) id (data : list byte) e : Prop :=
  exists d, ep_recv e !! id = Some d /\ rd_received d <= u64_max /\ rd_received d <= rd_limit d
    /\ taken fs (ep_set_recv (<[id := mkRecvDir (rd_received d - blen data) (rd_limit d) (rd_stopped d)]> (ep_recv e)) e).

Lemma counted_stable fs id data : is_local (negb (ep_server e0)) id -> own_stable (counted fs id data).
Proof.
  intros Hid e e' (d & Hd & Hmax & Hlim & Ht) Ho. pose proof (taken_server _ _ Ht) as Hsrv. simpl in Hsrv.
  rewrite <- Hsrv in Hid. pose proof (os_recv _ _ Ho id Hid) as Hr. rewrite Hd in Hr.
  inversion Hr as [? d' [Hrec Hle] E1 E2|]; subst. exists d'. rewrite Hrec. split_and!; [done..|lia|].
  eapply peer_own; [exact Ht|]. destruct Ho. constructor; try done. simpl. intros i Hi.
  destruct (decide (i = id)) as [->|Hne]; [|rewrite !lookup_insert_ne; auto].
  rewrite !lookup_insert_eq. constructor. by split.
Qed.

(** Removing the entry completes the frame. *)
Lemma counted_retire fs id data e :
  blen data <= max_stream_data_per_frame l -> counted fs id data e ->
  taken (fs ++ [Stream id data true]) (ep_set_recv (delete id (ep_recv e)) e).
Proof.
  intros Hlen (d & Hd & Hmax & Hlim & Ht). pose proof (peer_frame l e0 fs _ (Stream id data true) Ht) as Hf.
  simpl in Hf. rewrite !lookup_insert_eq in Hf. simpl in Hf. unfold ep_set_recv in *. simpl in *.
  rewrite delete_insert_eq in Hf. apply Hf. rewrite !(proj2 (Z.ltb_ge _ _)); [done|lia..].
Qed.

(** Between the accounting of the data and the end of the frame: the end of a stream
    of the peer takes effect when its entry is removed. *)
Definition accounted (fs : list Frame) id (data : list byte) (fin : bool) : endpoint -> Prop :=
  if fin && negb (ep_is_local e0 id) then counted fs id data else taken (fs ++ [Stream id data fin]).
Lemma accounted_stable fs id data fin : own_stable (accounted fs id data fin).
Proof.
  unfold accounted. destruct (fin && _) eqn:E; [|apply taken_stable].
  apply counted_stable, peer_id. by destruct fin, (ep_is_local e0 id).
Qed.

Lemma account_taken fs id data fin s s1 k st :
  holds (taken fs) s -> blen data <= max_stream_data_per_frame l ->
  account_data id (blen data) s = (s1, Ok (k, st)) ->
  ep_check l (nabs s) (Stream id data fin) = None /\ holds (accounted fs id data fin) s1.
Proof.
  intros (Hs & Hc & Hl & Ht) Hlen E. pose proof (account_spec s id data fin Hs) as Ha.
  rewrite E, Hl in Ha. destruct (Ha (proj2 (Z.ltb_ge _ _) Hlen)) as (Hchk & Hs1 & Hd & d & Hid & Ha1 & Happ). clear Ha.
  assert (Hl' : limits s1 = l) by (injection Hd; congruence).
  split; [done|]. split_and!; [done|by eapply open_ddata|done|].
  pose proof (peer_frame _ _ _ _ _ Ht Hchk) as Hf. rewrite Happ in Hf. unfold accounted.
  destruct fin; simpl; [|exact Hf]. simpl in Hf. destruct (ep_is_local e0 id) eqn:El; simpl; rewrite Ha1.
  - eapply peer_own; [exact Hf|]. apply own_recv_maps. intros i Hi.
    rewrite (taken_server _ _ Ht) in Hi. pose proof (not_own _ _ _ El Hi).
    by rewrite lookup_insert_ne, lookup_delete_ne.
  - simpl in Hchk, Hid. rewrite Hid, (proj2 (Z.ltb_ge _ _) Hlen) in Hchk.
    destruct (_ <? _) eqn:E1; [done|]. destruct (rd_limit d <? _) eqn:E2; [done|].
    eexists. simpl. rewrite lookup_insert_eq. split_and!; [done|simpl; lia..|]. simpl.
    rewrite insert_insert_eq, Z.add_simpl_r. destruct d as [n m b]. simpl. rewrite insert_id by done.
    exact Ht.
Qed.

Lemma conc_retire fs id data (fin : bool) :
  blen data <= max_stream_data_per_frame l ->
  conc (holds (accounted fs id data fin)) ((if fin then remove_recv_stream id else Ret true);;; Ret (Ok tt))
    (verdict fs (Stream id data fin)).
Proof.
  intros Hlen. apply (triple_bind _ _ (fun _ => holds (taken (fs ++ [Stream id data fin])))).
  2:{ intros b. by apply triple_ret. }
  destruct fin; [|by apply triple_ret]. apply triple_atomic; [apply holds_stable, accounted_stable|].
  intros s s' b (Hs & Hc & Hl & Ha) E. pose proof (nabs_remove s id) as Hr. rewrite E in Hr.
  destruct Hr as (Hn & Hs' & Hd & _). assert (Hl' : limits s' = l) by (injection Hd; congruence).
  split_and!; [auto|by eapply open_ddata|done|].
  rewrite Hn. revert Ha. unfold accounted. simpl. destruct (ep_is_local e0 id) eqn:El; simpl.
  - intros Ht. eapply peer_own; [exact Ht|]. apply own_recv_local. intros i Hi.
    rewrite (taken_server _ _ Ht) in Hi. pose proof (not_own _ _ _ El Hi). by rewrite lookup_delete_ne.
  - by apply counted_retire.
Qed.

Lemma polite_sender_drop (J : SessionInner chan -> Prop) k : polite J (modify (sender_drop k)).
Proof. apply polite_atomic. intros s _. apply nown_on_cell. intros c Hc. by split; [|reflexivity]. Qed.

Lemma serves_stream id data fin : serves (Stream id data fin).
Proof.
  intros fs. cbn [handle_frame]. unfold handle_stream. set (f := Stream id data fin).
  apply (triple_bind _ _ (fun n s => n = max_stream_data_per_frame l /\ holds (taken fs) s)).
  { apply triple_atomic; [apply holds_stable, taken_stable|]. intros s s' n Hs [= <- <-]. split; [|done].
    by destruct Hs as (_ & _ & -> & _). }
  intros n. apply (conc_pure _ _ _ (n = max_stream_data_per_frame l)); [by intros s [-> _]|]. intros ->.
  destruct (_ <? _) eqn:Elen.
  { intros s a s' [_ Hs]. eapply (conc_violation fs f (nabs s)); [apply Hs| |by eapply holds_silent].
    simpl. by rewrite Elen. }
  assert (Hlen : blen data <= max_stream_data_per_frame l) by lia.
  apply (triple_bind _ _ (fun r s => silent s /\ match r with
    | Ok _ => holds (accounted fs id data fin) s /\ exists e, taken fs e /\ ep_check l e f = None
    | Err reason => exists e, taken fs e /\ ep_check l e f = Some (2, reason)
    | Panic => False
    end)).
  { apply triple_atomic; [intros s s' [? Hs] Ho; split; [done|by eapply holds_stable; [apply taken_stable|..]]|].
    intros s s' r [_ Hs] E. destruct r as [[k st]|reason|].
    - destruct (account_taken fs id data fin s s' k st Hs Hlen E) as [Hchk Hh]. split; [by eapply holds_silent|].
      split; [done|]. exists (nabs s). split; [apply Hs|done].
    - pose proof (holds_silent _ _ Hs) as Hq.
      destruct Hs as (Hs & Hc & Hl & Ht). pose proof (account_spec s id data fin Hs) as Ha. rewrite E, Hl in Ha.
      destruct (Ha Elen) as [-> Hv]. split; [done|]. by exists (nabs s).
    - destruct Hs as (Hs & Hc & Hl & Ht). pose proof (account_spec s id data fin Hs) as Ha. rewrite E, Hl in Ha.
      by destruct (Ha Elen). }
  intros [[k st]|reason|].
  2:{ eapply conc_pure; [by intros s [_ Hs]; exact Hs|]. intros (e & He & Hv).
      eapply triple_strengthen; [|by eapply conc_violation]. by intros s [? _]. }
  2:{ by intros s a s' [_ []]. }
  apply (conc_pure _ _ _ (exists e, taken fs e /\ ep_check l e f = None)); [by intros s (_ & _ & Hs)|].
  intros (e & He & Hchk).
  eapply conc_dropping; [|intros r; apply conc_polite; [apply verdict_stable|apply polite_sender_drop]].
  apply (triple_strengthen _ (holds (accounted fs id data fin))); [by intros s (_ & Hs & _)|].
  destruct st; [by apply conc_retire|].
  apply (triple_bind _ _ (fun _ => holds (accounted fs id data fin))).
  { apply triple_atomic; [apply holds_stable, accounted_stable|]. intros s s' r (Hs & Hc & Hl & Ha) E.
    unfold try_send_event in E. destruct (tx_try_send _ _). injection E as <- <-.
    split_and!; [by apply nsane_on_cell|done..|by rewrite nabs_on_cell]. }
  intros [| |]; [by apply conc_retire| |by apply conc_retire].
  eapply triple_strengthen; [intros s; apply holds_silent|]. apply conc_blame. right. left. by exists e.
Qed.

(** ** Opening streams *)

(** The counter of the peer was advanced from [n]; the stream is not registered yet. *)
Definition announced (fs : list Frame) id (dir : StreamDir) (n : Z) e : Prop :=
  taken fs (ep_set_peer dir n e) /\ ep_peer_next e dir = saturating_add64 (StreamId_counter id) 1
  /\ n <= StreamId_counter id.
Lemma announced_stable fs id dir n : own_stable (announced fs id dir n).
Proof.
  intros e e' (Ht & Hn & Hle) Ho. split_and!; [|by rewrite (os_next _ _ Ho)|done].
  eapply peer_own; [exact Ht|]. by apply own_set_peer.
Qed.

(** The receive direction is open. *)
Definition half_open (fs : list Frame) id (dir : StreamDir) (name : string) e : Prop :=
  exists e1, taken fs e1 /\ ep_check_open l e1 id dir name = None /\ ep_own_step (ep_open l e1 id dir) e.
Lemma half_open_stable fs id dir name : own_stable (half_open fs id dir name).
Proof. intros e e' (e1 & ? & ? & ?) Ho. exists e1. split_and!; [done..|by etrans]. Qed.

Lemma set_peer_back dir n e : ep_set_peer dir (ep_peer_next e dir) (ep_set_peer dir n e) = e.
Proof. by destruct e, dir. Qed.

Lemma check_open_announced e id dir name n :
  StreamId_dir id = dir -> initiator_is_server id = negb (ep_server e) -> n <= StreamId_counter id ->
  ep_check_open l (ep_set_peer dir n e) id dir name = open_limits l e id.
Proof.
  intros Hd Hi Hn. unfold ep_check_open. rewrite bool_decide_true by done. simpl. rewrite Hi, eqb_reflx. simpl.
  assert (ep_peer_next (ep_set_peer dir n e) dir = n) as -> by (by destruct dir).
  by rewrite (proj2 (Z.ltb_ge _ _) Hn).
Qed.

Lemma conc_register fs id dir name n :
  StreamId_dir id = dir -> initiator_is_server id = negb (ep_server e0) ->
  conc (holds (announced fs id dir n)) (try_register_inbound_recv_stream id) (fun r s => silent s /\
    match r with
    | Ok _ => holds (half_open fs id dir name) s /\ MaxStreamData id (initial_stream_window l) ∈ out_log s
    | Err v => (exists e, taken fs e /\ ep_check_open l e id dir name = Some v)
        \/ (v = (2, "failed to send initial stream credit")
            /\ exists e, taken fs e /\ ep_check_open l e id dir name = None)
    | Panic => False
    end).
Proof.
  intros Hdir Hinit. unfold try_register_inbound_recv_stream.
  assert (Hchk : forall e, announced fs id dir n e ->
    ep_check_open l (ep_set_peer dir n e) id dir name = open_limits l e id).
  { intros e (Ht & _ & Hle). apply check_open_announced; [done| |done]. rewrite Hinit.
    f_equal. symmetry. apply (taken_server _ _ Ht). }
  apply (triple_try _ _ (fun _ => holds (half_open fs id dir name))).
  { apply triple_atomic; [apply holds_stable, announced_stable|]. intros s s' r (Hs & Hc & Hl & Ha) E.
    pose proof (nregister_spec s id Hs) as Hr. rewrite E, Hl in Hr. specialize (Hchk _ Ha).
    destruct Ha as (Ht & Hn & Hle). destruct r as [h|v|]; [| |done].
    - destruct Hr as (Hlim & Hd & Hs' & Ha' & _ & _). assert (Hl' : limits s' = l) by (injection Hd; congruence).
      split_and!; [done|by eapply open_ddata|done|].
      exists (ep_set_peer dir n (nabs s)). split_and!; [done|congruence|]. rewrite Ha'. clear Hs' Ha' E.
      replace (ep_open l (ep_set_peer dir n (nabs s)) id dir) with
        (ep_set_recv (<[id := mkRecvDir 0 (initial_stream_window l) false]> (ep_recv (nabs s))) (nabs s)); [reflexivity|].
      unfold ep_open. rewrite <- Hn. by destruct (nabs s), dir.
    - destruct Hr as [-> Hr]. split; [apply Hc|]. left. exists (ep_set_peer dir n (nabs s)). split; [done|congruence]. }
  intros h. apply (conc_pure _ _ _ (exists e, taken fs e /\ ep_check_open l e id dir name = None)).
  { intros s (_ & _ & _ & e & He & Hc & _). by exists e. }
  intros Hok. apply (triple_bind _ _ (fun w s => w = initial_stream_window l /\ holds (half_open fs id dir name) s)).
  { apply triple_atomic; [apply holds_stable, half_open_stable|]. intros s s' w Hs [= <- <-]. split; [|done].
    by destruct Hs as (_ & _ & -> & _). }
  intros w. apply (conc_pure _ _ _ (w = initial_stream_window l)); [by intros s [-> _]|]. intros ->.
  eapply triple_strengthen; [by intros s [_ Hs]; exact Hs|].
  eapply triple_bind; [apply triple_with_drop, conc_send; [apply half_open_stable|done]|].
  intros r. destruct (is_ok r) eqn:Er.
  - apply triple_ret. intros s [Hs [[-> Hlog]| ->]]; [|done]. split; [by eapply holds_silent|done].
  - apply (triple_strengthen _ silent); [by intros s [Hs _]; eapply holds_silent|].
    eapply triple_bind; [apply conc_polite; [apply silent_stable|apply polite_recv_drop]|].
    intros u. apply triple_ret. intros s Hs. split; [done|]. by right.
Qed.

(** Handing a stream to the accept queue. *)
Definition handed_over (fs : list Frame) (r : result unit) s : Prop :=
  match r with
  | Ok _ | Err Closed => holds (taken fs) s
  | Err (Protocol reason) => reason = "accept queue full" /\ ended_with 3 reason s
  | _ => False
  end.
Lemma handed_stable fs r : stable nown (handed_over fs r).
Proof.
  pose proof (holds_stable _ (taken_stable fs)) as Hh. destruct r as [[]|[]|]; simpl; try done; try (by intros ? ? []).
  intros s1 s2 [-> He] Ho. split; [done|by eapply ended_stable].
Qed.

Lemma conc_rejected (d u : nprog chan unit) fs (r : try_send_res) :
  polite (fun _ => True) d -> polite (fun _ => True) u ->
  conc (holds (taken fs)) (dropping u match r with
    | SendOk => Ret (Ok tt)
    | SendFull => dropping d (protocol_error 3 "accept queue full")
    | SendClosed => d;;; Ret (Err Closed)
    end) (handed_over fs).
Proof.
  intros Hd Hu. eapply conc_dropping; [|intros a; apply conc_polite; [apply handed_stable|exact Hu]].
  destruct r; [by apply triple_ret| |].
  - eapply conc_dropping; [|intros a; apply conc_polite; [apply handed_stable|exact Hd]].
    eapply triple_strengthen; [intros s; apply holds_silent|].
    eapply triple_weaken; [apply conc_error|]. by intros a s [-> He].
  - eapply triple_bind; [apply conc_polite; [apply holds_stable, taken_stable|exact Hd]|].
    intros ?. by apply triple_ret.
Qed.

(** The clone of the accept sender, or none: nobody accepts streams any more. *)
Lemma conc_deliver (d : nprog chan unit) fs (c : nprog chan bool) (k : nprog chan (result unit)) :
  polite (fun _ => True) d -> polite (fun _ => True) c -> conc (holds (taken fs)) k (handed_over fs) ->
  conc (holds (taken fs)) (let* present := with_drop d c in if present then k else d;;; Ret (Err Closed)) (handed_over fs).
Proof.
  intros Hd Hc Hk. pose proof (holds_stable _ (taken_stable fs)) as Hh.
  eapply triple_bind; [by apply triple_with_drop, conc_polite|]. intros [|]; [done|].
  eapply triple_bind; [by apply conc_polite|]. intros ?. by apply triple_ret.
Qed.
Lemma conc_deliver_uni fs recv : conc (holds (taken fs)) (deliver_uni recv) (handed_over fs).
Proof.
  unfold deliver_uni. apply conc_deliver; [apply polite_recv_drop|unfold clone_accept_uni; pol|].
  eapply triple_bind; [apply conc_polite; [apply holds_stable, taken_stable|pol]|]. intros r.
  apply conc_rejected; [apply polite_recv_drop|unfold accept_uni_drop; pol].
Qed.
Lemma conc_deliver_bi fs p : conc (holds (taken fs)) (deliver_bi p) (handed_over fs).
Proof.
  unfold deliver_bi. apply conc_deliver; [apply polite_drop_pair|unfold clone_accept_bi; pol|].
  eapply triple_bind; [apply conc_polite; [apply holds_stable, taken_stable|pol]|]. intros r.
  apply conc_rejected; [apply polite_drop_pair|unfold accept_bi_drop; pol].
Qed.
(** The credit sent for the stream is in the queue when it has been handed over. *)
Lemma conc_handing fs f id k :
  paid fs f = (fun s => MaxStreamData id (initial_stream_window l) ∈ out_log s) ->
  (forall reason s, handed_over (fs ++ [f]) (Err (Protocol reason)) s -> refuses fs f 3 reason) ->
  match f with OpenUni _ | OpenBi _ => True | _ => False end ->
  calm k -> conc (holds (taken (fs ++ [f]))) k (handed_over (fs ++ [f])) ->
  conc (fun s => holds (taken (fs ++ [f])) s /\ MaxStreamData id (initial_stream_window l) ∈ out_log s) k (verdict fs f).
Proof.
  intros Hpaid Href Hf Hcalm Hk. eapply triple_weaken; [apply conc_and; [exact Hk|by apply conc_logged]|].
  intros [[]|[]|] s1 [Hh Hlog]; simpl in Hh; try done.
  - split; [done|]. by rewrite Hpaid.
  - by destruct f.
  - exists 3. split; [apply Hh|right]. by eapply Href.
Qed.

Lemma serves_open f dir name k id :
  handle_frame f = nopen_with dir name k id ->
  (forall e v, ep_check_open l e id dir name = Some v -> ep_check l e f = Some v) ->
  (forall e, ep_check_open l e id dir name = None -> local_refusal l e f 2 "failed to send initial stream credit") ->
  (forall fs recv, conc (fun s => holds (half_open fs id dir name) s /\ MaxStreamData id (initial_stream_window l) ∈ out_log s)
    (k recv) (verdict fs f)) -> serves f.
Proof.
  intros Hf Hchk Hloc Hk fs. rewrite Hf. unfold nopen_with.
  assert (Hviol : forall code reason, (exists e, taken fs e /\ ep_check_open l e id dir name = Some (code, reason)) ->
    conc silent (protocol_error code reason) (verdict fs f)).
  { intros code reason (e & He & Hv). eapply conc_violation; eauto. }
  apply (triple_bind _ _ (fun peer s => peer = negb (ep_server e0) /\ holds (taken fs) s)).
  { apply triple_atomic; [apply holds_stable, taken_stable|]. intros s s' peer Hs [= <- <-]. split; [|done].
    destruct Hs as (_ & _ & _ & Ht). by rewrite <- (taken_server _ _ Ht). }
  intros peer. apply (conc_pure _ _ _ (peer = negb (ep_server e0) /\ exists e, taken fs e)).
  { intros s [-> (_ & _ & _ & Ht)]. split; [done|by eexists]. }
  intros [-> [e He]]. pose proof (taken_server _ _ He) as Hsrv.
  apply (triple_strengthen _ (holds (taken fs))); [by intros s [_ Hs]|].
  case_bool_decide as Hdir; cbn [negb].
  2:{ eapply triple_strengthen; [intros s; apply holds_silent|]. apply Hviol. exists e. split; [done|].
      unfold ep_check_open. by rewrite bool_decide_false. }
  destruct (eqb (initiator_is_server id) (negb (ep_server e0))) eqn:Hinit; cbn [negb].
  2:{ eapply triple_strengthen; [intros s; apply holds_silent|]. apply Hviol. exists e. split; [done|].
      unfold ep_check_open. rewrite bool_decide_true by done. simpl. by rewrite Hsrv, Hinit. }
  apply (triple_bind _ _ (fun valid s => silent s /\ if (valid : bool) then exists n, holds (announced fs id dir n) s
    else exists e, taken fs e /\ ep_check_open l e id dir name = Some (1, name +:+ " with non-monotonic StreamId"))).
  { apply triple_atomic; [apply holds_stable, taken_stable|]. intros s s' valid (Hs & Hc & Hl & Ht) E.
    pose proof (nvalidate_spec s id dir Hdir) as Hv. rewrite E in Hv. destruct Hv as (-> & Hd & Hs' & Ha).
    assert (Hl' : limits s' = l) by (injection Hd; congruence).
    split; [by apply (open_ddata _ _ Hd)|]. destruct (_ <? _) eqn:Elt; simpl in *.
    - exists (nabs s). split; [done|]. unfold ep_check_open. rewrite bool_decide_true by done.
      rewrite (taken_server _ _ Ht), Hinit. simpl. by rewrite Elt.
    - exists (ep_peer_next (nabs s) dir). split_and!; [auto|by eapply open_ddata|done|]. rewrite (Ha eq_refl).
      split_and!; [by rewrite set_peer_back|by destruct dir|lia]. }
  intros [|]; cbn [negb].
  2:{ eapply conc_pure; [by intros s [_ Hs]; exact Hs|]. intros Hv.
      eapply triple_strengthen; [|by apply Hviol]. by intros s [? _]. }
  intros s a s' [_ [n Hs]]. revert Hs.
  apply (triple_bind _ _ _ _ _ _ (conc_register fs id dir name n Hdir (eqb_prop _ _ Hinit))).
  intros [h|[code reason]|]; [|eapply conc_pure; [by intros s1 [_ Hs]; exact Hs|]|by intros s1 b s2 [_ []]].
  - eapply triple_strengthen; [|apply Hk]. by intros s1 [_ ?].
  - intros Hv. eapply triple_strengthen; [by intros s1 [Hs _]; exact Hs|].
    destruct Hv as [Hv|[[= -> ->] (e1 & He1 & Hok)]]; [by apply Hviol|].
    apply conc_blame. right. left. exists e1. auto.
Qed.

Lemma serves_open_uni id : serves (OpenUni id).
Proof.
  eapply (serves_open _ Uni "OpenUni" deliver_uni id); try done; [split; [done|auto]|].
  intros fs recv. apply (conc_pure _ _ _ (exists e, taken fs e /\ ep_check l e (OpenUni id) = None)).
  { intros s ((_ & _ & _ & e & He & Hc & _) & _). by exists e. }
  intros (e & He & Hc). eapply triple_strengthen; [|apply (conc_handing fs (OpenUni id) id (deliver_uni recv))]; try done.
  - intros s ((? & ? & ? & e1 & He1 & Hc1 & Ho) & ?). split; [|done]. split_and!; [done..|]. eapply peer_own; [|exact Ho].
    by apply (peer_frame l e0 fs e1 (OpenUni id)).
  - intros reason s [-> _]. left. exists e. split; [done|]. simpl. auto.
  - apply calm_deliver_uni.
  - apply conc_deliver_uni.
Qed.

(** The send direction of the peer's stream. *)
Lemma conc_send_side fs id :
  conc (holds (half_open fs id Bi "OpenBi")) (register_send_flow id 0) (fun r s => silent s /\
    match r with
    | Ok _ => holds (taken (fs ++ [OpenBi id])) s
    | Err err => exists e, rejects l e0 fs (OpenBi id) e (3, Error_to_string err)
    | Panic => False
    end).
Proof.
  apply triple_atomic; [apply holds_stable, half_open_stable|].
  intros s s' r (Hs & Hc & Hl & e1 & He1 & Hc1 & Ho) E. pose proof (nregister_flow_spec s id Hs) as Hr.
  rewrite E, Hl in Hr. destruct r as [flow|err|]; [| |done].
  - destruct Hr as (Hsize & Hnone & Hs' & Ha & Hk & Hod & _).
    assert (closed s' = closed s /\ limits s' = limits s) as [E1 E2].
    { replace s' with (register_send_flow_locked id 0 s).1 by (by rewrite E). unfold register_send_flow_locked.
      by repeat case_match. }
    injection Hod as Hlog _. assert (Ho' : open_now s') by (by eapply open_same). split; [apply Ho'|].
    split_and!; [done..|congruence|].
    rewrite Ha. eapply peer_open_bi; [done..|]. unfold ep_send_check. by rewrite (proj2 (Z.leb_gt _ _) Hsize), Hnone.
  - destruct Hr as [-> Hr]. split; [apply Hc|]. exists (nabs s). right. exists id, e1. split_and!; [done..|].
    unfold ep_send_check. destruct Hr as [[Hsize ->]|(Hsize & [x Hx] & ->)].
    + by rewrite (proj2 (Z.leb_le _ _) Hsize).
    + by rewrite (proj2 (Z.leb_gt _ _) Hsize), Hx.
Qed.

Lemma serves_open_bi id : serves (OpenBi id).
Proof.
  eapply (serves_open _ Bi "OpenBi" (nbi_rest id) id); try done.
  { intros e v Hv. simpl. by rewrite Hv. }
  { intros e Hv. right. done. }
  intros fs recv. unfold nbi_rest.
  eapply triple_bind; [apply conc_and; [apply conc_send_side|apply conc_logged, calm_register_flow]|].
  intros [flow|err|]; [| |by intros s a s' [[_ []]]].
  - apply (conc_pure _ _ _ (exists e, taken (fs ++ [OpenBi id]) e)); [by intros s ((_ & _ & _ & _ & Ht) & _); eexists|].
    intros [e He].
    eapply triple_strengthen; [by intros s [[_ Hh] Hlog]; exact (conj Hh Hlog)|].
    eapply triple_bind; [apply conc_and; [apply conc_polite; [apply holds_stable, taken_stable|unfold SendStream_new; pol]
      |apply conc_logged, calm_new]|].
    intros h. apply (conc_handing fs (OpenBi id) id); try done.
    + intros reason s [-> _]. right. by exists id, e.
    + apply calm_deliver_bi.
    + apply conc_deliver_bi.
  - eapply conc_pure; [by intros s [[_ Hs] _]; exact Hs|]. intros [e He].
    eapply conc_dropping; [|intros r; apply conc_polite; [apply verdict_stable|apply polite_recv_drop]].
    eapply triple_strengthen; [|apply (conc_blame fs (OpenBi id) 3 (Error_to_string err)); left; by exists e].
    by intros s [[? _] _].
Qed.

Lemma serves_frame f : serves f.
Proof.
  destruct f; [apply serves_open_uni|apply serves_open_bi|apply serves_stream|apply serves_reset
    |apply serves_stop|apply serves_max|apply serves_close].
Qed.
End Frames.
End Conc.
