(* ===== verification/NativeOthers.v ===== *)
(** * What the clients of a native session do to it

    Every access of every call of the public interface, and of the loop of the writer, is
    a step of [nown]: it leaves the session open, queues no [ConnectionClose], and touches
    of the peer's streams only what an endpoint may change on its own.  So is every access
    of the whole writer task, up to the one that closes the session ([polite_until]).
    Nothing reopens a closed session ([cautious]). *)

From S2P Require Import Prelude Buf VarInt Frame Proto Limits SendFlow Channel Async NativeState.
From S2P Require Import NativeOps NativeStream NativeRecv NativeSession NativeTasks Credit NativeInv.
From S2P Require Import NativePool NativeProps Protocol Rely NativeRefine PeerRun NativeOwn NativeConc.
Open Scope mux_scope.

Section Others.
Context {chan : Type -> Type} `{MpscLaws chan} `{!MapOrder} (srv : bool).
Implicit Types (s : SessionInner chan) (id : StreamId) (e : endpoint).

(** ** Accesses about streams of its own *)
Definition own id : Prop := is_local srv id.
Lemma own_not_peer id i : own id -> is_local (negb srv) i -> i <> id.
Proof. unfold own, is_local. intros Ho Hi ->. rewrite Ho in Hi. by destruct srv. Qed.

Lemma nown_remove_recv id s : is_server s = srv -> own id -> nown s (remove_recv_stream_locked id s).1.
Proof.
  intros Hsrv Ho. apply nown_ctrl; [unfold remove_recv_stream_locked; by case_match|]. intros Hs.
  pose proof (nabs_remove s id) as Hr. destruct (remove_recv_stream_locked id s) as [s' b].
  destruct Hr as (Ha & Hs' & _ & _). split; [auto|]. simpl. rewrite Ha.
  apply own_recv_local. simpl. rewrite Hsrv. intros i Hi. pose proof (own_not_peer id i Ho Hi). by rewrite lookup_delete_ne.
Qed.

Lemma nown_register_flow id s : is_server s = srv -> own id -> nown s (register_send_flow_locked id 0 s).1.
Proof.
  intros Hsrv Ho. apply nown_ctrl; [unfold register_send_flow_locked; by repeat case_match|]. intros Hs. pose proof (nregister_flow_spec s id Hs) as Hr.
  destruct (register_send_flow_locked id 0 s) as [s' [k|err|]]; [| |done]; simpl.
  - destruct Hr as (_ & _ & Hs' & Ha & _). split; [done|]. rewrite Ha. constructor; try done. simpl. rewrite Hsrv.
    intros i Hi. pose proof (own_not_peer id i Ho Hi). by rewrite lookup_insert_ne.
  - destruct Hr as [-> _]. split; [done|reflexivity].
Qed.

Lemma nown_register_recv id s : is_server s = srv -> own id -> nown s (insert_recv_state id s).1.
Proof.
  intros Hsrv Ho. apply nown_ctrl; [unfold insert_recv_state; simpl; by case_match|]. intros Hs.
  destruct (ninsert_spec s id Hs) as [Hs' ->]. split; [done|]. apply own_recv_local. simpl. rewrite Hsrv.
  intros i Hi. pose proof (own_not_peer id i Ho Hi). by rewrite lookup_insert_ne.
Qed.

(** Counters below the point where they wrap around. *)
Definition steady s : Prop := is_server s = srv /\ no_wrap s /\ 0 <= next_uni s /\ 0 <= next_bi s.
Abbreviation J := steady.

Lemma nown_fetch dir s : steady s -> nown s (fetch_next dir s).1.
Proof.
  intros (Hsrv & [Hu Hb] & Hu0 & Hb0). unfold fetch_next, wrap64.
  destruct dir; simpl; rewrite Z.mod_small by lia; (constructor; simpl; [done..|lia|by apply log_same|]);
    intros Hs; (split; [by destruct Hs; constructor|]); (constructor; simpl; try done); lia.
Qed.

(** *** Receiving *)
Lemma polite_consumed h n : polite J (on_bytes_consumed h n).
Proof.
  unfold on_bytes_consumed, queue_credit_opt, queue_credit. apply polite_bind; [apply polite_with_cell|intros o; pol].
  - intros c Hc. unfold consume. repeat (case_match; simpl; try lia).
  - apply polite_quiet. intros s. unfold queue_credit_locked. quietly.
Qed.
#[local] Hint Resolve polite_consumed : polite.
Lemma polite_deliver h room : polite J (deliver_pending h room).
Proof. unfold deliver_pending. pol. apply polite_with_cell. intros c Hc. split; [exact Hc|reflexivity]. Qed.
Lemma polite_recv_event h : polite J (recv_event h).
Proof.
  apply polite_await. intros s s' a. repeat case_match; intros [= <- <-]; apply nown_on_cell; intros ? Hc;
    (split; [exact Hc|reflexivity]).
Qed.
#[local] Hint Resolve polite_deliver polite_recv_event : polite.
Lemma polite_read h room : polite J (read h room).
Proof. unfold read, read_chunk_internal. pol. Qed.
Lemma polite_read_chunk h max : polite J (read_chunk h max).
Proof. unfold read_chunk. pol. Qed.
Lemma polite_poll_recv h : polite J (poll_recv h).
Proof.
  apply polite_atomic. intros s _. repeat case_match; simpl; try reflexivity; apply nown_on_cell; intros ? Hc;
    (split; [exact Hc|reflexivity]).
Qed.
#[local] Hint Resolve polite_poll_recv : polite.
Lemma polite_poll_read_loop h room : forall budget, polite J (poll_read_loop h budget room).
Proof. induction budget as [|budget IH]; cbn [poll_read_loop]; pol. Qed.
#[local] Hint Resolve polite_poll_read_loop : polite.
Lemma polite_poll_read h budget room : polite J (poll_read h budget room).
Proof. unfold poll_read. pol. Qed.
Lemma polite_stop h code : polite J (stop h code).
Proof. unfold stop. pol. Qed.
#[local] Hint Resolve polite_read polite_read_chunk polite_poll_read polite_stop : polite.

(** *** Sending *)
Lemma reserve_keeps n fl : flow_closed (try_reserve n fl).2 = flow_closed fl.
Proof. unfold try_reserve. by repeat case_match. Qed.
Lemma release_keeps n fl : flow_closed (release n fl) = flow_closed fl.
Proof. unfold release. by repeat case_match. Qed.
Lemma nown_reserve k n s : nown s (on_flow k (fun _ => (try_reserve n (flow_at s k)).2) s).
Proof. apply nown_on_flow. intros fl Hfl. rewrite reserve_keeps. unfold flow_at. by rewrite Hfl. Qed.
Lemma polite_release k n : polite J (modify (on_flow k (release n))).
Proof. apply polite_atomic. intros s _. apply nown_on_flow. intros fl _. apply release_keeps. Qed.
Lemma polite_grant h wanted : polite J (await (poll_grant h wanted)).
Proof.
  apply polite_await. intros s s' a. unfold poll_grant. pose proof (nown_reserve (ss_flow h) wanted s) as Hr.
  destruct (try_reserve wanted _) as [n fl]. repeat case_match; intros [= <- <-]; [reflexivity|done].
Qed.
#[local] Hint Resolve polite_release polite_grant : polite.
Lemma polite_write_loop h : forall fuel data, polite J (write_loop h fuel data).
Proof. induction fuel as [|fuel IH]; intros data; cbn [write_loop]; pol. Qed.
#[local] Hint Resolve polite_write_loop : polite.
Lemma polite_select_api h mode : polite J (select_api h mode).
Proof. unfold select_api. pol. Qed.
#[local] Hint Resolve polite_select_api : polite.
Lemma polite_begin h mode : polite J (begin_operation h mode).
Proof. unfold begin_operation. pol. Qed.
Lemma polite_end h : polite J (end_operation h).
Proof. unfold end_operation. pol. Qed.
#[local] Hint Resolve polite_begin polite_end : polite.
Lemma polite_guarded {A} h mode (p : nprog chan (result A)) : polite J p -> polite J (guarded h mode p).
Proof. intros Hp. unfold guarded. pol. Qed.
Lemma polite_flow_closed h : polite J (flow_is_closed h).
Proof. unfold flow_is_closed. pol. Qed.
#[local] Hint Resolve polite_flow_closed : polite.
Lemma polite_closed h : polite J (SendStream_closed h).
Proof. unfold SendStream_closed. pol. Qed.
#[local] Hint Resolve polite_closed : polite.
Lemma polite_write h data : polite J (write_buf h data).
Proof. apply polite_guarded. pol. Qed.
Lemma polite_finish h : polite J (finish h).
Proof. apply polite_guarded. pol. Qed.
Lemma polite_reset h code : polite J (reset h code).
Proof. apply polite_guarded. pol. Qed.
Lemma polite_new id k : polite J (SendStream_new id k).
Proof. unfold SendStream_new. pol. Qed.
Lemma polite_clone h : polite J (SendStream_clone h).
Proof. unfold SendStream_clone. pol. Qed.
Lemma polite_poll_reserve : polite J poll_reserve.
Proof. unfold poll_reserve. pol. Qed.
Lemma polite_item id f : not_close f -> polite J (atomic (send_item_if_open id f)).
Proof.
  intros Hf. apply polite_atomic. intros s _. unfold send_item_if_open, send_item_frame, abort_send.
  repeat (case_match; simplify_eq/=); first [by eapply nown_push | by apply nown_same].
Qed.
#[local] Hint Resolve polite_write polite_finish polite_reset polite_new polite_clone
  polite_poll_reserve polite_item : polite.
Lemma polite_poll_write_body h buf : polite J (poll_write_body h buf).
Proof.
  unfold poll_write_body. pol. apply polite_atomic. intros s _.
  pose proof (nown_reserve (ss_flow h)) as Hr. match goal with |- context [try_reserve ?n _] => specialize (Hr n s) end.
  by destruct (try_reserve _ _).
Qed.
#[local] Hint Resolve polite_poll_write_body : polite.
Lemma polite_poll_write h buf : polite J (poll_write h buf).
Proof. unfold poll_write. pol. Qed.
Lemma polite_poll_waiter h ack : polite J (poll_waiter h ack).
Proof. unfold poll_waiter. pol. Qed.
#[local] Hint Resolve polite_poll_waiter : polite.
Lemma polite_poll_flush h : polite J (poll_flush h).
Proof. unfold poll_flush, poll_flush_body. pol. Qed.
#[local] Hint Resolve polite_poll_flush : polite.
Lemma polite_poll_shutdown h : polite J (poll_shutdown h).
Proof. unfold poll_shutdown. pol. Qed.

(** *** The session *)
Lemma steps_next_id dir : steps steady nown (next_stream_id dir) (fun r => forall id, r = Ok id -> own id).
Proof.
  unfold next_stream_id. eapply (steps_bind _ _ _ _ (fun c => 0 <= c)).
  { apply steps_atomic. intros s Hs. split; [by apply nown_fetch|]. destruct Hs as (_ & _ & ? & ?). by destruct dir. }
  intros c Hc. eapply (steps_bind _ _ _ _ (fun b => b = srv)).
  { apply steps_atomic. intros s (Hsrv & _). simpl. split; [reflexivity|done]. }
  intros b ->. simpl. intros id. rewrite StreamId_new_value by done. destruct (_ <=? VarInt_MAX); [|done]. intros [= <-].
  by apply (StreamId_fields_value c srv dir).
Qed.

(** A program that starts with an identifier of its own. *)
Lemma polite_own_id {A} dir (k : StreamId -> nprog chan (result A)) :
  (forall id, own id -> polite J (k id)) -> polite J (bind_result (next_stream_id dir) k).
Proof.
  intros Hk. eapply steps_bind; [apply steps_next_id|]. intros [id|err|] Hid; [|done..]. apply Hk. by apply Hid.
Qed.
Lemma polite_register_flow id : own id -> polite J (register_send_flow id 0).
Proof. intros Ho. apply polite_atomic. intros s (Hsrv & _). by apply nown_register_flow. Qed.
Lemma polite_register_recv id : own id -> polite J (register_recv_stream id).
Proof. intros Ho. apply polite_atomic. intros s (Hsrv & _). by apply nown_register_recv. Qed.
Lemma polite_remove_stream id : own id -> polite J (remove_stream id).
Proof.
  intros Ho. unfold remove_stream. pol. apply polite_atomic. intros s (Hsrv & _). by apply nown_remove_recv.
Qed.
Lemma polite_credit id : polite J (send_initial_credit id).
Proof. unfold send_initial_credit. pol. Qed.
#[local] Hint Resolve polite_register_flow polite_register_recv polite_remove_stream polite_credit : polite.
Lemma polite_open_uni : polite J open_uni.
Proof. apply polite_with_drop; [auto with polite|]. apply polite_own_id. intros id Ho. pol. Qed.
Lemma polite_open_bi : polite J open_bi.
Proof. apply polite_with_drop; [auto with polite|]. apply polite_own_id. intros id Ho. pol. Qed.
Lemma polite_accept_uni : polite J accept_uni.
Proof. unfold accept_uni. pol. Qed.
Lemma polite_accept_bi : polite J accept_bi.
Proof. unfold accept_bi. pol. Qed.
Lemma polite_session_clone : polite J Session_clone.
Proof. unfold Session_clone. pol. Qed.
Lemma polite_drop_each {A} (d : A -> nprog chan unit) l : (forall a, polite J (d a)) -> polite J (drop_each d l).
Proof. intros Hd. induction l as [|a l IH]; simpl; [done|]. by apply polite_bind. Qed.
#[local] Hint Resolve polite_drop_each : polite.
Lemma polite_session_drop : polite J Session_drop.
Proof. unfold Session_drop. pol. Qed.
Lemma polite_wait_tasks : polite J wait_for_tasks.
Proof. unfold wait_for_tasks. pol. Qed.
#[local] Hint Resolve polite_wait_tasks : polite.
Lemma polite_handshake : polite J shutdown_handshake.
Proof. unfold shutdown_handshake, send_shutdown, wait_ack. pol. Qed.
#[local] Hint Resolve polite_handshake polite_timeout : polite.
Lemma polite_shutdown : polite J shutdown.
Proof. unfold shutdown. pol. Qed.
#[local] Hint Resolve polite_open_uni polite_open_bi polite_accept_uni polite_accept_bi polite_session_clone
  polite_session_drop polite_shutdown polite_poll_write polite_poll_shutdown : polite.

Lemma polite_call {A} (c : call A) : polite J (denote c).
Proof. destruct c; simpl; auto with polite. unfold RecvStream_closed. pol. Qed.
Lemma polite_client hs p : client hs p -> polite J p.
Proof. induction 1 as [|A c hs k _ _ _ IH]; [done|]. apply polite_bind; [apply polite_call|exact IH]. Qed.

(** *** The writer task *)
Section Writer.
Context (sink : list WsMessage -> WsMessage -> outcome TungsteniteError unit)
  (sink_flush : list WsMessage -> outcome TungsteniteError unit).

Lemma polite_sink_send m : polite J (sink_send sink m).
Proof. unfold sink_send. pol. Qed.
#[local] Hint Resolve polite_sink_send : polite.
Lemma polite_flush_batch w : polite J (flush_batch sink w).
Proof. unfold flush_batch. pol. Qed.
#[local] Hint Resolve polite_flush_batch : polite.
Lemma polite_write_cmd w cmd : polite J (write_cmd sink sink_flush w cmd).
Proof. unfold write_cmd, write_frame, sink_close, ack_send, ack_drop. pol. Qed.
#[local] Hint Resolve polite_write_cmd : polite.
Lemma polite_next_event prefer sent : polite J (await (next_event prefer sent)).
Proof. apply polite_quiet_await. intros s s' a. unfold next_event. intros E. repeat (case_match; simplify_eq/=); done. Qed.
#[local] Hint Resolve polite_next_event : polite.
Lemma polite_writer prefer rounds : forall w, polite J (writer_loop sink sink_flush prefer rounds w).
Proof. induction rounds as [|rounds IH]; intros w; cbn [writer_loop]; unfold sink_close; pol. Qed.

(** *** The end of the writer task *)
Definition cuts s s' : Prop := closed s = false /\ closed s' = true.
Definition polite_until {A} (p : nprog chan A) : Prop := steps_until J nown cuts p (fun _ => True).

Lemma polite_polite_until {A} (p : nprog chan A) : polite J p -> polite_until p.
Proof. apply steps_steps_until. Qed.
Lemma polite_until_bind {A B} (p : nprog chan A) (k : A -> nprog chan B) :
  polite_until p -> (forall a, polite_until (k a)) -> polite_until (pbind p k).
Proof. intros Hp Hk. eapply until_bind; [exact Hp|]. intros a _. apply Hk. Qed.

(** Its first access ends the session, unless it is closed. *)
Lemma until_close_all : polite_until close_all.
Proof.
  unfold close_all. apply (until_bind _ _ _ _ _ (fun already => already = true)); [|by intros ? ->].
  apply until_atomic. intros s _. simpl. destruct (closed s) eqn:Ec; [right|by left].
  split; [|done]. apply nown_same. split; [|done]. unfold adata. simpl. by rewrite Ec.
Qed.
Lemma polite_drop_rx : polite J drop_outbound_rx.
Proof. apply polite_quiet. intros s. by destruct (rx_drop (outbound s)). Qed.
Lemma until_outbound prefer rounds : polite_until (outbound_task sink sink_flush prefer rounds).
Proof.
  unfold outbound_task, task_finished.
  apply polite_until_bind; [apply polite_polite_until, steps_select_stop; [reflexivity|apply polite_writer]|intros _].
  apply polite_until_bind; [apply polite_polite_until, polite_drop_rx|intros _].
  apply polite_until_bind; [apply until_close_all|intros _]. apply polite_polite_until. pol.
Qed.

(** *** Nothing reopens the session *)
Definition cautious s s' : Prop :=
  is_server s' = is_server s /\ next_uni s <= next_uni s' /\ next_bi s <= next_bi s'
  /\ (closed s = true -> closed s' = true).
Definition careful {A} (p : nprog chan A) : Prop := steps J cautious p (fun _ => True).
Lemma polite_careful {A} (p : nprog chan A) : polite J p -> careful p.
Proof. apply steps_bound; [done|]. intros s s' _ [Hc _ Hs Hn _ _]. split_and!; [done|lia..|congruence]. Qed.
Lemma calm_careful {A} (p : nprog chan A) : calm p -> careful p.
Proof. apply steps_bound; [done|]. intros s s' _ ([= E1 E2 E3] & _ & Hc). split_and!; [done|lia..|done]. Qed.
Lemma careful_outbound prefer rounds : careful (outbound_task sink sink_flush prefer rounds).
Proof.
  unfold outbound_task, task_finished. eapply steps_bind.
  { apply polite_careful, steps_select_stop; [reflexivity|apply polite_writer]. }
  intros _ _. eapply steps_bind; [apply polite_careful, polite_drop_rx|intros _ _].
  eapply steps_bind; [apply calm_careful, calm_close_all|intros _ _]. apply polite_careful. pol.
Qed.
End Writer.
End Others.
