(* ===== verification/NativeServe.v ===== *)
(** * A native session that serves frames among its clients

    The reader takes the frames of the peer one after the other; every access of a
    handler is a step of its own, and between any two of them the clients of the session
    and its writer task take theirs, in every order ([serving]).  Until the end of the
    writer task closes the session, the frames are taken as the abstract endpoint takes
    them, and from then on the session stays closed.  A handler that is dropped at an
    await, because the session is cancelled, has no result and no frame follows it. *)

From S2P Require Import Prelude Buf VarInt Frame Proto Limits SendFlow Channel Async NativeState.
From S2P Require Import NativeOps NativeStream NativeRecv NativeSession NativeTasks Credit NativeInv.
From S2P Require Import NativePool NativeProps Protocol Rely NativeRefine PeerRun NativeOwn NativeConc NativeOthers.
Open Scope mux_scope.

Section Serve.
Context {chan : Type -> Type} `{MpscLaws chan} `{!MapOrder}.
Implicit Types (s : SessionInner chan) (id : StreamId) (e : endpoint).




Section Invariant.
Context (server : bool) (l : Limits).
Abbreviation e0 := (ep_new server).





Context (s0 : SessionInner chan).
Context (Hnew : holds l (peer_run l e0 []) s0 /\ is_server s0 = server /\ next_uni s0 = 0 /\ next_bi s0 = 0).

End Invariant.



End Serve.

(** ** The messages of the reader

    A message is its frames: what the reader makes of one, among the steps of the others. *)
Section Reader.
Context {chan : Type -> Type} `{MpscLaws chan} `{!MapOrder} `{!UsizeWidth} (l : Limits) (e0 : endpoint).

Fixpoint decode_all (fuel : nat) (cursor : list byte) : option (list Frame) :=
  if has_remaining cursor then
    match fuel with
    | O => None
    | S fuel =>
        match Frame_decode cursor with
        | Ok (f, rest) => cons f <$> decode_all fuel rest
        | _ => None
        end
    end
  else Some [].
Definition message_frames (m : WsMessage) : option (list Frame) :=
  match m with WsBinary data => decode_all (length data) data | _ => Some [] end.

(** The reader goes on after a message only when it has taken all its frames. *)
Definition read_all (fs : list Frame) (m : option (list Frame)) (go_on : bool) (s : SessionInner chan) : Prop :=
  go_on = true -> exists gs, m = Some gs /\ holds l (peer_run l e0 (fs ++ gs)) s.

Lemma reads_nothing {A} P fs m (p : nprog chan A) : triple nown P (let* _ := p in Ret false) (read_all fs m).
Proof.
  apply (triple_bind _ _ (fun _ _ => True)); [by intros s a s'|]. intros a. by apply triple_ret.
Qed.

Lemma reads_frames : forall fuel data fs,
  triple nown (holds l (peer_run l e0 fs)) (inbound_frames fuel data) (read_all fs (decode_all fuel data)).
Proof.
  induction fuel as [|fuel IH]; intros data fs; cbn [inbound_frames decode_all]; destruct (has_remaining data).
  - by apply triple_ret.
  - apply triple_ret. intros s Hs _. exists []. by rewrite app_nil_r.
  - destruct (Frame_decode data) as [[f rest]|e|]; [|apply reads_nothing..].
    eapply triple_bind; [apply serves_frame|]. intros [[]|e|]; simpl; [|by apply triple_ret..].
    eapply triple_strengthen; [by intros s [Hs _]; exact Hs|].
    eapply triple_weaken; [apply IH|]. intros b s Hb Ht. destruct (Hb Ht) as (gs & -> & Hs).
    exists (f :: gs). split; [done|]. by rewrite <- app_assoc in Hs.
  - apply triple_ret. intros s Hs _. exists []. by rewrite app_nil_r.
Qed.

Lemma reader_takes_messages fs m :
  triple nown (holds l (peer_run l e0 fs)) (inbound_message m) (read_all fs (message_frames m)).
Proof.
  assert (Hnil : forall s, holds l (peer_run l e0 fs) s -> read_all fs (Some []) true s).
  { intros s Hs _. exists []. by rewrite app_nil_r. }
  destruct m as [t|data|p|p| |]; cbn [inbound_message message_frames]; try (by apply triple_ret); try apply reads_nothing.
  - apply (triple_bind _ _ (fun _ => holds l (peer_run l e0 fs))).
    { apply conc_quiet; [apply taken_stable|done]. }
    intros max. destruct (max <? blen data); [apply reads_nothing|apply reads_frames].
  - eapply triple_weaken; [apply (conc_quiet l (peer_run l e0 fs)); [apply taken_stable|done]|].
    intros b s Hs ->. by apply Hnil.
  - unfold inbound_close. do 4 (apply (triple_bind _ _ (fun _ _ => True)); [by intros ? ? ?|intros ?]).
    apply reads_nothing.
Qed.
End Reader.

Section Native.
Context {chan : Type -> Type} `{MpscLaws chan} `{!MapOrder} `{!UsizeWidth}.
Context (server : bool) (l : Limits) (s0 : SessionInner chan).
Context (Hnew : Session_new server l = Ok s0).



End Native.

(** *** Concrete executions

    The browser's stream is opened, gets data and ends while a client of the server opens
    a stream of its own; half of every handler runs before the client goes on.  In the
    second one the socket fails: the writer task ends while the data of an open stream is
    handled, and the handler finds no stream. *)
Section Demo.
#[local] Existing Instance list_order.
#[local] Existing Instance usize64.




End Demo.
