(* ===== verification/Http.v ===== *)
(** * HTTP headers and protocol lists

    The [http] crate is a parameter: header names, values and maps are opaque, and
    the class of laws states what its documentation promises.  The string functions
    of the standard library that the handshake uses ([split], [join], [trim],
    [eq_ignore_ascii_case]) are modelled on byte strings. *)

From Stdlib Require Import Ascii.
From S2P Require Import Prelude.
Open Scope mux_scope.

(** ** The [http] crate *)
Class Http : Type := {
  HeaderName : Set;
  HeaderValue : Set;
  HeaderMap : Set;
  HeaderName_from_bytes : string -> string + HeaderName;   (** [inl]: the displayed error *)
  HeaderValue_from_str : string -> string + HeaderValue;
  to_str : HeaderValue -> option string;
  hm_get : HeaderName -> HeaderMap -> option HeaderValue;
  hm_append : HeaderName -> HeaderValue -> HeaderMap -> HeaderMap;
  hm_insert : HeaderName -> HeaderValue -> HeaderMap -> HeaderMap;
  SEC_WEBSOCKET_PROTOCOL : HeaderName
}.

(** A value is made of permitted characters, the comma among them; it is read back
    as the string it was made of; [insert] replaces what the map held. *)
Class HttpLaws `{Http} : Type := {
  header_char : ascii -> bool;
  header_char_comma : header_char "," = true;
  from_str_chars s : (exists v, HeaderValue_from_str s = inr v) <-> Forall header_char (String.list_ascii_of_string s);
  from_str_to_str s v : HeaderValue_from_str s = inr v -> to_str v = Some s;
  get_insert n v m : hm_get n (hm_insert n v m) = Some v
}.

(** ** Strings *)
Fixpoint split_comma (s : string) : list string :=
  match s with
  | EmptyString => [EmptyString]
  | String c r =>
      if Ascii.eqb c "," then EmptyString :: split_comma r
      else match split_comma r with
      | x :: xs => String c x :: xs
      | [] => [String c EmptyString]
      end
  end.

Fixpoint join_comma (l : list string) : string :=
  match l with
  | [] => EmptyString
  | [x] => x
  | x :: r => x +:+ "," +:+ join_comma r
  end.

(** The whitespace a header value can hold is ASCII. *)
Definition is_whitespace (c : ascii) : bool :=
  let n := N_of_ascii c in ((9 <=? n) && (n <=? 13) || (n =? 32))%N.
Fixpoint trim_start (s : string) : string :=
  match s with
  | String c r => if is_whitespace c then trim_start r else s
  | EmptyString => EmptyString
  end.
Fixpoint trim_end (s : string) : string :=
  match s with
  | EmptyString => EmptyString
  | String c r =>
      match trim_end r with
      | EmptyString => if is_whitespace c then EmptyString else String c EmptyString
      | r => String c r
      end
  end.
Definition trim (s : string) : string := trim_end (trim_start s).

Definition to_ascii_lowercase (c : ascii) : ascii :=
  let n := N_of_ascii c in if ((65 <=? n) && (n <=? 90))%N then ascii_of_N (n + 32) else c.
Fixpoint eq_ignore_ascii_case (s t : string) : bool :=
  match s, t with
  | EmptyString, EmptyString => true
  | String a s, String b t =>
      Ascii.eqb (to_ascii_lowercase a) (to_ascii_lowercase b) && eq_ignore_ascii_case s t
  | _, _ => false
  end.

Lemma eq_ignore_ascii_case_refl s : eq_ignore_ascii_case s s = true.
Proof. induction s as [|c s IH]; [done|]. simpl. by rewrite Ascii.eqb_refl. Qed.

(** ** Lists of protocols *)

(** A name that can be offered: no comma, no surrounding whitespace. *)
Definition no_comma (s : string) : Prop := Forall (fun c => c <> ","%char) (String.list_ascii_of_string s).

Lemma split_comma_nonempty s : split_comma s <> [].
Proof. destruct s as [|c s]; [done|]. simpl. destruct (Ascii.eqb _ _); [done|]. by destruct (split_comma s). Qed.

Lemma split_no_comma s : no_comma s -> split_comma s = [s].
Proof.
  induction s as [|c s IH]; [done|]. intros Hs. inversion_clear Hs. simpl.
  destruct (Ascii.eqb_spec c ","); [done|]. by rewrite IH.
Qed.
Lemma split_app s t : no_comma s -> split_comma (s +:+ "," +:+ t) = s :: split_comma t.
Proof.
  induction s as [|c s IH]; [done|]. intros Hs. inversion_clear Hs.
  change (String c s +:+ "," +:+ t) with (String c (s +:+ "," +:+ t)). cbn [split_comma].
  destruct (Ascii.eqb_spec c ","); [done|]. by rewrite IH.
Qed.

(** Splitting undoes joining. *)
Lemma split_join l : l <> [] -> Forall no_comma l -> split_comma (join_comma l) = l.
Proof.
  induction l as [|x l IH]; [done|]. intros _ Hl. inversion_clear Hl as [|? ? Hx Hl'].
  destruct l as [|y l]; [by apply split_no_comma|].
  change (join_comma (x :: y :: l)) with (x +:+ "," +:+ join_comma (y :: l)).
  by rewrite split_app, IH.
Qed.

Lemma list_ascii_app s t :
  String.list_ascii_of_string (s +:+ t) = String.list_ascii_of_string s ++ String.list_ascii_of_string t.
Proof. induction s as [|c s IH]; [done|]. simpl. by rewrite IH. Qed.

(** The joined list is a header value when every name is. *)
Lemma join_valid `{HttpLaws} l :
  Forall (fun p => exists v, HeaderValue_from_str p = inr v) l -> exists v, HeaderValue_from_str (join_comma l) = inr v.
Proof.
  intros Hl. apply from_str_chars. induction l as [|x l IH]; [by simpl; constructor|].
  inversion_clear Hl as [|? ? Hx Hl']. apply from_str_chars in Hx. specialize (IH Hl').
  destruct l as [|y l]; [done|].
  change (join_comma (x :: y :: l)) with (x +:+ "," +:+ join_comma (y :: l)).
  rewrite !list_ascii_app. apply Forall_app. split; [done|]. constructor; [|done].
  by rewrite header_char_comma.
Qed.

(** ** A reference implementation *)
Definition visible_char (c : ascii) : bool :=
  let n := N_of_ascii c in ((32 <=? n) && (n <? 127) || (n =? 9))%N.
Fixpoint all_visible (s : string) : bool :=
  match s with EmptyString => true | String c r => visible_char c && all_visible r end.
Definition list_get (n : string) (m : list (string * string)) : option string :=
  snd <$> head (filter (fun kv => kv.1 = n) m).

#[global] Instance list_http : Http := {
  HeaderName := string; HeaderValue := string; HeaderMap := list (string * string);
  HeaderName_from_bytes s := if decide (s = "") then inl "invalid HTTP header name" else inr s;
  HeaderValue_from_str s := if all_visible s then inr s else inl "failed to parse header value";
  to_str := Some;
  hm_get := list_get;
  hm_append n v m := m ++ [(n, v)];
  hm_insert n v m := (n, v) :: filter (fun kv => kv.1 <> n) m;
  SEC_WEBSOCKET_PROTOCOL := "sec-websocket-protocol"
}.

Lemma all_visible_spec s : all_visible s = true <-> Forall visible_char (String.list_ascii_of_string s).
Proof.
  induction s as [|c s IH]; simpl; [done|]. rewrite andb_true_iff, IH, Forall_cons. by rewrite Is_true_true.
Qed.

#[global] Program Instance list_http_laws : HttpLaws := { header_char := visible_char }.
Next Obligation. done. Qed.
Next Obligation.
  intros s. simpl. rewrite <- all_visible_spec. destruct (all_visible s); [|naive_solver]. naive_solver.
Qed.
Next Obligation. intros s v. simpl. by destruct (all_visible s); naive_solver. Qed.
Next Obligation. intros n v m. simpl. unfold list_get. rewrite filter_cons. by rewrite decide_True. Qed.
