(* ===== verification/Handshake.v ===== *)
(** * The opening handshake

    Models the options ([websock-proto/src/options.rs]), the plain server and client
    handshake ([websock-tungstenite/src/server.rs], [connect_with_tls] of
    [connection.rs]) and the mux ones ([websock-tungstenite-mux/src/server.rs],
    [client.rs]).  Sockets, TLS and the WebSocket library are parameters: what the
    code asks them is an argument, what they answer a value of their result type. *)

From S2P Require Import Prelude Buf VarInt Frame Proto Limits SendFlow Channel Async NativeState.
From S2P Require Import NativeOps NativeStream NativeRecv NativeSession NativeTasks Http.
Open Scope mux_scope.

(** ** Options *)
Record ServerOptions : Set := mkServerOptions {
  so_protocols : list string;
  so_headers : list (string * string);
  so_limits : WebSocketLimits
}.
Definition ConnectOptions_default : ConnectOptions := mkConnectOptions [] [] WebSocketLimits_default.
Definition ServerOptions_default : ServerOptions := mkServerOptions [] [] WebSocketLimits_default.

Definition ALPN_HTTP_1_1 : list byte := String.list_byte_of_string "http/1.1".
Definition default_ws_alpn : list (list byte) := [ALPN_HTTP_1_1].

Definition SUBPROTOCOL : string := "websock-mux-1".

(** The transport configuration of the plain client and server. *)
Definition limits_config (l : WebSocketLimits) : WebSocketConfig := {|
  read_buffer_size := Z.min (128 * 1024) (max_frame_size l);
  write_buffer_size := Z.min (128 * 1024) (saturating_sub (max_write_buffer_size l) 1);
  cfg_max_write_buffer_size := max_write_buffer_size l;
  cfg_max_message_size := Some (max_message_size l);
  cfg_max_frame_size := Some (max_frame_size l)
|}.

(** A rejected request: the status code and the body of the response. *)
Record Rejection : Set := mkRejection { status : Z; body : string }.

(** The answer of the environment, with its error mapped to [Error]. *)
Definition answer {E A} (f : E -> Error) (r : E + A) : result A :=
  match r with inl e => Err (f e) | inr a => Ok a end.

Section Headers.
Context `{Http}.

(** [map_err(|e| Error::Protocol(format!("invalid ..: {e}")))] *)
Definition checked {A} (what : string) (r : string + A) : result A :=
  match r with inl e => Err (Protocol ("invalid " +:+ what +:+ ": " +:+ e)) | inr a => Ok a end.

Fixpoint prepare_headers (hs : list (string * string)) : result (list (HeaderName * HeaderValue)) :=
  match hs with
  | [] => Ok []
  | (k, v) :: hs =>
      name ← checked "header name" (HeaderName_from_bytes k);
      value ← checked "header value" (HeaderValue_from_str v);
      rest ← prepare_headers hs;
      Ok ((name, value) :: rest)
  end.

Fixpoint validate_protocols (ps : list string) : result unit :=
  match ps with
  | [] => Ok tt
  | p :: ps => _ ← checked "protocol value" (HeaderValue_from_str p); validate_protocols ps
  end.

Definition select_protocol (req : HeaderMap) (allowed : gset string) : option string :=
  if decide (allowed = ∅) then None
  else
    header ← hm_get SEC_WEBSOCKET_PROTOCOL req;
    header ← to_str header;
    List.find (fun candidate => bool_decide (candidate ∈ allowed)) (trim <$> split_comma header).

(** ** The server's answer *)
Definition append_all (hs : list (HeaderName * HeaderValue)) (m : HeaderMap) : HeaderMap :=
  foldl (fun m nv => hm_append nv.1 nv.2 m) m hs.

(** The callback of the plain server; [cell] is the shared [selected_protocol]. *)
Definition plain_callback (hs : list (HeaderName * HeaderValue)) (allowed : gset string)
    (req resp : HeaderMap) (cell : option string) : outcome Rejection HeaderMap * option string :=
  let resp := append_all hs resp in
  match select_protocol req allowed with
  | None => (Ok resp, cell)
  | Some protocol =>
      match HeaderValue_from_str protocol with
      | inl _ => (Panic, cell)
      | inr value => (Ok (hm_insert SEC_WEBSOCKET_PROTOCOL value resp), Some protocol)
      end
  end.

Definition protocol_required : Rejection :=
  mkRejection 400 ("'" +:+ SUBPROTOCOL +:+ "' protocol required").

(** The callback of the mux server. *)
Definition mux_callback (hs : list (HeaderName * HeaderValue)) (allowed : gset string)
    (req resp : HeaderMap) : outcome Rejection HeaderMap :=
  let resp := append_all hs resp in
  match select_protocol req allowed with
  | None => Err protocol_required
  | Some protocol =>
      if negb (eq_ignore_ascii_case protocol SUBPROTOCOL) then Err protocol_required
      else
        match HeaderValue_from_str protocol with
        | inl _ => Panic
        | inr value => Ok (hm_insert SEC_WEBSOCKET_PROTOCOL value resp)
        end
  end.

(** ** The client's request and its check of the response *)
Fixpoint add_headers (hs : list (string * string)) (m : HeaderMap) : result HeaderMap :=
  match hs with
  | [] => Ok m
  | (k, v) :: hs =>
      name ← checked "header name" (HeaderName_from_bytes k);
      value ← checked "header value" (HeaderValue_from_str v);
      add_headers hs (hm_append name value m)
  end.

Definition client_request (ps : list string) (hs : list (string * string)) (m : HeaderMap) :
  result HeaderMap :=
  m ← add_headers hs m;
  match ps with
  | [] => Ok m
  | _ =>
      value ← checked "protocol value" (HeaderValue_from_str (join_comma ps));
      Ok (hm_insert SEC_WEBSOCKET_PROTOCOL value m)
  end.

Definition negotiated_protocol (resp : HeaderMap) : option string :=
  header ← hm_get SEC_WEBSOCKET_PROTOCOL resp;
  trim <$> to_str header.

Definition is_protocol_ok (p : string) : bool := eq_ignore_ascii_case p SUBPROTOCOL.

Definition check_negotiated (resp : HeaderMap) : result unit :=
  match negotiated_protocol resp with
  | None => Err (Protocol "missing SEC_WEBSOCKET_PROTOCOL in response")
  | Some proto =>
      if negb (is_protocol_ok proto) then Err (Protocol ("subprotocol mismatch: " +:+ proto)) else Ok tt
  end.
End Headers.

(** ** Servers and clients

    [Stream] and [Ws] are a socket and an upgraded connection, [Addr] an address. *)
Section Endpoints.
Context `{Http} {Listener Stream Ws Addr TlsClient TlsServer : Type}.

Record Server : Type := mkServer {
  srv_listener : Listener;
  srv_protocols : gset string;
  srv_headers : list (HeaderName * HeaderValue);
  srv_acceptor : option TlsServer;
  srv_config : WebSocketConfig
}.

Definition bind (bound : IoError + Listener) (opts : ServerOptions) (tls : option TlsServer) :
  result Server :=
  _ ← WebSocketLimits_validate (so_limits opts);
  listener ← answer Io bound;
  headers ← prepare_headers (so_headers opts);
  _ ← validate_protocols (so_protocols opts);
  Ok (mkServer listener (list_to_set (so_protocols opts)) headers tls (limits_config (so_limits opts))).

Record MuxServer : Type := mkMuxServer {
  ms_listener : Listener;
  ms_allowed : gset string;
  ms_headers : list (HeaderName * HeaderValue);
  ms_acceptor : option TlsServer;
  ms_limits : Limits
}.

Definition mux_bind `{UsizeWidth} (bound : IoError + Listener) (opts : ServerOptions)
    (tls : option TlsServer) (limits : Limits) : result MuxServer :=
  _ ← Limits_validate limits;
  listener ← answer Io bound;
  headers ← prepare_headers (so_headers opts);
  _ ← validate_protocols (so_protocols opts);
  if negb (existsb (fun p => bool_decide (p = SUBPROTOCOL)) (so_protocols opts))
  then Err (Protocol "SUBPROTOCOL missing in ServerOptions")
  else Ok (mkMuxServer listener (list_to_set (so_protocols opts)) headers tls limits).

Record ConnectionInfo : Type := mkConnectionInfo {
  peer : Addr; local : Addr; is_tls : bool; subprotocol : option string
}.
Record Connection : Type := mkConnection {
  conn_ws : Ws; conn_info : ConnectionInfo; conn_close_frame : option CloseFrame
}.

(** What the runtime and the TLS library answer. *)
Record Io_env : Type := mkIoEnv {
  io_accept : IoError + Stream;
  io_peer : Stream -> IoError + Addr;
  io_local : Stream -> IoError + Addr;
  tls_accept : TlsServer -> Stream -> BoxError + Stream
}.

(** [accept_hdr_async_with_config]; [C] is what the callback writes to. *)
Definition AcceptHdr : Type := forall C, Stream ->
  (HeaderMap -> HeaderMap -> C -> outcome Rejection HeaderMap * C) -> WebSocketConfig -> C ->
  outcome TungsteniteError Ws * C.

Definition with_tls (env : Io_env) (acceptor : option TlsServer) (stream : Stream) :
  result (Stream * bool) :=
  match acceptor with
  | Some a => s ← answer Tls (tls_accept env a stream); Ok (s, true)
  | None => Ok (stream, false)
  end.

(** The upgrade, with the metadata of the connection. *)
Definition upgrade (accept_hdr : AcceptHdr) (srv : Server) (stream : Stream) (peer local : Addr)
    (is_tls : bool) : result Connection :=
  let '(ws, selected) := accept_hdr (option string) stream
        (plain_callback (srv_headers srv) (srv_protocols srv)) (srv_config srv) None in
  ws ← map_err map_tungstenite_err ws;
  Ok (mkConnection ws (mkConnectionInfo peer local is_tls selected) None).

Definition accept (env : Io_env) (accept_hdr : AcceptHdr) (srv : Server) : result Connection :=
  stream ← answer Io (io_accept env);
  peer ← answer Io (io_peer env stream);
  local ← answer Io (io_local env stream);
  '(stream, is_tls) ← with_tls env (srv_acceptor srv) stream;
  upgrade accept_hdr srv stream peer local is_tls.

Definition accept_tls (env : Io_env) (accept_hdr : AcceptHdr) (srv : Server) : result Connection :=
  stream ← answer Io (io_accept env);
  acceptor ← match srv_acceptor srv with
             | Some a => Ok a
             | None => Err (Protocol "missing tls acceptor")
             end;
  tls_stream ← answer Tls (tls_accept env acceptor stream);
  peer ← answer Io (io_peer env tls_stream);
  local ← answer Io (io_local env tls_stream);
  upgrade accept_hdr srv tls_stream peer local true.

(** The upgraded connection a session is made of. *)
Definition mux_accept `{UsizeWidth} (env : Io_env) (accept_hdr : AcceptHdr) (srv : MuxServer) :
  result Ws :=
  stream ← answer Io (io_accept env);
  '(stream, _) ← with_tls env (ms_acceptor srv) stream;
  let '(ws, _) := accept_hdr unit stream
        (fun req resp _ => (mux_callback (ms_headers srv) (ms_allowed srv) req resp, tt))
        (websocket_config (ms_limits srv)) tt in
  ws ← map_err map_tungstenite_err ws;
  _ ← Limits_validate (ms_limits srv);
  Ok ws.

(** The client: [into_client_request] turns a URL into a request with default headers,
    [connect_async] performs the handshake and yields the response's headers. *)
Record Client_env : Type := mkClientEnv {
  into_client_request : string -> BoxError + HeaderMap;
  connect_async : string -> HeaderMap -> WebSocketConfig -> option TlsClient ->
    TungsteniteError + Ws * HeaderMap;
  ws_peer : Ws -> IoError + Addr;
  ws_local : Ws -> IoError + Addr;
  ws_is_tls : Ws -> bool
}.

Definition connect_with_tls (env : Client_env) (url : string) (opts : ConnectOptions)
    (tls : option TlsClient) : result Connection :=
  _ ← WebSocketLimits_validate (limits_of opts);
  req ← answer Transport (into_client_request env url);
  req ← client_request (protocols opts) (headers opts) req;
  '(ws, resp) ← answer map_tungstenite_err (connect_async env url req (limits_config (limits_of opts)) tls);
  peer ← answer Io (ws_peer env ws);
  local ← answer Io (ws_local env ws);
  Ok (mkConnection ws (mkConnectionInfo peer local (ws_is_tls env ws)
        (hm_get SEC_WEBSOCKET_PROTOCOL resp ≫= to_str)) None).

Definition mux_connect_with_tls `{UsizeWidth} (env : Client_env) (url : string) (opts : ConnectOptions)
    (limits : Limits) (tls : option TlsClient) : result Ws :=
  _ ← Limits_validate limits;
  _ ← validate_protocols (protocols opts);
  req ← answer Transport (into_client_request env url);
  req ← client_request (protocols opts) (headers opts) req;
  '(ws, resp) ← answer map_tungstenite_err (connect_async env url req (websocket_config limits) tls);
  _ ← check_negotiated resp;
  _ ← Limits_validate limits;
  Ok ws.
End Endpoints.

(** ** Lemmas *)
Section Lemmas.
Context `{HttpLaws}.

Lemma validate_protocols_ok ps :
  validate_protocols ps = Ok tt <-> Forall (fun p => exists v, HeaderValue_from_str p = inr v) ps.
Proof.
  induction ps as [|p ps IH]; simpl; [done|]. unfold checked. rewrite Forall_cons, <- IH.
  destruct (HeaderValue_from_str p); simpl; [|naive_solver]. split; [done|]. by intros [[v ?] _].
Qed.

(** What is selected is allowed. *)
Lemma select_allowed req allowed p : select_protocol req allowed = Some p -> p ∈ allowed.
Proof.
  unfold select_protocol. case_decide; [done|]. destruct (hm_get _ req) as [v|]; simpl; [|done].
  destruct (to_str v) as [s|]; simpl; [|done]. intros [_ Hp]%List.find_some. by apply bool_decide_eq_true in Hp.
Qed.

Lemma find_trimmed (P : string -> bool) ps :
  Forall (fun p => trim p = p) ps -> List.find P (trim <$> ps) = List.find P ps.
Proof. induction 1 as [|p ps Hp _ IH]; csimpl; [done|]. by rewrite Hp, IH. Qed.

(** The request of a client, as a server reads it. *)
Lemma request_selects ps hs m req allowed :
  Forall (fun p => no_comma p /\ trim p = p) ps -> client_request ps hs m = Ok req -> ps <> [] ->
  select_protocol req allowed = List.find (fun p => bool_decide (p ∈ allowed)) ps.
Proof.
  intros Hps Hreq Hne. unfold client_request in Hreq.
  destruct (add_headers hs m) as [m'| |]; simpl in Hreq; [|done..].
  assert (Hv : exists v, HeaderValue_from_str (join_comma ps) = inr v
    /\ req = hm_insert SEC_WEBSOCKET_PROTOCOL v m').
  { unfold checked in Hreq. destruct ps as [|p ps]; [done|].
    destruct (HeaderValue_from_str _) as [|v]; simpl in Hreq; [done|]. simplify_eq. by exists v. }
  destruct Hv as (v & Hv & ->). unfold select_protocol. case_decide as He.
  { subst. clear. induction ps as [|p ps IH]; [done|]. simpl. by rewrite bool_decide_eq_false_2 by set_solver. }
  rewrite get_insert. simpl. rewrite (from_str_to_str _ _ Hv). simpl. rewrite split_join; [|done|].
  - apply find_trimmed. eapply Forall_impl; [done|]. naive_solver.
  - eapply Forall_impl; [done|]. naive_solver.
Qed.

Lemma client_request_ok ps hs m :
  Forall (fun p => exists v, HeaderValue_from_str p = inr v) ps ->
  is_ok (client_request ps hs m) = is_ok (add_headers hs m).
Proof.
  intros Hps. unfold client_request. destruct (add_headers hs m) as [m'| |]; simpl; [|done..].
  destruct ps as [|p ps]; [done|]. destruct (join_valid (p :: ps) Hps) as [v ->]. done.
Qed.
End Lemmas.

(** ** Properties *)

(** The documented behaviour of [accept_hdr_async_with_config]: the callback runs at most
    once, a rejection makes the handshake fail, a panic propagates. *)
Class AcceptLaws `{Http} {Stream Ws : Type} (accept_hdr : AcceptHdr (Stream := Stream) (Ws := Ws)) : Prop :=
  accept_law : forall C st cb cfg c,
    (exists e, accept_hdr C st cb cfg c = (Err e, c))
    \/ exists req resp, (accept_hdr C st cb cfg c).2 = (cb req resp c).2 /\
         match (cb req resp c).1, (accept_hdr C st cb cfg c).1 with
         | Ok _, r => r <> Panic
         | Err _, r => is_ok r = false /\ r <> Panic
         | Panic, r => r = Panic
         end.

Section Properties.
Context `{HttpLaws} {Listener Stream Ws Addr TlsServer : Type} `{!UsizeWidth}.
Context (accept_hdr : AcceptHdr (Stream := Stream) (Ws := Ws)) `{!AcceptLaws accept_hdr}.
Implicit Types (env : Io_env (Stream := Stream) (Addr := Addr) (TlsServer := TlsServer)).
Implicit Types (bound : IoError + Listener) (tls : option TlsServer).

Lemma bind_fields bound opts tls srv :
  bind bound opts tls = Ok srv ->
  srv_protocols srv = list_to_set (so_protocols opts) /\ validate_protocols (so_protocols opts) = Ok tt.
Proof.
  unfold bind. destruct (WebSocketLimits_validate _); simpl; [|done..]. destruct bound; simpl; [done|].
  destruct (prepare_headers _); simpl; [|done..]. destruct (validate_protocols _) as [[]| |]; simpl; [|done..].
  by intros [= <-].
Qed.
Lemma mux_bind_fields bound opts tls l srv :
  mux_bind bound opts tls l = Ok srv ->
  ms_allowed srv = list_to_set (so_protocols opts) /\ validate_protocols (so_protocols opts) = Ok tt
  /\ SUBPROTOCOL ∈ so_protocols opts /\ Limits_validate l = Ok tt /\ ms_limits srv = l.
Proof.
  unfold mux_bind. destruct (Limits_validate l) as [[]| |]; simpl; [|done..]. destruct bound; simpl; [done|].
  destruct (prepare_headers _); simpl; [|done..]. destruct (validate_protocols _) as [[]| |]; simpl; [|done..].
  destruct (existsb _ _) eqn:E; simpl; [|done]. intros [= <-]. split_and!; try done.
  apply existsb_exists in E as (p & Hp & ->%bool_decide_eq_true). by apply list_elem_of_In.
Qed.

Lemma allowed_valid ps p :
  validate_protocols ps = Ok tt -> p ∈ (list_to_set ps : gset string) -> exists v, HeaderValue_from_str p = inr v.
Proof.
  intros Hps Hp. apply validate_protocols_ok in Hps. rewrite elem_of_list_to_set in Hp.
  by apply (proj1 (Forall_forall _ _) Hps).
Qed.

Lemma plain_callback_spec hs ps req resp :
  validate_protocols ps = Ok tt ->
  (plain_callback hs (list_to_set ps) req resp None).1 <> Panic
  /\ forall p, (plain_callback hs (list_to_set ps) req resp None).2 = Some p -> p ∈ ps.
Proof.
  intros Hps. unfold plain_callback. destruct (select_protocol req _) as [p|] eqn:E; [|done].
  apply select_allowed in E. destruct (allowed_valid ps p Hps E) as [v ->]. split; [done|].
  intros q [= <-]. by apply elem_of_list_to_set in E.
Qed.

Lemma mux_callback_total hs ps req resp :
  validate_protocols ps = Ok tt -> mux_callback hs (list_to_set ps) req resp <> Panic.
Proof.
  intros Hps. unfold mux_callback. destruct (select_protocol req _) as [p|] eqn:E; [|done].
  destruct (negb _); [done|]. apply select_allowed in E. by destruct (allowed_valid ps p Hps E) as [v ->].
Qed.

(** The handshake of a bound plain server. *)
Definition sound (opts : ServerOptions) (r : result (Connection (Ws := Ws) (Addr := Addr))) : Prop :=
  r <> Panic /\ forall conn p, r = Ok conn -> subprotocol (conn_info conn) = Some p -> p ∈ so_protocols opts.

Lemma sound_err opts e : sound opts (Err e).
Proof. done. Qed.

Lemma upgrade_sound (srv : Server (Listener := Listener) (TlsServer := TlsServer)) opts st pe lo b :
  srv_protocols srv = list_to_set (so_protocols opts) -> validate_protocols (so_protocols opts) = Ok tt ->
  sound opts (upgrade accept_hdr srv st pe lo b).
Proof.
  intros Hp Hv. unfold upgrade. rewrite Hp.
  destruct (accept_law (option string) st (plain_callback (srv_headers srv) (list_to_set (so_protocols opts)))
    (srv_config srv) None) as [[e ->]|(req & resp & Hc & Hr)]; [done|].
  destruct (plain_callback_spec (srv_headers srv) (so_protocols opts) req resp Hv) as [Hnp Hsel].
  rewrite <- Hc in Hsel. destruct (accept_hdr _ _ _ _ _) as [[ws|e|] sel]; simpl in *; [|done|].
  - split; [done|]. intros conn p [= <-]. apply Hsel.
  - destruct (plain_callback _ _ _ _ _).1; naive_solver.
Qed.

Lemma mux_upgrade_total hs ps st cfg (k : Ws -> result Ws) :
  validate_protocols ps = Ok tt -> (forall ws, k ws <> Panic) ->
  (let '(ws, _) := accept_hdr unit st (fun req resp _ => (mux_callback hs (list_to_set ps) req resp, tt)) cfg tt in
   ws ← map_err map_tungstenite_err ws; k ws) <> Panic.
Proof.
  intros Hv Hk.
  destruct (accept_law unit st (fun req resp _ => (mux_callback hs (list_to_set ps) req resp, tt)) cfg tt)
    as [[e ->]|(req & resp & _ & Hr)]; [done|]. simpl in Hr.
  pose proof (mux_callback_total hs ps req resp Hv).
  destruct (accept_hdr _ _ _ _ _) as [[ws|e|] u]; simpl in *; [apply Hk|done|].
  destruct (mux_callback _ _ _ _); naive_solver.
Qed.

(** C31: a server that was bound never panics while it accepts: the names it may select
    were validated, so that they are header values; and the subprotocol a plain
    connection reports is one of those configured.  Holds for plain and TLS accepts,
    and for the mux server. *)
Theorem bound_servers_never_panic env bound opts tls :
  (forall srv, bind bound opts tls = Ok srv ->
     sound opts (accept env accept_hdr srv) /\ sound opts (accept_tls env accept_hdr srv))
  /\ (forall l srv, mux_bind bound opts tls l = Ok srv -> mux_accept env accept_hdr srv <> Panic).
Proof.
  split.
  - intros srv [Hp Hv]%bind_fields. pose proof (fun st pe lo b => upgrade_sound srv opts st pe lo b Hp Hv) as Hup.
    unfold accept, accept_tls, with_tls, answer. destruct (io_accept env) as [|st]; simpl; [done|].
    destruct (srv_acceptor srv) as [a|]; simpl; split; repeat (case_match; simpl); auto using sound_err.
  - intros l srv (Hp & Hv & _ & Hl & El)%mux_bind_fields. unfold mux_accept, with_tls. rewrite Hp, El, Hl.
    destruct (io_accept env) as [|st]; simpl; [done|].
    destruct (ms_acceptor srv) as [a|]; simpl; [destruct (tls_accept env a st) as [|st2]; simpl; [done|]|];
      by apply mux_upgrade_total.
Qed.
End Properties.

Section Negotiation.
Context `{HttpLaws} {Listener TlsServer : Type} `{!UsizeWidth}.
Implicit Types (bound : IoError + Listener) (tls : option TlsServer).

(** C30: the outcome of the mux negotiation.  A client offers names without commas or
    surrounding space; a bound mux server looks at the first of them it allows, and
    nothing else.  If that name is the mux protocol (in any case) the server accepts
    and the client's check of the answer succeeds; otherwise the request is rejected
    with status 400. *)
Theorem mux_negotiation bound opts tls l srv ps hs m req resp :
  mux_bind bound opts tls l = Ok srv -> client_request ps hs m = Ok req -> ps <> [] ->
  Forall (fun p => no_comma p /\ trim p = p) ps ->
  match List.find (fun p => bool_decide (p ∈ so_protocols opts)) ps with
  | Some p =>
      if eq_ignore_ascii_case p SUBPROTOCOL
      then exists resp', mux_callback (ms_headers srv) (ms_allowed srv) req resp = Ok resp'
             /\ negotiated_protocol resp' = Some p /\ check_negotiated resp' = Ok tt
      else mux_callback (ms_headers srv) (ms_allowed srv) req resp = Err protocol_required
  | None => mux_callback (ms_headers srv) (ms_allowed srv) req resp = Err protocol_required
  end.
Proof.
  intros (Hal & Hv & _)%mux_bind_fields Hreq Hne Hps. rewrite Hal.
  unfold mux_callback. rewrite (request_selects ps hs m req) by done.
  assert (Hfind : List.find (fun p => bool_decide (p ∈ (list_to_set (so_protocols opts) : gset string))) ps
    = List.find (fun p => bool_decide (p ∈ so_protocols opts)) ps).
  { clear. induction ps as [|p ps IH]; [done|]. simpl. rewrite IH.
    by rewrite (bool_decide_ext _ _ (elem_of_list_to_set p (so_protocols opts))). }
  rewrite Hfind. clear Hfind. destruct (List.find (fun p => bool_decide (p ∈ so_protocols opts)) ps) as [p|] eqn:E; [|done].
  apply List.find_some in E as [Hin%list_elem_of_In Hp%bool_decide_eq_true].
  destruct (eq_ignore_ascii_case p SUBPROTOCOL) eqn:Ep; simpl; [|done].
  destruct (allowed_valid (so_protocols opts) p Hv) as [v Hval]; [by apply elem_of_list_to_set|]. rewrite Hval.
  eexists. split; [done|].
  assert (Hn : negotiated_protocol (hm_insert SEC_WEBSOCKET_PROTOCOL v (append_all (ms_headers srv) resp)) = Some p).
  { unfold negotiated_protocol. rewrite get_insert. simpl. rewrite (from_str_to_str _ _ Hval). simpl.
    by rewrite (proj2 (proj1 (Forall_forall _ _) Hps p Hin)). }
  split; [done|]. unfold check_negotiated, is_protocol_ok. by rewrite Hn, Ep.
Qed.
End Negotiation.

(** *** A concrete handshake

    The socket carries the headers of the request; the upgraded connection is the
    response that was sent. *)
Section Demo.
#[local] Existing Instance usize64.

Definition demo_accept : AcceptHdr (Stream := HeaderMap) (Ws := HeaderMap) := fun C st cb cfg c =>
  let '(r, c') := cb st [] c in
  (match r with
   | Ok resp => Ok resp
   | Err rej => Err (TungOther (mkBoxError (body rej)))
   | Panic => Panic
   end, c').
Lemma demo_accept_laws : AcceptLaws demo_accept.
Proof.
  intros C st cb cfg c. right. exists st, []. unfold demo_accept.
  destruct (cb st [] c) as [[] c']; simpl; naive_solver.
Qed.

Definition demo_opts : ServerOptions := mkServerOptions ["json"; SUBPROTOCOL] [("server", "demo")] WebSocketLimits_default.
Definition demo_req : HeaderMap := [(SEC_WEBSOCKET_PROTOCOL, "cbor, json")].
Definition demo_env : Io_env (Stream := HeaderMap) (Addr := Z) (TlsServer := unit) :=
  mkIoEnv (inr demo_req) (fun _ => inr 1) (fun _ => inr 2) (fun _ st => inr st).
Definition demo_server : Server (Listener := unit) (TlsServer := unit) :=
  mkServer tt (list_to_set ["json"; SUBPROTOCOL]) [("server", "demo")] None (limits_config WebSocketLimits_default).

Lemma bound_servers_never_panic_witness :
  accept demo_env demo_accept demo_server
    = Ok (mkConnection [("sec-websocket-protocol", "json"); ("server", "demo")]
            (mkConnectionInfo 1 2 false (Some "json")) None)
  /\ sound demo_opts (accept demo_env demo_accept demo_server)
  /\ sound demo_opts (accept_tls demo_env demo_accept demo_server).
Proof.
  split; [vm_compute; reflexivity|].
  apply (bound_servers_never_panic (AcceptLaws0 := demo_accept_laws) demo_accept demo_env (inr tt) demo_opts None).
  reflexivity.
Defined.

Definition demo_mux_server : MuxServer (Listener := unit) (TlsServer := unit) :=
  mkMuxServer tt (list_to_set ["json"; SUBPROTOCOL]) [("server", "demo")] None Limits_default.

Lemma mux_negotiation_witness :
  let req := [(SEC_WEBSOCKET_PROTOCOL, "other,websock-mux-1,json")] in
  client_request ["other"; SUBPROTOCOL; "json"] [] [] = Ok req
  /\ exists resp', mux_callback [("server", "demo")] (list_to_set ["json"; SUBPROTOCOL]) req [] = Ok resp'
     /\ negotiated_protocol resp' = Some SUBPROTOCOL /\ check_negotiated resp' = Ok tt.
Proof.
  split; [vm_compute; reflexivity|].
  apply (mux_negotiation (inr tt) demo_opts None Limits_default demo_mux_server
    ["other"; SUBPROTOCOL; "json"] [] []).
  - reflexivity.
  - reflexivity.
  - discriminate.
  - repeat constructor; discriminate.
Defined.
End Demo.
