(* ===== verification/Builders.v ===== *)
(** * Client and server builders

    Models the builders of the four crates: [websock-tungstenite/src/builder.rs],
    [websock-tungstenite-mux/src/builder.rs], [websock-wasm/src/builder.rs] and
    [websock-wasm-mux/src/builder.rs], with [Client] of the browser mux crate.  A
    TLS configuration is opaque but for its list of ALPN identifiers. *)

From S2P Require Import Prelude Buf VarInt Frame Proto Limits SendFlow Channel Async NativeState.
From S2P Require Import NativeOps NativeStream NativeRecv NativeSession NativeTasks Http Handshake.
Open Scope mux_scope.

Abbreviation alpn_list := (list (list byte)).

(** A rustls configuration and its [alpn_protocols] field. *)
Class AlpnConfig (cfg : Type) : Type := {
  alpn_protocols : cfg -> alpn_list;
  set_alpn_protocols : alpn_list -> cfg -> cfg;
  alpn_set a c : alpn_protocols (set_alpn_protocols a c) = a
}.

(** [build_tls_config], the same in every builder. *)
Definition build_tls_config {cfg} `{AlpnConfig cfg} (tls : option cfg) (alpn : option alpn_list) : option cfg :=
  cfg ← tls;
  Some (match alpn with Some a => set_alpn_protocols a cfg | None => cfg end).

(** ** Options *)
Definition push_header (n v : string) (o : ConnectOptions) : ConnectOptions :=
  mkConnectOptions (protocols o) (headers o ++ [(n, v)]) (limits_of o).
Definition push_protocol (p : string) (o : ConnectOptions) : ConnectOptions :=
  mkConnectOptions (protocols o ++ [p]) (headers o) (limits_of o).
Definition set_limits_of (l : WebSocketLimits) (o : ConnectOptions) : ConnectOptions :=
  mkConnectOptions (protocols o) (headers o) l.
Definition so_push_header (n v : string) (o : ServerOptions) : ServerOptions :=
  mkServerOptions (so_protocols o) (so_headers o ++ [(n, v)]) (so_limits o).
Definition so_push_protocol (p : string) (o : ServerOptions) : ServerOptions :=
  mkServerOptions (so_protocols o ++ [p]) (so_headers o) (so_limits o).
Definition so_set_limits (l : WebSocketLimits) (o : ServerOptions) : ServerOptions :=
  mkServerOptions (so_protocols o) (so_headers o) l.

Definition offers_mux (ps : list string) : bool := existsb (fun p => bool_decide (p = SUBPROTOCOL)) ps.

(** ** The plain native builders *)
Module Plain.
Section Plain.
Context {TlsClient TlsServer Addr : Type} `{!AlpnConfig TlsClient} `{!AlpnConfig TlsServer}.

Record ClientBuilder : Type := mkClientBuilder {
  opts : ConnectOptions; tls : option TlsClient; alpn : option alpn_list
}.
Record Client : Type := mkClient { c_opts : ConnectOptions; c_tls : option TlsClient }.
Implicit Types b : ClientBuilder.

Definition ClientBuilder_new : ClientBuilder := mkClientBuilder ConnectOptions_default None None.
Definition with_options (o : ConnectOptions) b : ClientBuilder := mkClientBuilder o (tls b) (alpn b).
Definition with_header (n v : string) b : ClientBuilder := with_options (push_header n v (opts b)) b.
Definition with_headers (hs : list (string * string)) b : ClientBuilder :=
  foldl (fun b nv => with_header nv.1 nv.2 b) b hs.
Definition with_limits (l : WebSocketLimits) b : ClientBuilder := with_options (set_limits_of l (opts b)) b.
Definition with_protocol (p : string) b : ClientBuilder := with_options (push_protocol p (opts b)) b.
Definition with_protocols (ps : list string) b : ClientBuilder := foldl (fun b p => with_protocol p b) b ps.
Definition with_tls_config (t : TlsClient) b : ClientBuilder := mkClientBuilder (opts b) (Some t) (alpn b).
Definition with_default_alpn b : ClientBuilder := mkClientBuilder (opts b) (tls b) (Some default_ws_alpn).
Definition with_alpn_protocols (a : alpn_list) b : ClientBuilder := mkClientBuilder (opts b) (tls b) (Some a).
Definition build b : Client := mkClient (opts b) (build_tls_config (tls b) (alpn b)).

(** [native] is the configuration of [TlsClientConfigBuilder::new_with_native_certs]. *)
Definition with_system_roots (native : result TlsClient) b : result Client :=
  config ← native; Ok (mkClient (opts b) (Some config)).

(** [dangerous()] keeps the options only; [insecure] is [new_insecure]. *)
Definition with_no_certificate_verification (insecure : result TlsClient) b : result Client :=
  config ← insecure; Ok (mkClient (opts b) (Some config)).

Record ServerBuilder : Type := mkServerBuilder {
  addr : Addr; s_opts : ServerOptions; s_tls : option TlsServer; s_alpn : option alpn_list
}.
Implicit Types sb : ServerBuilder.
Definition ServerBuilder_new (localhost : Addr) : ServerBuilder :=
  mkServerBuilder localhost ServerOptions_default None None.
Definition with_addr (a : Addr) sb : ServerBuilder := mkServerBuilder a (s_opts sb) (s_tls sb) (s_alpn sb).
Definition s_with_options (o : ServerOptions) sb : ServerBuilder := mkServerBuilder (addr sb) o (s_tls sb) (s_alpn sb).
Definition s_with_header (n v : string) sb : ServerBuilder := s_with_options (so_push_header n v (s_opts sb)) sb.
Definition s_with_limits (l : WebSocketLimits) sb : ServerBuilder := s_with_options (so_set_limits l (s_opts sb)) sb.
Definition s_with_protocol (p : string) sb : ServerBuilder := s_with_options (so_push_protocol p (s_opts sb)) sb.
Definition with_rustls_config (t : TlsServer) sb : ServerBuilder :=
  mkServerBuilder (addr sb) (s_opts sb) (Some t) (s_alpn sb).
Definition s_with_default_alpn sb : ServerBuilder :=
  mkServerBuilder (addr sb) (s_opts sb) (s_tls sb) (Some default_ws_alpn).
Definition s_with_alpn_protocols (a : alpn_list) sb : ServerBuilder :=
  mkServerBuilder (addr sb) (s_opts sb) (s_tls sb) (Some a).
Definition s_build `{Http} {Listener} (listen : Addr -> IoError + Listener) sb : result Server :=
  bind (listen (addr sb)) (s_opts sb) (build_tls_config (s_tls sb) (s_alpn sb)).
End Plain.
Arguments ClientBuilder : clear implicits.
Arguments Client : clear implicits.
Arguments ServerBuilder : clear implicits.
End Plain.

(** ** The native mux builders *)
Module Mux.
Section Mux.
Context {TlsClient TlsServer Addr : Type} `{!AlpnConfig TlsClient} `{!AlpnConfig TlsServer}.

Record MuxClientBuilder : Type := mkMuxClientBuilder {
  opts : ConnectOptions; tls : option TlsClient; alpn : option alpn_list; mux_limits : Limits
}.
Record MuxClient : Type := mkMuxClient {
  c_opts : ConnectOptions; c_tls : option TlsClient; c_limits : Limits
}.
Implicit Types b : MuxClientBuilder.

Definition insert_first (o : ConnectOptions) : ConnectOptions :=
  mkConnectOptions (SUBPROTOCOL :: protocols o) (headers o) (limits_of o).
Definition mux_ClientBuilder_new : MuxClientBuilder :=
  mkMuxClientBuilder (insert_first ConnectOptions_default) None None Limits_default.
Definition mux_set_opts (o : ConnectOptions) b : MuxClientBuilder :=
  mkMuxClientBuilder o (tls b) (alpn b) (mux_limits b).
Definition mux_with_options (o : ConnectOptions) b : MuxClientBuilder :=
  mux_set_opts (if offers_mux (protocols o) then o else insert_first o) b.
Definition mux_with_tls_config (t : TlsClient) b : MuxClientBuilder :=
  mkMuxClientBuilder (opts b) (Some t) (alpn b) (mux_limits b).
Definition mux_with_default_alpn b : MuxClientBuilder :=
  mkMuxClientBuilder (opts b) (tls b) (Some default_ws_alpn) (mux_limits b).
Definition mux_with_alpn_protocols (a : alpn_list) b : MuxClientBuilder :=
  mkMuxClientBuilder (opts b) (tls b) (Some a) (mux_limits b).
Definition mux_with_limits (l : Limits) b : MuxClientBuilder :=
  mkMuxClientBuilder (opts b) (tls b) (alpn b) l.
Definition mux_with_header (n v : string) b : MuxClientBuilder := mux_set_opts (push_header n v (opts b)) b.
Definition mux_with_protocol (p : string) b : MuxClientBuilder := mux_set_opts (push_protocol p (opts b)) b.
Definition mux_build b : MuxClient :=
  mkMuxClient (opts b) (build_tls_config (tls b) (alpn b)) (mux_limits b).
Definition mux_connect `{Http} `{!UsizeWidth} {Ws Addr' : Type}
    (env : Client_env (Ws := Ws) (Addr := Addr') (TlsClient := TlsClient)) (url : string) (c : MuxClient) :
  result Ws := mux_connect_with_tls env url (c_opts c) (c_limits c) (c_tls c).

Record MuxServerBuilder : Type := mkMuxServerBuilder {
  addr : Addr; s_opts : ServerOptions; s_tls : option TlsServer; s_alpn : option alpn_list; s_limits : Limits
}.
Implicit Types sb : MuxServerBuilder.
Definition mux_ServerBuilder_new (localhost : Addr) : MuxServerBuilder :=
  mkMuxServerBuilder localhost (so_push_protocol SUBPROTOCOL ServerOptions_default) None None Limits_default.
Definition mux_s_set_opts (o : ServerOptions) sb : MuxServerBuilder :=
  mkMuxServerBuilder (addr sb) o (s_tls sb) (s_alpn sb) (s_limits sb).
Definition mux_s_with_options (o : ServerOptions) sb : MuxServerBuilder :=
  mux_s_set_opts (if offers_mux (so_protocols o) then o
                  else mkServerOptions (SUBPROTOCOL :: so_protocols o) (so_headers o) (so_limits o)) sb.
Definition mux_with_addr (a : Addr) sb : MuxServerBuilder :=
  mkMuxServerBuilder a (s_opts sb) (s_tls sb) (s_alpn sb) (s_limits sb).
Definition mux_s_with_tls_config (t : TlsServer) sb : MuxServerBuilder :=
  mkMuxServerBuilder (addr sb) (s_opts sb) (Some t) (s_alpn sb) (s_limits sb).
Definition mux_s_with_default_alpn sb : MuxServerBuilder :=
  mkMuxServerBuilder (addr sb) (s_opts sb) (s_tls sb) (Some default_ws_alpn) (s_limits sb).
Definition mux_s_with_alpn_protocols (a : alpn_list) sb : MuxServerBuilder :=
  mkMuxServerBuilder (addr sb) (s_opts sb) (s_tls sb) (Some a) (s_limits sb).
Definition mux_s_with_limits (l : Limits) sb : MuxServerBuilder :=
  mkMuxServerBuilder (addr sb) (s_opts sb) (s_tls sb) (s_alpn sb) l.
Definition mux_s_with_header (n v : string) sb : MuxServerBuilder :=
  mux_s_set_opts (so_push_header n v (s_opts sb)) sb.
Definition mux_s_with_protocol (p : string) sb : MuxServerBuilder :=
  mux_s_set_opts (so_push_protocol p (s_opts sb)) sb.
Definition mux_s_build `{Http} `{!UsizeWidth} {Listener} (listen : Addr -> IoError + Listener) sb :
  result MuxServer :=
  mux_bind (listen (addr sb)) (s_opts sb) (build_tls_config (s_tls sb) (s_alpn sb)) (s_limits sb).

(** A chain of builder calls. *)
Inductive client_step : Type :=
| COptions (o : ConnectOptions) | CTls (t : TlsClient) | CDefaultAlpn | CAlpn (a : alpn_list)
| CLimits (l : Limits) | CHeader (n v : string) | CProtocol (p : string).
Definition client_apply (st : client_step) b : MuxClientBuilder :=
  match st with
  | COptions o => mux_with_options o b
  | CTls t => mux_with_tls_config t b
  | CDefaultAlpn => mux_with_default_alpn b
  | CAlpn a => mux_with_alpn_protocols a b
  | CLimits l => mux_with_limits l b
  | CHeader n v => mux_with_header n v b
  | CProtocol p => mux_with_protocol p b
  end.
Definition client_chain (l : list client_step) : MuxClient :=
  mux_build (foldl (fun b st => client_apply st b) mux_ClientBuilder_new l).

Inductive server_step : Type :=
| SAddr (a : Addr) | SOptions (o : ServerOptions) | STls (t : TlsServer) | SDefaultAlpn | SAlpn (a : alpn_list)
| SLimits (l : Limits) | SHeader (n v : string) | SProtocol (p : string).
Definition server_apply (st : server_step) sb : MuxServerBuilder :=
  match st with
  | SAddr a => mux_with_addr a sb
  | SOptions o => mux_s_with_options o sb
  | STls t => mux_s_with_tls_config t sb
  | SDefaultAlpn => mux_s_with_default_alpn sb
  | SAlpn a => mux_s_with_alpn_protocols a sb
  | SLimits l => mux_s_with_limits l sb
  | SHeader n v => mux_s_with_header n v sb
  | SProtocol p => mux_s_with_protocol p sb
  end.
Definition server_chain (localhost : Addr) (l : list server_step) : MuxServerBuilder :=
  foldl (fun sb st => server_apply st sb) (mux_ServerBuilder_new localhost) l.
End Mux.
Arguments MuxClientBuilder : clear implicits.
Arguments MuxClient : clear implicits.
Arguments MuxServerBuilder : clear implicits.
Arguments client_step : clear implicits.
Arguments server_step : clear implicits.
End Mux.

(** ** The browser builders *)
Module Browser.
Record BrowserBuilder : Set := mkBrowserBuilder { opts : ConnectOptions }.
Record BrowserClient : Set := mkBrowserClient { c_opts : ConnectOptions }.
Implicit Types b : BrowserBuilder.

Definition browser_new : BrowserBuilder := mkBrowserBuilder ConnectOptions_default.
Definition browser_with_options (o : ConnectOptions) b : BrowserBuilder := mkBrowserBuilder o.
Definition browser_with_header (n v : string) b : BrowserBuilder := mkBrowserBuilder (push_header n v (opts b)).
Definition browser_with_headers (hs : list (string * string)) b : BrowserBuilder :=
  foldl (fun b nv => browser_with_header nv.1 nv.2 b) b hs.
Definition browser_with_limits (l : WebSocketLimits) b : BrowserBuilder :=
  mkBrowserBuilder (set_limits_of l (opts b)).
Definition browser_with_protocol (p : string) b : BrowserBuilder := mkBrowserBuilder (push_protocol p (opts b)).
Definition browser_with_protocols (ps : list string) b : BrowserBuilder :=
  foldl (fun b p => browser_with_protocol p b) b ps.
Definition browser_build b : BrowserClient := mkBrowserClient (opts b).
Definition browser_with_system_roots b : result BrowserClient := Ok (browser_build b).
Definition browser_with_server_certificates (chain : alpn_list) b : result BrowserClient :=
  Err (Unsupported "custom certificates are not supported in browser wasm").
Definition browser_no_verification b : result BrowserClient :=
  Err (Unsupported "certificate verification cannot be disabled in browser wasm").

Record BrowserMuxBuilder : Set := mkBrowserMuxBuilder { m_opts : ConnectOptions; m_limits : Limits }.
Implicit Types mb : BrowserMuxBuilder.
Definition browser_mux_new : BrowserMuxBuilder :=
  mkBrowserMuxBuilder (push_protocol SUBPROTOCOL ConnectOptions_default) Limits_default.
Definition browser_mux_with_options (o : ConnectOptions) mb : BrowserMuxBuilder :=
  mkBrowserMuxBuilder (if offers_mux (protocols o) then o else push_protocol SUBPROTOCOL o) (m_limits mb).
Definition browser_mux_with_header (n v : string) mb : BrowserMuxBuilder :=
  mkBrowserMuxBuilder (push_header n v (m_opts mb)) (m_limits mb).
Definition browser_mux_with_headers (hs : list (string * string)) mb : BrowserMuxBuilder :=
  foldl (fun mb nv => browser_mux_with_header nv.1 nv.2 mb) mb hs.
Definition browser_mux_limits (l : Limits) mb : BrowserMuxBuilder := mkBrowserMuxBuilder (m_opts mb) l.

Record BrowserMuxClient : Set := mkBrowserMuxClient { mc_opts : ConnectOptions; mc_limits : Limits }.
Definition browser_mux_build mb : BrowserMuxClient := mkBrowserMuxClient (m_opts mb) (m_limits mb).
Definition browser_mux_with_system_roots mb : result BrowserMuxClient := Ok (browser_mux_build mb).
End Browser.

(** ** Properties *)
Section Properties.
Context `{HttpLaws} `{!UsizeWidth} {TlsClient TlsServer Addr Listener : Type}.
Context `{!AlpnConfig TlsClient} `{!AlpnConfig TlsServer}.
Implicit Types (cs : list (Mux.client_step TlsClient)) (ss : list (Mux.server_step TlsServer Addr)).

Lemma offers_mux_spec ps : offers_mux ps = true <-> SUBPROTOCOL ∈ ps.
Proof.
  unfold offers_mux. rewrite existsb_exists. split.
  - intros (p & Hp & ->%bool_decide_eq_true). by apply list_elem_of_In.
  - intros Hp. exists SUBPROTOCOL. split; [by apply list_elem_of_In|]. by apply bool_decide_eq_true.
Qed.

(** A step that does not bring its own mux entry keeps the mux protocol first. *)
Definition brings_mux (st : Mux.client_step TlsClient) : bool :=
  match st with Mux.COptions o => offers_mux (protocols o) | _ => false end.

Lemma client_chain_offers cs :
  SUBPROTOCOL ∈ protocols (Mux.c_opts (Mux.client_chain cs))
  /\ (Forall (fun st => brings_mux st = false) cs ->
      head (protocols (Mux.c_opts (Mux.client_chain cs))) = Some SUBPROTOCOL).
Proof.
  assert (Hgen : forall b, SUBPROTOCOL ∈ protocols (Mux.opts b) ->
    SUBPROTOCOL ∈ protocols (Mux.c_opts (Mux.mux_build (foldl (fun b st => Mux.client_apply st b) b cs)))
    /\ (head (protocols (Mux.opts b)) = Some SUBPROTOCOL -> Forall (fun st => brings_mux st = false) cs ->
        head (protocols (Mux.c_opts (Mux.mux_build (foldl (fun b st => Mux.client_apply st b) b cs)))) = Some SUBPROTOCOL)).
  { induction cs as [|st cs IH]; intros b Hb; [done|]. cbn [foldl].
    assert (Hst : SUBPROTOCOL ∈ protocols (Mux.opts (Mux.client_apply st b))
      /\ (head (protocols (Mux.opts b)) = Some SUBPROTOCOL -> brings_mux st = false ->
          head (protocols (Mux.opts (Mux.client_apply st b))) = Some SUBPROTOCOL)).
    { destruct st as [o| | | | | |p]; simpl; try done.
      - destruct (offers_mux (protocols o)) eqn:E; simpl; [by apply offers_mux_spec in E|]. split; [left|done].
      - split; [by apply elem_of_app; left|]. by destruct (protocols (Mux.opts b)). }
    destruct Hst as [Hin Hhd]. destruct (IH _ Hin) as [IH1 IH2]. split; [done|]. intros Hh Hall.
    inversion_clear Hall. auto. }
  destruct (Hgen Mux.mux_ClientBuilder_new) as [Ha Hb]; [left|]. split; [exact Ha|by apply Hb].
Qed.

Lemma server_chain_offers (localhost : Addr) ss :
  SUBPROTOCOL ∈ so_protocols (Mux.s_opts (Mux.server_chain localhost ss)).
Proof.
  assert (Hgen : forall sb, SUBPROTOCOL ∈ so_protocols (Mux.s_opts sb) ->
    SUBPROTOCOL ∈ so_protocols (Mux.s_opts (foldl (fun sb st => Mux.server_apply st sb) sb ss))).
  { induction ss as [|st ss IH]; intros sb Hb; [done|]. cbn [foldl]. apply IH.
    destruct st as [|o| | | | | |p]; simpl; try done.
    - destruct (offers_mux (so_protocols o)) eqn:E; simpl; [by apply offers_mux_spec in E|left].
    - by apply elem_of_app; left. }
  apply Hgen. simpl. left.
Qed.

(** C32: what the native mux builders make fits together.  However a client and a server
    are configured, both offer the mux protocol; and a client whose options do not
    already list it offers it first, so that every server that binds accepts the
    request of every such client, and the client accepts the answer. *)
Theorem mux_builders_agree cs ss localhost (listen : Addr -> IoError + Listener) srv m req resp :
  let client := Mux.client_chain cs in
  Mux.mux_s_build listen (Mux.server_chain localhost ss) = Ok srv ->
  client_request (protocols (Mux.c_opts client)) (headers (Mux.c_opts client)) m = Ok req ->
  Forall (fun p => no_comma p /\ trim p = p) (protocols (Mux.c_opts client)) ->
  SUBPROTOCOL ∈ protocols (Mux.c_opts client) /\ SUBPROTOCOL ∈ ms_allowed srv
  /\ (Forall (fun st => brings_mux st = false) cs ->
      exists resp', mux_callback (ms_headers srv) (ms_allowed srv) req resp = Ok resp'
        /\ negotiated_protocol resp' = Some SUBPROTOCOL /\ check_negotiated resp' = Ok tt).
Proof.
  intros client Hsrv Hreq Hps. destruct (client_chain_offers cs) as [Hin Hhd]. fold client in Hin, Hhd.
  pose proof (server_chain_offers localhost ss) as Hs.
  destruct (mux_bind_fields _ _ _ _ _ Hsrv) as (Hal & Hv & _).
  assert (Hsel : SUBPROTOCOL ∈ ms_allowed srv) by (rewrite Hal; by apply elem_of_list_to_set).
  split_and!; [done..|]. intros Hall. specialize (Hhd Hall).
  unfold mux_callback. rewrite (request_selects _ _ _ _ _ Hps Hreq) by (intros E; by rewrite E in Hhd).
  destruct (protocols (Mux.c_opts client)) as [|p ps]; [done|]. injection Hhd as ->.
  cbn [List.find]. rewrite bool_decide_eq_true_2 by done. rewrite eq_ignore_ascii_case_refl. cbn [negb].
  rewrite Hal in Hsel. destruct (allowed_valid _ _ Hv Hsel) as [v Hval]. rewrite Hval.
  eexists. split; [done|].
  assert (Hn : negotiated_protocol (hm_insert SEC_WEBSOCKET_PROTOCOL v (append_all (ms_headers srv) resp))
    = Some SUBPROTOCOL).
  { unfold negotiated_protocol. rewrite get_insert. simpl. by rewrite (from_str_to_str _ _ Hval). }
  split; [done|]. unfold check_negotiated, is_protocol_ok. by rewrite Hn, eq_ignore_ascii_case_refl.
Qed.
End Properties.

(** *** Concrete builders *)
Section Demo.
#[local] Existing Instance usize64.

Definition demo_alpn : AlpnConfig alpn_list := {|
  alpn_protocols c := c; set_alpn_protocols a c := a; alpn_set a c := eq_refl |}.
#[local] Existing Instance demo_alpn.

Definition demo_client_steps : list (Mux.client_step alpn_list) :=
  [Mux.COptions (mkConnectOptions ["json"] [("x", "y")] WebSocketLimits_default); Mux.CProtocol "cbor"].
Definition demo_server_steps : list (Mux.server_step alpn_list Z) :=
  [Mux.SOptions (mkServerOptions ["json"] [] WebSocketLimits_default); Mux.SAddr 80].
Definition demo_built : MuxServer (Listener := Z) (TlsServer := alpn_list) :=
  mkMuxServer 80 (list_to_set [SUBPROTOCOL; "json"]) [] None Limits_default.

Lemma mux_builders_agree_witness :
  let client := Mux.client_chain demo_client_steps in
  let req := [(SEC_WEBSOCKET_PROTOCOL, "websock-mux-1,json,cbor"); ("x", "y")] in
  client_request (protocols (Mux.c_opts client)) (headers (Mux.c_opts client)) [] = Ok req
  /\ exists resp', mux_callback [] (list_to_set [SUBPROTOCOL; "json"]) req [] = Ok resp'
       /\ negotiated_protocol resp' = Some SUBPROTOCOL /\ check_negotiated resp' = Ok tt.
Proof.
  split; [reflexivity|].
  apply (mux_builders_agree demo_client_steps demo_server_steps 0 inr demo_built []).
  - reflexivity.
  - reflexivity.
  - repeat constructor; discriminate.
  - repeat constructor.
Defined.

(** The browser builder adds the mux protocol last: a server that also allows one of the
    other names selects that one, and rejects the client (a browser sends the names
    separated by a comma and a space). *)
Lemma browser_builder_rejected :
  let o := Browser.m_opts (Browser.browser_mux_with_options
             (mkConnectOptions ["json"] [] WebSocketLimits_default) Browser.browser_mux_new) in
  protocols o = ["json"; SUBPROTOCOL]
  /\ mux_callback [] (list_to_set [SUBPROTOCOL; "json"])
       [(SEC_WEBSOCKET_PROTOCOL, "json, websock-mux-1")] [] = Err protocol_required.
Proof. by split. Qed.

(** [with_system_roots] keeps neither the TLS configuration nor the ALPN identifiers that
    were set before. *)
Lemma system_roots_ignore_alpn :
  let b := Plain.with_default_alpn (Plain.with_tls_config [] Plain.ClientBuilder_new) in
  Plain.c_tls (Plain.build b) = Some default_ws_alpn
  /\ Plain.with_system_roots (Ok ([] : alpn_list)) b = Ok (Plain.mkClient ConnectOptions_default (Some [])).
Proof. by split. Qed.
End Demo.
