(* ===== verification/WsConn.v ===== *)
(** * Plain native connections

    Models [Connection] of [websock-tungstenite/src/connection.rs] ([send], [recv],
    [close]) and the split halves of [stream.rs]: [ConnectionSink], [ConnectionStream]
    and the reader and writer tasks [split] spawns, as a transition system whose
    steps are the polls of the two handles and the suspension points of the tasks. *)

From S2P Require Import Prelude Buf VarInt Frame Proto Limits SendFlow Channel Async NativeState.
From S2P Require Import NativeOps NativeStream NativeRecv NativeSession NativeTasks.
Open Scope mux_scope.

(** [tungstenite::Message], with the payload of a close frame. *)
Inductive TtMessage : Set :=
| TtText (s : string)
| TtBinary (data : list byte)
| TtPing (data : list byte)
| TtPong (data : list byte)
| TtClose (frame : option CloseFrame)
| TtFrame.

(** An item of the WebSocket stream. *)
Abbreviation tt_item := (TungsteniteError + TtMessage)%type.

Definition to_tt (m : Message) : TtMessage :=
  match m with Text s => TtText s | Binary b => TtBinary b end.

(** ** An unsplit connection

    [sink] says which sends fail, given what was written; [inbox] is what the stream
    will yield before it ends.  [tt_wire] records what is handed to tungstenite: the
    answers it writes by itself do not appear, and its refusal to send once a close was
    exchanged is a failure of [sink]. *)
Record TtConn : Set := mkTtConn {
  inbox : list tt_item;
  tt_wire : list TtMessage;
  close_frame : option CloseFrame
}.

Section Connection.
Context (sink : list TtMessage -> TtMessage -> option TungsteniteError).
Implicit Types c : TtConn.

Definition ws_send (m : TtMessage) c : TtConn * result unit :=
  match sink (tt_wire c) m with
  | Some e => (c, Err (map_tungstenite_err e))
  | None => (mkTtConn (inbox c) (tt_wire c ++ [m]) (close_frame c), Ok tt)
  end.

Definition conn_send (m : Message) c : TtConn * result unit := ws_send (to_tt m) c.

(** [ws.close(None)] *)
Definition conn_close c : TtConn * result unit := ws_send (TtClose None) c.

(** The loop of [recv]: every round takes an item. *)
Fixpoint recv_loop (items : list tt_item) c : TtConn * result Message :=
  match items with
  | [] => (mkTtConn [] (tt_wire c) (close_frame c), Err Closed)
  | item :: items =>
      let c := mkTtConn items (tt_wire c) (close_frame c) in
      match item with
      | inl e => (c, Err (map_tungstenite_err e))
      | inr (TtPing p) =>
          match ws_send (TtPong p) c with
          | (c, Ok _) => recv_loop items c
          | (c, Err e) => (c, Err e)
          | (c, Panic) => (c, Panic)
          end
      | inr (TtPong _) => recv_loop items c
      | inr (TtText s) => (c, Ok (Text s))
      | inr (TtBinary b) => (c, Ok (Binary b))
      | inr (TtClose frame) =>
          let c := mkTtConn items (tt_wire c) frame in
          let '(c, _) := ws_send (TtClose None) c in
          (c, Err Closed)
      | inr TtFrame => (c, Err (Protocol "unsupported ws message"))
      end
  end.
Definition conn_recv c : TtConn * result Message := recv_loop (inbox c) c.
End Connection.

(** ** The split halves *)
Inductive WriterCmd : Set := WMsg (m : Message) | WPong (p : list byte) | WClose.

(** What the reader does once its result is delivered. *)
Inductive after_push : Set := AfterLoop | AfterEnd | AfterClose.
Inductive reader_pc : Set :=
| RNext                                         (** [ws_reader.next().await] *)
| RPush (r : result Message) (k : after_push)   (** [tx_msg.send(r).await] *)
| RCmd (c : WriterCmd) (again : bool)           (** [tx_cmd_for_pong.send(c).await] *)
| RDone.
Inductive writer_pc : Set :=
| WNext                                         (** [rx_cmd.recv().await] *)
| WDo (c : WriterCmd)                           (** writing to the socket *)
| WDone.

Section Split.
Context {chan : Type -> Type} `{Mpsc chan}.

(** The two queues, the handles, the tasks, and the history: the items the reader took,
    the results it queued, those the application got, the commands queued and taken,
    and what was written. *)
Record Split : Type := mkSplit {
  sp_cmd : chan WriterCmd;
  sp_msg : chan (result Message);
  sink_alive : bool; sink_closed : bool; sink_permit : bool;
  stream_alive : bool; stream_terminated : bool;
  sp_reader : reader_pc;
  sp_writer : writer_pc;
  h_seen : list (option tt_item);
  h_pushed : list (result Message);
  h_got : list (result Message);
  h_cmds : list WriterCmd;
  h_taken : list WriterCmd;
  h_wire : list TtMessage
}.

Ltac replace_split f v r :=
  let e := constr:(mkSplit (sp_cmd r) (sp_msg r) (sink_alive r) (sink_closed r) (sink_permit r)
    (stream_alive r) (stream_terminated r) (sp_reader r) (sp_writer r) (h_seen r) (h_pushed r) (h_got r)
    (h_cmds r) (h_taken r) (h_wire r)) in
  let x := constr:(f r) in
  match eval pattern x in e with ?g _ => let t := eval cbv beta in (g v) in exact t end.

Implicit Types s : Split.
Definition set_cmd v s : Split := ltac:(replace_split sp_cmd v s).
Definition set_msg v s : Split := ltac:(replace_split sp_msg v s).
Definition set_sink_alive v s : Split := ltac:(replace_split sink_alive v s).
Definition set_sink_closed v s : Split := ltac:(replace_split sink_closed v s).
Definition set_sink_permit v s : Split := ltac:(replace_split sink_permit v s).
Definition set_stream_alive v s : Split := ltac:(replace_split stream_alive v s).
Definition set_stream_terminated v s : Split := ltac:(replace_split stream_terminated v s).
Definition set_reader v s : Split := ltac:(replace_split sp_reader v s).
Definition set_writer v s : Split := ltac:(replace_split sp_writer v s).
Definition set_seen v s : Split := ltac:(replace_split h_seen v s).
Definition set_pushed v s : Split := ltac:(replace_split h_pushed v s).
Definition set_got v s : Split := ltac:(replace_split h_got v s).
Definition set_cmds v s : Split := ltac:(replace_split h_cmds v s).
Definition set_taken v s : Split := ltac:(replace_split h_taken v s).
Definition set_h_wire v s : Split := ltac:(replace_split h_wire v s).

(** [split]: the application holds both halves, the reader a clone of the command sender. *)
Definition split : Split :=
  mkSplit (tx_clone (channel 64)) (channel 64) true false false true false RNext WNext [] [] [] [] [] [].

(** *** The reader *)
Definition reader_done s : Split :=
  set_reader RDone (set_cmd (tx_drop (sp_cmd s)) (set_msg (tx_drop (sp_msg s)) s)).

Definition reader_item (i : option tt_item) s : Split :=
  let s := set_seen (h_seen s ++ [i]) s in
  match i with
  | None => reader_done s
  | Some (inl e) => set_reader (RPush (Err (map_tungstenite_err e)) AfterEnd) s
  | Some (inr (TtPing p)) => set_reader (RCmd (WPong p) true) s
  | Some (inr (TtPong _)) => s
  | Some (inr (TtText t)) => set_reader (RPush (Ok (Text t)) AfterLoop) s
  | Some (inr (TtBinary b)) => set_reader (RPush (Ok (Binary b)) AfterLoop) s
  | Some (inr (TtClose _)) => set_reader (RPush (Err Closed) AfterClose) s
  | Some (inr TtFrame) => set_reader (RPush (Err (Protocol "unsupported ws message")) AfterClose) s
  end.

(** The result is queued, or dropped when the receiver is gone; [None] while the queue
    is full. *)
Definition reader_after (k : after_push) (delivered : bool) s : Split :=
  match k with
  | AfterLoop => if delivered then set_reader RNext s else reader_done s
  | AfterEnd => reader_done s
  | AfterClose => set_reader (RCmd WClose false) s
  end.
Definition reader_push (r : result Message) (k : after_push) s : option Split :=
  match tx_reserve (sp_msg s) with
  | (ReserveOk, c) => Some (reader_after k true (set_pushed (h_pushed s ++ [r]) (set_msg (permit_send r c) s)))
  | (ReserveClosed, c) => Some (reader_after k false (set_msg c s))
  | (ReservePending, _) => None
  end.
Definition reader_cmd (c : WriterCmd) (again : bool) s : option Split :=
  let next s := if again then set_reader RNext s else reader_done s in
  match tx_reserve (sp_cmd s) with
  | (ReserveOk, q) => Some (next (set_cmds (h_cmds s ++ [c]) (set_cmd (permit_send c q) s)))
  | (ReserveClosed, q) => Some (next (set_cmd q s))
  | (ReservePending, _) => None
  end.

(** *** The writer *)
Definition writer_done s : Split := set_writer WDone (set_cmd (rx_drop (sp_cmd s)).2 s).
Definition writer_next s : option Split :=
  match rx_recv (sp_cmd s) with
  | (RecvItem c, q) => Some (set_writer (WDo c) (set_taken (h_taken s ++ [c]) (set_cmd q s)))
  | (RecvEnd, q) => Some (writer_done (set_cmd q s))
  | (RecvPending, _) => None
  end.
Definition tt_write (m : TtMessage) (ok : bool) s : Split :=
  if ok then set_h_wire (h_wire s ++ [m]) s else s.
Definition writer_do (c : WriterCmd) (ok : bool) s : Split :=
  match c with
  | WMsg m => let s := tt_write (to_tt m) ok s in if ok then set_writer WNext s else writer_done s
  | WPong p => set_writer WNext (tt_write (TtPong p) ok s)
  | WClose => writer_done (tt_write (TtClose None) ok s)
  end.

(** *** [ConnectionSink] *)

(** [PollSender::poll_reserve] returns at once when a slot is held.  A sender that waits
    keeps its place in the queue for slots; here every poll starts afresh, which allows
    more orders than tokio does. *)
Definition sink_reserve s : option (bool * Split) :=
  if sink_permit s then Some (true, s)
  else match tx_reserve (sp_cmd s) with
  | (ReserveOk, q) => Some (true, set_sink_permit true (set_cmd q s))
  | (ReserveClosed, q) => Some (false, set_cmd q s)
  | (ReservePending, _) => None
  end.
(** [send_item] panics without a reserved slot. *)
Definition sink_send_item (c : WriterCmd) s : result unit * Split :=
  if sink_permit s then
    match ps_send_item c (sp_cmd s) with
    | (true, q) => (Ok tt, set_cmds (h_cmds s ++ [c]) (set_sink_permit false (set_cmd q s)))
    | (false, q) => (Err Closed, set_sink_permit false (set_cmd q s))
    end
  else (Panic, s).

(** [None] is [Poll::Pending]. *)
Definition sink_poll_ready s : option (result unit) * Split :=
  if sink_closed s then (Some (Err Closed), s)
  else match sink_reserve s with
  | Some (true, s) => (Some (Ok tt), s)
  | Some (false, s) => (Some (Err Closed), s)
  | None => (None, s)
  end.
Definition sink_start_send (m : Message) s : result unit * Split :=
  if sink_closed s then (Err Closed, s) else sink_send_item (WMsg m) s.
(** A [PollSender] is always flushed. *)
Definition sink_poll_flush s : option (result unit) * Split := (Some (Ok tt), s).
Definition sink_poll_close s : option (result unit) * Split :=
  if sink_closed s then sink_poll_flush s
  else match sink_reserve s with
  | Some (true, s) => let '(_, s) := sink_send_item WClose s in sink_poll_flush (set_sink_closed true s)
  | Some (false, s) => (Some (Err Closed), set_sink_closed true s)
  | None => (None, s)
  end.
(** The destructor, then the fields: the reserved slot and the sender. *)
Definition sink_drop s : Split :=
  let s := if sink_closed s then s
           else match tx_try_send WClose (sp_cmd s) with
           | (SendOk, q) => set_sink_closed true (set_cmds (h_cmds s ++ [WClose]) (set_cmd q s))
           | (_, q) => set_sink_closed true (set_cmd q s)
           end in
  let s := if sink_permit s then set_sink_permit false (set_cmd (permit_drop (sp_cmd s)) s) else s in
  set_sink_alive false (set_cmd (tx_drop (sp_cmd s)) s).

(** *** [ConnectionStream] *)
Definition stream_poll_next s : option (option (result Message)) * Split :=
  if stream_terminated s then (Some None, s)
  else match rx_recv (sp_msg s) with
  | (RecvPending, _) => (None, s)
  | (RecvEnd, c) => (Some None, set_stream_terminated true (set_msg c s))
  | (RecvItem r, c) => (Some (Some r), set_got (h_got s ++ [r]) (set_msg c s))
  end.
Definition stream_drop s : Split := set_stream_alive false (set_msg (rx_drop (sp_msg s)).2 s).

(** ** Executions *)
Inductive split_step : Split -> Split -> Prop :=
| st_item s i : sp_reader s = RNext -> split_step s (reader_item i s)
| st_push s s' r k : sp_reader s = RPush r k -> reader_push r k s = Some s' -> split_step s s'
| st_cmd s s' c again : sp_reader s = RCmd c again -> reader_cmd c again s = Some s' -> split_step s s'
| st_take s s' : sp_writer s = WNext -> writer_next s = Some s' -> split_step s s'
| st_write s c ok : sp_writer s = WDo c -> split_step s (writer_do c ok s)
| st_ready s : sink_alive s = true -> split_step s (sink_poll_ready s).2
| st_send s m : sink_alive s = true -> split_step s (sink_start_send m s).2
| st_close s : sink_alive s = true -> split_step s (sink_poll_close s).2
| st_sink_drop s : sink_alive s = true -> split_step s (sink_drop s)
| st_poll s : stream_alive s = true -> split_step s (stream_poll_next s).2
| st_stream_drop s : stream_alive s = true -> split_step s (stream_drop s).
Definition split_reach : Split -> Prop := rtc split_step split.
End Split.
Arguments Split : clear implicits.
