(* ===== verification/WsConnProps.v ===== *)
(** * Plain native connections: properties *)

From S2P Require Import Prelude Buf VarInt Frame Proto Limits SendFlow Channel Async NativeState.
From S2P Require Import NativeOps NativeStream NativeRecv NativeSession NativeTasks WsConn.
Open Scope mux_scope.

(** ** Unsplit connections *)
Definition is_control (i : tt_item) : bool :=
  match i with inr (TtPing _) | inr (TtPong _) => true | _ => false end.
Definition pong_of (i : tt_item) : option TtMessage :=
  match i with inr (TtPing p) => Some (TtPong p) | _ => None end.
(** What an item means to the application. *)
Definition item_result (i : tt_item) : option (result Message) :=
  match i with
  | inl e => Some (Err (map_tungstenite_err e))
  | inr (TtText t) => Some (Ok (Text t))
  | inr (TtBinary b) => Some (Ok (Binary b))
  | inr (TtClose _) => Some (Err Closed)
  | inr TtFrame => Some (Err (Protocol "unsupported ws message"))
  | inr (TtPing _) | inr (TtPong _) => None
  end.

(** The items before [rest] were skipped and answered; [wire] is what was written by then. *)
Definition skipped (c : TtConn) (ctl rest : list tt_item) (wire : list TtMessage) : Prop :=
  inbox c = ctl ++ rest /\ Forall (fun i => is_control i = true) ctl /\ wire = tt_wire c ++ omap pong_of ctl.

(** The call returned what the next item means. *)
Definition recv_next (sink : list TtMessage -> TtMessage -> option TungsteniteError) (c c' : TtConn) (r : result Message) : Prop :=
  exists ctl rest wire, skipped c ctl rest wire /\
  match rest with
  | [] => r = Err Closed /\ c' = mkTtConn [] wire (close_frame c)
  | item :: rest =>
      item_result item = Some r
      /\ c' = match item with
              | inr (TtClose frame) => mkTtConn rest
                  (match sink wire (TtClose None) with None => wire ++ [TtClose None] | Some _ => wire end) frame
              | _ => mkTtConn rest wire (close_frame c)
              end
  end.

(** A ping could not be answered. *)
Definition recv_unanswered (sink : list TtMessage -> TtMessage -> option TungsteniteError)
    (c c' : TtConn) (r : result Message) : Prop :=
  exists ctl p rest wire e, skipped c ctl (inr (TtPing p) :: rest) wire
    /\ sink wire (TtPong p) = Some e
    /\ c' = mkTtConn rest wire (close_frame c) /\ r = Err (map_tungstenite_err e).

Lemma skipped_next c c1 i ctl rest wire :
  inbox c = i :: inbox c1 -> is_control i = true -> tt_wire c1 = tt_wire c ++ omap pong_of [i] ->
  skipped c1 ctl rest wire -> skipped c (i :: ctl) rest wire.
Proof.
  intros Hi Hc Hw (E & Hall & ->). split_and!; [by rewrite Hi, E|by constructor|].
  rewrite Hw, <- app_assoc. f_equal. simpl. by destruct (pong_of i).
Qed.

(** C26: [recv] of an unsplit connection skips pings and pongs and answers the pings in
    order; then it returns what the next item means, or [Closed] at the end of the
    stream.  A close frame is recorded and answered.  When an answer cannot be sent
    [recv] returns that error, and keeps the items that follow the ping. *)
Theorem conn_recv_spec sink c :
  let '(c', r) := conn_recv sink c in recv_next sink c c' r \/ recv_unanswered sink c c' r.
Proof.
  unfold conn_recv. remember (inbox c) as items eqn:Hi. revert c Hi.
  induction items as [|i items IH]; intros c Hi; cbn [recv_loop].
  { left. exists [], [], (tt_wire c). split; [|done]. by split_and!; [|constructor|rewrite app_nil_r]. }
  assert (Hnext : forall r c', item_result i = Some r ->
    c' = match i with
         | inr (TtClose frame) => mkTtConn items
             (match sink (tt_wire c) (TtClose None) with None => tt_wire c ++ [TtClose None] | Some _ => tt_wire c end) frame
         | _ => mkTtConn items (tt_wire c) (close_frame c)
         end -> recv_next sink c c' r).
  { intros r c' Hr Hc'. exists [], (i :: items), (tt_wire c).
    split; [by split_and!; [|constructor|rewrite app_nil_r]|done]. }
  assert (Hskip : forall c1, inbox c1 = items -> close_frame c1 = close_frame c -> is_control i = true ->
    tt_wire c1 = tt_wire c ++ omap pong_of [i] ->
    let '(c', r) := recv_loop sink items c1 in recv_next sink c c' r \/ recv_unanswered sink c c' r).
  { intros c1 Hi1 Hf Hc Hw. specialize (IH c1 (eq_sym Hi1)). destruct (recv_loop sink items c1) as [c' r].
    destruct IH as [(ctl & rest & wire & Hs & Hr)|(ctl & p & rest & wire & e & Hs & Hr)].
    - left. exists (i :: ctl), rest, wire. rewrite Hf in Hr. split; [|done].
      by eapply skipped_next; [rewrite <- Hi, Hi1|..].
    - right. exists (i :: ctl), p, rest, wire, e. rewrite Hf in Hr. split; [|done].
      by eapply skipped_next; [rewrite <- Hi, Hi1|..]. }
  destruct i as [e|[t|b|p|p|frame|]]; [by left; apply Hnext..| | | |by left; apply Hnext].
  - unfold ws_send. cbn [tt_wire]. destruct (sink (tt_wire c) (TtPong p)) as [e|] eqn:E.
    + right. exists [], p, items, (tt_wire c), e.
      split; [by split_and!; [|constructor|rewrite app_nil_r]|done].
    + by apply Hskip.
  - apply Hskip; [done..|]. by rewrite app_nil_r.
  - unfold ws_send. cbn [tt_wire]. destruct (sink (tt_wire c) (TtClose None)) eqn:E; left; apply Hnext; by rewrite ?E.
Qed.

(** ** Split connections *)
Section Split.
Context {chan : Type -> Type} `{MpscLaws chan}.
Implicit Types s : Split chan.
Abbreviation mv s := (view (sp_msg s)).
Abbreviation qv s := (view (sp_cmd s)).

Definition seen_result (i : option tt_item) : option (result Message) := i ≫= item_result.
(** Items after which the reader goes on. *)
Definition goes_on (i : option tt_item) : bool :=
  match i with
  | Some (inr (TtText _ | TtBinary _ | TtPing _ | TtPong _)) => true
  | _ => false
  end.
Definition in_hand (pc : reader_pc) : list (result Message) :=
  match pc with RPush r _ => [r] | _ => [] end.
(** Whether the reader will take another item. *)
Definition looping (pc : reader_pc) : bool :=
  match pc with RNext | RPush _ AfterLoop | RCmd _ true => true | _ => false end.

Definition cmd_data (c : WriterCmd) : option TtMessage :=
  match c with WMsg m => Some (to_tt m) | _ => None end.
Definition wire_data (m : TtMessage) : option TtMessage :=
  match m with TtText _ | TtBinary _ => Some m | _ => None end.

(** The reader's side; [hand] is the result it is about to queue. *)
Record msg_core s (hand : list (result Message)) : Prop := {
  mi_rx : cv_rx (mv s) = stream_alive s;
  mi_got : stream_alive s = true -> h_got s ++ cv_buf (mv s) = h_pushed s;
  mi_seen : stream_alive s = true -> h_pushed s ++ hand = omap seen_result (h_seen s);
  mi_room : cv_cap (mv s) = 64 /\ cv_permits (mv s) = 0 /\ Z.of_nat (length (cv_buf (mv s))) <= 64;
  mi_stop : exists l, Forall (fun i => goes_on i = true) l /\ (h_seen s = l \/ exists i, h_seen s = l ++ [i])
}.
Definition msg_inv s : Prop :=
  msg_core s (in_hand (sp_reader s))
  /\ (looping (sp_reader s) = true -> Forall (fun i => goes_on i = true) (h_seen s)).

(** The writer's side: the data of the commands taken was written, in order. *)
Definition written s : Prop :=
  match sp_writer s with
  | WNext => omap wire_data (h_wire s) = omap cmd_data (h_taken s) /\ (WClose ∉ h_taken s)
             /\ (TtClose None ∉ h_wire s)
  | WDo c => exists t, h_taken s = t ++ [c] /\ omap wire_data (h_wire s) = omap cmd_data t
             /\ (WClose ∉ t) /\ (TtClose None ∉ h_wire s)
  | WDone => omap wire_data (h_wire s) `prefix_of` omap cmd_data (h_taken s)
             /\ exists w, (TtClose None ∉ w) /\ (h_wire s = w \/ h_wire s = w ++ [TtClose None])
  end.
Record cmd_inv s : Prop := {
  ci_rx : cv_rx (qv s) = match sp_writer s with WDone => false | _ => true end;
  ci_taken : sp_writer s <> WDone -> h_taken s ++ cv_buf (qv s) = h_cmds s;
  ci_prefix : h_taken s `prefix_of` h_cmds s;
  ci_written : written s;
  ci_room : cv_cap (qv s) = 64 /\ cv_permits (qv s) = Z.b2z (sink_permit s)
    /\ Z.of_nat (length (cv_buf (qv s))) + cv_permits (qv s) <= 64
}.

(** What each part reads. *)
Definition mdata s := (mv s, stream_alive s, h_got s, h_pushed s, sp_reader s, h_seen s).
Definition qdata s := (qv s, sp_writer s, h_taken s, h_cmds s, h_wire s, sink_permit s).
Lemma msg_core_same s s' hand : mdata s' = mdata s -> msg_core s hand -> msg_core s' hand.
Proof. intros [= E1 E2 E3 E4 E5 E6] []. constructor; by rewrite ?E1, ?E2, ?E3, ?E4, ?E5, ?E6. Qed.
Lemma msg_inv_same s s' : mdata s' = mdata s -> msg_inv s -> msg_inv s'.
Proof.
  intros E [Hc Hl]. pose proof E as [= _ _ _ _ E5 E6]. split; [rewrite E5; by eapply msg_core_same|by rewrite E5, E6].
Qed.
Lemma cmd_inv_same s s' : qdata s' = qdata s -> cmd_inv s -> cmd_inv s'.
Proof.
  intros [= E1 E2 E3 E4 E5 E6] []. constructor; unfold written in *; by rewrite ?E1, ?E2, ?E3, ?E4, ?E5, ?E6.
Qed.

Lemma split_init : msg_inv split /\ cmd_inv split.
Proof.
  split; [split; [|by constructor]|]; constructor; simpl; rewrite ?tx_clone_view, ?view_channel; simpl; try done.
  - exists []. auto.
  - unfold written. simpl. split_and!; [done|by apply not_elem_of_nil..].
Qed.

(** *** The message queue *)

(** Moving the reader, and dropping its senders, keeps the core. *)
Lemma core_reader s pc hand : msg_core s hand -> msg_core (set_reader pc s) hand.
Proof. intros []. by constructor. Qed.
Lemma core_done s hand : msg_core s hand -> msg_core (reader_done s) hand.
Proof. intros []. by constructor; simpl; rewrite ?tx_drop_view. Qed.

Lemma msg_item s i : msg_inv s -> sp_reader s = RNext -> msg_inv (reader_item i s).
Proof.
  intros [Hc Hl] Hpc. rewrite Hpc in *. specialize (Hl eq_refl). simpl in Hc.
  assert (Hcore : msg_core (set_seen (h_seen s ++ [i]) s) (option_list (seen_result i))).
  { destruct Hc. constructor; simpl; try done; [|by eauto 6].
    intros Ha. rewrite omap_app, <- mi_seen0, app_nil_r by done. by destruct i as [[?|[]]|]. }
  assert (Hloop : goes_on i = true -> Forall (fun i => goes_on i = true) (h_seen s ++ [i]))
    by (intros Hi; apply Forall_app; auto).
  unfold reader_item. destruct i as [[e|[t|b|p|p|fr|]]|]; simpl in Hcore |- *;
    (split; [first [by apply core_reader | by apply core_done | idtac]|by first [auto|done]]).
  simpl. by rewrite Hpc.
Qed.

Lemma msg_push s s' r k : msg_inv s -> sp_reader s = RPush r k -> reader_push r k s = Some s' -> msg_inv s'.
Proof.
  intros [Hc Hl] Hpc Hp. rewrite Hpc in *. unfold reader_push in Hp.
  pose proof (reserve_res_view _ (sp_msg s)) as Hr. pose proof (reserve_view _ (sp_msg s)) as Hv.
  destruct (mi_room _ _ Hc) as (Hcap & Hper & Hlen). unfold cv_reserve, cv_room in Hr, Hv.
  rewrite (mi_rx _ _ Hc), Hcap, Hper in Hr, Hv.
  assert (Hend : forall s1 d, msg_core s1 [] -> h_seen s1 = h_seen s -> msg_inv (reader_after k d s1)).
  { intros s1 d Hc1 Hs1. destruct k; [destruct d|..]; cbn [reader_after];
      (split; [first [by apply core_reader|by apply core_done]|]); simpl; try done. by rewrite Hs1. }
  destruct (tx_reserve (sp_msg s)) as [[] c]; simpl in Hr, Hv, Hp; [| |done]; injection Hp as <-; apply Hend; try done.
  - destruct (stream_alive s) eqn:Ea; simpl in Hr, Hv; [|done].
    destruct (Z.of_nat _ + 0 <? 64) eqn:Eroom; [|done]. simpl in Hv. destruct Hc. constructor; simpl;
      rewrite ?permit_send_view, ?Hv; simpl; try done.
    + intros _. rewrite app_assoc. by rewrite mi_got0.
    + intros _. rewrite app_nil_r. by apply mi_seen0.
    + rewrite length_app. simpl. split_and!; [done|lia|lia].
  - destruct (stream_alive s) eqn:Ea; simpl in Hr, Hv; [by destruct (_ <? _)|].
    destruct Hc. constructor; simpl; rewrite ?Hv, ?Ea; try done. by rewrite mi_rx0.
Qed.

Lemma msg_cmd s s' c again : msg_inv s -> sp_reader s = RCmd c again -> reader_cmd c again s = Some s' -> msg_inv s'.
Proof.
  intros [Hc Hl] Hpc Hp. rewrite Hpc in *. unfold reader_cmd in Hp. simpl in Hc.
  assert (Hend : forall s1, msg_core s1 [] -> h_seen s1 = h_seen s ->
    msg_inv (if again then set_reader RNext s1 else reader_done s1)).
  { intros s1 Hc1 Hs1. destruct again; (split; [first [by apply core_reader|by apply core_done]|]); simpl; [|done].
    by rewrite Hs1. }
  destruct (tx_reserve (sp_cmd s)) as [[] q]; [| |done]; injection Hp as <-; apply Hend; try done;
    by destruct Hc; constructor.
Qed.

Lemma msg_poll s : msg_inv s -> msg_inv (stream_poll_next s).2.
Proof.
  intros [Hc Hl]. unfold stream_poll_next. destruct (stream_terminated s); [done|].
  pose proof (recv_view _ (sp_msg s)) as Hv. pose proof (recv_res_view _ (sp_msg s)) as Hr.
  unfold cv_recv in Hr, Hv. destruct (rx_recv (sp_msg s)) as [[r| |] c]; simpl in *; [| |done].
  - destruct (cv_buf (mv s)) as [|r' l] eqn:E; simpl in *; [by destruct (_ =? 0)|].
    injection Hr as ->. split; [|done]. destruct Hc. rewrite E in *. constructor; simpl; rewrite ?Hv; simpl; try done.
    + intros Ha. by rewrite <- app_assoc, <- mi_got0.
    + destruct mi_room0 as (? & ? & Hlen). simpl in Hlen. split_and!; [done..|lia].
  - destruct (cv_buf (mv s)) eqn:E; simpl in *; [|done]. split; [|done].
    eapply (msg_core_same s); [|done]. unfold mdata. simpl. by rewrite Hv.
Qed.

Lemma msg_drop s : msg_inv s -> msg_inv (stream_drop s).
Proof.
  intros [Hc Hl]. split; [|done]. destruct Hc. constructor; simpl; rewrite ?rx_drop_view; simpl; try done.
  destruct mi_room0 as (? & ? & ?). split_and!; [done..|lia].
Qed.

(** *** The command queue *)
Lemma cmd_reader_done s : cmd_inv s -> cmd_inv (reader_done s).
Proof. intros []. constructor; simpl; rewrite ?tx_drop_view; done. Qed.
Lemma cmd_reader s pc : cmd_inv s -> cmd_inv (set_reader pc s).
Proof. by apply cmd_inv_same. Qed.

Lemma cmd_item s i : cmd_inv s -> cmd_inv (reader_item i s).
Proof.
  intros Hc. unfold reader_item. assert (Hs : cmd_inv (set_seen (h_seen s ++ [i]) s)) by (by apply (cmd_inv_same s)).
  destruct i as [[e|[]]|]; try by apply cmd_reader. - done. - by apply cmd_reader_done.
Qed.

Lemma cmd_push s s' r k : cmd_inv s -> reader_push r k s = Some s' -> cmd_inv s'.
Proof.
  intros Hc Hp. unfold reader_push in Hp.
  assert (Hend : forall s1 d, cmd_inv s1 -> cmd_inv (reader_after k d s1)).
  { intros s1 d Hc1. destruct k; [destruct d|..]; simpl; first [by apply cmd_reader|by apply cmd_reader_done]. }
  destruct (tx_reserve (sp_msg s)) as [[] c]; [| |done]; injection Hp as <-; apply Hend; by apply (cmd_inv_same s).
Qed.

(** A command is queued. *)
Lemma cmd_queue s q c permit :
  cmd_inv s ->
  cv_buf (view q) = cv_buf (qv s) ++ [c] -> cv_rx (view q) = cv_rx (qv s) -> cv_cap (view q) = 64 ->
  cv_permits (view q) = Z.b2z permit ->
  Z.of_nat (length (cv_buf (qv s))) + 1 + Z.b2z permit <= 64 ->
  cmd_inv (set_cmds (h_cmds s ++ [c]) (set_sink_permit permit (set_cmd q s))).
Proof.
  intros [] Hb Hrx Hcap Hper Hroom. constructor; simpl; try done.
  - by rewrite Hrx.
  - intros Hw. by rewrite Hb, app_assoc, ci_taken0.
  - etrans; [done|]. by apply prefix_app_r.
  - rewrite Hb, length_app, Hper. simpl. split_and!; [done|done|lia].
Qed.
Lemma cmd_view s q permit :
  cmd_inv s -> cv_buf (view q) = cv_buf (qv s) -> cv_rx (view q) = cv_rx (qv s) -> cv_cap (view q) = 64 ->
  cv_permits (view q) = Z.b2z permit -> Z.of_nat (length (cv_buf (qv s))) + Z.b2z permit <= 64 ->
  cmd_inv (set_sink_permit permit (set_cmd q s)).
Proof.
  intros [] Hb Hrx Hcap Hper Hroom. constructor; simpl; try done.
  - by rewrite Hrx.
  - by rewrite Hb.
  - rewrite Hb, Hper. split_and!; [done|done|lia].
Qed.

(** The answer of a reservation, in terms of the invariant. *)
Lemma cmd_reserve s :
  cmd_inv s ->
  match tx_reserve (sp_cmd s) with
  | (ReserveOk, q) => sp_writer s <> WDone
      /\ view q = cv_set_permits (Z.b2z (sink_permit s) + 1) (qv s)
      /\ Z.of_nat (length (cv_buf (qv s))) + Z.b2z (sink_permit s) + 1 <= 64
  | (ReserveClosed, q) => sp_writer s = WDone /\ view q = qv s
  | (ReservePending, _) => True
  end.
Proof.
  intros []. pose proof (reserve_res_view _ (sp_cmd s)) as Hr. pose proof (reserve_view _ (sp_cmd s)) as Hv.
  destruct ci_room0 as (Hcap & Hper & Hlen). unfold cv_reserve, cv_room in Hr, Hv. rewrite ci_rx0, Hcap, Hper in Hr, Hv.
  destruct (tx_reserve (sp_cmd s)) as [[] q]; simpl in *; [| |done]; destruct (sp_writer s); simpl in *;
    try done; destruct (_ <? _) eqn:E in Hr, Hv; simpl in *; try done; (split; [done|]); (split; [done|lia]).
Qed.

Lemma cmd_cmd s s' c again : cmd_inv s -> reader_cmd c again s = Some s' -> cmd_inv s'.
Proof.
  intros Hc Hp. unfold reader_cmd in Hp. pose proof (cmd_reserve s Hc) as Hr.
  assert (Hend : forall s1, cmd_inv s1 -> cmd_inv (if again then set_reader RNext s1 else reader_done s1)).
  { intros s1 Hc1. destruct again; [by apply cmd_reader|by apply cmd_reader_done]. }
  destruct (ci_room _ Hc) as (Hcap & Hper & Hlen).
  destruct (tx_reserve (sp_cmd s)) as [[] q]; [| |done]; injection Hp as <-; apply Hend.
  - destruct Hr as (Hw & Hv & Hroom). eapply (cmd_inv_same (set_cmds (h_cmds s ++ [c])
      (set_sink_permit (sink_permit s) (set_cmd (permit_send c q) s)))); [done|].
    apply cmd_queue; [done|..]; rewrite ?permit_send_view, ?Hv; simpl; try done; lia.
  - destruct Hr as [Hw Hv]. eapply (cmd_inv_same s); [|done]. unfold qdata. simpl. by rewrite Hv.
Qed.

(** The writer stops: its receiver is dropped with what is queued. *)
Lemma cmd_writer_done s w :
  cmd_inv s -> omap wire_data w `prefix_of` omap cmd_data (h_taken s) ->
  (exists v, (TtClose None ∉ v) /\ (w = v \/ w = v ++ [TtClose None])) ->
  cmd_inv (writer_done (set_h_wire w s)).
Proof.
  intros [] Hp Hw. constructor; simpl; rewrite ?rx_drop_view; simpl; try done.
  destruct ci_room0 as (? & Hper & ?). split_and!; [done|done|lia].
Qed.
Lemma set_same_wire s : set_h_wire (h_wire s) s = s.
Proof. by destruct s. Qed.

Lemma cmd_take s s' : cmd_inv s -> sp_writer s = WNext -> writer_next s = Some s' -> cmd_inv s'.
Proof.
  intros Hc Hw Hn. unfold writer_next in Hn. pose proof (recv_view _ (sp_cmd s)) as Hv.
  pose proof (recv_res_view _ (sp_cmd s)) as Hr. pose proof (ci_written _ Hc) as Hwr. unfold written in Hwr. rewrite Hw in Hwr.
  destruct Hwr as (Hdat & Hncl & Hnw). unfold cv_recv in Hr, Hv.
  destruct (rx_recv (sp_cmd s)) as [[c| |] q]; simpl in *; [| |done]; injection Hn as <-.
  - destruct (cv_buf (qv s)) as [|c' l] eqn:E; simpl in *; [by destruct (_ =? 0)|]. injection Hr as ->.
    destruct Hc. rewrite Hw, E in *. specialize (ci_taken0 ltac:(done)).
    constructor; simpl; rewrite ?Hv; simpl; try done.
    + intros _. by rewrite <- app_assoc.
    + exists l. by rewrite <- app_assoc.
    + unfold written. simpl. by exists (h_taken s).
    + destruct ci_room0 as (? & ? & Hlen). simpl in Hlen. split_and!; [done|done|lia].
  - destruct (cv_buf (qv s)) eqn:E; simpl in *; [|done]. rewrite <- (set_same_wire (set_cmd q s)). apply cmd_writer_done.
    + eapply (cmd_inv_same s); [|done]. unfold qdata. simpl. by rewrite Hv.
    + simpl. by rewrite Hdat.
    + exists (h_wire s). auto.
Qed.

Lemma wire_to_tt m : wire_data (to_tt m) = Some (to_tt m).
Proof. by destruct m. Qed.

Lemma cmd_write s c ok : cmd_inv s -> sp_writer s = WDo c -> cmd_inv (writer_do c ok s).
Proof.
  intros Hc Hw. pose proof (ci_written _ Hc) as Hwr. unfold written in Hwr. rewrite Hw in Hwr.
  destruct Hwr as (t & Ht & Hdat & Hncl & Hnw).
  assert (Hnext : forall w, omap wire_data w = omap cmd_data (h_taken s) -> (TtClose None ∉ w) ->
    c <> WClose -> cmd_inv (set_writer WNext (set_h_wire w s))).
  { intros w Hd Hcl Hne. destruct Hc. rewrite Hw in *. constructor; simpl; try done; [by intros _; apply ci_taken0|].
    unfold written. simpl. split_and!; [done| |done]. rewrite Ht. by apply not_in_snoc. }
  assert (Hpre : forall w, omap wire_data w = omap wire_data (h_wire s) ->
    omap wire_data w `prefix_of` omap cmd_data (h_taken s)).
  { intros w ->. rewrite Hdat, Ht, omap_app. by apply prefix_app_r. }
  assert (Hcl : forall m, TtClose None <> m -> TtClose None ∉ h_wire s ++ [m]) by (intros; by apply not_in_snoc).
  destruct c as [m|p|]; unfold writer_do, tt_write.
  - destruct ok.
    + apply Hnext; [|by apply Hcl; destruct m|done]. rewrite Ht, !omap_app, Hdat. simpl. by rewrite wire_to_tt.
    + rewrite <- (set_same_wire s). apply cmd_writer_done; [done|by apply Hpre|by exists (h_wire s); auto].
  - assert (Hpong : omap cmd_data (h_taken s) = omap wire_data (h_wire s))
      by (rewrite Ht, omap_app, Hdat; simpl; by rewrite app_nil_r).
    destruct ok.
    + apply Hnext; [|by apply Hcl|done]. rewrite omap_app, Hpong. simpl. by rewrite app_nil_r.
    + rewrite <- (set_same_wire s). by apply Hnext.
  - destruct ok.
    + apply cmd_writer_done; [done| |by exists (h_wire s); auto]. apply Hpre. rewrite omap_app. simpl. by rewrite app_nil_r.
    + rewrite <- (set_same_wire s). apply cmd_writer_done; [done|by apply Hpre|by exists (h_wire s); auto].
Qed.

(** *** The sink *)
Lemma sink_reserve_inv s b s' : cmd_inv s -> sink_reserve s = Some (b, s') ->
  cmd_inv s' /\ (b = true -> sink_permit s' = true) /\ mdata s' = mdata s.
Proof.
  intros Hc Hr. unfold sink_reserve in Hr. destruct (sink_permit s) eqn:Ep; [by simplify_eq|].
  pose proof (cmd_reserve s Hc) as Hq. destruct (ci_room _ Hc) as (Hcap & Hper & Hlen). rewrite Ep in *. simpl in *.
  destruct (tx_reserve (sp_cmd s)) as [[] q]; [| |done]; simplify_eq.
  - destruct Hq as (Hw & Hv & Hroom). split; [|done]. apply cmd_view; rewrite ?Hv; simpl; try done; lia.
  - destruct Hq as [Hw Hv]. split_and!; [|done|done]. eapply (cmd_inv_same s); [|done]. unfold qdata. simpl. by rewrite Hv.
Qed.

Lemma sink_send_inv s c : cmd_inv s -> cmd_inv (sink_send_item c s).2.
Proof.
  intros Hc. unfold sink_send_item. destruct (sink_permit s) eqn:Ep; [|done].
  destruct (ci_room _ Hc) as (Hcap & Hper & Hlen). rewrite Ep in *. simpl in *.
  pose proof (send_item_view _ c (sp_cmd s)) as Hv. destruct (ps_send_item c (sp_cmd s)) as [[] q]; simpl in Hv |- *.
  - apply cmd_queue; rewrite ?Hv; simpl; try done; lia.
  - apply cmd_view; rewrite ?Hv; simpl; try done; lia.
Qed.

Lemma sink_send_mdata s c : mdata (sink_send_item c s).2 = mdata s.
Proof. unfold sink_send_item. destruct (sink_permit s); [|done]. by destruct (ps_send_item _ _) as [[] q]. Qed.

Lemma sink_ready_inv s :
  cmd_inv s -> cmd_inv (sink_poll_ready s).2 /\ mdata (sink_poll_ready s).2 = mdata s.
Proof.
  intros Hc. unfold sink_poll_ready. destruct (sink_closed s); [done|].
  destruct (sink_reserve s) as [[b s1]|] eqn:E; [|done].
  destruct (sink_reserve_inv s b s1 Hc E) as (? & _ & ?). by destruct b.
Qed.
Lemma sink_close_inv s :
  cmd_inv s -> cmd_inv (sink_poll_close s).2 /\ mdata (sink_poll_close s).2 = mdata s.
Proof.
  intros Hc. unfold sink_poll_close. destruct (sink_closed s); [done|].
  destruct (sink_reserve s) as [[b s1]|] eqn:E; [|done].
  destruct (sink_reserve_inv s b s1 Hc E) as (Hc1 & _ & Hm1). destruct b; simpl.
  - pose proof (sink_send_inv s1 WClose Hc1) as Hc2. pose proof (sink_send_mdata s1 WClose) as Hm2.
    destruct (sink_send_item WClose s1) as [r s2]. simpl in *. split; [by apply (cmd_inv_same s2)|by rewrite <- Hm1].
  - split; [by apply (cmd_inv_same s1)|done].
Qed.

Lemma sink_drop_inv s : cmd_inv s -> cmd_inv (sink_drop s) /\ mdata (sink_drop s) = mdata s.
Proof.
  intros Hc. unfold sink_drop.
  set (s1 := if sink_closed s then s else _). assert (Hs1 : cmd_inv s1 /\ mdata s1 = mdata s).
  { subst s1. destruct (sink_closed s); [done|]. pose proof (try_send_view _ WClose (sp_cmd s)) as Hv.
    pose proof (try_send_res_view _ WClose (sp_cmd s)) as Hr. unfold cv_try_send, cv_room in Hr, Hv.
    destruct (ci_room _ Hc) as (Hcap & Hper & Hlen). rewrite Hcap, Hper in Hr, Hv.
    destruct (tx_try_send WClose (sp_cmd s)) as [[] q]; simpl in *; (split; [|done]);
      destruct (cv_rx (qv s)) eqn:Erx; simpl in *; try done; try (destruct (_ <? _) eqn:El; simpl in *; try done);
      [|by eapply (cmd_inv_same s); [|done]; unfold qdata; simpl; rewrite Hv..].
    - eapply (cmd_inv_same (set_cmds (h_cmds s ++ [WClose]) (set_sink_permit (sink_permit s) (set_cmd q s)))); [done|].
      apply cmd_queue; rewrite ?Hv; simpl; try done; lia. }
  clearbody s1. destruct Hs1 as [Hc1 Hm1].
  set (s2 := if sink_permit s1 then _ else s1). assert (Hs2 : cmd_inv s2 /\ mdata s2 = mdata s1).
  { subst s2. destruct (sink_permit s1) eqn:Ep; [|done]. split; [|done].
    destruct (ci_room _ Hc1) as (Hcap & Hper & Hlen). rewrite Ep in *. simpl in *.
    eapply (cmd_inv_same (set_sink_permit false (set_cmd (permit_drop (sp_cmd s1)) s1))); [done|].
    apply cmd_view; rewrite ?permit_drop_view; simpl; try done; lia. }
  clearbody s2. destruct Hs2 as [Hc2 Hm2]. split; [|by rewrite <- Hm1, <- Hm2].
  destruct Hc2. constructor; simpl; rewrite ?tx_drop_view; done.
Qed.

(** *** The end of the stream *)
Definition reader_ended s : bool := match sp_reader s with RDone => true | _ => false end.
Definition end_inv s : Prop :=
  cv_senders (mv s) = (if reader_ended s then 0 else 1)
  /\ (stream_terminated s = true -> reader_ended s = true /\ cv_buf (mv s) = []).

Lemma end_inv_same s s' :
  mdata s' = mdata s -> stream_terminated s' = stream_terminated s -> end_inv s -> end_inv s'.
Proof. intros [= E1 E2 E3 E4 E5 E6] Et. unfold end_inv, reader_ended. by rewrite E1, E5, Et. Qed.

Lemma end_reader_done s : end_inv s -> reader_ended s = false -> end_inv (reader_done s).
Proof.
  intros [Hs Ht] He. unfold end_inv. simpl. rewrite tx_drop_view. simpl. rewrite Hs, He. split; [done|].
  intros Hx. by destruct (Ht Hx); congruence.
Qed.
Lemma end_reader s pc : end_inv s -> reader_ended s = false -> pc <> RDone -> end_inv (set_reader pc s).
Proof.
  intros [Hs Ht] He Hpc. unfold end_inv. simpl. rewrite Hs, He. split; [by destruct pc|].
  intros Hx. destruct (Ht Hx). congruence.
Qed.

Lemma end_step s s' : split_step s s' -> cmd_inv s -> msg_inv s -> end_inv s -> end_inv s'.
Proof.
  intros Hstep Hc Hm He. pose proof He as [Hs Ht]. destruct Hstep as
    [s i Hpc|s s' r k Hpc Hp|s s' c again Hpc Hp|s s' Hpc Hn|s c ok Hpc|s _|s m _|s _|s _|s _|s _].
  - assert (Hre : reader_ended s = false) by (unfold reader_ended; by rewrite Hpc). unfold reader_item.
    assert (Hx : end_inv (set_seen (h_seen s ++ [i]) s)) by done.
    destruct i as [[e|[]]|]; try (by apply end_reader); [done|by apply end_reader_done].
  - assert (Hre : reader_ended s = false) by (unfold reader_ended; by rewrite Hpc). unfold reader_push in Hp.
    assert (Hend : forall s1 d, end_inv s1 -> reader_ended s1 = false -> end_inv (reader_after k d s1)).
    { intros s1 d ??. destruct k; [destruct d|..]; cbn [reader_after];
        first [by apply end_reader_done|by apply end_reader]. }
    assert (Hnt : stream_terminated s = true -> False) by (intros Hx; destruct (Ht Hx); congruence).
    pose proof (reserve_view _ (sp_msg s)) as Hv. assert (Hse : cv_senders (cv_reserve (mv s)).2 = 1).
    { rewrite Hre in Hs. unfold cv_reserve. by repeat case_match. }
    destruct (tx_reserve (sp_msg s)) as [[] c]; [| |done]; injection Hp as <-; simpl in Hv; rewrite <- Hv in Hse;
      apply Hend; try done; (split; [|by intros ?%Hnt]); unfold reader_ended; simpl; rewrite Hpc, ?permit_send_view; done.
  - assert (Hre : reader_ended s = false) by (unfold reader_ended; by rewrite Hpc). unfold reader_cmd in Hp.
    destruct (tx_reserve (sp_cmd s)) as [[] q]; [| |done]; injection Hp as <-; destruct again;
      first [by apply end_reader|by apply end_reader_done].
  - unfold writer_next in Hn. by destruct (rx_recv (sp_cmd s)) as [[] q]; simplify_eq.
  - unfold writer_do, tt_write. destruct c; [destruct ok|..]; by try destruct ok.
  - destruct (sink_ready_inv s Hc) as [_ Hmd]. eapply end_inv_same; [done| |done].
    unfold sink_poll_ready, sink_reserve. destruct (sink_closed s), (sink_permit s); try done.
    by destruct (tx_reserve _) as [[] q].
  - eapply end_inv_same; [| |done]; unfold sink_start_send, sink_send_item; destruct (sink_closed s), (sink_permit s);
      try done; by destruct (ps_send_item _ _) as [[] q].
  - destruct (sink_close_inv s Hc) as [_ Hmd]. eapply end_inv_same; [done| |done].
    unfold sink_poll_close, sink_reserve, sink_send_item. by repeat (case_match; simplify_eq/=).
  - destruct (sink_drop_inv s Hc) as [_ Hmd]. eapply end_inv_same; [done| |done].
    unfold sink_drop. cbv zeta. by repeat (case_match; simplify_eq/=).
  - unfold stream_poll_next. destruct (stream_terminated s) eqn:Et; [done|].
    pose proof (recv_view _ (sp_msg s)) as Hv. pose proof (recv_res_view _ (sp_msg s)) as Hr.
    unfold cv_recv in Hr, Hv. destruct (rx_recv (sp_msg s)) as [[r| |] c]; simpl in *; [| |done].
    + destruct (cv_buf (mv s)) as [|r' l] eqn:E; simpl in *; [by destruct (_ =? 0)|].
      unfold end_inv, reader_ended in *. simpl. rewrite Hv. simpl. by rewrite Hs, Et.
    + destruct (cv_buf (mv s)) eqn:E; simpl in *; [|done]. destruct (cv_senders (mv s) =? 0) eqn:E0; [|done].
      unfold end_inv, reader_ended in *. simpl. rewrite Hv. split; [done|]. intros _. split; [|done].
      destruct (sp_reader s); try done; lia.
  - unfold end_inv, reader_ended in *. simpl. rewrite rx_drop_view. simpl. split; [done|]. intros Hx. by destruct (Ht Hx).
Qed.

Lemma split_step_inv s s' :
  split_step s s' -> msg_inv s -> cmd_inv s -> msg_inv s' /\ cmd_inv s'.
Proof.
  intros Hstep Hm Hc. destruct Hstep as
    [s i Hpc|s s' r k Hpc Hp|s s' c again Hpc Hp|s s' Hpc Hn|s c ok Hpc|s _|s m _|s _|s _|s _|s _].
  - split; [by apply msg_item|by apply cmd_item].
  - split; [by eapply msg_push|by eapply cmd_push].
  - split; [by eapply msg_cmd|by eapply cmd_cmd].
  - split; [|by eapply cmd_take]. eapply msg_inv_same; [|done]. unfold writer_next in Hn.
    by destruct (rx_recv (sp_cmd s)) as [[] q]; simplify_eq.
  - split; [|by apply cmd_write]. eapply msg_inv_same; [|done]. unfold writer_do, tt_write.
    destruct c; [destruct ok|..]; by try destruct ok.
  - destruct (sink_ready_inv s Hc). split; [by eapply msg_inv_same|done].
  - unfold sink_start_send. destruct (sink_closed s); [done|].
    split; [by eapply msg_inv_same; [apply sink_send_mdata|]|by apply sink_send_inv].
  - destruct (sink_close_inv s Hc). split; [by eapply msg_inv_same|done].
  - destruct (sink_drop_inv s Hc). split; [by eapply msg_inv_same|done].
  - split; [by apply msg_poll|]. unfold stream_poll_next. destruct (stream_terminated s); [done|].
    by destruct (rx_recv (sp_msg s)) as [[] c]; [apply (cmd_inv_same s)..|].
  - split; [by apply msg_drop|by apply (cmd_inv_same s)].
Qed.

Lemma split_inv s : split_reach s -> msg_inv s /\ cmd_inv s /\ end_inv s.
Proof.
  unfold split_reach. revert s. apply (rtc_ind_r (fun s => msg_inv s /\ cmd_inv s /\ end_inv s)).
  - destruct split_init. split_and!; [done..|]. unfold end_inv. simpl. by rewrite view_channel.
  - intros s s' _ Hstep (Hm & Hc & He). destruct (split_step_inv s s' Hstep Hm Hc). split_and!; [done..|].
    by eapply end_step.
Qed.

(** C24: the stream half delivers what the peer sent.  In every execution of the two
    tasks and the two halves, as long as the stream is not dropped, what the
    application got, then what is queued (never more than 64 results), then what the
    reader holds, are the results of the items taken from the socket: each once and
    in order.  An error is the last of them, and when the stream has ended, all of
    them were delivered. *)
Theorem split_delivery s :
  split_reach s -> stream_alive s = true ->
  h_got s ++ cv_buf (view (sp_msg s)) ++ in_hand (sp_reader s) = omap seen_result (h_seen s)
  /\ Z.of_nat (length (cv_buf (view (sp_msg s)))) <= 64
  /\ (exists l, Forall (fun i => goes_on i = true) l /\ (h_seen s = l \/ exists i, h_seen s = l ++ [i]))
  /\ (stream_terminated s = true -> h_got s = omap seen_result (h_seen s)).
Proof.
  intros Hr Ha. destruct (split_inv s Hr) as ([Hm _] & _ & [_ He]). destruct Hm.
  specialize (mi_got0 Ha). specialize (mi_seen0 Ha). split_and!.
  - by rewrite app_assoc, mi_got0.
  - by apply mi_room0.
  - done.
  - intros Ht. destruct (He Ht) as [Hre Hb]. unfold reader_ended in Hre.
    destruct (sp_reader s); try done. rewrite <- mi_seen0, <- mi_got0, Hb. simpl. by rewrite !app_nil_r.
Qed.

(** C25: the sink half writes what it was given.  The data written to the socket is, in
    order, the data of a prefix of the queued commands, without gaps; as long as the
    writer runs every command was either taken or is still queued (never more than
    64 together with the reserved slot); and nothing is written after a close frame. *)
Theorem split_writes s :
  split_reach s ->
  omap wire_data (h_wire s) `prefix_of` omap cmd_data (h_cmds s)
  /\ (sp_writer s <> WDone -> h_taken s ++ cv_buf (view (sp_cmd s)) = h_cmds s)
  /\ Z.of_nat (length (cv_buf (view (sp_cmd s)))) + Z.b2z (sink_permit s) <= 64
  /\ (forall i m, h_wire s !! i = Some (TtClose None) -> h_wire s !! S i = Some m -> False).
Proof.
  intros Hr. destruct (split_inv s Hr) as (_ & Hc & _). destruct Hc. unfold written in ci_written0.
  assert (Htaken : omap cmd_data (h_taken s) `prefix_of` omap cmd_data (h_cmds s)).
  { destruct ci_prefix0 as [l ->]. rewrite omap_app. by apply prefix_app_r. }
  assert (Hw : omap wire_data (h_wire s) `prefix_of` omap cmd_data (h_taken s)
    /\ exists w, (TtClose None ∉ w) /\ (h_wire s = w \/ h_wire s = w ++ [TtClose None])).
  { destruct (sp_writer s).
    - destruct ci_written0 as (-> & _ & ?). split; [done|]. eauto.
    - destruct ci_written0 as (t & -> & -> & _ & ?). split; [|by eauto]. rewrite omap_app. by apply prefix_app_r.
    - done. }
  destruct Hw as [Hw (w & Hno & Hcl)]. destruct ci_room0 as (_ & <- & ?). split_and!; [by etrans|done|done|].
  intros i m Hi Hm. destruct Hcl as [E|E]; rewrite E in Hi, Hm.
  - apply Hno. by eapply list_elem_of_lookup_2.
  - apply lookup_lt_Some in Hm. rewrite length_app in Hm. simpl in Hm.
    rewrite lookup_app_l in Hi by lia. apply Hno. by eapply list_elem_of_lookup_2.
Qed.
End Split.

(** *** Running a schedule *)
Inductive split_label : Set :=
| LItem (i : option tt_item) | LPush | LCmd | LTake | LWrite (ok : bool)
| LReady | LSend (m : Message) | LClose | LDrop | LPoll | LStreamDrop.

Section Exec.
Context {chan : Type -> Type} `{Mpsc chan}.
Implicit Types s : Split chan.

Definition split_exec (l : split_label) s : option (Split chan) :=
  match l, sp_reader s, sp_writer s with
  | LItem i, RNext, _ => Some (reader_item i s)
  | LPush, RPush r k, _ => reader_push r k s
  | LCmd, RCmd c again, _ => reader_cmd c again s
  | LTake, _, WNext => writer_next s
  | LWrite ok, _, WDo c => Some (writer_do c ok s)
  | LReady, _, _ => if sink_alive s then Some (sink_poll_ready s).2 else None
  | LSend m, _, _ => if sink_alive s then Some (sink_start_send m s).2 else None
  | LClose, _, _ => if sink_alive s then Some (sink_poll_close s).2 else None
  | LDrop, _, _ => if sink_alive s then Some (sink_drop s) else None
  | LPoll, _, _ => if stream_alive s then Some (stream_poll_next s).2 else None
  | LStreamDrop, _, _ => if stream_alive s then Some (stream_drop s) else None
  | _, _, _ => None
  end.
Fixpoint split_run (ls : list split_label) s : option (Split chan) :=
  match ls with [] => Some s | l :: ls => s ← split_exec l s; split_run ls s end.

Lemma split_exec_step l s s' : split_exec l s = Some s' -> split_step s s'.
Proof.
  unfold split_exec. intros Hl.
  destruct l, (sp_reader s) eqn:Er, (sp_writer s) eqn:Ew; simplify_eq; repeat case_match; simplify_eq;
    solve [by econstructor].
Qed.
Lemma split_run_reach ls s s' : split_run ls s = Some s' -> rtc split_step s s'.
Proof.
  revert s. induction ls as [|l ls IH]; simpl; intros s; [by intros [= ->]|].
  intros (s1 & Hl & Hr)%bind_Some. eapply rtc_l; [by eapply split_exec_step|auto].
Qed.
End Exec.

(** *** A concrete execution

    A ping and a text arrive, the application sends a message, the text is read. *)
Section Demo.
Definition split_demo : list split_label :=
  [LItem (Some (inr (TtPing [x01]))); LCmd; LItem (Some (inr (TtText "hi"))); LPush; LReady; LSend (Binary [x02]);
   LTake; LWrite true; LTake; LWrite true; LPoll; LItem (Some (inr (TtClose None))); LPush].
Definition split_end : Split cview := default split (split_run split_demo split).

Lemma split_demo_reach : split_reach split_end.
Proof. apply (split_run_reach split_demo). vm_compute. reflexivity. Qed.

Lemma split_delivery_witness :
  h_got split_end = [Ok (Text "hi")] /\ cv_buf (view (sp_msg split_end)) = [Err Closed]
  /\ h_got split_end ++ cv_buf (view (sp_msg split_end)) ++ in_hand (sp_reader split_end)
     = omap seen_result (h_seen split_end).
Proof.
  split; [vm_compute; reflexivity|]. split; [vm_compute; reflexivity|].
  apply split_delivery; [apply split_demo_reach|vm_compute; reflexivity].
Defined.

Lemma split_writes_witness :
  h_wire split_end = [TtPong [x01]; TtBinary [x02]]
  /\ omap wire_data (h_wire split_end) `prefix_of` omap cmd_data (h_cmds split_end).
Proof. split; [vm_compute; reflexivity|]. apply split_writes, split_demo_reach. Defined.
End Demo.
