(* ===== verification/BrowserConn.v ===== *)
(** * Browser connections

    Models [connect_socket] and [Connection] of [websock-wasm/src/connection.rs] and the
    split halves of [stream.rs].  The browser's WebSocket is part of the state: its
    ready state, the callbacks that are attached, the amount it buffers and what was
    sent.  Its events, the failures of its methods and the amount buffered are chosen
    by the environment.  A browser is single threaded: a callback, and a poll of the
    code between two [await]s, is one step. *)

From S2P Require Import Prelude Buf VarInt Frame Proto Limits SendFlow Channel Async NativeState FuturesChannel.
Open Scope mux_scope.

Inductive ready_state : Set := CONNECTING | OPEN | CLOSING | CLOSED.
#[global] Instance ready_state_eq_dec : EqDecision ready_state.
Proof. solve_decision. Defined.

(** The callbacks of the connection attempt, and those of the open connection. *)
Inductive callback : Set := Waiting | Live.

Record WebSocket : Set := mkWebSocket {
  ready : ready_state;
  onopen : option callback;
  onmessage : option callback;
  onerror : option callback;
  onclose : option callback;
  buffered_amount : Z;
  js_sent : list Message
}.

Definition set_ready (r : ready_state) (w : WebSocket) : WebSocket :=
  mkWebSocket r (onopen w) (onmessage w) (onerror w) (onclose w) (buffered_amount w) (js_sent w).
Definition set_callbacks (o m e c : option callback) (w : WebSocket) : WebSocket :=
  mkWebSocket (ready w) o m e c (buffered_amount w) (js_sent w).
Definition set_buffered (n : Z) (w : WebSocket) : WebSocket :=
  mkWebSocket (ready w) (onopen w) (onmessage w) (onerror w) (onclose w) n (js_sent w).
Definition detach (w : WebSocket) : WebSocket := set_callbacks None None None None w.

(** [WebSocket.close()] without arguments. *)
Definition js_close (w : WebSocket) : WebSocket :=
  match ready w with
  | CONNECTING | OPEN => set_ready CLOSING w
  | CLOSING | CLOSED => w
  end.

(** The data of a message event. *)
Inductive JsData : Set := JsString (s : string) | JsArrayBuffer (b : list byte) | JsOther.

(** Who owns the connection. *)
Inductive owner : Set :=
| Connecting        (** [connect_socket] waits for the socket to open *)
| Failed (e : Error)
| Cancelled         (** the future was dropped while it waited *)
| Whole             (** a [Connection] *)
| Halves (sink stream : bool)   (** the split halves that are alive *)
| Dropped.

Definition message_len (m : Message) : Z :=
  match m with Text s => Z.of_nat (String.length s) | Binary b => blen b end.

Section Browser.
Context {fchan : Type -> Type} `{FMpsc fchan} `{UsizeWidth}.

Record BConn : Type := mkBConn {
  b_ws : WebSocket;
  b_owner : owner;
  b_limits : WebSocketLimits;
  b_open_tx : bool;                       (** the cell still holds [open_tx] *)
  b_open_res : option (result unit);      (** what was sent through it *)
  b_chan : fchan (result Message);
  b_tx : nat * nat * nat;                 (** the senders of the three callbacks *)
  b_rx : bool;                            (** [rx] is [Some] *)
  b_close_frame : option CloseFrame;
  b_sink_closed : bool;
  b_terminated : bool;
  b_refs : Z;                             (** [ref_count] of the halves *)
  h_accepted : list (result Message);     (** history: what was queued, and delivered *)
  h_delivered : list (result Message)
}.

Ltac replace_bconn f v r :=
  let e := constr:(mkBConn (b_ws r) (b_owner r) (b_limits r) (b_open_tx r) (b_open_res r) (b_chan r) (b_tx r)
    (b_rx r) (b_close_frame r) (b_sink_closed r) (b_terminated r) (b_refs r) (h_accepted r) (h_delivered r)) in
  let x := constr:(f r) in
  match eval pattern x in e with ?g _ => let t := eval cbv beta in (g v) in exact t end.

Implicit Types c : BConn.
Definition set_ws v c : BConn := ltac:(replace_bconn b_ws v c).
Definition set_owner v c : BConn := ltac:(replace_bconn b_owner v c).
Definition set_open_tx v c : BConn := ltac:(replace_bconn b_open_tx v c).
Definition set_open_res v c : BConn := ltac:(replace_bconn b_open_res v c).
Definition set_b_chan v c : BConn := ltac:(replace_bconn b_chan v c).
Definition set_b_tx v c : BConn := ltac:(replace_bconn b_tx v c).
Definition set_b_rx v c : BConn := ltac:(replace_bconn b_rx v c).
Definition set_close_frame v c : BConn := ltac:(replace_bconn b_close_frame v c).
Definition set_b_sink_closed v c : BConn := ltac:(replace_bconn b_sink_closed v c).
Definition set_terminated v c : BConn := ltac:(replace_bconn b_terminated v c).
Definition set_refs v c : BConn := ltac:(replace_bconn b_refs v c).
Definition set_accepted v c : BConn := ltac:(replace_bconn h_accepted v c).
Definition set_delivered v c : BConn := ltac:(replace_bconn h_delivered v c).

Definition on_ws (f : WebSocket -> WebSocket) c : BConn := set_ws (f (b_ws c)) c.

(** ** Connecting *)
Definition connect_start (w : WebSocket) (l : WebSocketLimits) : BConn :=
  mkBConn (set_callbacks (Some Waiting) (onmessage w) (Some Waiting) (Some Waiting) w) Connecting l true None
    (f_channel 64) (0, 0, 0)%nat true None false false 0 [] [].

(** [connect]: [new_ws] is the constructor of the browser, without and with a list of
    subprotocols; it throws on a bad URL or protocol. *)
Definition b_connect (new_ws : string -> option (list string) -> string + WebSocket) (url : string)
    (o : ConnectOptions) : result BConn :=
  match WebSocketLimits_validate (limits_of o) with
  | Ok _ =>
      match new_ws url (if decide (protocols o = []) then None else Some (protocols o)) with
      | inl e => Err (Other e)
      | inr w => Ok (connect_start w (limits_of o))
      end
  | Err e => Err e
  | Panic => Panic
  end.

(** The waiting callbacks take the sender out of its cell. *)
Definition signal (r : result unit) c : BConn :=
  if b_open_tx c then set_open_res (Some r) (set_open_tx false c) else c.

(** [ConnectingGuard::drop] while it is armed. *)
Definition guard_drop c : BConn :=
  on_ws (fun w => js_close (set_callbacks None (onmessage w) None None w)) c.

(** The live callbacks: the first two get clones of the sender. *)
Definition install c : BConn :=
  let '(i, ch) := f_clone (b_chan c) in
  let '(j, ch) := f_clone ch in
  set_b_tx (i, j, 0)%nat (set_b_chan ch
    (on_ws (set_callbacks (onopen (b_ws c)) (Some Live) (Some Live) (Some Live)) c)).

(** [connect_socket] continues once [open_rx] yields. *)
Definition connect_resume c : option BConn :=
  match b_open_res c with
  | None => None
  | Some r =>
      let c := on_ws (fun w => set_callbacks None (onmessage w) None None w) c in
      match r with
      | Ok _ => Some (set_owner Whole (install c))
      | Err e => Some (set_owner (Failed e) (guard_drop c))
      | Panic => None
      end
  end.
Definition connect_cancel c : BConn := set_owner Cancelled (guard_drop c).

(** ** Callbacks of an open connection *)
Definition push (i : nat) (r : result Message) c : BConn * bool :=
  match f_try_send i r (b_chan c) with
  | (SendOk, ch) => (set_accepted (h_accepted c ++ [r]) (set_b_chan ch c), true)
  | (_, ch) => (set_b_chan ch c, false)
  end.
Definition close_channel c : BConn := set_b_chan (f_close_channel (b_chan c)) c.

(** Deliver an error as the last result and close the socket. *)
Definition refuse (i : nat) (e : Error) c : BConn :=
  let '(c, _) := push i (Err e) c in on_ws js_close (close_channel c).
Definition deliver_message (i : nat) (m : Message) c : BConn :=
  let '(c, ok) := push i (Ok m) c in if ok then c else on_ws js_close (close_channel c).

Definition on_message_event (data : JsData) c : BConn :=
  let i := (b_tx c).1.1 in
  let max := max_message_size (b_limits c) in
  match data with
  | JsString s =>
      if max <? message_len (Text s) then refuse i (Protocol "websocket message exceeds max_message_size") c
      else deliver_message i (Text s) c
  | JsArrayBuffer b =>
      if max <? blen b then refuse i (Protocol "websocket message exceeds max_message_size") c
      else deliver_message i (Binary b) c
  | JsOther => refuse i (Protocol "unsupported message type") c
  end.

Definition on_error_event c : BConn :=
  let '(c, ok) := push (b_tx c).1.2 (Err (Other "websocket error")) c in
  if ok then c else close_channel c.

Definition on_close_event (f : CloseFrame) c : BConn :=
  let c := set_close_frame (Some f) c in
  let '(c, _) := push (b_tx c).2 (Err Closed) c in
  close_channel c.

(** ** Methods of [Connection] *)
Definition js_err (e : string) : Error := Other e.

Definition check_send_capacity (w : WebSocket) (len max : Z) : result unit :=
  let buffered := Z.min (buffered_amount w) usize_max in
  if max <? saturating_add_usize buffered len then Err (Other "websocket write buffer limit exceeded") else Ok tt.

(** [thrown] is the exception of [WebSocket.send], if it throws. *)
Definition js_send (thrown : option string) (m : Message) c : BConn * result unit :=
  match check_send_capacity (b_ws c) (message_len m) (max_write_buffer_size (b_limits c)) with
  | Ok _ =>
      match thrown with
      | Some e => (c, Err (js_err e))
      | None =>
          (on_ws (fun w => mkWebSocket (ready w) (onopen w) (onmessage w) (onerror w) (onclose w)
             (buffered_amount w + message_len m) (js_sent w ++ [m])) c, Ok tt)
      end
  | Err e => (c, Err e)
  | Panic => (c, Panic)
  end.
Definition b_send := js_send.

(** A poll of [rx.next()]. *)
Definition rx_next c : option (option (result Message)) * BConn :=
  match f_next (b_chan c) with
  | (RecvItem r, ch) => (Some (Some r), set_delivered (h_delivered c ++ [r]) (set_b_chan ch c))
  | (RecvEnd, ch) => (Some None, set_b_chan ch c)
  | (RecvPending, _) => (None, c)
  end.
(** [None] while [recv] waits. *)
Definition b_recv c : option (result Message) * BConn :=
  if b_rx c then
    match rx_next c with
    | (Some (Some r), c) => (Some r, c)
    | (Some None, c) => (Some (Err Closed), c)
    | (None, c) => (None, c)
    end
  else (Some (Err Closed), c).

(** [self.rx = None] drops the receiver. *)
Definition drop_rx c : BConn :=
  if b_rx c then set_b_rx false (set_b_chan (f_rx_drop (b_chan c)).2 c) else c.

(** The first part of [close], then a round of its loop; [inl] is the result. *)
Definition b_close_start c : (result unit * BConn) + BConn :=
  if decide (ready (b_ws c) = CLOSED) then inl (Ok tt, drop_rx c)
  else inr (if decide (ready (b_ws c) = CLOSING) then c else on_ws js_close c).
Definition b_close_round c : option ((result unit * BConn) + BConn) :=
  if b_rx c then
    match rx_next c with
    | (None, _) => None
    | (Some (Some (Ok _)), c) => Some (inr c)
    | (Some (Some (Err Closed)), c) | (Some None, c) => Some (inl (Ok tt, drop_rx c))
    | (Some (Some (Err e)), c) => Some (inl (Err e, drop_rx c))
    | (Some (Some Panic), c) => Some (inl (Panic, drop_rx c))
    end
  else Some (inl (Ok tt, c)).

(** The destructor of an unsplit [Connection]: nobody else owns the socket. *)
Definition conn_drop c : BConn :=
  set_owner Dropped (drop_rx (on_ws (fun w => js_close (detach w)) c)).

(** ** The split halves *)

(** The halves own the socket when the [Connection] is dropped: its destructor returns
    at once. *)
Definition b_split c : outcome unit BConn :=
  if b_rx c then Ok (set_refs 2 (set_owner (Halves true true) c)) else Panic.

Definition bsink_poll_ready c : result unit := if b_sink_closed c then Err Closed else Ok tt.
Definition bsink_start_send (thrown : option string) (m : Message) c : BConn * result unit :=
  if b_sink_closed c then (c, Err Closed) else js_send thrown m c.
Definition bsink_poll_close c : BConn * result unit :=
  (if b_sink_closed c then c else set_b_sink_closed true (on_ws js_close c), Ok tt).
Definition bsink_drop c : BConn :=
  let remaining := saturating_sub (b_refs c) 1 in
  let c := set_refs remaining c in
  if (remaining =? 0) && negb (b_sink_closed c) then set_b_sink_closed true (on_ws js_close c) else c.
Definition bstream_poll_next c : option (option (result Message)) * BConn :=
  if b_terminated c then (Some None, c)
  else match rx_next c with
  | (Some None, c) => (Some None, set_terminated true c)
  | r => r
  end.
Definition bstream_drop c : BConn :=
  let c := on_ws detach c in
  let remaining := saturating_sub (b_refs c) 1 in
  let c := set_refs remaining c in
  drop_rx (if remaining =? 0 then on_ws js_close c else c).
End Browser.
Arguments BConn : clear implicits.
