(* ===== verification/BrowserProps.v ===== *)
(** * Browser connections: executions and properties *)

From S2P Require Import Prelude Buf VarInt Frame Proto Limits SendFlow Channel Async NativeState FuturesChannel.
From S2P Require Import BrowserConn.
Open Scope mux_scope.

(** What the browser and the application can do next. *)
Inductive b_label : Set :=
| EvOpen | EvError | EvClose (f : CloseFrame) | EvMessage (d : JsData) | EvBuffered (n : Z)
| Resume | Cancel
| Send (thrown : option string) (m : Message) | Recv | CloseStart | CloseRound | DropConn | DoSplit
| SinkSend (thrown : option string) (m : Message) | SinkClose | SinkDrop | StreamPoll | StreamDrop.

Section Exec.
Context {fchan : Type -> Type} `{FMpsc fchan} `{UsizeWidth}.
Implicit Types c : BConn fchan.

(** An event runs the callback that is attached.  Messages arrive while the socket is
    open; the amount buffered only shrinks by itself. *)
Definition b_event (l : b_label) c : option (BConn fchan) :=
  match l with
  | EvOpen =>
      if decide (ready (b_ws c) = CONNECTING) then
        let c := on_ws (set_ready OPEN) c in
        Some (match onopen (b_ws c) with Some Waiting => signal (Ok tt) c | _ => c end)
      else None
  | EvError =>
      Some (match onerror (b_ws c) with
            | Some Waiting => signal (Err (Other "websocket error (before open)")) c
            | Some Live => on_error_event c
            | None => c
            end)
  | EvClose f =>
      if decide (ready (b_ws c) = CLOSED) then None
      else
        let c := on_ws (set_ready CLOSED) c in
        Some (match onclose (b_ws c) with
              | Some Waiting => signal (Err Closed) c
              | Some Live => on_close_event f c
              | None => c
              end)
  | EvMessage d =>
      if decide (ready (b_ws c) = OPEN) then
        Some (match onmessage (b_ws c) with Some Live => on_message_event d c | _ => c end)
      else None
  | EvBuffered n =>
      if (0 <=? n) && (n <=? buffered_amount (b_ws c)) then Some (on_ws (set_buffered n) c) else None
  | _ => None
  end.

Definition close_result (x : (result unit * BConn fchan) + BConn fchan) : BConn fchan :=
  match x with inl (_, c) => c | inr c => c end.

Definition b_exec (l : b_label) c : option (BConn fchan) :=
  match l, b_owner c with
  | Resume, Connecting => connect_resume c
  | Cancel, Connecting => Some (connect_cancel c)
  | Send thrown m, Whole => Some (b_send thrown m c).1
  | Recv, Whole => Some (b_recv c).2
  | CloseStart, Whole => Some (close_result (b_close_start c))
  | CloseRound, Whole => close_result <$> b_close_round c
  | DropConn, Whole => Some (conn_drop c)
  | DoSplit, Whole => match b_split c with Ok c => Some c | _ => None end
  | SinkSend thrown m, Halves true _ => Some (bsink_start_send thrown m c).1
  | SinkClose, Halves true _ => Some (bsink_poll_close c).1
  | SinkDrop, Halves true s => Some (set_owner (Halves false s) (bsink_drop c))
  | StreamPoll, Halves _ true => Some (bstream_poll_next c).2
  | StreamDrop, Halves s true => Some (set_owner (Halves s false) (bstream_drop c))
  | l, _ => b_event l c
  end.

Fixpoint b_run (ls : list b_label) c : option (BConn fchan) :=
  match ls with [] => Some c | l :: ls => c ← b_exec l c; b_run ls c end.
Definition b_reach (w : WebSocket) (l : WebSocketLimits) c : Prop :=
  exists ls, b_run ls (connect_start w l) = Some c.

Lemma b_run_snoc ls l c c' : b_run (ls ++ [l]) c = Some c' -> exists c1, b_run ls c = Some c1 /\ b_exec l c1 = Some c'.
Proof.
  revert c. induction ls as [|a ls IH]; simpl; intros c.
  - intros (c1 & Hc1 & [= ->])%bind_Some. eauto.
  - intros (c1 & Hc1 & Hr)%bind_Some. destruct (IH c1 Hr) as (c2 & ? & ?). exists c2. by rewrite Hc1.
Qed.

(** What holds at the start and is kept by every step holds of every reachable state. *)
Lemma b_reach_ind w l (P : BConn fchan -> Prop) :
  P (connect_start w l) -> (forall a c c', P c -> b_exec a c = Some c' -> P c') ->
  forall c, b_reach w l c -> P c.
Proof.
  intros H0' Hstep c [ls Hr]. revert c Hr. induction ls as [|a ls IH] using rev_ind; simpl; intros c Hr.
  - by simplify_eq.
  - apply b_run_snoc in Hr as (c1 & Hr & Ha). eauto.
Qed.
End Exec.

(** A socket the browser has just created. *)
Definition fresh (w : WebSocket) : Prop :=
  ready w = CONNECTING /\ onopen w = None /\ onmessage w = None /\ onerror w = None /\ onclose w = None
  /\ buffered_amount w = 0 /\ js_sent w = [].

Section Ownership.
Context {fchan : Type -> Type} `{FMpsc fchan} `{UsizeWidth}.
Implicit Types c : BConn fchan.

Definition closing (r : ready_state) : bool := match r with CLOSING | CLOSED => true | _ => false end.
Definition detached (w : WebSocket) : Prop :=
  onopen w = None /\ onmessage w = None /\ onerror w = None /\ onclose w = None.

Record own_inv c : Prop := {
  oi_message : match b_owner c with Whole | Halves _ true => True | _ => onmessage (b_ws c) = None end;
  oi_orphan : match b_owner c with
              | Failed _ | Cancelled | Dropped => detached (b_ws c) /\ closing (ready (b_ws c)) = true
              | Halves _ false => detached (b_ws c)
              | _ => True
              end;
  oi_refs : match b_owner c with Halves a b => b_refs c = Z.b2z a + Z.b2z b | _ => True end;
  oi_last : match b_owner c with Halves false false => closing (ready (b_ws c)) = true | _ => True end;
  oi_closed : b_sink_closed c = true -> closing (ready (b_ws c)) = true
}.

(** Steps that keep the owner, the callbacks and the references, and never reopen. *)
Definition oquiet c c' : Prop :=
  b_owner c' = b_owner c /\ b_refs c' = b_refs c /\ b_sink_closed c' = b_sink_closed c
  /\ onopen (b_ws c') = onopen (b_ws c) /\ onmessage (b_ws c') = onmessage (b_ws c)
  /\ onerror (b_ws c') = onerror (b_ws c) /\ onclose (b_ws c') = onclose (b_ws c)
  /\ (closing (ready (b_ws c)) = true -> closing (ready (b_ws c')) = true).

Lemma own_quiet c c' : oquiet c c' -> own_inv c -> own_inv c'.
Proof.
  intros (E1 & E2 & E3 & E4 & E5 & E6 & E7 & E8) []. unfold detached in *. rewrite <- ?E4, <- ?E5, <- ?E6, <- ?E7 in *.
  constructor; unfold detached; rewrite ?E1, ?E2, ?E3; auto;
    destruct (b_owner c) as [| | | |[] []|]; naive_solver.
Qed.

Lemma oquiet_refl c : oquiet c c. Proof. by split_and!. Qed.
Lemma oquiet_trans c1 c2 c3 : oquiet c1 c2 -> oquiet c2 c3 -> oquiet c1 c3.
Proof. unfold oquiet. intuition congruence. Qed.
Lemma oquiet_close c : oquiet c (on_ws js_close c).
Proof. unfold oquiet, on_ws, js_close. destruct (ready (b_ws c)) eqn:E; split_and!; simpl; by rewrite ?E. Qed.
Lemma oquiet_push i r c : oquiet c (push i r c).1.
Proof. unfold push. by destruct (f_try_send i r (b_chan c)) as [[] ch]. Qed.
Lemma oquiet_signal r c : oquiet c (signal r c).
Proof. unfold signal. by destruct (b_open_tx c). Qed.
Lemma oquiet_drop_rx c : oquiet c (drop_rx c).
Proof. unfold drop_rx. by destruct (b_rx c). Qed.
Lemma oquiet_rx_next c : oquiet c (rx_next c).2.
Proof. unfold rx_next. by destruct (f_next (b_chan c)) as [[] ch]. Qed.
Lemma oquiet_send thrown m c : oquiet c (js_send thrown m c).1.
Proof. unfold js_send. destruct (check_send_capacity _ _ _); [|done..]. by destruct thrown. Qed.
Lemma oquiet_refuse i e c : oquiet c (refuse i e c).
Proof.
  unfold refuse. pose proof (oquiet_push i (Err e) c) as Hp. destruct (push i (Err e) c) as [c1 b].
  eapply oquiet_trans; [exact Hp|]. eapply oquiet_trans; [|apply oquiet_close]. done.
Qed.
Lemma oquiet_deliver i m c : oquiet c (deliver_message i m c).
Proof.
  unfold deliver_message. pose proof (oquiet_push i (Ok m) c) as Hp. destruct (push i (Ok m) c) as [c1 []]; [done|].
  eapply oquiet_trans; [exact Hp|]. eapply oquiet_trans; [|apply oquiet_close]. done.
Qed.
Lemma oquiet_message d c : oquiet c (on_message_event d c).
Proof. unfold on_message_event. repeat case_match; auto using oquiet_refuse, oquiet_deliver. Qed.
Lemma oquiet_error c : oquiet c (on_error_event c).
Proof.
  unfold on_error_event. pose proof (oquiet_push (b_tx c).1.2 (Err (Other "websocket error")) c) as Hp.
  by destruct (push _ _ c) as [c1 []].
Qed.
Lemma oquiet_onclose f c : oquiet c (on_close_event f c).
Proof.
  unfold on_close_event. set (c0 := set_close_frame (Some f) c).
  pose proof (oquiet_push (b_tx c0).2 (Err Closed) c0) as Hp. by destruct (push _ _ c0) as [c1 b].
Qed.

Lemma oquiet_event a c c' : b_event a c = Some c' -> oquiet c c'.
Proof.
  destruct a as [| |f|d|n| | | | | | | | | | | | |]; simpl; try done.
  - case_decide as Hr; [|done]. intros [= <-].
    assert (Ho : oquiet c (on_ws (set_ready OPEN) c)) by (split_and!; try done; simpl; by rewrite Hr).
    case_match; [|done]. case_match; [|done]. eapply oquiet_trans; [exact Ho|apply oquiet_signal].
  - intros [= <-]. repeat case_match; auto using oquiet_signal, oquiet_error, oquiet_refl.
  - case_decide as Hr; [done|]. intros [= <-].
    assert (Ho : oquiet c (on_ws (set_ready CLOSED) c)) by (by split_and!).
    repeat case_match; [..|done]; (eapply oquiet_trans; [exact Ho|]); auto using oquiet_signal, oquiet_onclose.
  - case_decide; [|done]. intros [= <-]. repeat case_match; auto using oquiet_message, oquiet_refl.
  - case_match; [|done]. intros [= <-]. by split_and!.
Qed.

Lemma oquiet_close_round c c' : close_result <$> b_close_round c = Some c' -> oquiet c c'.
Proof.
  unfold b_close_round. destruct (b_rx c); [|by intros [= <-]].
  pose proof (oquiet_rx_next c) as Hn. destruct (rx_next c) as [[[[m|[]|]|]|] c1]; simpl in *; try done;
    intros [= <-]; try done; (eapply oquiet_trans; [exact Hn|apply oquiet_drop_rx]).
Qed.

Lemma closing_js_close w : closing (ready (js_close w)) = true.
Proof. unfold js_close. by destruct (ready w) eqn:E; simpl; rewrite ?E. Qed.
Lemma js_close_callbacks w : onopen (js_close w) = onopen w /\ onmessage (js_close w) = onmessage w
  /\ onerror (js_close w) = onerror w /\ onclose (js_close w) = onclose w.
Proof. unfold js_close. by destruct (ready w). Qed.
Lemma detached_js_close w : detached w -> detached (js_close w).
Proof. unfold detached. by destruct (js_close_callbacks w) as (-> & -> & -> & ->). Qed.

Lemma own_guard c o :
  own_inv c -> b_owner c = Connecting -> (o = Cancelled \/ exists e, o = Failed e) ->
  own_inv (set_owner o (guard_drop c)).
Proof.
  intros [] Ho Hc. rewrite Ho in *. unfold guard_drop.
  assert (Hd : detached (js_close (set_callbacks None (onmessage (b_ws c)) None None (b_ws c)))
    /\ closing (ready (js_close (set_callbacks None (onmessage (b_ws c)) None None (b_ws c)))) = true).
  { split; [apply detached_js_close; split_and!; done|apply closing_js_close]. }
  destruct Hd as [Hd Hcl]. destruct Hc as [->|[e ->]]; constructor; simpl; try done; apply Hd.
Qed.

Lemma oquiet_sink_send thrown m c : oquiet c (bsink_start_send thrown m c).1.
Proof. unfold bsink_start_send. destruct (b_sink_closed c); [apply oquiet_refl|apply oquiet_send]. Qed.
Lemma oquiet_stream_poll c : oquiet c (bstream_poll_next c).2.
Proof.
  unfold bstream_poll_next. destruct (b_terminated c); [apply oquiet_refl|].
  pose proof (oquiet_rx_next c). by destruct (rx_next c) as [[[]|] c1].
Qed.

Lemma own_sink_close c : own_inv c -> own_inv (bsink_poll_close c).1.
Proof.
  intros HI. unfold bsink_poll_close. destruct (b_sink_closed c); [done|].
  destruct (own_quiet _ _ (oquiet_close c) HI). constructor; simpl; try done. intros _. apply closing_js_close.
Qed.
Lemma own_sink_drop c st :
  own_inv c -> b_owner c = Halves true st -> own_inv (set_owner (Halves false st) (bsink_drop c)).
Proof.
  intros [] Ho. rewrite Ho in *. unfold bsink_drop. set (n := saturating_sub (b_refs c) 1).
  assert (Hn : n = Z.b2z st) by (subst n; unfold saturating_sub; destruct st; simpl in *; lia).
  clearbody n. subst n. cbn [b_sink_closed set_refs]. destruct (js_close_callbacks (b_ws c)) as (J1 & J2 & J3 & J4).
  pose proof (closing_js_close (b_ws c)). destruct st; simpl.
  - by constructor.
  - destruct (b_sink_closed c) eqn:Es; simpl; constructor; simpl; unfold detached in *;
      rewrite ?J1, ?J2, ?J3, ?J4; auto.
Qed.
Lemma own_stream_drop c sk :
  own_inv c -> b_owner c = Halves sk true -> own_inv (set_owner (Halves sk false) (bstream_drop c)).
Proof.
  intros [] Ho. rewrite Ho in *. unfold bstream_drop. cbn [b_refs on_ws set_ws].
  set (n := saturating_sub (b_refs c) 1).
  assert (Hn : n = Z.b2z sk) by (subst n; unfold saturating_sub; destruct sk; simpl in *; lia).
  clearbody n. subst n. set (c1 := set_refs (Z.b2z sk) (on_ws detach c)).
  assert (Hd : detached (js_close (detach (b_ws c)))) by (by apply detached_js_close).
  pose proof (closing_js_close (detach (b_ws c))) as Hcl.
  destruct sk; simpl; unfold drop_rx; simpl; destruct (b_rx c); constructor; simpl; try done; apply Hd.
Qed.

Lemma own_step a c c' : own_inv c -> b_exec a c = Some c' -> own_inv c'.
Proof.
  intros HI. assert (Hev : b_event a c = Some c' -> own_inv c') by (intros He; by eapply own_quiet; [eapply oquiet_event|]).
  unfold b_exec. destruct (b_owner c) as [|e| | |sk st|] eqn:Eo.
  - destruct a; try exact Hev.
    + unfold connect_resume. destruct (b_open_res c) as [[[]|e|]|]; [| |done..]; intros [= <-].
      * unfold install. destruct (f_clone _) as [i ch]. destruct (f_clone ch) as [j ch']. destruct HI.
        rewrite Eo in *. by constructor.
      * apply own_guard; [|done|by eauto]. destruct HI. rewrite Eo in *. constructor; simpl; rewrite ?Eo; done.
    + intros [= <-]. apply own_guard; auto.
  - by destruct a.
  - by destruct a.
  - destruct a; try exact Hev; unfold b_send; intros Hx.
    + injection Hx as <-. eapply own_quiet; [apply oquiet_send|done].
    + injection Hx as <-. eapply own_quiet; [|done]. unfold b_recv. destruct (b_rx c); [|apply oquiet_refl].
      pose proof (oquiet_rx_next c). by destruct (rx_next c) as [[[]|] c1].
    + injection Hx as <-. eapply own_quiet; [|done]. unfold b_close_start. repeat case_decide; simpl;
        auto using oquiet_drop_rx, oquiet_refl, oquiet_close.
    + eapply own_quiet; [by eapply oquiet_close_round|done].
    + injection Hx as <-. unfold conn_drop. set (c1 := on_ws _ c).
      assert (Hd : detached (b_ws c1) /\ closing (ready (b_ws c1)) = true)
        by (split; [by apply detached_js_close|apply closing_js_close]).
      destruct Hd as [Hd Hcl]. destruct (oquiet_drop_rx c1) as (_ & _ & _ & F4 & F5 & F6 & F7 & F8).
      unfold detached in Hd. constructor; simpl; unfold detached; rewrite ?F4, ?F5, ?F6, ?F7; try done;
        [by apply Hd|split; [done|by apply F8]|intros _; by apply F8].
    + unfold b_split in Hx. destruct (b_rx c); [|done]. injection Hx as <-. destruct HI. by constructor.
  - destruct sk, st, a; try exact Hev; intros Hx; injection Hx as <-;
      first [ by apply own_sink_close | by apply own_sink_drop | by apply own_stream_drop
            | by eapply own_quiet; [apply oquiet_sink_send|] | by eapply own_quiet; [apply oquiet_stream_poll|] ].
  - by destruct a.
Qed.

(** C29: no socket is left behind.  Whatever the browser and the application do from the
    start of a connection attempt on: once the attempt failed or was cancelled, the
    connection was dropped, or both of its halves were, the socket is closing or
    closed and none of the callbacks, whose closures are gone, is attached to it. *)
Theorem no_orphaned_socket w l c :
  fresh w -> b_reach w l c ->
  match b_owner c with
  | Failed _ | Cancelled | Dropped | Halves false false =>
      detached (b_ws c) /\ closing (ready (b_ws c)) = true
  | _ => True
  end.
Proof.
  intros (Hr & Ho & Hm & He & Hcl & _) Hreach.
  assert (HI : own_inv c).
  { revert c Hreach. apply b_reach_ind; [by constructor|]. intros a c c'. apply own_step. }
  destruct HI. by destruct (b_owner c) as [| | | |[] []|].
Qed.
End Ownership.

Section Delivery.
Context {fchan : Type -> Type} `{FMpscLaws fchan} `{!UsizeWidth}.
Implicit Types c : BConn fchan.
Abbreviation bv c := (fview_of (b_chan c)).

(** Results after which nothing is queued any more. *)
Definition final_result (r : result Message) : bool :=
  match r with
  | Err (Other s) => negb (bool_decide (s = "websocket error"))
  | Err _ => true
  | _ => false
  end.

Record queue_inv l c : Prop := {
  fi_limits : b_limits c = l;
  fi_queue : b_rx c = true -> h_delivered c ++ fv_buf (bv c) = h_accepted c;
  fi_len : forall m, Ok m ∈ h_accepted c -> message_len m <= max_message_size l;
  fi_final : forall i r, h_accepted c !! i = Some r -> final_result r = true ->
    S i = length (h_accepted c) /\ fv_closed (bv c) = true;
  fi_buffered : 0 <= buffered_amount (b_ws c) <= max_write_buffer_size l
}.

(** Steps that neither queue nor take a result. *)
Definition fquiet c c' : Prop :=
  b_limits c' = b_limits c /\ h_delivered c' = h_delivered c /\ h_accepted c' = h_accepted c
  /\ (b_rx c' = true -> b_rx c = true /\ fv_buf (bv c') = fv_buf (bv c))
  /\ (fv_closed (bv c) = true -> fv_closed (bv c') = true)
  /\ buffered_amount (b_ws c') = buffered_amount (b_ws c).

Lemma flow_quiet l c c' : fquiet c c' -> queue_inv l c -> queue_inv l c'.
Proof.
  intros (E1 & E2 & E3 & E4 & E5 & E6) []. constructor; rewrite ?E1, ?E2, ?E3, ?E6; try done.
  - intros Hr. destruct (E4 Hr) as [Hr' ->]. auto.
  - intros i r Hi Hr. destruct (fi_final0 i r Hi Hr). auto.
Qed.
Lemma fquiet_ws f c : (forall w, buffered_amount (f w) = buffered_amount w) -> fquiet c (on_ws f c).
Proof. intros Hf. by split_and!; simpl. Qed.
Lemma fquiet_trans c1 c2 c3 : fquiet c1 c2 -> fquiet c2 c3 -> fquiet c1 c3.
Proof.
  intros (A1 & A2 & A3 & A4 & A5 & A6) (B1 & B2 & B3 & B4 & B5 & B6). split_and!; try congruence; [|auto].
  intros Hr. destruct (B4 Hr) as [Hr2 ->]. by destruct (A4 Hr2) as [? ->].
Qed.
Lemma js_close_buffered w : buffered_amount (js_close w) = buffered_amount w.
Proof. unfold js_close. by destruct (ready w). Qed.
Lemma fquiet_close c : fquiet c (on_ws js_close c).
Proof. apply fquiet_ws, js_close_buffered. Qed.
Lemma fquiet_channel c : fquiet c (close_channel c).
Proof. split_and!; simpl; try done; by rewrite fview_close_channel. Qed.
Lemma fquiet_drop_rx c : fquiet c (drop_rx c).
Proof. unfold drop_rx. destruct (b_rx c) eqn:E; split_and!; simpl; try done. by rewrite fview_rx_drop. Qed.

(** Queueing a result that may be followed by others. *)
Lemma flow_push l i r c :
  queue_inv l c -> final_result r = false -> (forall m, r = Ok m -> message_len m <= max_message_size l) ->
  queue_inv l (push i r c).1.
Proof.
  intros HI Hnf Hlen. unfold push. pose proof (fview_try_send _ i r (b_chan c)) as Hv.
  pose proof (try_send_closed _ i r (b_chan c)) as Hcl.
  destruct (f_try_send i r (b_chan c)) as [[] ch]; simpl in *;
    [|eapply flow_quiet; [|done]; split_and!; simpl; try done; by rewrite Hv..].
  destruct HI. constructor; simpl; rewrite ?Hv; simpl; try done.
  - intros Hr. by rewrite app_assoc, fi_queue0.
  - intros m [Hm|Hm%list_elem_of_singleton]%elem_of_app; eauto.
  - intros j r' Hj Hf. apply lookup_snoc_inv in Hj as [Hj|[-> <-]]; [|congruence].
    destruct (fi_final0 j r' Hj Hf) as [_ Hc]. by apply Hcl in Hc.
Qed.

(** Queueing the last result and closing the channel. *)
Lemma flow_last l i e c : queue_inv l c -> queue_inv l (close_channel (push i (Err e) c).1).
Proof.
  intros HI. unfold push. pose proof (fview_try_send _ i (Err e) (b_chan c)) as Hv.
  pose proof (try_send_closed _ i (Err e) (b_chan c)) as Hcl.
  destruct (f_try_send i (Err e) (b_chan c)) as [[] ch]; simpl in *;
    [|eapply flow_quiet; [|done]; split_and!; simpl; try done; by rewrite fview_close_channel, ?Hv..].
  destruct HI. constructor; simpl; rewrite ?fview_close_channel, ?Hv; simpl; try done.
  - intros Hr. by rewrite app_assoc, fi_queue0.
  - intros m [Hm|Hm%list_elem_of_singleton]%elem_of_app; [auto|done].
  - intros j r' Hj Hf. split; [|done]. rewrite length_app. simpl.
    apply lookup_snoc_inv in Hj as [Hj|[-> ->]]; [|lia].
    destruct (fi_final0 j r' Hj Hf) as [_ Hc]. by apply Hcl in Hc.
Qed.

Lemma flow_refuse l i e c : queue_inv l c -> queue_inv l (refuse i e c).
Proof.
  intros HI. unfold refuse. pose proof (flow_last l i e c HI) as Hl. destruct (push i (Err e) c) as [c1 b].
  eapply flow_quiet; [apply fquiet_close|done].
Qed.
Lemma flow_deliver l i m c : queue_inv l c -> message_len m <= max_message_size l -> queue_inv l (deliver_message i m c).
Proof.
  intros HI Hm. unfold deliver_message. pose proof (flow_push l i (Ok m) c HI eq_refl) as Hp.
  destruct (push i (Ok m) c) as [c1 []]; simpl in Hp; [apply Hp; by intros ? [= <-]|].
  eapply flow_quiet; [eapply fquiet_trans; [apply fquiet_channel|apply fquiet_close]|]. apply Hp. by intros ? [= <-].
Qed.

Lemma flow_signal l r c : queue_inv l c -> queue_inv l (signal r c).
Proof. apply flow_quiet. unfold signal. by destruct (b_open_tx c). Qed.

Lemma flow_event l a c c' : queue_inv l c -> b_event a c = Some c' -> queue_inv l c'.
Proof.
  intros HI. destruct a as [| |f|d|n| | | | | | | | | | | | |]; simpl; try done.
  - case_decide; [|done]. intros [= <-].
    assert (Hc : queue_inv l (on_ws (set_ready OPEN) c)) by (by eapply flow_quiet; [apply fquiet_ws|]).
    repeat case_match; auto using flow_signal.
  - intros [= <-]. repeat case_match; auto using flow_signal. unfold on_error_event.
    pose proof (flow_push l (b_tx c).1.2 (Err (Other "websocket error")) c HI eq_refl) as Hp.
    destruct (push _ _ c) as [c1 []]; simpl in Hp; [by apply Hp|]. eapply flow_quiet; [apply fquiet_channel|by apply Hp].
  - case_decide; [done|]. intros [= <-].
    assert (Hc : queue_inv l (on_ws (set_ready CLOSED) c)) by (by eapply flow_quiet; [apply fquiet_ws|]).
    repeat case_match; auto using flow_signal. unfold on_close_event.
    set (d := set_close_frame (Some f) _). assert (Hd : queue_inv l d) by (by eapply flow_quiet; [|exact Hc]).
    pose proof (flow_last l (b_tx d).2 Closed d Hd) as Hl. by destruct (push _ _ d) as [c1 b].
  - case_decide; [|done]. intros [= <-]. repeat case_match; try done. unfold on_message_event.
    rewrite (fi_limits _ _ HI). destruct d as [s|b|]; repeat case_match; try (by apply flow_refuse);
      apply flow_deliver; try done; simpl in *; lia.
  - case_match; [|done]. intros [= <-]. destruct HI. constructor; simpl; try done. lia.
Qed.

Lemma flow_rx_next l c : queue_inv l c -> queue_inv l (rx_next c).2.
Proof.
  intros HI. unfold rx_next. pose proof (f_next_res _ (b_chan c)) as Hr. pose proof (fview_next _ (b_chan c)) as Hv.
  unfold fv_next in Hr, Hv. destruct (f_next (b_chan c)) as [[r| |] ch]; simpl in *; [| |done].
  - destruct (fv_buf (bv c)) as [|r' q] eqn:E; simpl in *; [by destruct (_ || _)|]. injection Hr as ->.
    destruct HI. constructor; simpl; rewrite ?Hv; simpl; try done. intros Hx. by rewrite <- app_assoc, <- fi_queue0, E.
  - destruct (fv_buf (bv c)) eqn:E; simpl in *; [|done]. eapply flow_quiet; [|done].
    split_and!; simpl; try done; rewrite Hv; by rewrite ?E.
Qed.

(** A message that is sent fits the write buffer. *)
Lemma flow_send l thrown m c :
  queue_inv l c -> max_write_buffer_size l < usize_max -> queue_inv l (js_send thrown m c).1.
Proof.
  intros HI Hmax. unfold js_send, check_send_capacity. rewrite (fi_limits _ _ HI). pose proof (fi_buffered _ _ HI) as Hb.
  rewrite Z.min_l by lia. assert (0 <= message_len m) by (unfold message_len, blen; destruct m; lia).
  unfold saturating_add_usize. destruct (_ <? _) eqn:E; [done|]. destruct thrown; [done|].
  destruct HI. constructor; simpl; try done. lia.
Qed.

Lemma fquiet_owner o c : fquiet c (set_owner o c). Proof. by split_and!. Qed.

Lemma flow_close_round l c c' : queue_inv l c -> close_result <$> b_close_round c = Some c' -> queue_inv l c'.
Proof.
  intros HI. unfold b_close_round. destruct (b_rx c); [|by intros [= <-]].
  pose proof (flow_rx_next l c HI) as Hn. destruct (rx_next c) as [[[[m|[]|]|]|] c1]; simpl in *; try done;
    intros [= <-]; try done; (eapply flow_quiet; [apply fquiet_drop_rx|done]).
Qed.

Lemma flow_resume l c c' : queue_inv l c -> connect_resume c = Some c' -> queue_inv l c'.
Proof.
  intros HI. unfold connect_resume. set (c1 := on_ws _ c).
  assert (Hc1 : queue_inv l c1) by (by eapply flow_quiet; [apply fquiet_ws|]).
  destruct (b_open_res c) as [[[]|e|]|]; [| |done..]; intros [= <-].
  - unfold install. pose proof (fview_clone _ (b_chan c1)) as Ha. destruct (f_clone (b_chan c1)) as [i ch].
    pose proof (fview_clone _ ch) as Hb. destruct (f_clone ch) as [j ch']. simpl in Ha, Hb.
    eapply flow_quiet; [|exact Hc1]. split_and!; simpl; try done; by rewrite Hb, Ha.
  - eapply flow_quiet; [apply fquiet_owner|]. unfold guard_drop. eapply flow_quiet; [|exact Hc1].
    apply fquiet_ws. intros w. by rewrite js_close_buffered.
Qed.

Lemma flow_stream_poll l c : queue_inv l c -> queue_inv l (bstream_poll_next c).2.
Proof.
  intros HI. unfold bstream_poll_next. destruct (b_terminated c); [done|].
  pose proof (flow_rx_next l c HI) as Hn. destruct (rx_next c) as [[[r|]|] c1]; [done| |done].
  eapply flow_quiet; [|exact Hn]. by split_and!.
Qed.

Lemma flow_drops c sk st :
  fquiet c (set_owner Dropped (drop_rx (on_ws (fun w => js_close (detach w)) c)))
  /\ fquiet c (set_owner (Halves sk st) (bsink_drop c)) /\ fquiet c (set_owner (Halves sk st) (bstream_drop c)).
Proof.
  split_and!.
  - eapply fquiet_trans; [|apply fquiet_owner]. eapply fquiet_trans; [|apply fquiet_drop_rx].
    apply fquiet_ws. intros w. by rewrite js_close_buffered.
  - eapply fquiet_trans; [|apply fquiet_owner]. unfold bsink_drop. cbv zeta. case_match; [|done].
    eapply fquiet_trans; [|by split_and!]. eapply fquiet_trans; [|apply fquiet_close]. done.
  - eapply fquiet_trans; [|apply fquiet_owner]. unfold bstream_drop. cbv zeta.
    eapply fquiet_trans; [|apply fquiet_drop_rx]. case_match; [|done].
    eapply fquiet_trans; [|apply fquiet_close]. done.
Qed.

Lemma queue_step l a c c' :
  max_write_buffer_size l < usize_max -> queue_inv l c -> b_exec a c = Some c' -> queue_inv l c'.
Proof.
  intros Hmax HI. pose proof (fun t m => flow_send l t m c HI Hmax) as Hsend. pose proof (flow_drops c) as Hdrops.
  assert (Hev : b_event a c = Some c' -> queue_inv l c') by (by apply flow_event).
  unfold b_exec. destruct (b_owner c) as [|e| | |sk st|] eqn:Eo; try (by destruct a).
  - destruct a; try exact Hev; [by apply flow_resume|]. intros [= <-]. eapply flow_quiet; [|done].
    eapply fquiet_trans; [|apply fquiet_owner]. apply fquiet_ws. intros w. by rewrite js_close_buffered.
  - destruct a; try exact Hev; intros Hx.
    + injection Hx as <-. apply Hsend.
    + injection Hx as <-. unfold b_recv. destruct (b_rx c); [|done].
      pose proof (flow_rx_next l c HI). by destruct (rx_next c) as [[[]|] c1].
    + injection Hx as <-. eapply flow_quiet; [|done]. unfold b_close_start.
      repeat case_decide; simpl; auto using fquiet_drop_rx, fquiet_close. by split_and!.
    + by eapply flow_close_round.
    + injection Hx as <-. eapply flow_quiet; [apply (Hdrops true true)|done].
    + unfold b_split in Hx. destruct (b_rx c) eqn:Er; [|done]. injection Hx as <-. eapply flow_quiet; [|done]. by split_and!.
  - destruct sk, st, a; try exact Hev; intros Hx; injection Hx as <-;
      first [ by apply flow_stream_poll
            | unfold bsink_start_send; destruct (b_sink_closed c); [done|apply Hsend]
            | unfold bsink_poll_close; destruct (b_sink_closed c); [done|]; eapply flow_quiet; [|done];
              eapply fquiet_trans; [apply fquiet_close|by split_and!]
            | by eapply flow_quiet; [apply Hdrops|] ].
Qed.

(** C28: a browser connection delivers what it queued.  As long as the receiver is not
    dropped, what the application got and what is queued are the results the
    callbacks queued, each once and in order; no message is larger than the limit;
    an error other than the browser's error event is the last result; and the
    browser never buffers more than the write limit. *)
Theorem browser_delivery w l c :
  fresh w -> 0 <= max_write_buffer_size l < usize_max -> b_reach w l c ->
  (b_rx c = true -> h_delivered c ++ fv_buf (fview_of (b_chan c)) = h_accepted c)
  /\ (forall m, Ok m ∈ h_accepted c -> message_len m <= max_message_size l)
  /\ (forall i r, h_accepted c !! i = Some r -> final_result r = true -> S i = length (h_accepted c))
  /\ 0 <= buffered_amount (b_ws c) <= max_write_buffer_size l.
Proof.
  intros (_ & _ & _ & _ & _ & Hb & _) Hmax Hreach.
  assert (HI : queue_inv l c).
  { revert c Hreach. apply b_reach_ind.
    - constructor; simpl; try done; [by rewrite fview_channel|by intros m ?%elem_of_nil|lia].
    - intros a c c'. apply queue_step. lia. }
  destruct HI. split_and!; try done; [|lia..]. intros i r Hi Hr. by destruct (fi_final0 i r Hi Hr).
Qed.
End Delivery.

(** *** Concrete connections *)
Section Demo.
#[local] Existing Instance usize32.

Definition demo_ws : WebSocket := mkWebSocket CONNECTING None None None None 0 [].
Definition browser_demo : list b_label :=
  [EvOpen; Resume; EvMessage (JsString "a"); Send None (Binary [x01; x02]); Recv; DoSplit;
   EvMessage (JsArrayBuffer [x03]); EvMessage JsOther; SinkDrop; EvClose (mkCloseFrame 1000 "")].
Definition browser_end : BConn fview :=
  default (connect_start demo_ws WebSocketLimits_default)
    (b_run browser_demo (connect_start demo_ws WebSocketLimits_default)).

Lemma browser_delivery_witness :
  h_delivered browser_end = [Ok (Text "a")]
  /\ h_accepted browser_end = [Ok (Text "a"); Ok (Binary [x03]); Err (Protocol "unsupported message type")]
  /\ h_delivered browser_end ++ fv_buf (fview_of (b_chan browser_end)) = h_accepted browser_end.
Proof.
  split; [vm_compute; reflexivity|]. split; [vm_compute; reflexivity|].
  apply (browser_delivery demo_ws WebSocketLimits_default).
  - repeat split.
  - vm_compute. split; [discriminate|reflexivity].
  - exists browser_demo. vm_compute. reflexivity.
  - vm_compute. reflexivity.
Defined.

Definition cancelled_end : BConn fview :=
  default (connect_start demo_ws WebSocketLimits_default)
    (b_run [EvError; Cancel] (connect_start demo_ws WebSocketLimits_default)).

Lemma no_orphaned_socket_witness :
  b_owner cancelled_end = Cancelled
  /\ detached (b_ws cancelled_end) /\ closing (ready (b_ws cancelled_end)) = true.
Proof.
  split; [vm_compute; reflexivity|].
  apply (no_orphaned_socket demo_ws WebSocketLimits_default cancelled_end).
  - repeat split.
  - exists [EvError; Cancel]. vm_compute. reflexivity.
Defined.
End Demo.
