(* ===== verification/Batching.v ===== *)
(** * Batches on the wire

    Both writers pack several frames into one binary message, and both readers take a
    message apart again.  This file composes the writer of one implementation with the
    reader of the other: the browser's [wasm_make_batch] with the native
    [inbound_binary], and the native [writer_loop] with the browser's
    [wasm_on_message].  Batching is transparent: the peer handles the frames that were
    queued, each once and in the order of the queue. *)

From S2P Require Import Prelude Buf VarInt Frame Proto Limits SendFlow Channel Async NativeState.
From S2P Require Import NativeOps NativeStream NativeRecv NativeSession NativeTasks FuturesChannel.
From S2P Require Import WasmState WasmOps WasmStreams WasmSession ByteStream NativeReads.
Open Scope mux_scope.

(** ** Batches *)
Definition packed (fs : list Frame) : list byte := mjoin (frame_bytes <$> fs).

(** A batch keeps the limits, unless its only frame is larger than they allow. *)
Record batch_of (l : Limits) (fs : list Frame) : Prop := {
  bo_some : fs <> [];
  bo_frames : Z.of_nat (length fs) <= Z.max 1 (max_batch_frames l);
  bo_bytes : blen (packed fs) <= batch_limit l \/ length fs = 1%nat
}.

Lemma packed_snoc fs f : packed (fs ++ [f]) = packed fs ++ frame_bytes f.
Proof. unfold packed. rewrite fmap_app, join_app. simpl. by rewrite app_nil_r. Qed.
Lemma blen_app (a b : list byte) : blen (a ++ b) = blen a + blen b.
Proof. unfold blen. rewrite length_app. lia. Qed.
Lemma frame_bytes_pos f : frame_ok f -> (0 < length (frame_bytes f))%nat.
Proof. destruct f; simpl; lia. Qed.
Lemma packed_nil fs : Forall frame_ok fs -> packed fs = [] -> fs = [].
Proof.
  destruct fs as [|f fs]; [done|]. intros [Hf _]%Forall_cons Hp. apply app_eq_nil in Hp as [Hp _].
  pose proof (frame_bytes_pos f Hf). rewrite Hp in *. simpl in *. lia.
Qed.
Lemma Frame_encode_list f : frame_ok f -> Frame_encode f = Ok (frame_bytes f).
Proof. intros (b & -> & Hb)%(Frame_encode_bytes (M := list byte)). simpl in Hb. by rewrite Hb. Qed.

(** A message that fits the address space holds frames that do. *)
Lemma fits_packed `{UsizeWidth} fs : blen (packed fs) <= usize_max -> Forall fits_usize fs.
Proof.
  induction fs as [|f fs IH]; [by constructor|]. change (packed (f :: fs)) with (frame_bytes f ++ packed fs).
  rewrite blen_app. intros Hle. constructor; [|apply IH; unfold blen in *; lia].
  destruct f; cbn [frame_bytes fits_usize] in *; try done; rewrite !blen_app in Hle; unfold blen in *; lia.
Qed.

Lemma decode_packed `{UsizeWidth} f fs :
  frame_ok f -> fits_usize f -> Frame_decode (packed (f :: fs)) = Ok (f, packed fs).
Proof. intros Hok Hfit. apply Frame_decode_wire; [done|by apply frame_bytes_wire]. Qed.
Lemma packed_has_remaining f fs : frame_ok f -> has_remaining (packed (f :: fs)) = true.
Proof.
  intros Hok. unfold has_remaining. apply Z.ltb_lt. simpl. pose proof (frame_bytes_pos f Hok).
  change (packed (f :: fs)) with (frame_bytes f ++ packed fs). rewrite length_app. lia.
Qed.

(** ** The readers *)
Section Readers.
Context {chan : Type -> Type} `{Mpsc chan} `{MapOrder}.

(** Handle frames one after the other, up to the first error. *)
Fixpoint handle_frames (fs : list Frame) : nprog chan bool :=
  match fs with
  | [] => Ret true
  | f :: fs => let* r := handle_frame f in if is_ok r then handle_frames fs else Ret false
  end.

Lemma inbound_packed `{UsizeWidth} fs fuel (s : SessionInner chan) :
  Forall frame_ok fs -> Forall fits_usize fs -> (length (packed fs) <= fuel)%nat ->
  run (inbound_frames fuel (packed fs)) s = run (handle_frames fs) s.
Proof.
  revert fuel s. induction fs as [|f fs IH]; intros fuel s; [by destruct fuel|].
  intros [Hok Hoks]%Forall_cons [Hf Hfs]%Forall_cons Hlen.
  change (packed (f :: fs)) with (frame_bytes f ++ packed fs) in Hlen. rewrite length_app in Hlen.
  pose proof (frame_bytes_pos f Hok). destruct fuel as [|fuel]; [lia|].
  cbn [inbound_frames handle_frames]. rewrite packed_has_remaining, decode_packed by done.
  rewrite !run_bind. destruct (run (handle_frame f) s) as [s1 [r|]]; [|done].
  destruct (is_ok r); [|done]. apply IH; [done..|lia].
Qed.

Lemma inbound_batch `{UsizeWidth} fs (s : SessionInner chan) :
  Forall frame_ok fs -> blen (packed fs) <= max_ws_message_size (limits s) <= usize_max ->
  run (inbound_binary (packed fs)) s = run (handle_frames fs) s.
Proof.
  intros Hok Hlen. unfold inbound_binary. rewrite run_bind. simpl.
  replace (_ <? _) with false by (symmetry; apply Z.ltb_ge; lia).
  apply inbound_packed; [done|apply fits_packed; lia|lia].
Qed.
End Readers.

Section BrowserReader.
Context {fchan : Type -> Type} `{FMpsc fchan} `{MapOrder}.

Fixpoint wasm_handle_frames (fs : list Frame) : wst fchan bool :=
  match fs with
  | [] => mret true
  | f :: fs => r ← wasm_handle_frame f; if is_ok r then wasm_handle_frames fs else mret false
  end.

Lemma wasm_inbound_packed `{UsizeWidth} fs fuel (s : WasmSession fchan) :
  Forall frame_ok fs -> Forall fits_usize fs -> (length (packed fs) <= fuel)%nat ->
  wasm_inbound_frames fuel (packed fs) s = wasm_handle_frames fs s.
Proof.
  revert fuel s. induction fs as [|f fs IH]; intros fuel s; [by destruct fuel|].
  intros [Hok Hoks]%Forall_cons [Hf Hfs]%Forall_cons Hlen.
  change (packed (f :: fs)) with (frame_bytes f ++ packed fs) in Hlen. rewrite length_app in Hlen.
  pose proof (frame_bytes_pos f Hok). destruct fuel as [|fuel]; [lia|].
  cbn [wasm_inbound_frames wasm_handle_frames]. rewrite packed_has_remaining, decode_packed by done.
  unfold mbind, wst_bind. destruct (wasm_handle_frame f s) as [s1 r].
  destruct (is_ok r); [|done]. apply IH; [done..|lia].
Qed.

Lemma wasm_on_batch `{UsizeWidth} fs (s : WasmSession fchan) :
  Forall frame_ok fs -> blen (packed fs) <= max_ws_message_size (w_limits s) <= usize_max ->
  wasm_on_message (Ok (Binary (packed fs))) s = wasm_handle_frames fs s.
Proof.
  intros Hok Hlen. unfold wasm_on_message. replace (_ <? _) with false by (symmetry; apply Z.ltb_ge; lia).
  apply wasm_inbound_packed; [done|apply fits_packed; lia|lia].
Qed.
End BrowserReader.

(** ** The browser's writer *)
Section BrowserWriter.
Context {fchan : Type -> Type} `{FMpscLaws fchan}.
Implicit Types s : WasmSession fchan.

Definition cmd_frame (c : wasm_OutboundCmd) : Frame := match c with WFrame f => f end.
Definition queued_frames s : list Frame := cmd_frame <$> fv_buf (fview_of (w_outbound s)).

Lemma try_recv_queued s :
  exists s', w_limits s' = w_limits s /\
    match queued_frames s with
    | [] => w_try_recv s = (s', None) /\ queued_frames s' = []
    | f :: q => w_try_recv s = (s', Some f) /\ queued_frames s' = q
    end.
Proof.
  unfold w_try_recv, queued_frames. pose proof (f_next_res _ (w_outbound s)) as Hr.
  pose proof (fview_next _ (w_outbound s)) as Hv. unfold fv_next in Hr, Hv.
  destruct (f_next (w_outbound s)) as [r c]. simpl in Hr, Hv.
  destruct (fv_buf (fview_of (w_outbound s))) as [|[f] q] eqn:E; simpl in *.
  - destruct (_ || _); subst r; exists (set_w_outbound c s); (split_and!; [done|done|simpl; by rewrite Hv, E]).
  - subst r. exists (set_w_outbound c s). split_and!; [done|done|simpl; by rewrite Hv].
Qed.

Lemma batch_extend l fs f :
  batch_of l fs -> Z.of_nat (length fs) < max_batch_frames l ->
  blen (packed fs) + blen (frame_bytes f) <= batch_limit l -> batch_of l (fs ++ [f]).
Proof.
  intros [Hs _ _] Hn Hb. split; [by destruct fs|rewrite length_app; simpl; lia|].
  left. by rewrite packed_snoc, blen_app.
Qed.

Lemma fill_batch fuel fs s :
  Forall frame_ok fs -> Forall frame_ok (queued_frames s) -> batch_of (w_limits s) fs ->
  exists more kept s',
    wasm_fill_batch fuel (packed fs) (Z.of_nat (length fs)) s = (s', Some (packed (fs ++ more), kept))
    /\ batch_of (w_limits s) (fs ++ more) /\ queued_frames s = more ++ option_list kept ++ queued_frames s'.
Proof.
  revert fs s. induction fuel as [|fuel IH]; intros fs s Hok Hq Hb; cbn [wasm_fill_batch].
  { exists [], None, s. by rewrite app_nil_r. }
  destruct (_ || _) eqn:Hfull. { exists [], None, s. by rewrite app_nil_r. }
  apply orb_false_iff in Hfull as [Hn%Z.leb_gt Hl%Z.leb_gt].
  destruct (try_recv_queued s) as (s1 & Hl1 & Hr). destruct (queued_frames s) as [|f q]; destruct Hr as [-> Hq1].
  { exists [], None, s1. by rewrite app_nil_r, Hq1. }
  apply Forall_cons in Hq as [Hf Hq]. rewrite (Frame_encode_list f Hf), Hl1.
  destruct (negb _ && _) eqn:Hbig; [exists [], (Some f), s1; by rewrite app_nil_r, Hq1|].
  assert (Hfit : blen (packed fs) + blen (frame_bytes f) <= w_batch_limit (w_limits s)).
  { rewrite bool_decide_false in Hbig; [simpl in Hbig; lia|]. intros Hp%packed_nil; [|done]. by destruct Hb. }
  destruct (IH (fs ++ [f]) s1) as (more & kept & s2 & Hrun & Hb2 & Hq2).
  { apply Forall_app. by split; [|constructor]. }
  { by rewrite Hq1. }
  { rewrite Hl1. by apply batch_extend. }
  exists (f :: more), kept, s2. replace (fs ++ f :: more) with ((fs ++ [f]) ++ more) by (by rewrite <- app_assoc).
  rewrite Hl1 in Hb2. rewrite length_app, packed_snoc, Nat2Z.inj_add in Hrun. split_and!; [exact Hrun|done|].
  simpl. by rewrite <- Hq2, Hq1.
Qed.
End BrowserWriter.

(** C22: a batch of the browser session reaches the native peer as the frames it is made
    of.  The batch starts with the given frame and goes on with the frames of the
    queue, in order; a frame that was taken but does not fit is kept for the next
    batch, and none is lost.  It is never empty, keeps the limits on frames and bytes
    (a single oversized frame aside), and no frame is refused by the encoder.  A
    native session that accepts its size does exactly what handling the frames one
    after the other does. *)
Theorem browser_batch_received `{FMpscLaws fchan} `{Mpsc chan} `{MapOrder} `{UsizeWidth} f
    (s : WasmSession fchan) :
  Forall frame_ok (f :: queued_frames s) ->
  exists fs kept s',
    wasm_make_batch f s = (s', Some (packed fs, kept))
    /\ head fs = Some f /\ batch_of (w_limits s) fs
    /\ f :: queued_frames s = fs ++ option_list kept ++ queued_frames s'
    /\ forall p : SessionInner chan,
         blen (packed fs) <= max_ws_message_size (limits p) <= usize_max ->
         run (inbound_binary (packed fs)) p = run (handle_frames fs) p.
Proof.
  intros [Hf Hq]%Forall_cons. unfold wasm_make_batch. rewrite (Frame_encode_list f Hf).
  assert (Hb : batch_of (w_limits s) [f]) by (split; [done|simpl; lia|by right]).
  destruct (fill_batch (Z.to_nat (max_batch_frames (w_limits s))) [f] s) as (more & kept & s' & Hrun & Hb' & Hs');
    [by constructor|done..|].
  exists (f :: more), kept, s'. replace (packed [f]) with (frame_bytes f) in Hrun by (symmetry; apply app_nil_r).
  split_and!; [exact Hrun|done|exact Hb'|by rewrite Hs'|]. intros p. apply inbound_batch.
  constructor; [done|]. rewrite Hs' in Hq. by apply Forall_app in Hq as [? _].
Qed.

(** ** The native writer *)
Section NativeWriter.
Context {chan : Type -> Type} `{MpscLaws chan} `{!MapOrder} `{!MapOrderLaws}.
Context (sink : list WsMessage -> WsMessage -> outcome TungsteniteError unit).
Context (sink_flush : list WsMessage -> outcome TungsteniteError unit).
Context (Hsink : forall sent m, sink sent m = Ok tt).
Implicit Types s : SessionInner chan.

Definition n_queued s : list OutboundCmd := cv_buf (view (outbound s)).
Definition on_wire (gs : list (list Frame)) : list WsMessage := (fun g => WsBinary (packed g)) <$> gs.
Definition wrote (gs : list (list Frame)) s : SessionInner chan := set_wire (wire s ++ on_wire gs) s.

(** The writer holds the frames [cur], and can take another one. *)
Definition holding (cur : list Frame) : Writer := mkWriter (packed cur) (Z.of_nat (length cur)) false.
Definition roomy (l : Limits) (cur : list Frame) : Prop :=
  cur = [] \/ batch_of l cur /\ Z.of_nat (length cur) < max_batch_frames l.

Lemma wrote_nil s : wrote [] s = s.
Proof. unfold wrote. simpl. rewrite app_nil_r. by destruct s. Qed.
Lemma wrote_app a b s : wrote b (wrote a s) = wrote (a ++ b) s.
Proof. unfold wrote, on_wire. simpl. by rewrite fmap_app, app_assoc. Qed.

Lemma run_flush fs s :
  Forall frame_ok fs -> fs <> [] ->
  run (flush_batch sink (holding fs)) s = (wrote [fs] s, Some (Ok tt)).
Proof.
  intros Hok Hne. unfold flush_batch. cbn [batch holding].
  destruct (packed fs) as [|b p] eqn:E; [by apply packed_nil in E|]. rewrite <- E.
  unfold sink_send. simpl. by rewrite Hsink.
Qed.

(** A frame that does not fit is preceded by a flush. *)
Definition flush_first (l : Limits) (cur : list Frame) (f : Frame) : list (list Frame) * list Frame :=
  if flush_before l (holding cur) (blen (frame_bytes f)) then ([cur], []) else ([], cur).

Lemma flush_first_batch l cur f :
  Forall frame_ok cur -> roomy l cur ->
  Forall (batch_of l) (flush_first l cur f).1 /\ batch_of l ((flush_first l cur f).2 ++ [f])
  /\ mjoin (flush_first l cur f).1 ++ (flush_first l cur f).2 = cur.
Proof.
  intros Hok Hr. unfold flush_first, flush_before. cbn [batch holding].
  assert (Hone : batch_of l [f]) by (split; [done|simpl; lia|by right]).
  destruct cur as [|g cur']; [done|]. destruct Hr as [|[Hb Hn]]; [done|].
  rewrite bool_decide_false by (by intros ?%packed_nil). simpl negb. cbn [andb].
  destruct (_ <? _) eqn:E; simpl mjoin; cbn [fst snd].
  - rewrite !app_nil_r. split_and!; [by constructor|done|done].
  - apply Z.ltb_ge in E. split_and!; [by constructor|by apply batch_extend|done].
Qed.

Lemma write_step cur f s :
  Forall frame_ok cur -> frame_ok f -> roomy (limits s) cur ->
  exists gs cur',
    run (write_frame sink (holding cur) f) s = (wrote gs s, Some (Some (holding cur')))
    /\ mjoin gs ++ cur' = cur ++ [f] /\ Forall (batch_of (limits s)) gs /\ roomy (limits s) cur'
    /\ (n_queued s = [] -> cur' = []).
Proof.
  intros Hok Hf Hr. unfold write_frame. rewrite (Frame_encode_list f Hf), run_gets.
  destruct (flush_first_batch (limits s) cur f Hok Hr) as (Hgs & Hb & Hsplit).
  set (g1 := (flush_first (limits s) cur f).1) in *. set (c1 := (flush_first (limits s) cur f).2) in *.
  assert (Hc1 : Forall frame_ok c1).
  { rewrite <- Hsplit in Hok. by apply Forall_app in Hok as [_ ?]. }
  rewrite run_bind.
  replace (run _ s) with (wrote g1 s, Some (Some (holding c1))); last first.
  { subst g1 c1. unfold flush_first. destruct (flush_before _ _ _) eqn:E; [|by rewrite wrote_nil].
    rewrite run_bind, run_flush; [done|done|]. intros ->. by unfold flush_before in E. }
  cbn [fst snd]. rewrite run_gets.
  replace (batch_add (holding c1) (frame_bytes f)) with (holding (c1 ++ [f])).
  2: { unfold holding, batch_add. rewrite packed_snoc, length_app, Nat2Z.inj_add. done. }
  destruct (flush_after _ _ _) eqn:E.
  - exists (g1 ++ [c1 ++ [f]]), []. rewrite run_bind, run_flush; [|by apply Forall_app; split; [|constructor]|by destruct c1].
    rewrite wrote_app. split_and!; [done| |by apply Forall_app; split; [|constructor]|by left|done].
    rewrite join_app. simpl. rewrite !app_nil_r, app_assoc. by rewrite Hsplit.
  - exists g1, (c1 ++ [f]). unfold flush_after in E. apply orb_false_iff in E as [[E1%Z.leb_gt E2]%orb_false_iff E3].
    split_and!; [done|by rewrite app_assoc, Hsplit|done|right; split; [done|exact E1]|].
    intros Hq. unfold wrote in E3. simpl in E3. rewrite rx_is_empty_view in E3. unfold n_queued in Hq. by rewrite Hq in E3.
Qed.

(** Nothing but queued commands can wake the writer. *)
Record undisturbed s : Prop := {
  ud_credit : pending_credit s = ∅;
  ud_cancel : cancel s = false;
  ud_peer : peer_close_notify s = false;
  ud_senders : cv_senders (view (outbound s)) <> 0
}.

Lemma next_queued prefer s :
  undisturbed s ->
  match n_queued s with
  | [] => next_event prefer false s = None
  | c :: q => exists s1, next_event prefer false s = Some (s1, Cmd (Some c)) /\ undisturbed s1
                /\ n_queued s1 = q /\ wire s1 = wire s /\ limits s1 = limits s
  end.
Proof.
  intros [Hc Hx Hp Hs]. unfold next_event, n_queued. rewrite Hp, Hx, Hc.
  destruct (first_entry ∅) as [[id mx]|] eqn:E; [by apply first_entry_some in E|].
  pose proof (recv_res_view _ (outbound s)) as Hr. pose proof (recv_view _ (outbound s)) as Hv. unfold cv_recv in Hr, Hv.
  destruct (rx_recv (outbound s)) as [r c]. simpl in Hr, Hv.
  destruct (cv_buf (view (outbound s))) as [|m q]; subst r.
  - destruct (Z.eqb_spec (cv_senders (view (outbound s))) 0); done.
  - exists (set_outbound c s). split_and!; try done; [constructor; simpl; by rewrite ?Hv|simpl; by rewrite Hv].
Qed.

Lemma writer_drains prefer fs : forall cur rounds s,
  undisturbed s -> n_queued s = CmdFrame <$> fs -> (fs = [] -> cur = []) ->
  Forall frame_ok (cur ++ fs) -> roomy (limits s) cur -> (length fs < rounds)%nat ->
  exists gs s', run (writer_loop sink sink_flush prefer rounds (holding cur)) s = (s', None)
    /\ mjoin gs = cur ++ fs /\ Forall (batch_of (limits s)) gs
    /\ wire s' = wire s ++ on_wire gs /\ n_queued s' = [].
Proof.
  induction fs as [|f fs IH]; intros cur rounds s Hu Hq Hcur Hok Hr Hrounds;
    (destruct rounds as [|rounds]; [simpl in Hrounds; lia|]); cbn [writer_loop];
    pose proof (next_queued (prefer rounds) s Hu) as Hn; rewrite Hq in Hn; simpl fmap in Hn; rewrite run_bind.
  - exists [], s. unfold await. simpl. rewrite Hn, Hcur by done. simpl. by rewrite app_nil_r.
  - destruct Hn as (s1 & Hev & Hu1 & Hq1 & Hw1 & Hl1). unfold await. simpl. rewrite Hev. cbn [run].
    apply Forall_app in Hok as [Hok1 [Hf Hok2]%Forall_cons].
    rewrite run_bind. cbn [write_cmd close_sent holding].
    destruct (write_step cur f s1) as (gs & cur' & Hrun & Hsplit & Hb & Hr' & Hnil); [done|done|by rewrite Hl1|].
    rewrite Hrun. destruct (IH cur' rounds (wrote gs s1)) as (gs' & s' & Hrun' & Hsplit' & Hb' & Hw' & Hq').
    + by destruct Hu1.
    + done.
    + intros ->. by apply Hnil.
    + assert (Hall : Forall frame_ok (cur ++ [f])) by (apply Forall_app; by split; [|constructor]).
      rewrite <- Hsplit in Hall. apply Forall_app in Hall as [_ ?]. by apply Forall_app.
    + done.
    + simpl in Hrounds. lia.
    + exists (gs ++ gs'), s'. rewrite Hrun'. split_and!; [done| | | |done].
      * rewrite join_app, Hsplit', app_assoc, Hsplit. by rewrite <- app_assoc.
      * apply Forall_app. by rewrite <- Hl1.
      * rewrite Hw'. unfold wrote, on_wire. simpl. by rewrite Hw1, fmap_app, app_assoc.
Qed.
End NativeWriter.

(** C23: the native writer flushes what is queued, and the browser peer receives it.  Left
    alone with a queue of frames and a working sink, the writer task sends every
    frame and then waits for the next command: the messages it sends are batches that
    keep the limits, and together they are the frames of the queue, each once and in
    order.  A browser session that accepts the size of a batch does exactly what
    handling its frames one after the other does. *)
Theorem native_writer_received `{MpscLaws chan} `{FMpsc fchan} `{!MapOrder} `{!MapOrderLaws} `{UsizeWidth}
    sink sink_flush prefer rounds fs (s : SessionInner chan) :
  (forall sent m, sink sent m = Ok tt) -> undisturbed s ->
  n_queued s = CmdFrame <$> fs -> Forall frame_ok fs -> (length fs < rounds)%nat ->
  exists gs s', run (writer_loop sink sink_flush prefer rounds Writer_new) s = (s', None)
    /\ mjoin gs = fs /\ Forall (batch_of (limits s)) gs
    /\ wire s' = wire s ++ ((fun g => WsBinary (packed g)) <$> gs) /\ n_queued s' = []
    /\ forall g (p : WasmSession fchan), g ∈ gs ->
         blen (packed g) <= max_ws_message_size (w_limits p) <= usize_max ->
         wasm_on_message (Ok (Binary (packed g))) p = wasm_handle_frames g p.
Proof.
  intros Hsink Hu Hq Hok Hrounds.
  destruct (writer_drains sink sink_flush Hsink prefer fs [] rounds s) as (gs & s' & Hrun & Hjoin & Hb & Hw & Hq');
    [done|done|done|done|by left|done|].
  exists gs, s'. split_and!; [exact Hrun|exact Hjoin|done..|]. intros g p Hg. apply wasm_on_batch.
  simpl in Hjoin. rewrite <- Hjoin in Hok. apply Forall_forall. intros f Hf.
  eapply Forall_forall; [exact Hok|]. apply list_elem_of_join. eauto.
Qed.

(** *** Concrete queues *)
Section Demo.
#[local] Existing Instance list_order.
#[local] Existing Instance usize32.

Definition three_frames : list Frame :=
  [OpenUni (mkStreamId 2); Stream (mkStreamId 2) [x01; x02] false; Stream (mkStreamId 2) [] true].
Definition queue_of {A} (q : list A) : cview A := mkCview 8 q 0 1 true.
Definition writer_start : SessionInner cview :=
  SessionInner_new false Limits_default (queue_of (CmdFrame <$> three_frames)) (channel 1) (channel 1).
Definition batch_start : WasmSession fview :=
  wasm_SessionInner_new Limits_default (mkFview 8 (WFrame <$> three_frames) false 1) (f_channel 1) (f_channel 1).

Lemma three_frames_ok : Forall frame_ok three_frames.
Proof. repeat constructor; vm_compute; discriminate. Qed.

Lemma browser_batch_received_witness :
  exists fs kept s',
    wasm_make_batch (OpenBi (mkStreamId 0)) batch_start = (s', Some (packed fs, kept))
    /\ head fs = Some (OpenBi (mkStreamId 0)) /\ batch_of (w_limits batch_start) fs
    /\ OpenBi (mkStreamId 0) :: queued_frames batch_start = fs ++ option_list kept ++ queued_frames s'
    /\ forall p : SessionInner cview,
         blen (packed fs) <= max_ws_message_size (limits p) <= usize_max ->
         run (inbound_binary (packed fs)) p = run (handle_frames fs) p.
Proof.
  apply (browser_batch_received (chan := cview) (OpenBi (mkStreamId 0)) batch_start).
  constructor; [vm_compute; split; discriminate|]. exact three_frames_ok.
Defined.

Lemma native_writer_received_witness :
  exists gs s', run (writer_loop (fun _ _ => Ok tt) (fun _ => Ok tt) (fun _ => false) 9 Writer_new) writer_start
                = (s', None)
    /\ mjoin gs = three_frames /\ Forall (batch_of Limits_default) gs
    /\ wire s' = [] ++ ((fun g => WsBinary (packed g)) <$> gs) /\ n_queued s' = []
    /\ forall g (p : WasmSession fview), g ∈ gs ->
         blen (packed g) <= max_ws_message_size (w_limits p) <= usize_max ->
         wasm_on_message (Ok (Binary (packed g))) p = wasm_handle_frames g p.
Proof.
  apply (native_writer_received (fchan := fview) (fun _ _ => Ok tt) (fun _ => Ok tt) (fun _ => false) 9 three_frames writer_start).
  - done.
  - by constructor.
  - reflexivity.
  - exact three_frames_ok.
  - vm_compute. lia.
Defined.
End Demo.
