(* ===== verification/WasmFaults.v ===== *)
(** * The browser session: calls that lose work

    Evaluated executions of the model on a session with a short queue: a FIN, a stop
    request, an initial credit and a [ConnectionClose] that never reach the peer, and
    a stream opened while the session closes whose reader is never released. *)

From S2P Require Import Prelude Buf VarInt Frame Proto Limits SendFlow Channel Async NativeState.
From S2P Require Import NativeOps NativeStream NativeRecv FuturesChannel WasmState WasmOps WasmStreams WasmSession.
Open Scope mux_scope.

#[local] Existing Instance list_order.
#[local] Existing Instance usize32.

(** A queue of one frame. *)
Definition short_limits : Limits :=
  mkLimits (max_ws_message_size Limits_default) (max_stream_data_per_frame Limits_default)
    (max_open_streams Limits_default) (recv_event_queue_len Limits_default) 1
    (max_batch_frames Limits_default) (max_batch_bytes Limits_default)
    (initial_stream_window Limits_default) (stream_window_update_threshold Limits_default)
    (accept_uni_queue_len Limits_default) (accept_bi_queue_len Limits_default).
Definition short_start : WasmSession fview :=
  wasm_SessionInner_new short_limits (f_channel 1) (f_channel 4) (f_channel 4).

Lemma short_start_new : wasm_Session_new short_limits
  = Ok (wasm_SessionInner_new short_limits (f_channel (fchan := fview) 1)
          (f_channel (accept_uni_queue_len short_limits)) (f_channel (accept_bi_queue_len short_limits))).
Proof. reflexivity. Qed.

Abbreviation wst' := (wst fview).

(** The task sends everything that is queued. *)
Definition drain_queue : wst' unit := wmod (fun s => set_w_outbound (mkFview 1 [] false 1) s).

(** [finish] sets its flag, fails on the full queue, and reports success when it is
    called again, although the FIN was never queued. *)
Definition finish_twice : wst' (result unit * result unit) :=
  h ← wasm_open_uni;
  match h with
  | Ok h =>
      r1 ← wasm_finish h;
      drain_queue;;
      r2 ← wasm_finish h;
      mret (r1, r2)
  | _ => mret (Panic, Panic)
  end.
Lemma finish_lost :
  (finish_twice short_start).2 = (Err Closed, Ok tt) /\ w_out_log (finish_twice short_start).1 = [OpenUni (mkStreamId 2)].
Proof. vm_compute. split; reflexivity. Qed.

(** The same for [stop]. *)
Definition stop_twice : wst' (result unit * result unit) :=
  wasm_handle_frame (OpenUni (mkStreamId 3));;
  stream ← wget (fun s => mkRecvStream (mkStreamId 3) 0);
  r1 ← wasm_stop stream 0;
  drain_queue;;
  r2 ← wasm_stop stream 0;
  mret (r1, r2).
Lemma stop_lost :
  (stop_twice short_start).2 = (Err Closed, Ok tt)
  /\ w_out_log (stop_twice short_start).1 = [MaxStreamData (mkStreamId 3) (initial_stream_window short_limits)].
Proof. vm_compute. split; reflexivity. Qed.

(** The initial credit of the second stream is dropped: the peer accepted the stream, and
    can never send on it. *)
Definition two_streams : wst' (result unit) :=
  wasm_handle_frame (OpenUni (mkStreamId 3));;
  wasm_handle_frame (OpenUni (mkStreamId 7)).
Lemma initial_credit_lost :
  (two_streams short_start).2 = Ok tt
  /\ w_out_log (two_streams short_start).1 = [MaxStreamData (mkStreamId 3) (initial_stream_window short_limits)]
  /\ w_pending_credit (two_streams short_start).1 = ∅.
Proof. vm_compute. repeat split; reflexivity. Qed.

(** A message with a violation, with an outbound queue that has room: the
    [ConnectionClose] is queued, the task ends, and nothing was written. *)
Definition roomy_start : WasmSession fview :=
  wasm_SessionInner_new Limits_default (f_channel 256) (f_channel 4) (f_channel 4).
Definition violation : list byte := frame_bytes (OpenUni (mkStreamId 5)).
Definition close_run (pick : bool * bool) : WasmSession fview * option unit :=
  run (wasm_task (fun _ _ => true) (fun _ => true) (fun _ => pick) 9 [Ok (Binary violation)]) roomy_start.
Lemma connection_close_never_sent pick :
  (close_run pick).2 = Some tt /\ w_wire (close_run pick).1 = []
  /\ w_out_log (close_run pick).1 = [ConnectionClose 1 "OpenUni with non-uni StreamId"].
Proof. destruct pick as [[] []]; vm_compute; repeat split; reflexivity. Qed.

(** A stream opened after the error, while the task waits for the socket to close: the
    call succeeds, and a read of it still waits when the task has finished. *)
Definition open_while_closing : wst' (result (wasm_SendStream * RecvStream)) :=
  wasm_on_message (Ok (Binary violation));;
  h ← wasm_open_bi;
  wop (fun s => (set_w_outbound (f_rx_drop (w_outbound s)).2 s, tt));;
  wasm_close_all;;
  wasm_finish_task;;
  mret h.
Lemma open_while_closing_hangs :
  let '(s, r) := open_while_closing roomy_start in
  w_task_finished s = true /\
  match r with Ok (_, h) => (run (wasm_read h 1) s).2 = None | _ => False end.
Proof. vm_compute. split; reflexivity. Qed.
