(* ===== verification/MuxApi.v ===== *)
(** * The mux interface

    The traits of [websock-mux-proto/src/transport.rs] as classes, with the native and
    the browser session as instances.  [MuxSendLaws] states what [write_buf] and
    [finish] promise to a client when other tasks run in between; both sessions
    discharge it.  A client that sends a message is verified against the interface
    alone, and composed with the receive side of [ByteStream]: what was written is
    what the peer reads, and then the end of the stream. *)

From S2P Require Import Prelude Buf VarInt Frame Proto Limits SendFlow Channel Async NativeState.
From S2P Require Import NativeOps NativeStream NativeRecv NativeSession FuturesChannel Rely.
From S2P Require Import WasmState WasmOps WasmStreams WasmSession ByteStream NativeReads WasmReads.
Open Scope mux_scope.

(** ** The traits *)
Class MuxSendStream (S H : Type) : Type := {
  mux_write_buf : H -> list byte -> @prog S (result unit);
  mux_finish : H -> @prog S (result unit);
  mux_reset : H -> Z -> @prog S (result unit);
  mux_send_closed : H -> @prog S bool
}.
Class MuxRecvStream (S R : Type) : Type := {
  mux_read_chunk : R -> Z -> @prog S (result (option (list byte)));
  mux_stop : R -> Z -> @prog S (result unit);
  mux_recv_closed : R -> @prog S bool
}.
Class MuxSession (S H R : Type) `{!MuxSendStream S H, !MuxRecvStream S R} : Type := {
  mux_open_uni : @prog S (result H);
  mux_open_bi : @prog S (result (H * R));
  mux_accept_uni : @prog S (result R);
  mux_accept_bi : @prog S (result (H * R));
  mux_shutdown : @prog S (result unit);
  mux_closed : @prog S bool
}.

(** ** What the send side promises *)

(** The data and FIN flags queued on a stream. *)
Definition sent_on (id : StreamId) (log : list Frame) : list (list byte * bool) :=
  omap (fun f => match f with Stream i d fin => if decide (i = id) then Some (d, fin) else None | _ => None end) log.

Lemma sent_on_app id a b : sent_on id (a ++ b) = sent_on id a ++ sent_on id b.
Proof. unfold sent_on. by rewrite omap_app. Qed.
Lemma sent_on_own id d fin : sent_on id [Stream id d fin] = [(d, fin)].
Proof. unfold sent_on. simpl. by rewrite decide_True. Qed.

Class MuxSendGhost (S H : Type) : Type := {
  mux_id : H -> StreamId;
  mux_log : S -> list Frame;           (** everything that was queued *)
  mux_ended : H -> S -> option bool    (** whether the stream was finished or reset *)
}.

Section Contract.
Context {S H : Type} `{!MuxSendGhost S H}.
Definition mux_sent (h : H) (s : S) : list (list byte * bool) := sent_on (mux_id h) (mux_log s).

(** Other tasks do not write on the stream of [h] and do not end it. *)
Definition others (h : H) (s s' : S) : Prop := mux_sent h s' = mux_sent h s /\ mux_ended h s' = mux_ended h s.
Definition stands (h : H) (F : list (list byte * bool)) (ended : bool) (s : S) : Prop :=
  mux_sent h s = F /\ mux_ended h s = Some ended.
Lemma stands_stable h F b : stable (others h) (stands h F b).
Proof. intros s s' [E1 E2] [E3 E4]. split; congruence. Qed.
Lemma others_refl h s : others h s s. Proof. done. Qed.

Lemma quiet_atomic {A} h F b (f : S -> S * A) :
  (forall s, stands h F b s -> stands h F b (f s).1) ->
  triple (others h) (stands h F b) (atomic f) (fun _ => stands h F b).
Proof. intros Hf. apply triple_atomic; [apply stands_stable|]. intros s s' a Hs E. specialize (Hf s Hs). by rewrite E in Hf. Qed.
Lemma read_triple {A} h F b (f : S -> A) :
  triple (others h) (stands h F b) (gets f) (fun a s => stands h F b s /\ a = f s).
Proof. apply triple_atomic; [apply stands_stable|]. by intros s s' a Hs [= <- <-]. Qed.

(** What a successful write of [d] leaves. *)
Definition wrote_all h F (d : list byte) (r : result unit) (s : S) : Prop :=
  match r with
  | Ok _ => exists chunks, mjoin chunks = d /\ stands h (F ++ ((., false) <$> chunks)) false s
  | _ => exists F', stands h F' false s
  end.

Lemma wrote_all_stands h F d r s :
  wrote_all h F d r s -> exists F' b', stands h F' b' s /\ forall s', stands h F' b' s' -> wrote_all h F d r s'.
Proof.
  destruct r as [u| |]; simpl.
  - intros (chunks & Hd & Hs). do 2 eexists. split; [exact Hs|]. eauto.
  - intros (F' & Hs). do 2 eexists. split; [exact Hs|]. by eexists.
  - intros (F' & Hs). do 2 eexists. split; [exact Hs|]. by eexists.
Qed.

(** An operation between the two ends of its guard, which touch nothing of the contract. *)
Lemma triple_guard {A} h F b (enter : @prog S (result unit)) (leave drop_guard : @prog S unit)
    (p : @prog S (result A)) (Q : result A -> S -> Prop) :
  triple (others h) (stands h F b) enter (fun _ => stands h F b) ->
  (forall F' b', triple (others h) (stands h F' b') leave (fun _ => stands h F' b')) ->
  triple (others h) (stands h F b) p Q ->
  (forall r s, Q r s -> exists F' b', stands h F' b' s /\ forall s', stands h F' b' s' -> Q r s') ->
  (forall e s, stands h F b s -> Q (Err e) s) -> (forall s, stands h F b s -> Q Panic s) ->
  triple (others h) (stands h F b)
    (bind_result enter (fun _ => let* r := with_drop drop_guard p in leave;;; Ret r)) Q.
Proof.
  intros Hin Hout Hp HQ He HP. eapply (triple_try _ _ (fun _ => stands h F b)).
  { eapply triple_weaken; [exact Hin|]. intros [] s Hs; auto. }
  intros _. eapply triple_bind; [by apply triple_with_drop|]. intros r s1 a s2 HQr Hex.
  destruct (HQ r s1 HQr) as (F' & b' & Hs1 & Hback). revert Hs1 Hex. apply (triple_bind _ _ (fun _ => stands h F' b')); [done|].
  intros _. apply triple_ret. done.
Qed.
End Contract.
#[export] Hint Resolve stands_stable : mux.

Class MuxSendLaws (S H : Type) `{!MuxSendStream S H, !MuxSendGhost S H} : Prop := {
  law_write h d F :
    triple (others h) (stands h F false) (mux_write_buf h d) (fun r s =>
      r = Ok tt -> exists chunks, mjoin chunks = d /\ stands h (F ++ ((., false) <$> chunks)) false s);
  law_finish h F :
    triple (others h) (stands h F false) (mux_finish h) (fun r s =>
      r = Ok tt -> stands h (F ++ [([], true)]) true s);
  law_write_ended h d F :
    triple (others h) (stands h F true) (mux_write_buf h d) (fun r s => r <> Ok tt /\ stands h F true s);
  law_finish_again h F :
    triple (others h) (stands h F true) (mux_finish h) (fun r s => stands h F true s)
}.

(** ** The native session *)
Section Native.
Context {chan : Type -> Type} `{Mpsc chan}.
Abbreviation NS := (SessionInner chan).

#[global] Instance native_mux_send : MuxSendStream NS SendStream := {
  mux_write_buf := write_buf; mux_finish := finish; mux_reset := reset; mux_send_closed := SendStream_closed
}.
#[global] Instance native_mux_recv : MuxRecvStream NS RecvStream := {
  mux_read_chunk := read_chunk; mux_stop := stop; mux_recv_closed := RecvStream_closed
}.
#[global] Instance native_mux_session `{UsizeWidth} : MuxSession NS SendStream RecvStream := {
  mux_open_uni := open_uni; mux_open_bi := open_bi; mux_accept_uni := accept_uni; mux_accept_bi := accept_bi;
  mux_shutdown := shutdown; mux_closed := is_closed
}.
#[global] Instance native_ghost : MuxSendGhost NS SendStream := {
  mux_id := ss_id; mux_log := out_log; mux_ended h s := finished <$> send_cells s !! ss_shared h
}.

Implicit Types (s : NS) (h : SendStream) (F : list (list byte * bool)) (b : bool).

Lemma shared_ended h F b s : stands h F b s -> finished (shared_of s h) = b.
Proof. intros [_ E]. unfold shared_of. simpl in E. by destruct (send_cells s !! ss_shared h); simplify_eq/=. Qed.
Lemma on_shared_stands h F b g s :
  (forall x, finished (g x) = finished x) -> stands h F b s -> stands h F b (on_shared h g s).
Proof.
  intros Hg [HF Hb]. split; [done|]. simpl in *. rewrite list_lookup_alter_eq.
  destruct (send_cells s !! ss_shared h); simplify_eq/=. by rewrite Hg.
Qed.

Lemma triple_is_closed h F b : triple (others h) (stands h F b) is_closed (fun _ => stands h F b).
Proof.
  unfold is_closed. apply (triple_bind _ _ (fun _ => stands h F b)); [by apply quiet_atomic|].
  intros []; [by apply triple_ret|by apply quiet_atomic].
Qed.

Lemma triple_begin h F b mode :
  triple (others h) (stands h F b) (begin_operation h mode) (fun _ => stands h F b).
Proof.
  unfold begin_operation. eapply (triple_try _ _ (fun _ => stands h F b)).
  - unfold select_api. apply (triple_weaken _ _ _ (fun _ => stands h F b)); [|by intros [] s ?].
    case_match; [by apply triple_ret|]. apply quiet_atomic. intros s Hs. repeat case_match; first [done | by apply on_shared_stands].
  - intros _. apply quiet_atomic. intros s Hs. repeat case_match; first [done | by apply on_shared_stands].
Qed.

Lemma triple_guarded {A} h F b mode (p : nprog chan (result A)) Q :
  triple (others h) (stands h F b) p Q ->
  (forall r s, Q r s -> exists F' b', stands h F' b' s /\ forall s', stands h F' b' s' -> Q r s') ->
  (forall e s, stands h F b s -> Q (Err e) s) -> (forall s, stands h F b s -> Q Panic s) ->
  triple (others h) (stands h F b) (guarded h mode p) Q.
Proof.
  apply triple_guard; [apply triple_begin|]. intros F' b'. apply quiet_atomic. intros s Hs. by apply on_shared_stands.
Qed.

Lemma triple_send h F b d fin :
  triple (others h) (stands h F b) (send_frame (Stream (ss_id h) d fin)) (fun r s =>
    match r with Ok _ => stands h (F ++ [(d, fin)]) b s | _ => stands h F b s end).
Proof.
  unfold send_frame. eapply triple_bind; [apply triple_is_closed|]. intros []; [by apply triple_ret|].
  apply (triple_bind _ _ (fun _ => stands h F b)).
  - apply triple_await; [auto with mux|]. intros s s' a Hs. repeat case_match; intros [= <- <-]; done.
  - intros []; [|by apply triple_ret]. apply triple_atomic; [auto with mux|]. intros s s' a Hs. unfold send_with_permit.
    destruct (send_flows s !! ss_id h); intros [= <- <-]; [|done]. destruct Hs as [HF Hb]. split; [|done].
    unfold mux_sent in *. simpl in *. rewrite sent_on_app, sent_on_own. by rewrite HF.
Qed.

Lemma triple_finished {A} h F b (k : bool -> nprog chan A) Q :
  triple (others h) (stands h F b) (k b) Q ->
  triple (others h) (stands h F b) (pbind (SendStream_finished h) k) Q.
Proof.
  intros Hk. eapply triple_bind; [apply read_triple|]. intros f s a s' [Hs ->].
  rewrite (shared_ended _ _ _ _ Hs). by apply Hk.
Qed.

Lemma triple_write_loop h fuel : forall d F,
  triple (others h) (stands h F false) (write_loop h fuel d) (wrote_all h F d).
Proof.
  induction fuel as [|fuel IH]; intros d F; cbn [write_loop].
  { destruct d; apply triple_ret; [|by eexists]. intros s Hs. exists []. by rewrite app_nil_r. }
  destruct d as [|x d]; [apply triple_ret; intros s Hs; exists []; by rewrite app_nil_r|].
  set (e := x :: d). eapply triple_bind; [apply quiet_atomic; by intros|]. intros wanted. cbn beta.
  destruct (wanted =? 0); [apply triple_ret; by eexists|].
  apply (triple_try _ _ (fun _ => stands h F false)).
  { apply triple_await; [auto with mux|]. intros s s' a Hs. unfold poll_grant.
    repeat case_match; intros [= <- <-]; simplify_eq; try done; by eexists. }
  intros grant. cbn beta. eapply triple_bind; [apply triple_send|]. intros [u|err|]; cbn beta iota; [| |apply triple_ret; by eexists].
  - eapply triple_weaken; [apply IH|]. intros [v|err|] s; [|done..]. intros (chunks & Hd & Hs).
    exists (take (Z.to_nat grant) e :: chunks). simpl. rewrite Hd, take_drop. split; [done|].
    by rewrite <- app_assoc in Hs.
  - apply (triple_bind _ _ (fun _ => stands h F false)); [by apply quiet_atomic|].
    intros _. apply triple_ret. by eexists.
Qed.

Lemma native_write h d F : triple (others h) (stands h F false) (write_buf h d) (wrote_all h F d).
Proof.
  unfold write_buf. apply triple_guarded.
  - apply triple_with_drop. apply triple_finished.
    apply (triple_bind _ _ (fun _ => stands h F false)); [apply triple_is_closed|].
    intros []; [apply triple_ret; by eexists|apply triple_write_loop].
  - apply wrote_all_stands.
  - intros e s Hs. by eexists.
  - intros s Hs. by eexists.
Qed.

Lemma native_write_ended h d F :
  triple (others h) (stands h F true) (write_buf h d) (fun r s => r <> Ok tt /\ stands h F true s).
Proof.
  unfold write_buf. apply triple_guarded; [|naive_solver..].
  apply triple_with_drop. apply triple_finished. by apply triple_ret.
Qed.

Lemma native_finish h F :
  triple (others h) (stands h F false) (finish h) (fun r s =>
    match r with Ok _ => stands h (F ++ [([], true)]) true s | _ => exists F' b', stands h F' b' s end).
Proof.
  unfold finish. apply triple_guarded; [|intros [] s; naive_solver|intros; by do 2 eexists..].
  apply triple_with_drop. apply triple_finished. eapply triple_bind; [by apply quiet_atomic|].
  intros []; [apply triple_ret; by do 2 eexists|]. eapply triple_bind; [apply triple_is_closed|].
  intros []; [apply triple_ret; by do 2 eexists|].
  apply (triple_bind _ _ (fun (won : bool) s => won = true /\ stands h F true s)).
  { apply triple_atomic; [auto with mux|]. intros s1 s2 b Hs. rewrite (shared_ended _ _ _ _ Hs). intros [= <- <-].
    destruct Hs as [HF Hb]. split; [done|]. split; [done|]. simpl in *. rewrite list_lookup_alter_eq.
    destruct (send_cells s1 !! ss_shared h); by simplify_eq/=. }
  intros won s a s' [-> Hs]. revert s a s' Hs.
  eapply triple_try; [eapply triple_weaken; [apply triple_send|]; intros [] s Hs; [exact Hs|by do 2 eexists..]|].
  intros u. cbn beta. eapply triple_bind; [apply quiet_atomic|intros b; by apply triple_ret].
  intros s Hs. unfold remove_send_flow_locked. by case_match.
Qed.

Lemma native_finish_again h F :
  triple (others h) (stands h F true) (finish h) (fun r s => stands h F true s).
Proof.
  unfold finish. apply triple_guarded; [|naive_solver..].
  apply triple_with_drop, triple_finished. by apply triple_ret.
Qed.

#[global] Instance native_mux_laws : MuxSendLaws NS SendStream.
Proof.
  split.
  - intros h d F. eapply triple_weaken; [apply native_write|]. by intros r s Hr ->.
  - intros h F. eapply triple_weaken; [apply native_finish|]. by intros r s Hr ->.
  - apply native_write_ended.
  - apply native_finish_again.
Qed.
End Native.

(** ** The browser session *)
Section Browser.
Context {fchan : Type -> Type} `{FMpsc fchan}.
Abbreviation WSt := (WasmSession fchan).

#[global] Instance wasm_mux_send : MuxSendStream WSt wasm_SendStream := {
  mux_write_buf := wasm_write_buf; mux_finish h := atomic (wasm_finish h);
  mux_reset h code := atomic (wasm_reset h code); mux_send_closed h := gets (wasm_SendStream_closed h)
}.
#[global] Instance wasm_mux_recv : MuxRecvStream WSt RecvStream := {
  mux_read_chunk := wasm_read_chunk; mux_stop h code := atomic (wasm_stop h code);
  mux_recv_closed h := gets (wasm_RecvStream_closed h)
}.
#[global] Instance wasm_mux_session : MuxSession WSt wasm_SendStream RecvStream := {
  mux_open_uni := atomic wasm_open_uni; mux_open_bi := atomic wasm_open_bi;
  mux_accept_uni := wasm_accept_uni; mux_accept_bi := wasm_accept_bi;
  mux_shutdown := wasm_shutdown; mux_closed := gets wasm_Session_is_closed
}.
#[global] Instance wasm_ghost : MuxSendGhost WSt wasm_SendStream := {
  mux_id := ws_id; mux_log := w_out_log; mux_ended h s := finished <$> w_send_cells s !! ws_shared h
}.

Implicit Types (s : WSt) (h : wasm_SendStream) (F : list (list byte * bool)) (b : bool).

Lemma w_shared_ended h F b s : stands h F b s -> finished (w_shared_of s h) = b.
Proof. intros [_ E]. unfold w_shared_of. simpl in E. by destruct (w_send_cells s !! ws_shared h); simplify_eq/=. Qed.
Lemma w_on_shared_stands h F b g s :
  (forall x, finished (g x) = finished x) -> stands h F b s -> stands h F b (w_on_shared h g s).
Proof.
  intros Hg [HF Hb]. split; [done|]. simpl in *. rewrite list_lookup_alter_eq.
  destruct (w_send_cells s !! ws_shared h); simplify_eq/=. by rewrite Hg.
Qed.
Lemma w_ending_stands h F b s : stands h F b s -> stands h F true (w_on_shared h (set_finished true) s).
Proof.
  intros [HF Hb]. split; [done|]. simpl in *. rewrite list_lookup_alter_eq.
  by destruct (w_send_cells s !! ws_shared h); simplify_eq/=.
Qed.
Lemma w_log_stands h F b d fin c s :
  stands h F b s -> stands h (F ++ [(d, fin)]) b (w_log_frame (Stream (ws_id h) d fin) (set_w_outbound c s)).
Proof.
  intros [HF Hb]. split; [|done]. unfold mux_sent in *. simpl in *. by rewrite sent_on_app, sent_on_own, HF.
Qed.

Lemma w_begin_stands h F b mode s : stands h F b s -> stands h F b (wasm_begin_operation h mode s).1.
Proof.
  intros Hs. unfold wasm_begin_operation, wtry, mbind, wst_bind, wasm_select_api, wop, mret, wst_ret.
  repeat case_match; simplify_eq; simpl; repeat first [done | apply w_on_shared_stands].
Qed.

(** Synchronous code under the guard. *)
Lemma w_guarded_stands {A} h F b mode (m : wst fchan (result A)) (Q : result A -> WSt -> Prop) :
  (forall s, stands h F b s -> Q (m s).2 (wasm_end_operation h (m s).1).1) ->
  (forall e s, stands h F b s -> Q (Err e) s) -> (forall s, stands h F b s -> Q Panic s) ->
  triple (others h) (stands h F b) (atomic (w_guarded h mode m)) Q.
Proof.
  intros Hm He HP. apply triple_atomic; [apply stands_stable|]. intros s s' r Hs.
  unfold w_guarded, wtry, mbind, wst_bind, mret, wst_ret. pose proof (w_begin_stands h F b mode s Hs) as Hb.
  destruct (wasm_begin_operation h mode s) as [s1 [u|e|]]; simpl in Hb; [|intros [= <- <-]; auto..].
  specialize (Hm s1 Hb). destruct (m s1) as [s2 x]. cbn [fst snd] in Hm. destruct (wasm_end_operation h s2) as [s3 v].
  by intros [= <- <-].
Qed.
Lemma w_end_stands h F b s : stands h F b s -> stands h F b (wasm_end_operation h s).1.
Proof. by apply w_on_shared_stands. Qed.

Lemma wasm_finish_stands h F :
  triple (others h) (stands h F false) (mux_finish h) (fun r s =>
    r = Ok tt -> stands h (F ++ [([], true)]) true s).
Proof.
  apply w_guarded_stands; [|done..]. intros s Hs. unfold wop. rewrite (w_shared_ended _ _ _ _ Hs).
  destruct (_ || _); [done|]. unfold wmod, wtry, mbind, wst_bind, mret, wst_ret, wasm_send_frame, wasm_try_send_frame.
  apply w_ending_stands in Hs. set (s1 := w_on_shared h (set_finished true) s) in *.
  destruct (f_try_send _ _ _) as [[] c]; simpl; [|done..]. intros _.
  unfold wasm_remove_send_flow. case_match; case_match; simplify_eq; apply w_end_stands, w_log_stands, Hs.
Qed.

Lemma wasm_finish_again h F :
  triple (others h) (stands h F true) (mux_finish h) (fun r s => stands h F true s).
Proof.
  apply w_guarded_stands; [|done..]. intros s Hs. unfold wop. rewrite (w_shared_ended _ _ _ _ Hs). by apply w_end_stands.
Qed.

Lemma triple_poll_queue h F b i d :
  triple (others h) (stands h F b) (await (w_poll_queue h i (Stream (ws_id h) d false)))
    (fun (ok : bool) s => stands h (F ++ if ok then [(d, false)] else []) b s).
Proof.
  apply triple_await; [apply stands_stable|]. intros s s' ok Hs. unfold w_poll_queue, w_poll_ready, w_start_send.
  case_match; [intros [= <- <-]; by rewrite app_nil_r|]. destruct (f_poll_ready _ _) as [[[]|] c]; [| |done].
  - simpl. destruct (f_start_send _ _ _) as [[] c']; intros [= <- <-]; [by apply w_log_stands|by rewrite app_nil_r].
  - intros [= <- <-]. by rewrite app_nil_r.
Qed.

Lemma triple_w_write_loop h i fuel : forall d F,
  triple (others h) (stands h F false) (wasm_write_loop h i fuel d) (wrote_all h F d).
Proof.
  induction fuel as [|fuel IH]; intros d F; cbn [wasm_write_loop].
  { destruct d; apply triple_ret; [|by eexists]. intros s Hs. exists []. by rewrite app_nil_r. }
  destruct d as [|x d]; [apply triple_ret; intros s Hs; exists []; by rewrite app_nil_r|].
  set (e := x :: d). eapply triple_bind; [apply quiet_atomic; by intros|]. intros wanted. cbn beta.
  destruct (wanted =? 0); [apply triple_ret; by eexists|].
  apply (triple_try _ _ (fun _ => stands h F false)).
  { apply triple_await; [apply stands_stable|]. intros s s' a Hs. unfold w_poll_grant.
    repeat case_match; intros [= <- <-]; simplify_eq; try done; by eexists. }
  intros grant. cbn beta. eapply triple_bind; [apply triple_poll_queue|]. intros []; cbn beta iota.
  - eapply triple_weaken; [apply IH|]. intros [v|err|] s; [|done..]. intros (chunks & Hd & Hs).
    exists (take (Z.to_nat grant) e :: chunks). simpl. rewrite Hd, take_drop. split; [done|].
    by rewrite <- app_assoc in Hs.
  - rewrite app_nil_r. apply (triple_bind _ _ (fun _ => stands h F false)); [by apply quiet_atomic|].
    intros _. apply triple_ret. by eexists.
Qed.

Lemma wasm_write_triple h d F b Q :
  triple (others h) (stands h F b) (
    let* c := gets (wasm_SendStream_closed h) in
    if c then Ret (Err Closed)
    else
      let* i := atomic w_outbound_clone in
      let* r := with_drop (atomic (w_outbound_drop i)) (wasm_write_loop h i (length d) d) in
      atomic (w_outbound_drop i);;;
      Ret r) Q ->
  (forall r s, Q r s -> exists F' b', stands h F' b' s /\ forall s', stands h F' b' s' -> Q r s') ->
  (forall e s, stands h F b s -> Q (Err e) s) -> (forall s, stands h F b s -> Q Panic s) ->
  triple (others h) (stands h F b) (wasm_write_buf h d) Q.
Proof.
  intros Hp. apply triple_guard.
  - apply quiet_atomic. intros s. apply w_begin_stands.
  - intros F' b'. apply quiet_atomic. intros s. apply w_end_stands.
  - by apply triple_with_drop.
Qed.

Lemma wasm_write_stands h d F : triple (others h) (stands h F false) (wasm_write_buf h d) (wrote_all h F d).
Proof.
  apply wasm_write_triple; [|apply wrote_all_stands|by eexists..].
  apply (triple_bind _ _ (fun _ => stands h F false)); [by apply quiet_atomic|]. intros []; [apply triple_ret; by eexists|].
  apply (triple_bind _ _ (fun _ => stands h F false)).
  { apply quiet_atomic. intros s Hs. unfold w_outbound_clone. by destruct (f_clone _). }
  intros i. eapply triple_bind; [apply triple_with_drop, triple_w_write_loop|]. intros r s1 a s2 Hr Hex.
  destruct (wrote_all_stands h F d r s1 Hr) as (F' & b' & Hs1 & Hback). revert Hs1 Hex.
  apply (triple_bind _ _ (fun _ => stands h F' b')); [by apply quiet_atomic|]. intros _. by apply triple_ret.
Qed.

Lemma wasm_write_ended h d F :
  triple (others h) (stands h F true) (wasm_write_buf h d) (fun r s => r <> Ok tt /\ stands h F true s).
Proof.
  apply wasm_write_triple; [|naive_solver..]. eapply triple_bind; [apply read_triple|]. intros c s a s' [Hs ->].
  unfold wasm_SendStream_closed. rewrite (w_shared_ended _ _ _ _ Hs). simpl. revert s a s' Hs. by apply triple_ret.
Qed.

#[global] Instance wasm_mux_laws : MuxSendLaws WSt wasm_SendStream.
Proof.
  split.
  - intros h d F. eapply triple_weaken; [apply wasm_write_stands|]. by intros r s Hr ->.
  - apply wasm_finish_stands.
  - apply wasm_write_ended.
  - apply wasm_finish_again.
Qed.
End Browser.

(** ** A client of the interface: send a message and end the stream *)
Definition send_message {S H} `{!MuxSendStream S H} (h : H) (d : list byte) : @prog S (result unit) :=
  let? _ := mux_write_buf h d in mux_finish h.

Lemma send_message_law {S H : Type} `{MuxSendLaws S H} (h : H) d F :
  triple (others h) (stands h F false) (send_message h d) (fun r s =>
    r = Ok tt -> exists chunks, mjoin chunks = d /\ stands h (F ++ ((., false) <$> chunks) ++ [([], true)]) true s).
Proof.
  unfold send_message.
  apply (triple_try _ _ (fun _ s => exists chunks, mjoin chunks = d /\ stands h (F ++ ((., false) <$> chunks)) false s)).
  - eapply triple_weaken; [apply law_write|]. intros [[]| |] s Hs; [auto|done..].
  - intros _ s r s' (chunks & Hd & Hs) Hex ->. exists chunks. split; [done|]. rewrite app_assoc.
    by eapply law_finish.
Qed.

(** ** Reading it at the other end *)
Definition peer_frames (ops : list rop) : list Frame := omap (fun o => match o with Peer f => Some f | _ => None end) ops.

Section Receive.
Context {P : Type} (R : recv_side P) (id : StreamId).

(** The receiver refuses none of the frames. *)
Fixpoint all_accepted (ops : list rop) (p : P) : bool :=
  match ops with
  | [] => true
  | Peer f :: ops => let '(p, ok) := rs_frame R f p in ok && all_accepted ops p
  | Call c :: ops => all_accepted ops (rs_call R c p).1
  end.

Lemma payload_sent_on (fs : list Frame) : mjoin (payload_for id <$> fs) = mjoin (fst <$> sent_on id fs).
Proof.
  induction fs as [|f fs IH]; [done|]. destruct f; simpl; try exact IH. case_decide; simpl; [f_equal|]; exact IH.
Qed.
Lemma ends_sent_on (fs : list Frame) d : (d, true) ∈ sent_on id fs -> Exists (ends id) fs.
Proof.
  intros (f & Hf & E)%list_elem_of_omap. apply Exists_exists. exists f. split; [done|].
  destruct f as [| |i e []| | | |]; simplify_eq/=; by case_decide; simplify_eq.
Qed.

Context (holds : P -> list byte -> bool -> nat -> Prop) (laws : recv_laws R id holds).

Lemma deliver_all ops p B live n :
  holds p B live n -> Forall rop_ok ops -> all_accepted ops p = true ->
  let '(p', inp, out) := deliver R id ops p in
  inp = mjoin (payload_for id <$> peer_frames ops)
  /\ exists B' live' n', holds p' B' live' n' /\ B ++ inp = out ++ B' /\ (live' = true -> live = true)
       /\ (Exists (ends id) (peer_frames ops) -> live' = false).
Proof.
  revert p B live n. induction ops as [|[f|c] ops IH]; intros p B live n Hp Hok Hacc; simpl.
  - split; [done|]. exists B, live, n. rewrite app_nil_r. split_and!; [done..|]. by intros ?%Exists_nil.
  - apply Forall_cons in Hok as [_ Hok]. pose proof (law_frame _ _ _ laws p B live n f Hp) as Hf. simpl in Hacc.
    destruct (rs_frame R f p) as [p1 []]; [|done]. destruct Hf as (live1 & n1 & Hp1 & Hlive & Hends). simpl in Hacc.
    specialize (IH p1 _ live1 n1 Hp1 Hok Hacc). destruct (deliver R id ops p1) as [[p2 inp] out].
    destruct IH as (-> & B' & live' & n' & Hp2 & HB & Hl' & He'). split; [done|].
    exists B', live', n'. split_and!; [done|by rewrite app_assoc|auto|].
    intros [He|He]%Exists_cons; [|auto]. specialize (Hends eq_refl He). destruct live'; [|done]. by rewrite Hl' in Hends.
  - apply Forall_cons in Hok as [Hc Hok]. pose proof (law_call _ _ _ laws p B live n c Hp Hc) as Hcall. simpl in Hacc.
    destruct (rs_call R c p) as [p1 [b| | |]]; [| | |done]; simpl in Hacc.
    + destruct Hcall as (B1 & n1 & -> & Hp1 & _). specialize (IH p1 B1 live n1 Hp1 Hok Hacc).
      destruct (deliver R id ops p1) as [[p2 inp] out]. destruct IH as (-> & B' & live' & n' & Hp2 & HB & Hl').
      split; [done|]. exists B', live', n'. split_and!; [done| |by destruct Hl'..]. by rewrite <- !app_assoc, HB.
    + destruct Hcall as (-> & -> & n1 & Hp1). specialize (IH p1 [] false n1 Hp1 Hok Hacc).
      destruct (deliver R id ops p1) as [[p2 inp] out]. naive_solver.
    + destruct Hcall as (-> & -> & n1 & Hp1). specialize (IH p1 [] true n1 Hp1 Hok Hacc).
      destruct (deliver R id ops p1) as [[p2 inp] out]. naive_solver.
Qed.
End Receive.

(** Chunks and a FIN, handled in order, are read as their concatenation and the end. *)
Lemma chunks_received {P : Type} (R : recv_side P) id holds p n ops call chunks :
  recv_laws R id holds -> holds p [] true n -> Forall rop_ok ops -> all_accepted R ops p = true ->
  sent_on id (peer_frames ops) = ((., false) <$> chunks) ++ [([], true)] -> 0 < rcall_room call ->
  let '(p', _, returned) := deliver R id ops p in
  exists rest, mjoin chunks = returned ++ rest
    /\ exists calls, forall fuel, (calls <= fuel)%nat -> drain R fuel call p' = Some rest.
Proof.
  intros Hlaws Hp Hok Hacc Hfs Hcall. pose proof (deliver_all R id holds Hlaws ops p [] true n Hp Hok Hacc) as Hd.
  destruct (deliver R id ops p) as [[p' inp] out]. destruct Hd as (-> & B & live & m & Hp' & HB & _ & He).
  assert (live = false) as ->.
  { apply He, (ends_sent_on _ _ []). rewrite Hfs. apply elem_of_app. right. by apply list_elem_of_singleton. }
  exists B. split.
  - rewrite <- HB. simpl. rewrite payload_sent_on, Hfs, fmap_app, join_app. simpl. rewrite app_nil_r.
    f_equal. rewrite <- list_fmap_compose. symmetry. apply list_fmap_id.
  - exists (Datatypes.S (length B + m)). intros fuel Hf. eapply drain_complete; [done..|lia].
Qed.

(** C5: a message arrives as it was sent.  For every implementation of the send side and
    every implementation of the receive side: a client writes a message on a fresh
    stream and finishes it, while other tasks of its session do anything but write
    on or end that stream; the receiver handles the stream's frames in the order they
    were queued, between frames of other streams and reads, and refuses none.  Then
    what the reads have returned is a prefix of the message, and repeating any read
    returns exactly the rest and then the end of the stream, after finitely many
    calls.  A write after that fails. *)
Theorem message_end_to_end {S H P : Type} `{MuxSendLaws S H} (R : recv_side P) holds (h : H) (d : list byte) s s' p n ops call :
  mux_sent h s = [] -> mux_ended h s = Some false -> completes (others h) (send_message h d) s (Ok tt) s' ->
  recv_laws R (mux_id h) holds -> holds p [] true n ->
  Forall rop_ok ops -> all_accepted R ops p = true -> sent_on (mux_id h) (peer_frames ops) = mux_sent h s' ->
  0 < rcall_room call ->
  (let '(p', _, returned) := deliver R (mux_id h) ops p in
   exists rest, d = returned ++ rest
     /\ exists calls, forall fuel, (calls <= fuel)%nat -> drain R fuel call p' = Some rest)
  /\ forall e r s'', completes (others h) (mux_write_buf h e) s' r s'' -> r <> Ok tt.
Proof.
  intros Hsent Hend Hex Hlaws Hp Hok Hacc Hwire Hcall.
  destruct (send_message_law h d [] s (Ok tt) s') as (chunks & <- & Hs'); [done..|]. simpl in Hs'. split.
  - destruct Hs' as [Hfs _]. by eapply chunks_received; rewrite ?Hwire.
  - intros e r s'' Hw. by eapply law_write_ended.
Qed.

(** *** A native server writes, a browser reads *)
Section Demo.
#[local] Existing Instance list_order.

(** The browser opened stream 0 and granted credit; the server accepted it. *)
Definition msg_setup : nprog cview (result SendStream) :=
  let* _ := handle_frame (OpenBi reads_id) in
  let* _ := handle_frame (MaxStreamData reads_id 100) in
  let? x := accept_bi in
  Ret (Ok x.1).
Definition msg_start : SessionInner cview :=
  (run msg_setup (SessionInner_new true Limits_default (channel 256) (channel 128) (channel 128))).1.
Definition msg_h : SendStream := mkSendStream reads_id 0 0 0.
Definition msg_end : SessionInner cview := (run (send_message msg_h (as_bytes "hello world")) msg_start).1.
Definition msg_ops : list rop := (Peer <$> out_log msg_end) ++ [Call (CRead 5)].

Lemma message_end_to_end_witness :
  (run msg_setup (SessionInner_new true Limits_default (channel 256) (channel 128) (channel 128))).2 = Some (Ok msg_h)
  /\ drain (wasm_side reads_h) 9 (CReadChunk 4) (deliver (wasm_side reads_h) reads_id msg_ops reads_s1).1.1
     = Some (as_bytes " world")
  /\ ((let '(p', _, returned) := deliver (wasm_side reads_h) (mux_id (S := SessionInner cview) msg_h) msg_ops reads_s1 in
       exists rest, as_bytes "hello world" = returned ++ rest
         /\ exists calls, forall fuel, (calls <= fuel)%nat ->
              drain (wasm_side reads_h) fuel (CReadChunk 4) p' = Some rest)
      /\ forall e r s'', completes (others msg_h) (mux_write_buf msg_h e) msg_end r s'' -> r <> Ok tt).
Proof.
  split; [vm_compute; reflexivity|]. split; [vm_compute; reflexivity|].
  apply (message_end_to_end (wasm_side reads_h) (wholds reads_id (rs_cell reads_h)) msg_h (as_bytes "hello world")
           msg_start msg_end reads_s1 0 msg_ops (CReadChunk 4)).
  - vm_compute. reflexivity.
  - vm_compute. reflexivity.
  - apply run_completes; [apply others_refl|]. vm_compute. reflexivity.
  - apply (wholds_register reads_id reads_start reads_table). discriminate.
  - apply (wholds_register reads_id reads_start reads_table). discriminate.
  - repeat constructor.
  - vm_compute. reflexivity.
  - vm_compute. reflexivity.
  - reflexivity.
Defined.
End Demo.
