(* ===== verification/Tls.v ===== *)
(** * TLS configurations

    Models [websock-tungstenite/src/tls/], [crypto.rs] and the methods of [builder.rs]
    that take certificates: which provider is used, how certificates and keys are
    loaded, and how client and server configurations are put together.  rustls, rcgen and the file system are the class [Rustls]; a
    configuration is observed through its ALPN list and the verifier it was built
    with. *)

From Stdlib Require Import Ascii.
From S2P Require Import Prelude Buf VarInt Frame Proto Limits SendFlow Channel Async NativeState.
From S2P Require Import NativeOps NativeStream NativeRecv NativeSession NativeTasks Http Handshake Builders.
Open Scope mux_scope.

(** [Path::extension]: what follows the last dot of the file name, unless that dot
    starts the name. *)
Fixpoint last_component (s acc : string) : string :=
  match s with
  | EmptyString => acc
  | String c s => last_component s (if decide (c = "/"%char) then EmptyString else acc +:+ String c EmptyString)
  end.
Fixpoint after_last_dot (s : string) : option string :=
  match s with
  | EmptyString => None
  | String c s =>
      match after_last_dot s with
      | Some e => Some e
      | None => if decide (c = "."%char) then Some s else None
      end
  end.
Definition extension (path : string) : option string :=
  match last_component path EmptyString with
  | EmptyString => None
  | String _ rest as name => if decide (name = "..") then None else after_last_dot rest
  end.

(** ** What is used of other crates *)
Class Rustls : Type := {
  CryptoProvider : Type;
  CertificateDer : Type;
  PrivateKeyDer : Type;
  RootCertStore : Type;
  WebPkiVerifier : Type;
  ClientConfig : Type;
  ServerConfig : Type;
  client_alpn : AlpnConfig ClientConfig;
  server_alpn : AlpnConfig ServerConfig;
  (** the process-wide provider, the features, and the two back ends *)
  get_default : option CryptoProvider;
  feature_ring : bool;
  feature_aws_lc_rs : bool;
  ring_default_provider : CryptoProvider;
  aws_lc_rs_default_provider : CryptoProvider;
  (** the hash functions of the TLS 1.3 suites, with whether each is SHA-256 *)
  tls13_hashes : CryptoProvider -> list (option (bool * (list byte -> list byte)));
  der_bytes : CertificateDer -> list byte;
  cert_from : list byte -> CertificateDer;
  key_from_pkcs8 : list byte -> PrivateKeyDer;
  pem_certs : list byte -> list (BoxError + CertificateDer);
  pem_key : list byte -> BoxError + PrivateKeyDer;
  read_file : string -> IoError + list byte;
  load_native_certs : list CertificateDer;
  root_empty : RootCertStore;
  root_add : CertificateDer -> RootCertStore -> BoxError + RootCertStore;
  (** [rcgen]: a certificate, and the key in DER and PEM *)
  self_signed : list string -> BoxError + (CertificateDer * string * list byte * string)
}.
#[export] Existing Instances client_alpn server_alpn.

(** How a client decides about the certificate of a server. *)
Inductive verifier `{Rustls} : Type :=
| TrustRoots (roots : RootCertStore)
| TrustWebPki (v : WebPkiVerifier)
| SkipServerVerification (provider : CryptoProvider).

(** The builder chains of rustls, and what can be observed of their results. *)
Class RustlsBuild `{Rustls} : Type := {
  client_build : CryptoProvider -> verifier -> BoxError + ClientConfig;
  server_versions : CryptoProvider -> BoxError + unit;
  single_cert : CryptoProvider -> list CertificateDer -> PrivateKeyDer -> BoxError + ServerConfig;
  verifier_of : ClientConfig -> verifier
}.
(** Documented: the verifier of a configuration is the one it was built with, and
    setting the ALPN list keeps it. *)
Class RustlsLaws `{RustlsBuild} : Prop := {
  built_verifier p v c : client_build p v = inr c -> verifier_of c = v;
  alpn_keeps_verifier a c : verifier_of (set_alpn_protocols a c) = verifier_of c
}.

Section Tls.
Context `{RustlsBuild}.

(** ** [crypto.rs] *)
Definition default_provider : result CryptoProvider :=
  match get_default with
  | Some provider => Ok provider
  | None =>
      if feature_ring then Ok ring_default_provider
      else if feature_aws_lc_rs then Ok aws_lc_rs_default_provider
      else Panic
  end.

Fixpoint find_sha256 (l : list (option (bool * (list byte -> list byte)))) : option (list byte -> list byte) :=
  match l with
  | [] => None
  | Some (true, hash) :: _ => Some hash
  | _ :: l => find_sha256 l
  end.
Definition sha256 (provider : CryptoProvider) (cert : CertificateDer) : result (list byte) :=
  match find_sha256 (tls13_hashes provider) with
  | Some hash => Ok (hash (der_bytes cert))
  | None => Panic
  end.

(** ** [tls/cert.rs] and [tls/key.rs] *)

(** Certificates the store refuses are skipped. *)
Definition get_native_certs : result RootCertStore :=
  Ok (foldl (fun roots cert => match root_add cert roots with inr r => r | inl _ => roots end)
        root_empty load_native_certs).

Fixpoint collect (l : list (BoxError + CertificateDer)) : BoxError + list CertificateDer :=
  match l with
  | [] => inr []
  | inl e :: _ => inl e
  | inr c :: l => match collect l with inr cs => inr (c :: cs) | inl e => inl e end
  end.
Definition load_certs (cert_path : string) : result (list CertificateDer) :=
  cert_bytes ← answer Io (read_file cert_path);
  if decide (extension cert_path = Some "der") then Ok [cert_from cert_bytes]
  else answer Tls (collect (pem_certs cert_bytes)).

Definition load_key (key_path : string) : result PrivateKeyDer :=
  key ← answer Io (read_file key_path);
  if decide (extension key_path = Some "der") then Ok (key_from_pkcs8 key) else answer Tls (pem_key key).

(** The verifier accepts every certificate; it uses the ring provider. *)
Definition SkipServerVerification_new : verifier := SkipServerVerification ring_default_provider.
Definition verify_server_cert (v : verifier) (check : verifier -> CertificateDer -> BoxError + unit)
    (cert : CertificateDer) : BoxError + unit :=
  match v with SkipServerVerification _ => inr tt | _ => check v cert end.

(** ** [tls/mod.rs] *)
Definition generate_self_signed_pair_der (names : list string) : result (list CertificateDer * PrivateKeyDer) :=
  g ← answer Tls (self_signed names);
  let '(cert, _, key, _) := g in Ok ([cert], key_from_pkcs8 key).
Definition generate_self_signed_pair_pem (names : list string) : result (list string * string) :=
  g ← answer Tls (self_signed names);
  let '(_, pem, _, key_pem) := g in Ok ([pem], key_pem).
Definition load_cert (cert_path key_path : string) : result (list CertificateDer * PrivateKeyDer) :=
  cert_chain ← load_certs cert_path;
  key ← load_key key_path;
  Ok (cert_chain, key).

Definition server_config (chain : list CertificateDer) (key : PrivateKeyDer) : result ServerConfig :=
  provider ← default_provider;
  _ ← answer Tls (server_versions provider);
  answer Tls (single_cert provider chain key).
Definition server_new_insecure (names : list string) : result ServerConfig :=
  pair ← generate_self_signed_pair_der names; server_config pair.1 pair.2.
Definition server_new_with_cert (cert_path key_path : string) : result ServerConfig :=
  pair ← load_cert cert_path key_path; server_config pair.1 pair.2.
Definition server_new_with_self_signed_certs (names : list string) : result ServerConfig := server_new_insecure names.
Definition server_with_alpn (protocols : alpn_list) (c : ServerConfig) : ServerConfig := set_alpn_protocols protocols c.

Definition client_new_insecure : result ClientConfig :=
  provider ← default_provider; answer Tls (client_build provider SkipServerVerification_new).
Definition client_new_with_native_certs : result ClientConfig :=
  native_certs ← get_native_certs;
  provider ← default_provider;
  answer Tls (client_build provider (TrustRoots native_certs)).
Definition client_new_with_webpki_verifier (v : WebPkiVerifier) : result ClientConfig :=
  provider ← default_provider; answer Tls (client_build provider (TrustWebPki v)).
Definition client_with_alpn (protocols : alpn_list) (c : ClientConfig) : ClientConfig := set_alpn_protocols protocols c.

Record TlsConfig : Type := mkTlsConfig { client_config : ClientConfig; tls_server_config : ServerConfig }.

Definition tls_pair (client : result ClientConfig) (server : result ServerConfig) : result TlsConfig :=
  c ← client;
  s ← server;
  Ok (mkTlsConfig (client_with_alpn default_ws_alpn c) (server_with_alpn default_ws_alpn s)).
Definition with_cert (cert_path key_path : string) : result TlsConfig :=
  tls_pair client_new_with_native_certs (server_new_with_cert cert_path key_path).
Definition with_self_signed_certs : result TlsConfig :=
  tls_pair client_new_with_native_certs (server_new_with_self_signed_certs ["localhost"]).
Definition new_native_config : result TlsConfig :=
  tls_pair client_new_with_native_certs (server_new_with_self_signed_certs ["localhost"]).
Definition new_insecure_config : result TlsConfig :=
  tls_pair client_new_insecure (server_new_with_self_signed_certs ["localhost"]).

(** ** [builder.rs]: the methods that take certificates *)

(** The roots are added one by one; the first refusal ends it. *)
Fixpoint add_roots (chain : list (list byte)) (roots : RootCertStore) : result RootCertStore :=
  match chain with
  | [] => Ok roots
  | cert :: chain => roots ← answer Tls (root_add (cert_from cert) roots); add_roots chain roots
  end.
Definition with_server_certificates (chain : list (list byte)) (b : Plain.ClientBuilder ClientConfig) :
  result (Plain.Client ClientConfig) :=
  roots ← add_roots chain root_empty;
  provider ← default_provider;
  config ← answer Tls (client_build provider (TrustRoots roots));
  Ok (Plain.mkClient (Plain.opts b) (Some config)).

Definition with_certificate {Addr} (chain : list CertificateDer) (key : PrivateKeyDer)
    (sb : Plain.ServerBuilder ServerConfig Addr) : result (Plain.ServerBuilder ServerConfig Addr) :=
  provider ← default_provider;
  _ ← answer Tls (server_versions provider);
  config ← answer Tls (single_cert provider chain key);
  Ok (Plain.with_rustls_config config sb).

(** ** Every way to the TLS configuration of a client

    The pairs of [TlsConfig], the constructors of [TlsClientConfigBuilder], and the
    methods of the client builders of both crates. *)
Inductive client_source : Type :=
| PairWithCert (cert_path key_path : string)
| PairSelfSigned
| PairNative
| PairInsecure
| ConfigNative
| ConfigInsecure
| ConfigWebPki (v : WebPkiVerifier)
| BuilderSystemRoots (b : Plain.ClientBuilder ClientConfig)
| BuilderCertificates (chain : list (list byte)) (b : Plain.ClientBuilder ClientConfig)
| BuilderDangerous (b : Plain.ClientBuilder ClientConfig)
| BuilderTlsConfig (t : ClientConfig) (b : Plain.ClientBuilder ClientConfig)
| MuxTlsConfig (t : ClientConfig) (b : Mux.MuxClientBuilder ClientConfig).

Definition client_of (src : client_source) : result (option ClientConfig) :=
  match src with
  | PairWithCert cert_path key_path => cfg ← with_cert cert_path key_path; Ok (Some (client_config cfg))
  | PairSelfSigned => cfg ← with_self_signed_certs; Ok (Some (client_config cfg))
  | PairNative => cfg ← new_native_config; Ok (Some (client_config cfg))
  | PairInsecure => cfg ← new_insecure_config; Ok (Some (client_config cfg))
  | ConfigNative => c ← client_new_with_native_certs; Ok (Some c)
  | ConfigInsecure => c ← client_new_insecure; Ok (Some c)
  | ConfigWebPki v => c ← client_new_with_webpki_verifier v; Ok (Some c)
  | BuilderSystemRoots b => c ← Plain.with_system_roots client_new_with_native_certs b; Ok (Plain.c_tls c)
  | BuilderCertificates chain b => c ← with_server_certificates chain b; Ok (Plain.c_tls c)
  | BuilderDangerous b => c ← Plain.with_no_certificate_verification client_new_insecure b; Ok (Plain.c_tls c)
  | BuilderTlsConfig t b => Ok (Plain.c_tls (Plain.build (Plain.with_tls_config t b)))
  | MuxTlsConfig t b => Ok (Mux.c_tls (Mux.mux_build (Mux.mux_with_tls_config t b)))
  end.

(** The verifier it should have. *)
Definition promised (src : client_source) (v : verifier) : Prop :=
  match src with
  | PairWithCert _ _ | PairSelfSigned | PairNative | ConfigNative | BuilderSystemRoots _ =>
      exists roots, get_native_certs = Ok roots /\ v = TrustRoots roots
  | PairInsecure | ConfigInsecure | BuilderDangerous _ => v = SkipServerVerification ring_default_provider
  | ConfigWebPki w => v = TrustWebPki w
  | BuilderCertificates chain _ => exists roots, add_roots chain root_empty = Ok roots /\ v = TrustRoots roots
  | BuilderTlsConfig t _ | MuxTlsConfig t _ => v = verifier_of t
  end.

(** Whether a crypto provider is asked for. *)
Definition needs_provider (src : client_source) : Prop :=
  match src with
  | BuilderTlsConfig _ _ | MuxTlsConfig _ _ => False
  | BuilderCertificates chain _ => exists roots, add_roots chain root_empty = Ok roots
  | _ => True
  end.
End Tls.

(** ** Properties *)
Section Properties.
Context `{RustlsLaws}.

Lemma default_provider_panics :
  default_provider = Panic <-> get_default = None /\ feature_ring = false /\ feature_aws_lc_rs = false.
Proof. unfold default_provider. repeat case_match; naive_solver. Qed.

Lemma client_native_ok c : client_new_with_native_certs = Ok c ->
  exists roots, get_native_certs = Ok roots /\ verifier_of c = TrustRoots roots.
Proof.
  unfold client_new_with_native_certs. simpl. destruct default_provider as [p| |]; simpl; [|done..].
  destruct (client_build p _) as [e|c'] eqn:E; simpl; [done|]. intros [= ->]. eexists. split; [done|].
  by eapply built_verifier.
Qed.
Lemma client_insecure_ok c : client_new_insecure = Ok c -> verifier_of c = SkipServerVerification ring_default_provider.
Proof.
  unfold client_new_insecure. destruct default_provider as [p| |]; simpl; [|done..].
  destruct (client_build p _) as [e|c'] eqn:E; simpl; [done|]. intros [= ->]. by eapply built_verifier.
Qed.
Lemma client_webpki_ok v c : client_new_with_webpki_verifier v = Ok c -> verifier_of c = TrustWebPki v.
Proof.
  unfold client_new_with_webpki_verifier. destruct default_provider as [p| |]; simpl; [|done..].
  destruct (client_build p _) as [e|c'] eqn:E; simpl; [done|]. intros [= ->]. by eapply built_verifier.
Qed.
Lemma with_certificates_ok chain b c : with_server_certificates chain b = Ok c ->
  exists t roots, Plain.c_tls c = Some t /\ add_roots chain root_empty = Ok roots /\ verifier_of t = TrustRoots roots.
Proof.
  unfold with_server_certificates.
  destruct (add_roots chain root_empty) as [roots| |]; simpl; [|done..].
  destruct default_provider as [p| |]; simpl; [|done..].
  destruct (client_build p _) as [e|t] eqn:E; simpl; [done|]. intros [= <-].
  exists t, roots. split_and!; [done..|]. by eapply built_verifier.
Qed.

(** What every pair promises, given what its client does. *)
Lemma tls_pair_ok client server (V : verifier -> Prop) :
  (forall c, client = Ok c -> V (verifier_of c)) ->
  forall cfg, tls_pair client server = Ok cfg ->
    alpn_protocols (client_config cfg) = default_ws_alpn /\ alpn_protocols (tls_server_config cfg) = default_ws_alpn
    /\ V (verifier_of (client_config cfg)).
Proof.
  intros HV cfg. unfold tls_pair. destruct client as [c| |]; simpl; [|done..]. destruct server as [s| |]; simpl; [|done..].
  intros [= <-]. simpl. unfold client_with_alpn, server_with_alpn. rewrite !alpn_set, alpn_keeps_verifier.
  split_and!; [done..|]. by apply HV.
Qed.

(** Who panics: whoever asks for a provider when there is none. *)
Lemma answer_no_panic {E A} (f : E -> Error) (r : E + A) : answer f r <> Panic.
Proof. by destruct r. Qed.
Lemma answer_then_panic {E A B} (f : E -> Error) (r : E + A) (k : A -> B) :
  (a ← answer f r; Ok (k a) : result B) <> Panic.
Proof. by destruct r. Qed.
Lemma server_config_panic chain key : server_config chain key = Panic <-> default_provider = Panic.
Proof.
  unfold server_config. destruct default_provider as [p| |]; simpl; [|done..].
  destruct (server_versions p); simpl; [done|]. split; [|done]. by intros ?%answer_no_panic.
Qed.
Lemma with_certificate_panic {Addr} chain key (sb : Plain.ServerBuilder ServerConfig Addr) :
  with_certificate chain key sb = Panic <-> default_provider = Panic.
Proof.
  unfold with_certificate. destruct default_provider as [p| |]; simpl; [|done..].
  destruct (server_versions p); simpl; [done|]. by destruct (single_cert p chain key).
Qed.
Lemma loads_no_panic path : load_certs path <> Panic /\ load_key path <> Panic.
Proof.
  unfold load_certs, load_key. destruct (read_file path); simpl; [done|]. split; (case_decide; [done|apply answer_no_panic]).
Qed.
Lemma servers_panic names cert_path key_path :
  (server_new_with_self_signed_certs names = Panic -> default_provider = Panic)
  /\ (server_new_with_cert cert_path key_path = Panic -> default_provider = Panic).
Proof.
  split.
  - unfold server_new_with_self_signed_certs, server_new_insecure, generate_self_signed_pair_der.
    destruct (self_signed names) as [|[[[c x] k] y]]; simpl; [done|]. apply server_config_panic.
  - unfold server_new_with_cert, load_cert. destruct (loads_no_panic cert_path) as [Hc _], (loads_no_panic key_path) as [_ Hk].
    destruct (load_certs cert_path); simpl; [|done..]. destruct (load_key key_path); simpl; [|done..].
    apply server_config_panic.
Qed.
Lemma clients_panic :
  (client_new_with_native_certs = Panic <-> default_provider = Panic)
  /\ (client_new_insecure = Panic <-> default_provider = Panic)
  /\ forall v, client_new_with_webpki_verifier v = Panic <-> default_provider = Panic.
Proof.
  unfold client_new_with_native_certs, client_new_insecure, client_new_with_webpki_verifier. simpl.
  destruct default_provider as [p| |]; simpl; [|done..].
  split_and!; [..|intros v]; (split; [|done]); by intros ?%answer_no_panic.
Qed.
Lemma tls_pair_panic client server :
  (client = Panic <-> default_provider = Panic) -> (server = Panic -> default_provider = Panic) ->
  (cfg ← tls_pair client server; Ok (Some (client_config cfg))) = (Panic : result _) <-> default_provider = Panic.
Proof.
  intros Hc Hs. unfold tls_pair. rewrite <- Hc. destruct client as [c|e|]; simpl; [|done..].
  destruct server as [t|e|]; simpl; [done..|]. split; [|done]. by rewrite Hc; auto.
Qed.
Lemma find_sha256_none l : find_sha256 l = None <-> forall hash, Some (true, hash) ∉ l.
Proof.
  induction l as [|[[[] h]|] l IH]; simpl; [split; [by intros _ h ?%elem_of_nil|done]|..].
  - split; [done|]. intros Hn. destruct (Hn h). by left.
  - rewrite IH. split; intros Hn hash; [intros [?|?]%elem_of_cons; [done|by eapply Hn]|intros Hin; eapply Hn; by right].
  - rewrite IH. split; intros Hn hash; [intros [?|?]%elem_of_cons; [done|by eapply Hn]|intros Hin; eapply Hn; by right].
Qed.

Lemma client_of_promised src o :
  client_of src = Ok o -> exists t, o = Some t /\ promised src (verifier_of t).
Proof.
  assert (Hpair : forall client server (V : verifier -> Prop), (forall c, client = Ok c -> V (verifier_of c)) ->
    (cfg ← tls_pair client server; Ok (Some (client_config cfg))) = Ok o -> exists t, o = Some t /\ V (verifier_of t)).
  { intros client server V HV. destruct (tls_pair client server) as [cfg| |] eqn:E; simpl; [|done..]. intros [= <-].
    eexists. split; [done|]. by apply (tls_pair_ok _ _ V HV cfg E). }
  destruct src as [cp kp| | | | | |v|b|chain b|b|t b|t b]; cbn [client_of promised].
  - apply (Hpair _ _ (fun v => exists roots, get_native_certs = Ok roots /\ v = TrustRoots roots)), client_native_ok.
  - apply (Hpair _ _ (fun v => exists roots, get_native_certs = Ok roots /\ v = TrustRoots roots)), client_native_ok.
  - apply (Hpair _ _ (fun v => exists roots, get_native_certs = Ok roots /\ v = TrustRoots roots)), client_native_ok.
  - apply (Hpair _ _ (fun v => v = SkipServerVerification ring_default_provider)), client_insecure_ok.
  - destruct client_new_with_native_certs as [c| |] eqn:E; simpl; [|done..]. intros [= <-].
    eexists. split; [done|]. by apply client_native_ok.
  - destruct client_new_insecure as [c| |] eqn:E; simpl; [|done..]. intros [= <-].
    eexists. split; [done|]. by apply client_insecure_ok.
  - destruct (client_new_with_webpki_verifier v) as [c| |] eqn:E; simpl; [|done..]. intros [= <-].
    eexists. split; [done|]. by apply client_webpki_ok.
  - unfold Plain.with_system_roots. destruct client_new_with_native_certs as [c| |] eqn:E; simpl; [|done..].
    intros [= <-]. eexists. split; [done|]. by apply client_native_ok.
  - destruct (with_server_certificates chain b) as [c| |] eqn:E; simpl; [|done..]. intros [= <-].
    destruct (with_certificates_ok chain b c E) as (t & roots & Ht & Hr & Hv). exists t. eauto.
  - unfold Plain.with_no_certificate_verification. destruct client_new_insecure as [c| |] eqn:E; simpl; [|done..].
    intros [= <-]. eexists. split; [done|]. by apply client_insecure_ok.
  - intros [= <-]. unfold build_tls_config. simpl. eexists. split; [done|].
    by destruct (Plain.alpn b); simpl; rewrite ?alpn_keeps_verifier.
  - intros [= <-]. unfold build_tls_config. simpl. eexists. split; [done|].
    by destruct (Mux.alpn b); simpl; rewrite ?alpn_keeps_verifier.
Qed.

Lemma client_of_panics src : client_of src = Panic <-> default_provider = Panic /\ needs_provider src.
Proof.
  destruct clients_panic as (Hn & Hi & Hw).
  assert (Hmap : forall {A B} (r : result A) (k : A -> B), (a ← r; Ok (k a)) = (Panic : result B) <-> r = Panic)
    by (intros A B [] k; simpl; split; done).
  destruct src as [cp kp| | | | | |v|b|chain b|b|t b|t b]; cbn [client_of needs_provider].
  - etrans; [apply (tls_pair_panic _ _ Hn), (servers_panic ["localhost"] cp kp)|tauto].
  - etrans; [apply (tls_pair_panic _ _ Hn), (servers_panic ["localhost"] "" "")|tauto].
  - etrans; [apply (tls_pair_panic _ _ Hn), (servers_panic ["localhost"] "" "")|tauto].
  - etrans; [apply (tls_pair_panic _ _ Hi), (servers_panic ["localhost"] "" "")|tauto].
  - rewrite Hmap, Hn. tauto.
  - rewrite Hmap, Hi. tauto.
  - rewrite Hmap, Hw. tauto.
  - rewrite Hmap. unfold Plain.with_system_roots. rewrite Hmap, Hn. tauto.
  - rewrite Hmap. unfold with_server_certificates.
    assert (Hadd : forall roots, add_roots chain roots <> Panic).
    { induction chain as [|c chain IH]; intros roots; simpl; [done|]. by destruct (root_add _ roots); simpl. }
    destruct (add_roots chain root_empty) as [roots|e|] eqn:E; simpl; [| |by destruct (Hadd root_empty)].
    + destruct default_provider as [p|e|]; simpl; [|naive_solver..].
      destruct (client_build p _); simpl; naive_solver.
    + naive_solver.
  - rewrite Hmap. unfold Plain.with_no_certificate_verification. rewrite Hmap, Hi. tauto.
  - naive_solver.
  - naive_solver.
Qed.

(** C33: the TLS configurations of the clients, over every way to one.  A configuration
    has exactly the verifier its constructor promises: the system's roots, the
    certificates given, the given verifier or configuration; the insecure constructors
    and [dangerous()] are the only ones that skip verification, unless the caller hands
    in a configuration that does.  Both sides of every pair advertise exactly the
    supported HTTP version.  A constructor panics exactly when it asks for a crypto
    provider and there is none, no server constructor panics otherwise, and [sha256]
    panics exactly when no TLS 1.3 suite of the provider hashes with SHA-256. *)
Theorem tls_configs src :
  (forall o, client_of src = Ok o -> exists t, o = Some t /\ promised src (verifier_of t)
     /\ forall p, verifier_of t = SkipServerVerification p ->
          match src with
          | PairInsecure | ConfigInsecure | BuilderDangerous _ => p = ring_default_provider
          | BuilderTlsConfig given _ | MuxTlsConfig given _ => verifier_of given = SkipServerVerification p
          | _ => False
          end)
  /\ (forall cert_path key_path r, r ∈ [with_cert cert_path key_path; with_self_signed_certs; new_native_config; new_insecure_config] ->
       forall cfg, r = Ok cfg -> alpn_protocols (client_config cfg) = [ALPN_HTTP_1_1]
         /\ alpn_protocols (tls_server_config cfg) = [ALPN_HTTP_1_1])
  /\ (client_of src = Panic <-> default_provider = Panic /\ needs_provider src)
  /\ (forall names cert_path key_path, default_provider <> Panic ->
       server_new_with_self_signed_certs names <> Panic /\ server_new_with_cert cert_path key_path <> Panic)
  /\ (forall Addr chain key (sb : Plain.ServerBuilder ServerConfig Addr),
       with_certificate chain key sb = Panic <-> default_provider = Panic)
  /\ forall provider cert, sha256 provider cert = Panic <-> forall hash, Some (true, hash) ∉ tls13_hashes provider.
Proof.
  split_and!.
  - intros o Ho. destruct (client_of_promised src o Ho) as (t & -> & Hp). exists t. split_and!; [done..|].
    intros p Hskip. rewrite Hskip in Hp. destruct src; simpl in Hp; naive_solver.
  - intros cert_path key_path r Hr cfg Hok.
    assert (Hpair : forall client server, tls_pair client server = Ok cfg ->
      alpn_protocols (client_config cfg) = [ALPN_HTTP_1_1] /\ alpn_protocols (tls_server_config cfg) = [ALPN_HTTP_1_1]).
    { intros client server E. by destruct (tls_pair_ok client server (fun _ => True) ltac:(done) cfg E) as (? & ? & _). }
    rewrite !elem_of_cons, elem_of_nil in Hr. destruct Hr as [->|[->|[->|[->|[]]]]]; by eapply Hpair.
  - apply client_of_panics.
  - intros names cp kp Hd. destruct (servers_panic names cp kp). tauto.
  - intros. apply with_certificate_panic.
  - intros provider cert. unfold sha256. rewrite <- find_sha256_none. by destruct (find_sha256 _).
Qed.
End Properties.

(** *** A toy rustls: configurations are an ALPN list and a verifier *)
Section Demo.
Inductive toy_verifier : Set := ToyRoots (n : nat) | ToyWebPki | ToySkip.
Definition toy_client_alpn : AlpnConfig (alpn_list * toy_verifier) := {|
  alpn_protocols c := c.1; set_alpn_protocols a c := (a, c.2); alpn_set a c := eq_refl
|}.
Definition toy_server_alpn : AlpnConfig alpn_list := {|
  alpn_protocols c := c; set_alpn_protocols a c := a; alpn_set a c := eq_refl
|}.

(** Roots are counted; an empty certificate is refused. *)
#[local] Instance toy_rustls : Rustls := {|
  CryptoProvider := unit; CertificateDer := list byte; PrivateKeyDer := list byte; RootCertStore := nat;
  WebPkiVerifier := unit; ClientConfig := alpn_list * toy_verifier; ServerConfig := alpn_list;
  client_alpn := toy_client_alpn; server_alpn := toy_server_alpn;
  get_default := None; feature_ring := true; feature_aws_lc_rs := false;
  ring_default_provider := tt; aws_lc_rs_default_provider := tt;
  tls13_hashes _ := [None; Some (false, fun b : list byte => b); Some (true, fun b : list byte => rev b)];
  der_bytes b := b; cert_from b := b; key_from_pkcs8 b := b;
  pem_certs b := [inr b]; pem_key b := inr b;
  read_file path := if decide (path = "cert.pem" \/ path = "key.der") then inr [x01] else inl (mkIoError OtherKind "missing");
  load_native_certs := [[]; [x01]]; root_empty := 0%nat;
  root_add c n := if decide (c = []) then inl (mkBoxError "refused") else inr (S n);
  self_signed names := inr ([x02], "cert", [x03], "key")
|}.
#[local] Instance toy_build : RustlsBuild := {|
  client_build _ v := inr ([], match v with
                               | TrustRoots n => ToyRoots n
                               | TrustWebPki _ => ToyWebPki
                               | SkipServerVerification _ => ToySkip
                               end);
  server_versions _ := inr tt;
  single_cert _ chain _ := if decide (chain = []) then inl (mkBoxError "no certificate") else inr [];
  verifier_of c := match c.2 with
                   | ToyRoots n => TrustRoots n
                   | ToyWebPki => TrustWebPki tt
                   | ToySkip => SkipServerVerification tt
                   end
|}.
#[local] Instance toy_laws : RustlsLaws.
Proof. split; [|done]. intros [] v c. simpl. intros [= <-]. by destruct v as [|[]|[]]. Qed.

Lemma tls_configs_witness :
  with_cert "cert.pem" "key.der" = Ok (mkTlsConfig ([ALPN_HTTP_1_1], ToyRoots 1) [ALPN_HTTP_1_1])
  /\ client_of (BuilderCertificates [[x01]; [x02]] Plain.ClientBuilder_new) = Ok (Some ([], ToyRoots 2))
  /\ (exists t, Some ([], ToyRoots 2) = Some t
       /\ promised (BuilderCertificates [[x01]; [x02]] Plain.ClientBuilder_new) (verifier_of t)
       /\ forall p, verifier_of t = SkipServerVerification p -> False)
  /\ sha256 tt [x01; x02] = Ok [x02; x01].
Proof.
  split; [vm_compute; reflexivity|]. split; [vm_compute; reflexivity|]. split; [|vm_compute; reflexivity].
  destruct (tls_configs (BuilderCertificates [[x01]; [x02]] Plain.ClientBuilder_new)) as [Hv _].
  apply Hv. vm_compute. reflexivity.
Defined.
End Demo.
