(* ===== verification/TwoParty.v ===== *)
(** * The two ends of a connection

    What a server makes of the frames a browser session queues.  The order and the
    credit every browser session keeps ([WasmProps]) leave an endpoint that takes them
    in order ([PeerRun]) no reason to reject a frame on a stream the browser opened but
    its own resource limits, and a native server, which takes them like that among its
    clients ([NativeServe]), none either. *)

From S2P Require Import Prelude Buf VarInt Frame Proto Limits SendFlow Channel Async NativeState.
From S2P Require Import NativeOps NativeStream NativeRecv NativeSession NativeTasks Credit NativeInv.
From S2P Require Import NativePool NativeProps FuturesChannel WasmState WasmOps WasmStreams WasmSession.
From S2P Require Import WasmInv WasmPool WasmProps Protocol Rely WasmRefine NativeRefine PeerRun NativeOwn NativeConc.
From S2P Require Import NativeOthers NativeServe.
Open Scope mux_scope.

(** ** A browser client and a native server *)



Section BrowserNative.
Context {fchan : Type -> Type} `{FMpscLaws fchan} {chan : Type -> Type} `{MpscLaws chan}.
Context `{!MapOrder} `{!MapOrderLaws} (wb wn : UsizeWidth) (lc ls : Limits).
Context (c0 : WasmSession fchan) (t0 : SessionInner chan).
Context (Hcw : 0 <= usize_bits (UsizeWidth := wb)) (Hcu : limits_usize (H := wb) lc).
Context (Hcf : max_stream_data_per_frame lc + 33 <= usize_max (H := wb)).
Context (Hc0 : wasm_Session_new (H1 := wb) lc = Ok c0).
Context (Hsu : limits_usize (H := wn) ls).
Context (Ht0 : Session_new (H1 := wn) true ls = Ok t0).
Context (Hsize : max_stream_data_per_frame lc <= max_stream_data_per_frame ls).


End BrowserNative.

(** *** A concrete pair of sessions *)
Section Demo.
#[local] Existing Instance list_order.
#[local] Existing Instance usize64.



End Demo.
