(* ===== verification/Clients.v ===== *)
(** * Clients and the example programs' configuration

    [Client::connect] of the three client types, and how the example programs choose
    their configuration: [build_client] of [websock/examples/echo-client.rs] and
    [split-client.rs] (the same code) and of [websock-mux/examples/echo-client-mux.rs],
    and the TLS arguments of the two example servers. *)

From S2P Require Import Prelude Buf VarInt Frame Proto Limits SendFlow Channel Async NativeState.
From S2P Require Import NativeOps NativeStream NativeRecv NativeSession NativeTasks FuturesChannel.
From S2P Require Import WasmState WasmOps WasmStreams WasmSession Http Handshake Builders Tls BrowserConn BrowserProps.
Open Scope mux_scope.

(** ** Connecting *)
Section Connect.
Context `{Http} {Ws Addr TlsClient : Type}.

(** [connect(url, opts)] of the plain crate *)
Definition connect (env : Client_env (Ws := Ws) (Addr := Addr) (TlsClient := TlsClient)) (url : string)
    (opts : ConnectOptions) : result (Connection (Ws := Ws) (Addr := Addr)) :=
  connect_with_tls env url opts None.
Definition Client_connect (env : Client_env (Ws := Ws) (Addr := Addr) (TlsClient := TlsClient)) (url : string)
    (c : Plain.Client TlsClient) : result (Connection (Ws := Ws) (Addr := Addr)) :=
  connect_with_tls env url (Plain.c_opts c) (Plain.c_tls c).
End Connect.

(** The browser mux client: the limits are checked, the socket is made, and when it has
    opened the session is. *)
Section BrowserMux.
Context {fchan : Type -> Type} `{FMpsc fchan} `{!UsizeWidth}.

Definition mux_client_connect (new_ws : string -> option (list string) -> string + WebSocket) (url : string)
    (c : Browser.BrowserMuxClient) : result (BConn fchan) :=
  _ ← wasm_Limits_validate (Browser.mc_limits c);
  b_connect new_ws url (Browser.mc_opts c).
(** The rest of [connect] once [open_rx] yields: the connection and its session. *)
Definition mux_client_resume (c : Browser.BrowserMuxClient) (conn : BConn fchan) :
  option (result (BConn fchan * WasmSession fchan)) :=
  conn ← connect_resume conn;
  Some match b_owner conn with
       | Failed e => Err e
       | _ => s ← wasm_Session_new (Browser.mc_limits c); Ok (conn, s)
       end.

(** No socket is made for limits that cannot work, and a session always has the limits
    of its client, which are valid; it is made only when the socket has opened. *)
Lemma mux_client_connects new_ws url c :
  (wasm_Limits_validate (Browser.mc_limits c) <> Ok tt -> forall conn, mux_client_connect new_ws url c <> Ok conn)
  /\ (forall conn, mux_client_connect new_ws url c = Ok conn -> wasm_Limits_validate (Browser.mc_limits c) = Ok tt)
  /\ forall conn conn' s, mux_client_resume c conn = Some (Ok (conn', s)) ->
       w_limits s = Browser.mc_limits c /\ wasm_Limits_validate (Browser.mc_limits c) = Ok tt
       /\ b_open_res conn = Some (Ok tt) /\ b_owner conn' = Whole.
Proof.
  assert (Hv : forall conn, mux_client_connect new_ws url c = Ok conn -> wasm_Limits_validate (Browser.mc_limits c) = Ok tt).
  { intros conn. unfold mux_client_connect. by destruct (wasm_Limits_validate _) as [[]| |]. }
  split_and!; [naive_solver|done|]. intros conn conn' s. unfold mux_client_resume, connect_resume.
  destruct (b_open_res conn) as [[[]|e|]|]; simpl; [|done..]. unfold wasm_Session_new.
  destruct (wasm_Limits_validate _) as [[]| |] eqn:E; simpl; [|done..]. intros [= <- <-]. done.
Qed.
End BrowserMux.

(** ** The example clients *)
Record Url : Set := mkUrl { scheme : string; host_str : option string }.
Record ClientArgs : Set := mkClientArgs { tls_cert : option string; tls_disable_verify : bool }.

Definition is_localhost_url (url : Url) : bool :=
  match host_str url with
  | Some host => bool_decide (host = "localhost" \/ host = "127.0.0.1" \/ host = "::1")
  | None => false
  end.

Section Examples.
Context `{RustlsBuild}.

(** [anyhow::ensure!] and the errors that [?] converts, as [Other]. *)
Definition no_certificate : Error := Other "could not find certificate".

(** [CertificateDer::pem_file_iter(path)?.collect()?] *)
Definition pem_file (path : string) : result (list CertificateDer) :=
  bytes ← answer Io (read_file path); answer Tls (collect (pem_certs bytes)).
Definition load_pem_certs (path : string) : result (list (list byte)) :=
  certs ← pem_file path; Ok (map der_bytes certs).

Definition build_client (url : Url) (args : ClientArgs) : result (Plain.Client ClientConfig) :=
  let new := Plain.ClientBuilder_new in
  if decide (scheme url = "ws") then Ok (Plain.build new)
  else if tls_disable_verify args then Plain.with_no_certificate_verification client_new_insecure new
  else match tls_cert args with
  | Some path =>
      chain ← load_pem_certs path;
      if decide (chain = []) then Err no_certificate else with_server_certificates chain new
  | None =>
      if is_localhost_url url then Plain.with_no_certificate_verification client_new_insecure new
      else Plain.with_system_roots client_new_with_native_certs new
  end.

Definition tls_mux_client (tls_cfg : ClientConfig) : Mux.MuxClient ClientConfig :=
  Mux.mux_build (Mux.mux_with_default_alpn (Mux.mux_with_tls_config tls_cfg Mux.mux_ClientBuilder_new)).

(** The mux client: [builder] is rustls's [ClientConfig::builder()], which uses the
    process default; certificates the store refuses are skipped. *)
Definition mux_build_client (builder : verifier -> outcome Error ClientConfig) (url : Url) (args : ClientArgs) :
  result (Mux.MuxClient ClientConfig) :=
  if decide (scheme url = "ws") then Ok (Mux.mux_build Mux.mux_ClientBuilder_new)
  else
    tls_cfg ←
      if tls_disable_verify args then client_new_insecure
      else match tls_cert args with
      | Some path =>
          certs ← load_certs path;
          if decide (certs = []) then Err no_certificate
          else builder (TrustRoots (foldl (fun roots c => match root_add c roots with inr r => r | inl _ => roots end)
                                     root_empty certs))
      | None => if is_localhost_url url then client_new_insecure else client_new_with_native_certs
      end;
    Ok (tls_mux_client tls_cfg).

(** The TLS arguments of the servers: both or neither. *)
Definition server_tls_args (cert key : option string) : result (option (string * string)) :=
  match cert, key with
  | Some c, Some k => Ok (Some (c, k))
  | None, None => Ok None
  | _, _ => Err (Other "both --tls-cert and --tls-key must be provided together, or neither")
  end.
Definition load_pem_cert_and_key (cert_path key_path : string) : result (list CertificateDer * PrivateKeyDer) :=
  chain ← pem_file cert_path;
  if decide (chain = []) then Err no_certificate
  else
    bytes ← answer Io (read_file key_path);
    key ← answer Tls (pem_key bytes);
    Ok (chain, key).
End Examples.

(** When an example client may skip verification. *)
Definition may_skip (url : Url) (args : ClientArgs) : bool :=
  tls_disable_verify args || (bool_decide (tls_cert args = None) && is_localhost_url url).

Section ExampleProps.
Context `{RustlsLaws}.

(** A client config that decides as [skip] says. *)
Definition decides (skip : bool) (t : ClientConfig) : Prop :=
  if skip then verifier_of t = SkipServerVerification ring_default_provider
  else exists roots, verifier_of t = TrustRoots roots.

Lemma native_decides t : client_new_with_native_certs = Ok t -> decides false t.
Proof. intros (roots & _ & Hv)%client_native_ok. by exists roots. Qed.

Lemma tls_mux_client_ok skip (r : result ClientConfig) c :
  (forall t, r = Ok t -> decides skip t) -> (t ← r; Ok (tls_mux_client t)) = Ok c ->
  exists t, Mux.c_tls c = Some t /\ decides skip t /\ alpn_protocols t = [ALPN_HTTP_1_1].
Proof.
  intros Hr. destruct r as [t| |]; simpl; [|done..]. intros [= <-]. simpl. eexists. split; [done|].
  rewrite alpn_set. split; [|done]. unfold decides in *. rewrite alpn_keeps_verifier. by apply Hr.
Qed.

(** The example clients use no TLS for [ws] URLs.  For other URLs they skip the
    verification of certificates only when asked to, or when no certificate is given and
    the host is a loopback name; otherwise they trust a root store. *)
Lemma example_clients_verify builder url args :
  (forall v t, builder v = Ok t -> verifier_of t = v) ->
  (forall c, build_client url args = Ok c ->
     if decide (scheme url = "ws") then Plain.c_tls c = None
     else exists t, Plain.c_tls c = Some t /\ decides (may_skip url args) t)
  /\ forall c, mux_build_client builder url args = Ok c ->
     if decide (scheme url = "ws") then Mux.c_tls c = None
     else exists t, Mux.c_tls c = Some t /\ decides (may_skip url args) t
       /\ alpn_protocols t = [ALPN_HTTP_1_1].
Proof.
  intros Hb. split; intros c.
  - unfold build_client, may_skip, Plain.with_no_certificate_verification, Plain.with_system_roots. case_decide; [by intros [= <-]|].
    destruct (tls_disable_verify args); simpl.
    { destruct client_new_insecure as [t| |] eqn:E; simpl; [|done..]. intros [= <-]. exists t. split; [done|]. by apply client_insecure_ok. }
    destruct (tls_cert args) as [path|]; simpl.
    { destruct (load_pem_certs path) as [chain| |]; simpl; [|done..]. case_decide; [done|].
      intros (t & roots & ? & _ & ?)%with_certificates_ok. exists t. split; [done|]. by exists roots. }
    destruct (is_localhost_url url); simpl.
    + destruct client_new_insecure as [t| |] eqn:E; simpl; [|done..]. intros [= <-]. exists t. split; [done|]. by apply client_insecure_ok.
    + destruct client_new_with_native_certs as [t| |] eqn:E; simpl; [|done..]. intros [= <-]. exists t. split; [done|]. by apply native_decides.
  - unfold mux_build_client. case_decide; [by intros [= <-]|].
    apply tls_mux_client_ok. intros t. unfold may_skip. destruct (tls_disable_verify args); simpl; [by apply client_insecure_ok|].
    destruct (tls_cert args) as [path|]; simpl.
    { destruct (load_certs path) as [certs| |]; simpl; [|done..]. case_decide; [done|]. intros Ht%Hb. by eexists. }
    destruct (is_localhost_url url); simpl; [apply client_insecure_ok|apply native_decides].
Qed.
End ExampleProps.
