(* ===== verification/ConnApi.v ===== *)
(** * The connection interface and the programs that use it

    The trait [WebSocketConnection] of [websock-proto/src/transport.rs] as a class, with
    the native and the browser connection as instances; the echo programs written
    against it ([websock/examples/echo-server.rs] and [echo-client.rs],
    [websock-wasm-demo/src/echo.rs]); and the endpoints of the browser test server
    ([websock-browser-test-server/src/main.rs]), which use the socket directly.  A
    connection has one owner, so these programs run without interference. *)

From S2P Require Import Prelude Buf VarInt Frame Proto Limits SendFlow Channel Async NativeState.
From S2P Require Import NativeOps NativeStream NativeRecv NativeSession NativeTasks FuturesChannel.
From S2P Require Import WsConn WsConnProps BrowserConn.
Open Scope mux_scope.

(** ** The trait *)
Class WebSocketConnection (C : Type) : Type := {
  wsc_send : Message -> @prog C (result unit);
  wsc_recv : @prog C (result Message);
  wsc_close : @prog C (result unit)
}.

Definition native_connection (sink : list TtMessage -> TtMessage -> option TungsteniteError) :
  WebSocketConnection TtConn := {|
  wsc_send m := atomic (conn_send sink m);
  wsc_recv := atomic (conn_recv sink);
  wsc_close := atomic (conn_close sink)
|}.

(** A future that is never ready. *)
Definition never {C A} : @prog C A := await (fun _ => None).

Section BrowserConnection.
Context {fchan : Type -> Type} `{FMpsc fchan} `{UsizeWidth}.

(** [close] drains the queue until the close event; [rounds] bounds the items it takes. *)
Fixpoint b_close_loop (rounds : nat) : @prog (BConn fchan) (result unit) :=
  match rounds with
  | O => never
  | S rounds =>
      let* r := await (fun c =>
        match b_close_round c with
        | Some (inl (r, c)) => Some (c, Some r)
        | Some (inr c) => Some (c, None)
        | None => None
        end) in
      match r with Some r => Ret r | None => b_close_loop rounds end
  end.
Definition b_close (rounds : nat) : @prog (BConn fchan) (result unit) :=
  let* r := atomic (fun c =>
    match b_close_start c with inl (r, c) => (c, Some r) | inr c => (c, None) end) in
  match r with Some r => Ret r | None => b_close_loop rounds end.

(** [throws] says when [WebSocket.send] throws. *)
Definition browser_connection (throws : BConn fchan -> Message -> option string) (rounds : nat) :
  WebSocketConnection (BConn fchan) := {|
  wsc_send m := atomic (fun c => b_send (throws c m) m c);
  wsc_recv := await (fun c => match b_recv c with (Some r, c) => Some (c, r) | (None, _) => None end);
  wsc_close := b_close rounds
|}.
End BrowserConnection.

(** ** The echo programs *)
Section Echo.
Context {C : Type} `{!WebSocketConnection C}.

(** The task of the echo server; [rounds] bounds the messages it takes. *)
Fixpoint echo_task (rounds : nat) : @prog C unit :=
  match rounds with
  | O => never
  | S rounds =>
      let* r := wsc_recv in
      let* again :=
        match r with
        | Ok msg => let* sent := wsc_send msg in Ret (is_ok sent)
        | _ => Ret false
        end in
      if again then echo_task rounds else let* _ := wsc_close in Ret tt
  end.

(** The echo client: it returns the message it logs. *)
Definition echo_client (msg : Message) : @prog C (result Message) :=
  let? _ := wsc_send msg in
  let? answer := wsc_recv in
  let? _ := wsc_close in
  Ret (Ok answer).
End Echo.

(** ** The test server, on the socket of tungstenite *)
Section TestServer.
Context (sink : list TtMessage -> TtMessage -> option TungsteniteError).

(** [socket.send(m).await?] for each message. *)
Fixpoint send_each (ms : list TtMessage) (c : TtConn) : TtConn * outcome TungsteniteError unit :=
  match ms with
  | [] => (c, Ok tt)
  | m :: ms =>
      match sink (tt_wire c) m with
      | Some e => (c, Err e)
      | None => send_each ms (mkTtConn (inbox c) (tt_wire c ++ [m]) (close_frame c))
      end
  end.

(** The loop of the default endpoint: everything but a close frame is sent back. *)
Fixpoint echo_raw (items : list tt_item) (c : TtConn) : TtConn * outcome TungsteniteError unit :=
  match items with
  | [] => (mkTtConn [] (tt_wire c) (close_frame c), Ok tt)
  | item :: items =>
      let c := mkTtConn items (tt_wire c) (close_frame c) in
      match item with
      | inl e => (c, Err e)
      | inr (TtClose _) => (c, Ok tt)
      | inr m =>
          match send_each [m] c with
          | (c, Ok _) => echo_raw items c
          | r => r
          end
      end
  end.

(** [value.to_be_bytes()] of a [u16] *)
Definition to_be_bytes16 (v : Z) : list byte := [byte_of (Z.shiftr v 8); byte_of v].
Definition overflow_messages : list TtMessage := (fun v => TtBinary (to_be_bytes16 v)) <$> seqZ 0 256.

(** The endpoints, by the path of the request; waiting is not modelled. *)
Definition handle_websocket (path : string) (c : TtConn) : TtConn * outcome TungsteniteError unit :=
  if decide (path = "/overflow") then send_each (overflow_messages ++ [TtClose None]) c
  else if decide (path = "/close") then send_each [TtClose (Some (mkCloseFrame 1008 "browser-test"))] c
  else if decide (path = "/delayed") then
    match send_each [TtText "still-open"] c with
    | (c, Ok _) => (mkTtConn (tail (inbox c)) (tt_wire c) (close_frame c), Ok tt)
    | r => r
    end
  else echo_raw (inbox c) c.
End TestServer.

(** ** What the echo server writes *)

(** The answers to a stream of items: data comes back, pings are answered, a close frame
    is answered and ends the stream, and so does an error. *)
Fixpoint echo_replies (items : list tt_item) : list TtMessage :=
  match items with
  | inr (TtText s) :: items => TtText s :: echo_replies items
  | inr (TtBinary b) :: items => TtBinary b :: echo_replies items
  | inr (TtPing p) :: items => TtPong p :: echo_replies items
  | inr (TtPong _) :: items => echo_replies items
  | inr (TtClose _) :: _ => [TtClose None]
  | inr TtFrame :: _ | inl _ :: _ | [] => []
  end.

Section Replies.
Context (sink : list TtMessage -> TtMessage -> option TungsteniteError).
(** A connection that takes everything: tungstenite does so only until a close was
    exchanged. *)
Definition never_fails : Prop := forall wire m, sink wire m = None.

(** [sent] is what was written of the answers [all], everything if no send fails. *)
Definition answered (all sent : list TtMessage) : Prop :=
  sent `prefix_of` all /\ (never_fails -> sent = all).

Lemma answered_cons m all sent : answered all sent -> answered (m :: all) (m :: sent).
Proof. intros [Hp Hn]. split; [by apply prefix_cons|]. intros Hs. by rewrite Hn. Qed.
Lemma answered_fail m all e wire : sink wire m = Some e -> answered (m :: all) [].
Proof. intros Hf. split; [apply prefix_nil|]. intros Hs. by rewrite Hs in Hf. Qed.
Lemma answered_nil : answered [] []. Proof. by split. Qed.

(** A call of [recv] on the items: a message, with the answers to what came before it
    written, or the end. *)
Definition recv_answers (items : list tt_item) (c c' : TtConn) (r : result Message) : Prop :=
  match r with
  | Ok m => exists pongs, tt_wire c' = tt_wire c ++ pongs
      /\ echo_replies items = pongs ++ to_tt m :: echo_replies (inbox c') /\ (length (inbox c') < length items)%nat
  | Err _ => exists sent, tt_wire c' = tt_wire c ++ sent /\ answered (echo_replies items) sent
  | Panic => False
  end.

Lemma recv_loop_answers items c : let '(c', r) := recv_loop sink items c in recv_answers items c c' r.
Proof.
  assert (Hnil : forall l : list TtMessage, l = l ++ []) by (intros; by rewrite app_nil_r).
  revert c. induction items as [|[e|m] items IH]; intros c; cbn [recv_loop].
  - exists []. split; [apply Hnil|apply answered_nil].
  - exists []. split; [apply Hnil|apply answered_nil].
  - destruct m as [t|b|p|p|frame|]; simpl.
    + exists []. split_and!; [apply Hnil|done|lia].
    + exists []. split_and!; [apply Hnil|done|lia].
    + unfold ws_send. simpl. destruct (sink (tt_wire c) (TtPong p)) as [e|] eqn:Ef; simpl.
      { exists []. split; [apply Hnil|by eapply answered_fail]. }
      specialize (IH (mkTtConn items (tt_wire c ++ [TtPong p]) (close_frame c))).
      destruct (recv_loop sink items _) as [c' [m|e|]]; simpl in *; [| |done].
      * destruct IH as (pongs & -> & -> & Hlen). exists (TtPong p :: pongs). rewrite <- app_assoc. split_and!; [done..|lia].
      * destruct IH as (sent & -> & Ha). exists (TtPong p :: sent). rewrite <- app_assoc. split; [done|by apply answered_cons].
    + specialize (IH (mkTtConn items (tt_wire c) (close_frame c))).
      destruct (recv_loop sink items _) as [c' [m|e|]]; simpl in *; [|done..].
      destruct IH as (pongs & ? & ? & ?). exists pongs. split_and!; [done..|lia].
    + unfold ws_send. simpl. destruct (sink (tt_wire c) (TtClose None)) as [e|] eqn:Ef; simpl.
      * exists []. split; [apply Hnil|by eapply answered_fail].
      * exists [TtClose None]. split; [done|apply answered_cons, answered_nil].
    + exists []. split; [apply Hnil|apply answered_nil].
Qed.

(** The close at the end of the task. *)
Definition closing_tail (tail : list TtMessage) : Prop :=
  (tail = [] \/ tail = [TtClose None]) /\ (never_fails -> tail = [TtClose None]).

Lemma close_writes c : exists tail, tt_wire (conn_close sink c).1 = tt_wire c ++ tail /\ closing_tail tail.
Proof.
  unfold conn_close, ws_send. destruct (sink _ _) eqn:Ef; simpl.
  - exists []. rewrite app_nil_r. split; [done|]. split; [by left|]. intros Hs. by rewrite Hs in Ef.
  - exists [TtClose None]. split; [done|]. split; [by right|done].
Qed.
End Replies.

Lemma echo_task_runs sink rounds : forall c, (length (inbox c) < rounds)%nat ->
  exists c' sent tail,
    run (echo_task (WebSocketConnection0 := native_connection sink) rounds) c = (c', Some tt)
    /\ tt_wire c' = tt_wire c ++ sent ++ tail /\ answered sink (echo_replies (inbox c)) sent /\ closing_tail sink tail.
Proof.
  induction rounds as [|rounds IH]; intros c Hlen; [lia|]. cbn [echo_task]. rewrite run_bind.
  assert (Hstop : forall c1 sent, tt_wire c1 = tt_wire c ++ sent -> answered sink (echo_replies (inbox c)) sent ->
    exists c' sent tail,
      run (pbind (wsc_close (WebSocketConnection := native_connection sink)) (fun _ => Ret tt)) c1 = (c', Some tt)
      /\ tt_wire c' = tt_wire c ++ sent ++ tail /\ answered sink (echo_replies (inbox c)) sent /\ closing_tail sink tail).
  { intros c1 sent Hw Ha. destruct (close_writes sink c1) as (tail & Ht & Hc). simpl in *.
    destruct (conn_close sink c1) as [c2 r]. exists c2, sent, tail. simpl in Ht. rewrite Ht, Hw, <- app_assoc.
    split_and!; [done..|]. exact Hc. }
  pose proof (recv_loop_answers sink (inbox c) c) as Hr. simpl. unfold conn_recv.
  destruct (recv_loop sink (inbox c) c) as [c1 [m|e|]]; simpl in *; [| |done].
  - destruct Hr as (pongs & Hw & Hrep & Hl). unfold conn_send, ws_send.
    destruct (sink (tt_wire c1) (to_tt m)) as [e|] eqn:Ef; simpl.
    + apply (Hstop c1 pongs Hw). rewrite Hrep. split; [by apply prefix_app_r|]. intros Hs. by rewrite Hs in Ef.
    + edestruct (IH (mkTtConn (inbox c1) (tt_wire c1 ++ [to_tt m]) (close_frame c1))) as (c' & sent & tail & Hrun & Hw' & Ha & Hc);
        [simpl; lia|]. exists c', (pongs ++ to_tt m :: sent), tail. rewrite Hrun, Hw'. simpl. rewrite Hw, <- !app_assoc.
      split_and!; [done..| |done]. simpl in Ha. rewrite Hrep. destruct Ha as [Hp Hn].
      split; [by apply prefix_app, prefix_cons|]. intros Hs. by rewrite Hn.
  - destruct Hr as (sent & Hw & Ha). by apply (Hstop c1 sent).
Qed.

Lemma echo_replies_data (ms : list Message) : echo_replies (inr <$> (to_tt <$> ms)) = to_tt <$> ms.
Proof. induction ms as [|[] ms IH]; [done|..]; cbn; f_equal; exact IH. Qed.

(** C27: the echo server answers everything.  Its task returns once the stream of its
    connection has ended; by then it has written, in order, the messages it got, with
    the answers to pings between them and to a close frame at the end, and a close
    frame; nothing else, and everything of it unless a send failed.  So messages come
    back exactly as they were sent. *)
Theorem echo_server_answers sink c rounds :
  (length (inbox c) < rounds)%nat ->
  exists c' sent tail,
    run (echo_task (WebSocketConnection0 := native_connection sink) rounds) c = (c', Some tt)
    /\ tt_wire c' = tt_wire c ++ sent ++ tail /\ answered sink (echo_replies (inbox c)) sent /\ closing_tail sink tail
    /\ forall ms, inbox c = inr <$> (to_tt <$> ms) -> never_fails sink ->
         tt_wire c' = tt_wire c ++ (to_tt <$> ms) ++ [TtClose None].
Proof.
  intros Hlen. destruct (echo_task_runs sink rounds c Hlen) as (c' & sent & tail & Hrun & Hw & Ha & Hc).
  exists c', sent, tail. split_and!; [done..|]. intros ms Hms Hs.
  rewrite Hw, (proj2 Ha Hs), (proj2 Hc Hs), Hms. by rewrite echo_replies_data.
Qed.

Lemma echo_server_answers_witness :
  let sink := fun _ _ => None in
  let c := mkTtConn [inr (TtText "hello"); inr (TtPing [x01]); inr (TtBinary [x02]); inr (TtClose None)] [] None in
  echo_replies (inbox c) = [TtText "hello"; TtPong [x01]; TtBinary [x02]; TtClose None]
  /\ exists c' sent tail,
    run (echo_task (WebSocketConnection0 := native_connection sink) 5) c = (c', Some tt)
    /\ tt_wire c' = tt_wire c ++ sent ++ tail /\ answered sink (echo_replies (inbox c)) sent /\ closing_tail sink tail
    /\ forall ms, inbox c = inr <$> (to_tt <$> ms) -> never_fails sink ->
         tt_wire c' = tt_wire c ++ (to_tt <$> ms) ++ [TtClose None].
Proof. split; [reflexivity|]. apply echo_server_answers. simpl. lia. Defined.

(** ** A client and the echo server *)

(** What the server wrote for the client's message is what the client reads. *)
Lemma echo_client_gets_it_back msg :
  let ok := native_connection (fun _ _ => None) in
  let server := (run (echo_task (WebSocketConnection0 := ok) 2) (mkTtConn [inr (to_tt msg)] [] None)).1 in
  (run (echo_client (WebSocketConnection0 := ok) msg) (mkTtConn (inr <$> tt_wire server) [] None)).2 = Some (Ok msg).
Proof. by destruct msg. Qed.

(** ** The test server *)

(** What the default endpoint sends back: every message before a close frame. *)
Fixpoint returned (items : list tt_item) : list TtMessage :=
  match items with
  | inr (TtClose _) :: _ | inl _ :: _ | [] => []
  | inr m :: items => m :: returned items
  end.

Lemma send_each_ok ms : forall c,
  send_each (fun _ _ => None) ms c = (mkTtConn (inbox c) (tt_wire c ++ ms) (close_frame c), Ok tt).
Proof.
  induction ms as [|m ms IH]; intros c; simpl; [by destruct c; simpl; rewrite app_nil_r|].
  rewrite IH. simpl. by rewrite <- app_assoc.
Qed.

Lemma echo_raw_returns items : forall c,
  tt_wire (echo_raw (fun _ _ => None) items c).1 = tt_wire c ++ returned items.
Proof.
  induction items as [|[e|m] items IH]; intros c; simpl; [by rewrite app_nil_r..|].
  destruct m; simpl; rewrite ?IH; simpl; rewrite <- ?app_assoc, ?app_nil_r; done.
Qed.

(** The 256 messages of the overflow endpoint are more than a browser connection that
    nobody reads can hold: it queues the first ones (as many as the reference channel
    has shared slots), then closes the socket. *)
Section Overflow.
#[local] Existing Instance usize32.

Definition js_of (m : TtMessage) : option JsData :=
  match m with TtText s => Some (JsString s) | TtBinary b => Some (JsArrayBuffer b) | _ => None end.
(** Message events reach the live callback of a socket that is open. *)
Definition receive (c : BConn fview) (m : TtMessage) : BConn fview :=
  match ready (b_ws c), js_of m with OPEN, Some d => on_message_event d c | _, _ => c end.
Definition open_socket : WebSocket := mkWebSocket OPEN None None None None 0 [].
Definition idle_browser : BConn fview :=
  install (connect_start open_socket WebSocketLimits_default).

Lemma overflow_closes_the_browser :
  let wire := tt_wire (handle_websocket (fun _ _ => None) "/overflow" (mkTtConn [] [] None)).1 in
  let c := foldl receive idle_browser wire in
  length wire = 257%nat /\ ready (b_ws c) = CLOSING
  /\ Forall2 (fun r m => r = Ok (Binary m)) (h_accepted c) (to_be_bytes16 <$> seqZ 0 64).
Proof. cbv zeta. split; [vm_compute; reflexivity|]. split; [vm_compute; reflexivity|]. vm_compute. repeat constructor. Qed.
End Overflow.
