(* ===== verification/MuxEcho.v ===== *)
(** * The mux echo programs

    The streams of the echo servers ([websock-mux/examples/echo-server-mux.rs] and
    [websock-browser-test-server/src/main.rs]) and of the echo clients
    ([websock-mux/examples/echo-client-mux.rs], [websock-wasm-demo/src/echo_mux.rs]),
    written against the interface of [MuxApi].  Reading leaves the send side alone
    ([MuxReadQuiet], discharged by both sessions); then what an echo task sends is
    what it read, and its peer reads exactly that. *)

From S2P Require Import Prelude Buf VarInt Frame Proto Limits SendFlow Channel Async NativeState.
From S2P Require Import NativeOps NativeStream NativeRecv NativeSession FuturesChannel.
From S2P Require Import WasmState WasmOps WasmStreams WasmSession ByteStream NativeReads WasmReads Rely MuxApi ConnApi.
Open Scope mux_scope.

(** ** The programs *)
Section Programs.
Context {S H R : Type} `{!MuxSendStream S H, !MuxRecvStream S R, !MuxSession S H R}.

(** The loop of a stream: what it read, and whether every write succeeded; [rounds]
    bounds the chunks it takes. *)
Fixpoint echo_copy (rounds : nat) (h : H) (r : R) (max : Z) : @prog S (list byte * bool) :=
  match rounds with
  | O => never
  | Datatypes.S rounds =>
      let* x := mux_read_chunk r max in
      match x with
      | Ok (Some chunk) =>
          let* sent := mux_write_buf h chunk in
          if is_ok sent then
            let* y := echo_copy rounds h r max in Ret (chunk ++ y.1, y.2)
          else Ret (chunk, false)
      | _ => Ret ([], true)
      end
  end.

(** The task the example server spawns for a stream: it finishes in any case. *)
Definition echo_stream (rounds : nat) (h : H) (r : R) : @prog S (list byte * bool * result unit) :=
  let* x := echo_copy rounds h r 1024 in
  let* f := mux_finish h in
  Ret (x, f).

(** The task of the test server: the streams of a session, one after the other, until
    something fails.  [streams] bounds their number. *)
Fixpoint echo_session (streams rounds : nat) : @prog S unit :=
  match streams with
  | O => never
  | Datatypes.S streams =>
      let* x := mux_accept_bi in
      match x with
      | Ok (h, r) =>
          let* y := echo_copy rounds h r (16 * 1024) in
          if y.2 then
            let* f := mux_finish h in
            if is_ok f then echo_session streams rounds else Ret tt
          else Ret tt
      | _ => Ret tt
      end
  end.

(** The client of the example: what it reads after its message. *)
Fixpoint read_to_end (rounds : nat) (r : R) (max : Z) : @prog S (result (list byte)) :=
  match rounds with
  | O => never
  | Datatypes.S rounds =>
      let? x := mux_read_chunk r max in
      match x with
      | Some chunk => let? rest := read_to_end rounds r max in Ret (Ok (chunk ++ rest))
      | None => Ret (Ok [])
      end
  end.
Definition echo_mux_client (rounds : nat) (msg : list byte) : @prog S (result (list byte)) :=
  let? p := mux_open_bi in
  let? _ := send_message p.1 msg in
  read_to_end rounds p.2 1024.
End Programs.

(** ** Reading leaves the send side alone *)
Section Quiet.
Context {S H : Type} `{!MuxSendGhost S H}.

(** [p] neither writes on the stream of [h] nor ends it. *)
Definition quiet {A} (h : H) (p : @prog S A) : Prop :=
  forall F b, triple (others h) (stands h F b) p (fun _ => stands h F b).
(** A step that keeps the history and the state of the handles. *)
Definition apart (h : H) (s s' : S) : Prop := mux_sent h s' = mux_sent h s /\ mux_ended h s' = mux_ended h s.

Lemma quiet_ret {A} h (a : A) : quiet h (Ret a).
Proof. intros F b. by apply triple_ret. Qed.
Lemma quiet_bind {A B} h (p : @prog S A) (k : A -> @prog S B) :
  quiet h p -> (forall a, quiet h (k a)) -> quiet h (pbind p k).
Proof. intros Hp Hk F b. eapply triple_bind; [apply Hp|]. intros a. apply Hk. Qed.
Lemma apart_stands h F b s s' : apart h s s' -> stands h F b s -> stands h F b s'.
Proof. intros [E1 E2] [E3 E4]. split; congruence. Qed.
Lemma quiet_act {A} h (f : S -> S * A) : (forall s, apart h s (f s).1) -> quiet h (atomic f).
Proof. intros Hf F b. apply quiet_atomic. intros s. by apply apart_stands. Qed.
Lemma quiet_await {A} h (f : S -> option (S * A)) :
  (forall s s' a, f s = Some (s', a) -> apart h s s') -> quiet h (await f).
Proof.
  intros Hf F b. apply triple_await; [apply stands_stable|]. intros s s' a Hs E. eapply apart_stands; [by eapply Hf|done].
Qed.
End Quiet.

Class MuxReadQuiet (S H R : Type) `{!MuxRecvStream S R, !MuxSendGhost S H} : Prop := {
  law_read_quiet h r max : quiet (S := S) (H := H) h (mux_read_chunk (R := R) r max)
}.

Ltac qgo tac :=
  lazymatch goal with
  | |- quiet _ (Ret _) => apply quiet_ret
  | |- quiet _ (pbind _ _) => apply quiet_bind; [qgo tac|intros ?; qgo tac]
  | |- quiet _ (if ?b then _ else _) => destruct b; qgo tac
  | |- quiet _ (match ?x with _ => _ end) => destruct x; qgo tac
  | |- quiet _ (gets _) => by apply quiet_act
  | |- quiet _ (modify _) => by apply quiet_act
  | |- _ => tac
  end.

Section NativeQuiet.
Context {chan : Type -> Type} `{Mpsc chan}.

Lemma quiet_request_shutdown (h : SendStream) : quiet (S := SessionInner chan) h request_shutdown.
Proof. unfold request_shutdown. qgo idtac. Qed.

Lemma quiet_consumed (h : SendStream) r n : quiet (S := SessionInner chan) h (on_bytes_consumed r n).
Proof.
  unfold on_bytes_consumed, queue_credit_opt, queue_credit. qgo ltac:(try apply quiet_request_shutdown).
  - by apply quiet_act.
  - apply quiet_act. intros s. unfold queue_credit_locked. by repeat case_match.
Qed.

#[global] Instance native_read_quiet : MuxReadQuiet (SessionInner chan) SendStream RecvStream.
Proof.
  split. intros h r max. simpl. unfold read_chunk, deliver_pending, recv_event.
  qgo ltac:(try apply quiet_consumed).
  - by apply quiet_act.
  - apply quiet_await. intros s s' x. repeat case_match; intros [= <- <-]; done.
Qed.
End NativeQuiet.

Section WasmQuiet.
Context {fchan : Type -> Type} `{FMpsc fchan}.
Implicit Types (s : WasmSession fchan) (h : wasm_SendStream).

Lemma apart_trans h s s1 s2 : apart h s s1 -> apart h s1 s2 -> apart h s s2.
Proof. intros [E1 E2] [E3 E4]. split; congruence. Qed.

Lemma apart_consumed h r n s : apart h s (wasm_on_bytes_consumed r n s).1.
Proof.
  unfold wasm_on_bytes_consumed, w_with_cell, mbind, wst_bind, mret, wst_ret. case_match; [|done].
  unfold wasm_queue_credit, wasm_request_shutdown, wmod. repeat (case_match; simpl); done.
Qed.

Lemma apart_deliver h r room s : apart h s (w_deliver_pending r room s).1.
Proof.
  unfold w_deliver_pending, mbind, wst_bind. destruct (w_with_cell r _ s) as [s1 out] eqn:E.
  pose proof (apart_consumed h r (blen out) s1) as Ha. destruct (wasm_on_bytes_consumed r _ s1) as [s2 []].
  eapply apart_trans; [|exact Ha]. unfold w_with_cell in E. by injection E as <- _.
Qed.

Lemma apart_split h r max ev s : apart h s (w_split_event r max ev s).1.
Proof.
  unfold w_split_event, w_on_fin, w_set_finished, w_set_pending, wmod, mbind, wst_bind, mret, wst_ret.
  destruct ev as [[data fin]|]; [|done]. cbn [ev_data ev_fin].
  destruct fin; simpl; repeat (case_match; simplify_eq; simpl; try done);
    match goal with E : wasm_on_bytes_consumed ?r ?n ?x = _ |- _ =>
      pose proof (apart_consumed h r n x) as Ha; rewrite E in Ha; exact Ha end.
Qed.

#[global] Instance wasm_read_quiet : MuxReadQuiet (WasmSession fchan) wasm_SendStream RecvStream.
Proof.
  split. intros h r max. simpl. unfold wasm_read_chunk, w_next_event. qgo idtac.
  - apply quiet_act. intros s. apply apart_deliver.
  - apply quiet_await. intros s s' x. unfold w_poll_next. repeat case_match; intros [= <- <-]; simplify_eq; done.
  - apply quiet_act. intros s. apply apart_split.
Qed.
End WasmQuiet.

(** ** What an echo task sends *)
Section EchoLaws.
Context {S H R : Type} `{MuxSendLaws S H} `{!MuxRecvStream S R} `{!MuxReadQuiet S H R}.

Lemma never_triple {A} Rely (P : S -> Prop) (Q : A -> S -> Prop) : triple Rely P never Q.
Proof. intros s a s' _ He. by inversion He. Qed.

(** What a copy that wrote everything leaves: it sent what it read. *)
Definition copied (h : H) F (y : list byte * bool) (s : S) : Prop :=
  y.2 = true -> exists chunks, mjoin chunks = y.1 /\ stands h (F ++ ((., false) <$> chunks)) false s.

Lemma copied_more h F c1 y s : copied h (F ++ ((., false) <$> c1)) y s -> copied h F (mjoin c1 ++ y.1, y.2) s.
Proof.
  intros Hy Ht. destruct (Hy Ht) as (c2 & E & Hs). exists (c1 ++ c2).
  rewrite join_app, fmap_app, app_assoc. simpl. by rewrite E.
Qed.

Lemma echo_copy_law rounds (h : H) (r : R) max : forall F,
  triple (others h) (stands h F false) (echo_copy rounds h r max) (copied h F).
Proof.
  induction rounds as [|rounds IH]; intros F; cbn [echo_copy]; [apply never_triple|].
  eapply triple_bind; [apply law_read_quiet|]. intros x. cbn beta.
  assert (Hend : triple (others h) (stands h F false) (Ret ([], true)) (copied h F)).
  { apply triple_ret. intros s Hs _. exists []. simpl. by rewrite app_nil_r. }
  destruct x as [[chunk|]|e|]; [|exact Hend..].
  eapply triple_bind; [apply law_write|]. intros [[]|e|]; simpl; [|by apply triple_ret..].
  intros s a s' Hw (y & s1 & Hy & Hr)%completes_bind_inv. destruct (Hw eq_refl) as (c1 & <- & Hs).
  inversion Hr; subst. by apply copied_more, (IH _ s).
Qed.

(** The reading loop of the clients, run alone, drains the stream. *)
Lemma read_to_end_drains (X : recv_side S) (r : R) max :
  (forall s, rs_call X (CReadChunk max) s = match run (mux_read_chunk r max) s with (s', x) => (s', of_read x) end) ->
  forall fuel s d, drain X fuel (CReadChunk max) s = Some d -> (run (read_to_end fuel r max) s).2 = Some (Ok d).
Proof.
  intros Hcall. induction fuel as [|fuel IH]; intros s d; cbn [drain read_to_end]; [done|].
  rewrite Hcall. unfold bind_result at 1. rewrite run_bind.
  destruct (run (mux_read_chunk r max) s) as [s1 [[[chunk|]|e|]|]]; simpl; [|by intros [= <-]|done..].
  intros (rest & Hd & ->)%fmap_Some. unfold bind_result. rewrite run_bind. specialize (IH s1 rest Hd).
  destruct (run (read_to_end fuel r max) s1) as [s2 o]. simpl in *. by rewrite IH.
Qed.

(** C6: an echo stream returns what it got.  For every implementation of the mux
    interface: when the task of a stream has copied until its reads ended and has
    finished the stream, while other tasks of its session did anything but write on or
    end that stream, a peer that handles the stream's frames in the order they were
    queued reads exactly the bytes the task read, and then the end of the stream. *)
Theorem mux_echo_end_to_end {P : Type} (X : recv_side P) holds rounds (h : H) (r : R) s got s' p n ops call :
  mux_sent h s = [] -> mux_ended h s = Some false ->
  completes (others h) (echo_stream rounds h r) s (got, true, Ok tt) s' ->
  recv_laws X (mux_id h) holds -> holds p [] true n -> Forall rop_ok ops -> all_accepted X ops p = true ->
  sent_on (mux_id h) (peer_frames ops) = mux_sent h s' -> 0 < rcall_room call ->
  let '(p', _, returned) := deliver X (mux_id h) ops p in
  exists rest, got = returned ++ rest
    /\ exists calls, forall fuel, (calls <= fuel)%nat -> drain X fuel call p' = Some rest.
Proof.
  intros Hsent Hend Hex Hlaws Hp Hok Hacc Hwire Hcall.
  apply completes_bind_inv in Hex as ([got' ok] & s1 & Hcopy & Hex).
  apply completes_bind_inv in Hex as (f & s2 & Hfin & Hret). inversion Hret; subst.
  destruct (echo_copy_law rounds h r 1024 [] s (got, true) s1 (conj Hsent Hend) Hcopy eq_refl) as (chunks & E & Hs1). simpl in E. subst got.
  pose proof (law_finish h _ s1 (Ok tt) s' Hs1 Hfin eq_refl) as [Hfs _]. simpl in Hfs.
  eapply chunks_received; try done. by rewrite Hwire.
Qed.
End EchoLaws.

(** *** A native server echoes to a browser *)
Section Demo.
#[local] Existing Instance list_order.

(** The browser opened stream 0, granted credit, sent two chunks and ended the stream;
    the server accepted it. *)
Definition echo_setup : nprog cview (result (SendStream * RecvStream)) :=
  let* _ := handle_frame (OpenBi reads_id) in
  let* _ := handle_frame (MaxStreamData reads_id 100) in
  let* _ := handle_frame (Stream reads_id (as_bytes "hello ") false) in
  let* _ := handle_frame (Stream reads_id (as_bytes "mux") true) in
  accept_bi.
Definition echo_start : SessionInner cview :=
  (run echo_setup (SessionInner_new true Limits_default (channel 256) (channel 128) (channel 128))).1.
Definition echo_r : RecvStream := mkRecvStream reads_id 0.
Definition echo_end : SessionInner cview := (run (echo_stream 9 msg_h echo_r) echo_start).1.
Definition echo_ops : list rop := (Peer <$> out_log echo_end) ++ [Call (CRead 5)].

Lemma mux_echo_end_to_end_witness :
  (run (echo_stream 9 msg_h echo_r) echo_start).2 = Some (as_bytes "hello mux", true, Ok tt)
  /\ drain (wasm_side reads_h) 9 (CReadChunk 4) (deliver (wasm_side reads_h) reads_id echo_ops reads_s1).1.1
     = Some (as_bytes " mux")
  /\ let '(p', _, returned) := deliver (wasm_side reads_h) (mux_id (S := SessionInner cview) msg_h) echo_ops reads_s1 in
     exists rest, as_bytes "hello mux" = returned ++ rest
       /\ exists calls, forall fuel, (calls <= fuel)%nat ->
            drain (wasm_side reads_h) fuel (CReadChunk 4) p' = Some rest.
Proof.
  split; [vm_compute; reflexivity|]. split; [vm_compute; reflexivity|].
  apply (mux_echo_end_to_end (wasm_side reads_h) (wholds reads_id (rs_cell reads_h)) 9 msg_h echo_r
           echo_start (as_bytes "hello mux") echo_end reads_s1 0 echo_ops (CReadChunk 4)).
  - vm_compute. reflexivity.
  - vm_compute. reflexivity.
  - apply run_completes; [apply others_refl|]. vm_compute. reflexivity.
  - apply (wholds_register reads_id reads_start reads_table). discriminate.
  - apply (wholds_register reads_id reads_start reads_table). discriminate.
  - repeat constructor.
  - vm_compute. reflexivity.
  - vm_compute. reflexivity.
  - reflexivity.
Defined.
End Demo.
